(* ===== verification/_CoqProject ===== *)
-Q . S2P
Prelude.v
Limbs.v
Primes.v
Curve.v
Field25519.v
Scalar25519.v
Group25519.v
Tables25519.v
Base25519.v
ScalarMult25519.v
Ed25519.v
Base32.v
Types.v
Cache.v
CacheThreads.v
Storage.v
GoBytes.v
Ledger.v
LedgerFacts.v
Trie.v
TrieIter.v
TrieStore.v
Merkle.v
Target.v
Contract.v
Unchecked.v
Check.v
Address.v
Process.v
ProcessFacts.v
Supply.v
Unconfirmed.v
Weights.v
Chain.v
Progress.v
Rollback.v
RollbackFacts.v
Undo.v
Pov.v
PovFacts.v
PovStateDB.v
PovState.v
PovStateFacts.v
PovStore.v
PovChain.v
PovTree.v
PovChainFacts.v
PovRuns.v
PovProcessor.v
PovProcessorFacts.v
PovDelivery.v
PovEngine.v
Election.v
Processor.v
Handlers.v
ElectionFacts.v
Sample.v
TrieSample.v
ElectionSample.v
PovSample.v
PovChainSample.v
PovDeliverySample.v
PovStateSample.v
PovEngineSample.v
SignatureSample.v
