(* ===== verification/Prelude.v ===== *)
(** * A verification development of the go-qlc block-lattice node

    ** The program

    Every account of the QLC chain has one chain of blocks per token.  A send block
    takes coins from its account and leaves a pending transfer, which a receive or open
    block of the receiver consumes; a change block names another representative, who
    votes with the coins delegated to it; contract blocks run a built-in contract.  A
    node keeps the blocks and the tables derived from them in a key-value store behind a
    write cache ([ledger]), checks and processes blocks ([ledger/process]), and rolls
    blocks back that lose a fork.  Which block of a fork is kept is decided by elections
    among the representatives ([consensus/dpos]).  The blocks decided are packed into a
    second, mined chain, the proof-of-value chain ([consensus/pov]), which fixes their
    order and rewards miners.

    ** Files

    Signatures ([crypto/ed25519], bottom up):
    - [Limbs.v]: statements on arrays of limbs, their execution at a machine width and an
      interval analysis that proves the absence of overflow.
    - [Primes.v], [Curve.v]: the specification; [2^255 - 19] is prime, and the points of
      the curve form a commutative group.
    - [Field25519.v], [Scalar25519.v], [Group25519.v], [ScalarMult25519.v]:
      [internal/edwards25519/edwards25519.go]; [Tables25519.v]: [const.go]; [Base25519.v]:
      what the tables hold.
    - [Ed25519.v]: [ed25519.go]; keys, signing, verification.
    - [Base32.v]: [encoding/base32] of the Go library; [Address.v]:
      [common/types/address.go] and the accounts of [account.go].

    Data and storage:
    - [Prelude.v]: results of Go functions, the state and error monad, integers of a
      given width, lemmas on lists, options, maps and sums over maps.
    - [Types.v]: [common/types] and [common/util/math_integer.go]; balances, hashes,
      blocks with the bytes they are hashed from, account metas, pending transfers.
    - [Storage.v]: [common/storage/storage.go]; keys of the tables and their bytes.
    - [Cache.v]: [ledger/cache.go]; the ring of write caches in front of the store.
      [CacheThreads.v]: the same ring under goroutines; writers, flusher and a reader
      whose single reads and writes interleave.
    - [GoBytes.v]: [bytes.EqualFold] of the Go library.
    - [Ledger.v], [LedgerFacts.v]: the tables of [ledger/*.go] and their operations; a
      [Ledger] is the store, the ring and the smaller in-memory tables, an [LS] a ledger
      with the cache of a running [BatchUpdate].
    - [Unchecked.v]: [ledger/ledger_uncheck.go], [ledger_sync.go]; blocks that wait.

    Contracts:
    - [Trie.v], [TrieIter.v], [TrieStore.v]: [trie]; the Patricia trie for the data of a
      contract call, its iterator, and its records in the store.
    - [Contract.v]: [vm/contract/contract.go], [vm/vmstore/vm_store.go]; the interface of
      contracts, the registry and the storage of a call.

    Blocks:
    - [Check.v]: [ledger/process/ledger_check.go], [verifier.go]; all block checks.
    - [Process.v], [ProcessFacts.v]: [ledger_processor.go], [cache_processor.go].
    - [Rollback.v], [RollbackFacts.v], [Undo.v]: [ledger/process/rollback.go].
    - [Supply.v], [Weights.v], [Chain.v], [Progress.v], [Unconfirmed.v]: invariants of
      the ledger under accepted blocks, one per file.

    Consensus:
    - [Election.v]: [consensus/dpos/votes.go], [election.go], [active_transactions.go];
      a node is a [DPoS], with the elections in a heap that the maps [roots] and
      [vote.hash] refer into.
    - [Processor.v]: [consensus/dpos/processor.go], [dpos_impl.go]; message handlers.
    - [Handlers.v], [ElectionFacts.v]: what the handlers keep, what elections decide.
    - [Merkle.v], [Target.v]: [common/merkle/merkle.go], [common/types/target.go].

    The mined chain ([consensus/pov]):
    - [Pov.v], [PovFacts.v]: [pov_verifier.go], [pov_pow.go] and the hashed forms of
      [common/types/block_pov.go]; the verifier sees the chain through the class [PovChain].
    - [PovStateDB.v]: [common/statedb/pov_statedb.go], [common/types/state_pov.go]; the
      global state over tries.  [PovState.v], [PovStateFacts.v]: [pov_state.go]; the
      transition of the state by the transactions of a block.
    - [PovStore.v]: the tables of [ledger/ledger_pov.go].  [PovChain.v]: [pov_chain.go];
      a [PovBlockChain] is the store, its open transaction, the head and the caches.
      [PovTree.v], [PovChainFacts.v], [PovRuns.v]: the tree of blocks, one insertion, and
      runs of insertions and restarts.
    - [PovProcessor.v]: [pov_processor.go]; queues, orphans and blocks that wait for
      transactions, over the class [ProcessorChain] of what the processor calls.
      [PovProcessorFacts.v], [PovDelivery.v]: its handlers and its runs, proved against
      the promises [ChainPromise].
    - [PovEngine.v]: [pov_impl.go]; processor, verifier, state and chain put together, and
      the promises proved of them.

    Evaluation: [Sample.v], [TrieSample.v], [ElectionSample.v], [PovSample.v],
    [PovChainSample.v], [PovDeliverySample.v], [PovStateSample.v], [PovEngineSample.v],
    [SignatureSample.v] instantiate the parameters and apply the theorems to concrete
    ledgers, tries, elections, proof-of-value chains and nodes, keys and signatures.

    ** How the code is translated

    A Go function that returns an error is a function into [res]; one that changes a
    ledger or a node is a run of the monad [M], whose state also comes back with an
    error, as the changes made before the error do.  A panic is a value of its own.
    Balances are big integers with the 64-bit truncation of the source; sums over weights,
    time stamps and heights wrap at their width.  Maps whose iteration order Go does not
    specify are iterated in an order the theorems quantify over, or that they show to be
    irrelevant.  A handler of the consensus and a call of [BlockProcess] are one step:
    the locks of the source serialize them per representative or per election.  In
    [CacheThreads.v] the writers of the write cache, its flusher and a lookup interleave
    step by step, down to the single put and probe; the caches themselves are finite maps
    without the capacity of 100,000 entries of the source.  The block count of a chain is
    unbounded.  Handlers of the block processor of the mined chain are one step each, and a send on a full queue is an
    error; a waiting block that two tables share lives in a heap.

    Code outside the repository is a parameter: digests ([Crypto], and [blake2b512],
    [blake2b40] for signatures and addresses), case folding ([Unicode]), the generated code that serializes trie nodes ([TrieCodec], with
    its round trip as the law [TrieCodecLaws]) and states ([StateCodec]), and the caches of
    the mined chain ([Gcache], with [GcacheLaws]).  Parts of the repository that a modelled
    part only sees through an interface are parameters too: network constants ([Config]),
    signature verification ([Crypto], which [Address.ed25519Crypto] implements with the
    signatures of the repository), registered contracts ([Node]), the number of processors and the decoders of contract
    arguments ([Consensus]), what contracts do with their storage in the mined chain
    ([PovHooks]), the reader of the mined chain, its state and the hash functions of its
    miners ([PovChain], which [PovEngine.readerOf] implements with the chain and the state).
    Clocks, coins and iteration orders are arguments.

    Field elements and scalars are lists of limbs, points are records of them, at the
    widths of the source.  The numbers behind them are those of [Stdlib.Zmod]; the
    primality certificate and the comparison of the tables with recomputed multiples run
    in the machine integers of [Bignums], whose primitives the kernel lists as axioms.

    ** What the theorems show

    - Signatures: no operation on limbs overflows; multiplication, inversion, reduction
      and encoding are those of the field, of the scalars and of the curve; both scalar
      multiplications are those of the group; [Verify] decides the verification equation
      and accepts what [Sign] makes, and the blocks an account signs pass the signature
      check of the ledger.  A signature can be changed into a second valid one.
    - Addresses: the text of an address is parsed back; which other texts are accepted,
      and one that makes the parser panic.
    - Storage: distinct records have distinct keys; the ring with the store behind it
      implements one finite map under updates, flushes, closing and rebuilding.  A lookup
      among goroutines returns a value its key had while the lookup ran, as long as no
      cache is rotated away from a writer at work; an example shows a finished write
      that is lost when this happens, which the code does not exclude.
    - Checks: each kind of plain block is accepted exactly under the stated conditions.
    - Ledger: accepted regular blocks (plain blocks with a balance of 64 bits, of accounts
      that have a chain unless they open one) conserve the supply of every
      token and keep the weights of representatives equal to what is delegated; frontiers
      are the heads of the chains; an accepted block is processed without error; a
      rollback right after processing restores the tables.  Each theorem names the
      conditions the code needs, and the files show what happens without them: coins
      minted by a foreign predecessor or a balance over 64 bits, rollbacks that fail or
      lose delegations and coins.
    - Tries: insertion terminates and implements insertion into a map; the root hash does
      not depend on the order; lookup, iteration, saving and loading agree with the map,
      also when the store already has some of the subtrees.
      Leaf hashes that forget the kind of the leaf show where this ends.
    - Waiting blocks: the first block under a hash is kept; giving up a block terminates.
    - Elections: the maps and the elections stay consistent in any run of the handlers;
      at most one candidate has the quorum, and it is the one that is confirmed; two
      nodes that confirm rivals have a representative in common that voted for both.
    - Proof of value, verification: an accepted block meets all the rules of the chain;
      the target moves within bounds and survives its compact form; miner and verifier
      agree on the Merkle root; a malformed auxiliary header makes the verifier panic.
    - Proof of value, chain: after any insertions, forks and restarts the index of the
      best chain is the branch of the heaviest block, the lookups are the transactions of
      that branch, and the events lead listeners along it; an insertion fails only for a
      fork that is too deep.  Inserted blocks are admissible: they continue a stored block,
      their target is in range and a hash names one block.  That every transaction of the
      branch has a lookup also needs that no branch repeats one, which the verifier does
      not ensure for the transactions of contract addresses.
    - Proof of value, state: weights of representatives are what accounts delegate, up to
      online blocks that name another representative: whatever the account holds is then
      taken from a representative that never got it and given to another one twice.
    - Proof of value, processor: no handler runs forever; the tables agree; blocks are
      stored in whatever order they arrive within the lifetime of an orphan; a block that
      waits is queued again when its last missing transaction arrives; with the verifier, the state and the chain of
      the repository a node follows the heaviest chain of verified blocks.

    ** Bounds

    Loops that are not structural take fuel.  A fallible run that is cut off is
    [OutOfFuel], an error no source function returns.
    - [setFuel], the length of the key and two: insertion descends at least one byte of
      the key per level, apart from the last two ([Trie.setValue_terminates]).
    - [nextFuel], [drainFuel], the nodes in the queues: every step of the iterator takes
      one out ([TrieIter.iterate_complete]).
    - [uncheckedFuel], the records of the store: a level of [RollbackUnchecked] deletes one
      ([Unchecked.RollbackUnchecked_terminates]).
    - [trieFuel], the records of the ledger: a longer path in a trie repeats a record.
    - [chainFuel], [gatherFuel], the records of the ledger and the queue beside it: a
      longer walk along a chain repeats a block and does not end in the source either.
    - [findAncestor], the height of the header: heights decrease along the mined chain.
    - [PovChain.findForkPoint], the height of the block: both branches lose a block per
      turn and meet at the genesis block at the latest ([PovChainFacts.fork_search]).
    - [locatorLoop], [findAncestorLoop], the height of the header.
    - [processDeOrphans], [orphanRootLoop], the orphans: each turn consumes one, or the
      walk would repeat a hash ([PovDelivery.handlers_return]).
    - [branchLoop] and [broadcastSlices], the length of a list that every round shortens.

    ** Not modelled

    - The bodies of the contracts ([vm/contract/*.go]) and their ABI: values of the
      registry here.
    - The pool of transactions, synchronization and day statistics of the mined chain
      ([pov_txpool.go], [pov_sync.go], parts of [pov_chain.go]): the pool and the peers
      only bring blocks and transactions to the handlers, statistics are not read by them.
    - Goroutines and channels that feed the handlers, the confirmation of synchronized
      chains, online statistics, the vote cache ([consensus/dpos]).
    - The SQL mirror, migrations and dumps of the ledger, counters and full scans.
    - Network, RPC, wallet storage, services, miner, privacy, monitoring, commands: input and
      output around the parts above, and generated code. *)

From Stdlib Require Export ZArith Lia.
From stdpp Require Export base tactics numbers list gmap fin_maps strings option.

Open Scope Z_scope.
#[export] Set Warnings "-clear-no-such-hyp".

(** ** Go results

    A Go function that returns [(T, error)] is a function into [res T]: [Ok] for
    a nil error, [Err] for a non-nil one, and [Panic] for a run-time panic (a nil
    dereference, a failed type assertion).  Errors compared by identity in the
    source are constructors; errors built by [errors.New] or [fmt.Errorf] at the
    place of the failure are [Errorf] with their format string. *)
Inductive error : Type :=
| KeyNotFound
| ErrKeyDeleted
| ErrKeyNotInCache
| ErrBlockExists
| ErrBlockNotFound
| ErrAccountExists
| ErrAccountNotFound
| ErrTokenExists
| ErrTokenNotFound
| ErrPendingNotFound
| ErrFrontierNotFound
| ErrRepresentationNotFound
| ErrLinkNotFound
| ErrStorageNotFound
| ErrUncheckedBlockExists
| ErrUncheckedBlockNotFound
| OutOfFuel (* no Go error: a loop of the model was cut off *)
| Errorf (msg : string).

#[global] Instance error_eq_dec : EqDecision error.
Proof. solve_decision. Defined.

Inductive res (A : Type) : Type :=
| Ok (a : A)
| Err (e : error)
| Panic.
Arguments Ok {A} a.
Arguments Err {A} e.
Arguments Panic {A}.

#[global] Instance res_ret : MRet res := @Ok.
#[global] Instance res_bind : MBind res := λ A B f m,
  match m with Ok a => f a | Err e => Err e | Panic => Panic end.

(** [if err != nil { return fmt.Errorf(msg, err) }]. *)
Definition wrapErr {A} (msg : string) (m : res A) : res A :=
  match m with Ok a => Ok a | Err _ => Err (Errorf msg) | Panic => Panic end.

Definition isOk {A} (m : res A) : bool :=
  match m with Ok _ => true | _ => false end.

(** Code that mutates shared state keeps the mutations made before an error, so
    the state is returned with every outcome. *)
Definition M (S A : Type) : Type := S → res A * S.

#[global] Instance M_ret {S} : MRet (M S) := λ A a s, (Ok a, s).
#[global] Instance M_bind {S} : MBind (M S) := λ A B f m s,
  match m s with
  | (Ok a, s1) => f a s1
  | (Err e, s1) => (Err e, s1)
  | (Panic, s1) => (Panic, s1)
  end.

Definition liftR {S A} (r : res A) : M S A := λ s, (r, s).
Definition getS {S} : M S S := λ s, (Ok s, s).
Definition putS {S} (s : S) : M S unit := λ _, (Ok tt, s).
Definition modifyS {S} (f : S → S) : M S unit := λ s, (Ok tt, f s).
Definition readS {S A} (f : S → res A) : M S A := λ s, (f s, s).
Definition failS {S A} (e : error) : M S A := λ s, (Err e, s).
Definition wrapM {S A} (msg : string) (m : M S A) : M S A := λ s,
  match m s with
  | (Ok a, s1) => (Ok a, s1)
  | (Err _, s1) => (Err (Errorf msg), s1)
  | (Panic, s1) => (Panic, s1)
  end.

(** [res] observed inside the state monad: a call whose error the caller
    inspects instead of returning. *)
Definition tryS {S A} (m : M S A) : M S (res A) := λ s,
  let '(r, s1) := m s in
  match r with Panic => (Panic, s1) | _ => (Ok r, s1) end.

(** ** Machine integers *)
Definition u64 (x : Z) : Z := x mod 2 ^ 64.
Definition u32 (x : Z) : Z := x mod 2 ^ 32.
Definition MaxUint64 : Z := 2 ^ 64 - 1.

(** Two's complement reading of the low 64 bits. *)
Definition i64 (x : Z) : Z :=
  let y := x mod 2 ^ 64 in if y <? 2 ^ 63 then y else y - 2 ^ 64.

(** ** Bytes

    A byte is a [Z] in [0, 256). *)
Definition is_byte (b : Z) : Prop := 0 ≤ b < 256.

(** Big-endian encoding on exactly [n] bytes (the low [8 * n] bits). *)
Fixpoint be_bytes (n : nat) (z : Z) : list Z :=
  match n with
  | O => []
  | S n' => be_bytes n' (z / 256) ++ [z mod 256]
  end.

(** Little-endian encoding on exactly [n] bytes. *)
Fixpoint le_bytes (n : nat) (z : Z) : list Z :=
  match n with
  | O => []
  | S n' => z mod 256 :: le_bytes n' (z / 256)
  end.

Definition be_combine (bs : list Z) : Z := foldl (λ acc b, acc * 256 + b) 0 bs.

Fixpoint le_combine (bs : list Z) : Z :=
  match bs with
  | [] => 0
  | b :: bs' => b + 256 * le_combine bs'
  end.

(** [copy(dst, src)] into a buffer of [n] zero bytes. *)
Definition copyInto (n : nat) (src : list Z) : list Z := take n (src ++ replicate n 0).

(** Number of bytes of [big.Int.Bytes]: the minimal big-endian encoding of the
    absolute value, empty for zero. *)
Definition byte_len (z : Z) : nat :=
  match Z.abs z with
  | 0 => O
  | a => Z.to_nat (Z.log2 a / 8 + 1)
  end.

Definition big_bytes (z : Z) : list Z := be_bytes (byte_len z) (Z.abs z).

(** [bytes.HasPrefix]. *)
Fixpoint has_prefix (bs p : list Z) : bool :=
  match p, bs with
  | [], _ => true
  | x :: p', y :: bs' => (x =? y) && has_prefix bs' p'
  | _ :: _, [] => false
  end.

(** ** Lemmas on the monads *)
Lemma res_bind_Ok {A B} (m : res A) (f : A → res B) b :
  (m ≫= f) = Ok b → ∃ a, m = Ok a ∧ f a = Ok b.
Proof. destruct m; cbn; intros; simplify_eq; eauto. Qed.

Lemma wrapErr_Ok {A} msg (m : res A) a : wrapErr msg m = Ok a → m = Ok a.
Proof. destruct m; cbn; intros; simplify_eq; eauto. Qed.

(** Two statements about the value of one call. *)
Lemma ex_Ok_and {A} (r : res A) (P Q : A → Prop) :
  ((∃ a, r = Ok a ∧ P a) ∧ (∃ a, r = Ok a ∧ Q a)) ↔ ∃ a, r = Ok a ∧ P a ∧ Q a.
Proof.
  split; [|naive_solver].
  intros [(a & Ha & ?) (a' & Ha' & ?)]. rewrite Ha in Ha'. injection Ha' as <-. eauto.
Qed.

Lemma M_bind_Ok {S A B} (m : M S A) (f : A → M S B) s b s' :
  (m ≫= f) s = (Ok b, s') → ∃ a s1, m s = (Ok a, s1) ∧ f a s1 = (Ok b, s').
Proof.
  unfold mbind, M_bind. destruct (m s) as [[a| |] s1]; intros; simplify_eq; eauto.
Qed.

Lemma wrapM_Ok {S A} msg (m : M S A) s a s' :
  wrapM msg m s = (Ok a, s') → m s = (Ok a, s').
Proof. unfold wrapM. destruct (m s) as [[x| |] s1]; intros; simplify_eq; eauto. Qed.

Lemma liftR_Ok {S A} (r : res A) (s s' : S) a :
  liftR r s = (Ok a, s') → r = Ok a ∧ s' = s.
Proof. unfold liftR. intros; simplify_eq; eauto. Qed.

Lemma readS_Ok {S A} (f : S → res A) (s s' : S) a :
  readS f s = (Ok a, s') → f s = Ok a ∧ s' = s.
Proof. unfold readS. intros; simplify_eq; eauto. Qed.

(** ** Runs that return a result, runs that keep a property of the state *)
Definition succeeds {S A} (m : M S A) (s : S) : Prop := ∃ a s', m s = (Ok a, s').

Lemma succeeds_bind {S A B} (m : M S A) (f : A → M S B) s :
  succeeds m s → (∀ a s1, m s = (Ok a, s1) → succeeds (f a) s1) → succeeds (m ≫= f) s.
Proof.
  intros (a & s1 & Hm) Hf. destruct (Hf a s1 Hm) as (b & s2 & Hb). exists b, s2.
  unfold mbind, M_bind. by rewrite Hm.
Qed.

Lemma succeeds_wrapM {S A} msg (m : M S A) s : succeeds m s → succeeds (wrapM msg m) s.
Proof. intros (a & s1 & Hm). exists a, s1. unfold wrapM. by rewrite Hm. Qed.

Lemma succeeds_pure {S A} (m : M S A) s a s' : m s = (Ok a, s') → succeeds m s.
Proof. unfold succeeds. eauto. Qed.

Definition keeps {S A} (P : S → Prop) (m : M S A) : Prop := ∀ s r s', P s → m s = (r, s') → P s'.

Section keeps.
Context {S : Type} (P : S → Prop).

Lemma keeps_bind {A B} (m : M S A) (f : A → M S B) :
  keeps P m → (∀ a, keeps P (f a)) → keeps P (m ≫= f).
Proof.
  intros Hm Hf s r s' Hs. unfold mbind, M_bind. destruct (m s) as [[a|e|] s1] eqn:E; intros Hr.
  - by eapply Hf; [eapply Hm|].
  - simplify_eq. by eapply Hm.
  - simplify_eq. by eapply Hm.
Qed.

Lemma keeps_ret {A} (a : A) : keeps P (mret a : M S A).
Proof. intros s r s' Hs [= <- <-]. done. Qed.

Lemma keeps_liftR {A} (x : res A) : keeps P (liftR x : M S A).
Proof. intros s r s' Hs [= <- <-]. done. Qed.

Lemma keeps_failS {A} e : keeps P (failS e : M S A).
Proof. intros s r s' Hs [= <- <-]. done. Qed.

Lemma keeps_getS : keeps P (getS : M S S).
Proof. intros s r s' Hs [= <- <-]. done. Qed.

Lemma keeps_readS {A} (g : S → res A) : keeps P (readS g).
Proof. intros s r s' Hs [= <- <-]. done. Qed.

Lemma keeps_wrapM {A} msg (m : M S A) : keeps P m → keeps P (wrapM msg m).
Proof.
  intros Hm s r s' Hs. unfold wrapM. destruct (m s) as [[a|e|] s1] eqn:E; intros; simplify_eq; by eapply Hm.
Qed.
End keeps.

Create HintDb keeps.
#[export] Hint Resolve keeps_bind keeps_ret keeps_liftR keeps_failS keeps_getS keeps_readS keeps_wrapM : keeps.

(** Invert a successful monadic run, one bind at a time. *)
Ltac inv_m :=
  repeat match goal with
  | H : (_ ≫= _) _ = (Ok _, _) |- _ =>
      apply M_bind_Ok in H as (? & ? & ? & H)
  | H : (_ ≫= _) = Ok _ |- _ => apply res_bind_Ok in H as (? & ? & H)
  | H : wrapM _ _ _ = (Ok _, _) |- _ => apply wrapM_Ok in H
  | H : wrapErr _ _ = Ok _ |- _ => apply wrapErr_Ok in H
  | H : liftR _ _ = (Ok _, _) |- _ => apply liftR_Ok in H as [H ?]
  | H : readS _ _ = (Ok _, _) |- _ => apply readS_Ok in H as [H ?]
  | H : failS _ _ = (Ok _, _) |- _ => discriminate H
  | H : Err _ = Ok _ |- _ => discriminate H
  | H : Panic = Ok _ |- _ => discriminate H
  end; simplify_eq.

(** Linear arithmetic with division and modulo by constants. *)
Ltac dlia := Z.to_euclidean_division_equations; lia.

(** ** Lemmas on bytes *)
Lemma length_be_bytes n z : length (be_bytes n z) = n.
Proof. revert z. induction n as [|n IH]; intros z; [done|]. cbn. rewrite length_app, IH. cbn. lia. Qed.

Lemma length_le_bytes n z : length (le_bytes n z) = n.
Proof. revert z. induction n as [|n IH]; intros z; [done|]. cbn. by rewrite IH. Qed.

Lemma copyInto_take n l : (n ≤ length l)%nat → copyInto n l = take n l.
Proof. intros Hl. unfold copyInto. by rewrite take_app_le. Qed.

Lemma be_bytes_byte n z : Forall is_byte (be_bytes n z).
Proof.
  revert z. induction n as [|n IH]; intros z; cbn; [constructor|].
  apply Forall_app; split; [apply IH|]. constructor; [|constructor].
  unfold is_byte. pose proof (Z.mod_pos_bound z 256). lia.
Qed.

Lemma be_combine_app bs1 bs2 :
  be_combine (bs1 ++ bs2) = be_combine bs1 * 256 ^ Z.of_nat (length bs2) + be_combine bs2.
Proof.
  unfold be_combine. rewrite foldl_app. generalize (foldl (λ acc b, acc * 256 + b) 0 bs1) as a.
  induction bs2 as [|b bs2 IH] using rev_ind; intros a; [cbn; lia|].
  rewrite !foldl_app; cbn. rewrite IH, length_app; cbn.
  rewrite Nat2Z.inj_add, Z.pow_add_r by lia. change (256 ^ Z.of_nat 1) with 256. lia.
Qed.

Lemma be_combine_be_bytes n z : be_combine (be_bytes n z) = z mod 256 ^ Z.of_nat n.
Proof.
  revert z. induction n as [|n IH]; intros z.
  - change (256 ^ Z.of_nat 0) with 1. by rewrite Z.mod_1_r.
  - cbn [be_bytes]. rewrite be_combine_app, IH. cbn [length].
    change (be_combine [z mod 256]) with (z mod 256). change (256 ^ Z.of_nat 1) with 256.
    rewrite Nat2Z.inj_succ, Z.pow_succ_r by lia.
    rewrite Z.rem_mul_r by lia. lia.
Qed.

Lemma be_bytes_inj n x y :
  0 ≤ x < 256 ^ Z.of_nat n → 0 ≤ y < 256 ^ Z.of_nat n → be_bytes n x = be_bytes n y → x = y.
Proof.
  intros Hx Hy Heq. apply (f_equal be_combine) in Heq.
  rewrite !be_combine_be_bytes, !Z.mod_small in Heq by lia. done.
Qed.

Lemma le_combine_le_bytes n z : le_combine (le_bytes n z) = z mod 256 ^ Z.of_nat n.
Proof.
  revert z. induction n as [|n IH]; intros z.
  - change (256 ^ Z.of_nat 0) with 1. by rewrite Z.mod_1_r.
  - cbn [le_bytes le_combine]. rewrite IH, Nat2Z.inj_succ, Z.pow_succ_r by lia.
    rewrite Z.rem_mul_r by lia. lia.
Qed.

Lemma byte_len_bound z : Z.abs z < 256 ^ Z.of_nat (byte_len z).
Proof.
  unfold byte_len. destruct (Z.abs z) as [|p|p] eqn:E; [done| |lia].
  pose proof (Z.log2_spec (Z.pos p)) as [_ Hlt]; [lia|].
  pose proof (Z.log2_nonneg (Z.pos p)).
  pose proof (Z.div_pos (Z.log2 (Z.pos p)) 8).
  rewrite Z2Nat.id by lia. change 256 with (2 ^ 8). rewrite <- Z.pow_mul_r by lia.
  eapply Z.lt_le_trans; [exact Hlt|]. apply Z.pow_le_mono_r; [lia|].
  pose proof (Z.mod_pos_bound (Z.log2 (Z.pos p)) 8). pose proof (Z.div_mod (Z.log2 (Z.pos p)) 8). lia.
Qed.

(** [SetBytes] after [Bytes] gives the absolute value back. *)
Lemma byte_len_snoc x y : 0 < x → 0 ≤ y < 256 → byte_len (x * 256 + y) = S (byte_len x).
Proof.
  intros Hx Hy. unfold byte_len. rewrite !Z.abs_eq by lia.
  assert (Hlog : Z.log2 (x * 256 + y) = Z.log2 x + 8).
  { pose proof (Z.log2_nonneg x). pose proof (Z.log2_spec x Hx) as [H1 H2].
    apply Z.log2_unique; [lia|]. rewrite Z.pow_succ_r in H2 by done.
    replace (Z.succ (Z.log2 x + 8)) with (Z.log2 x + 9) by lia. rewrite !Z.pow_add_r by lia. lia. }
  pose proof (Z.log2_nonneg x) as Hn.
  destruct (x * 256 + y) as [|p|p] eqn:E; [lia| |lia]. rewrite Hlog.
  destruct x as [|q|q]; [lia| |lia].
  replace (Z.log2 (Z.pos q) + 8) with (Z.log2 (Z.pos q) + 1 * 8) by lia. rewrite Z.div_add by lia.
  pose proof (Z.div_pos (Z.log2 (Z.pos q)) 8 Hn). lia.
Qed.

Lemma big_bytes_snoc x y : 0 < x → 0 ≤ y < 256 → big_bytes (x * 256 + y) = big_bytes x ++ [y].
Proof.
  intros Hx Hy. unfold big_bytes. rewrite byte_len_snoc by done. cbn [be_bytes].
  rewrite !Z.abs_eq, Z.div_add_l, Z.div_small by lia. rewrite Z.add_0_r. do 2 f_equal.
  rewrite Z.add_comm, Z.mod_add by lia. by apply Z.mod_small.
Qed.

Lemma be_combine_big_bytes z : be_combine (big_bytes z) = Z.abs z.
Proof.
  unfold big_bytes. rewrite be_combine_be_bytes, Z.mod_small; [done|].
  pose proof (byte_len_bound z). lia.
Qed.

(** ** Integer facts *)
Lemma u64_range x : 0 ≤ u64 x < 2 ^ 64.
Proof. apply Z.mod_pos_bound. lia. Qed.

Lemma u64_small x : 0 ≤ x < 2 ^ 64 → u64 x = x.
Proof. apply Z.mod_small. Qed.

Create HintDb qlc.
Create Rewrite HintDb qlc.
#[export] Hint Resolve u64_range : qlc.
#[export] Hint Rewrite @length_be_bytes @length_le_bytes : qlc.

(** ** Sums over finite maps

    [map_sum f m] adds [f k v] over the entries of [m]; the ledger's supply and
    delegated weights are sums of this shape. *)
Definition map_sum {K V} `{Countable K} (f : K → V → Z) (m : gmap K V) : Z :=
  map_fold (λ k v acc, f k v + acc) 0 m.

Section map_sum.
Context {K V : Type} `{Countable K}.
Implicit Types (f g : K → V → Z) (m : gmap K V).

Lemma map_sum_empty f : map_sum f (∅ : gmap K V) = 0.
Proof. apply map_fold_empty. Qed.

Lemma map_sum_insert_new f m k v :
  m !! k = None → map_sum f (<[k:=v]> m) = f k v + map_sum f m.
Proof.
  intros Hk. unfold map_sum. rewrite map_fold_insert_L; [done| |done].
  intros. lia.
Qed.

Lemma map_sum_delete f m k v :
  m !! k = Some v → map_sum f m = f k v + map_sum f (delete k m).
Proof.
  intros Hk. rewrite <- (insert_delete_id m k v) at 1 by done.
  apply map_sum_insert_new, lookup_delete_eq.
Qed.

(** The general update law, with an absent entry contributing zero. *)
Definition entry_sum f m k : Z := match m !! k with Some v => f k v | None => 0 end.

Lemma map_sum_delete_any f m k :
  map_sum f (delete k m) = map_sum f m - entry_sum f m k.
Proof.
  unfold entry_sum. destruct (m !! k) as [v|] eqn:E.
  - rewrite (map_sum_delete f m k v E). lia.
  - rewrite delete_id by done. lia.
Qed.

Lemma map_sum_insert f m k v :
  map_sum f (<[k:=v]> m) = map_sum f m - entry_sum f m k + f k v.
Proof.
  rewrite <- insert_delete_eq, map_sum_insert_new, map_sum_delete_any by apply lookup_delete_eq.
  lia.
Qed.

Lemma map_sum_ext f g m :
  (∀ k v, m !! k = Some v → f k v = g k v) → map_sum f m = map_sum g m.
Proof.
  induction m as [|k v m Hk IH] using map_ind; intros Hfg; [done|].
  rewrite !map_sum_insert_new by done. rewrite (Hfg k v) by apply lookup_insert_eq.
  f_equal. apply IH. intros k' v' Hl. apply Hfg. rewrite lookup_insert_ne; [done|congruence].
Qed.

Lemma map_sum_nonneg f m :
  (∀ k v, m !! k = Some v → 0 ≤ f k v) → 0 ≤ map_sum f m.
Proof.
  induction m as [|k v m Hk IH] using map_ind; intros Hf; [done|].
  rewrite map_sum_insert_new by done. pose proof (Hf k v (lookup_insert_eq _ _ _)).
  enough (0 ≤ map_sum f m) by lia. apply IH. intros k' v' Hl. apply Hf.
  rewrite lookup_insert_ne; [done|congruence].
Qed.

Lemma map_sum_le_entry f m k v :
  (∀ k v, m !! k = Some v → 0 ≤ f k v) → m !! k = Some v → f k v ≤ map_sum f m.
Proof.
  intros Hf Hk. rewrite (map_sum_delete f m k v Hk).
  enough (0 ≤ map_sum f (delete k m)) by lia. apply map_sum_nonneg.
  intros k' v' Hl. apply lookup_delete_Some in Hl as [_ Hl]. by apply Hf.
Qed.

Lemma map_sum_plus f g m : map_sum (λ k v, f k v + g k v) m = map_sum f m + map_sum g m.
Proof.
  induction m as [|k v m Hk IH] using map_ind; [done|]. rewrite !map_sum_insert_new by done. lia.
Qed.

Lemma map_sum_le f g m :
  (∀ k v, m !! k = Some v → f k v ≤ g k v) → map_sum f m ≤ map_sum g m.
Proof.
  induction m as [|k v m Hk IH] using map_ind; intros Hfg; [done|].
  rewrite !map_sum_insert_new by done. pose proof (Hfg k v (lookup_insert_eq _ _ _)).
  enough (map_sum f m ≤ map_sum g m) by lia. apply IH. intros k' v' Hl. apply Hfg.
  rewrite lookup_insert_ne; [done|congruence].
Qed.
Lemma map_sum_zero m : map_sum (λ _ _, 0) m = 0.
Proof. induction m as [|k v m Hk IH] using map_ind; [done|]. rewrite map_sum_insert_new by done. lia. Qed.

Lemma map_sum_union f m m' : m ##ₘ m' → map_sum f (m ∪ m') = map_sum f m + map_sum f m'.
Proof.
  induction m as [|k v m Hk IH] using map_ind; intros Hd; [by rewrite (left_id_L ∅ (∪)), map_sum_empty|].
  apply map_disjoint_insert_l in Hd as [Hk' Hd]. rewrite <- insert_union_l, !map_sum_insert_new, IH by
    (done || by apply lookup_union_None). lia.
Qed.

(** A sum with one summand. *)
Lemma map_sum_point f m k :
  (∀ k' v, m !! k' = Some v → k' ≠ k → f k' v = 0) → map_sum f m = entry_sum f m k.
Proof.
  intros Hf. pose proof (map_sum_delete_any f m k) as Hd.
  rewrite (map_sum_ext f (λ _ _, 0) (delete k m)), map_sum_zero in Hd; [lia|].
  intros k' v [Hne Hl]%lookup_delete_Some. by apply Hf.
Qed.
End map_sum.
