(* ===== verification/Limbs.v ===== *)
(** * Straight-line arithmetic on limbs

    The field and the scalars of Ed25519 are arrays of machine integers, each holding a
    digit of a number in a mixed radix.  The source moves carries between the digits and
    folds high digits back by fixed multiples, one statement after the other.  The file
    gives these statements a meaning on lists of integers of [w] bits, wrapping as Go
    does, and an interval analysis: when the analysis succeeds no statement overflows,
    the result is within the computed ranges, and the number is kept modulo [N]. *)

From S2P Require Import Prelude.

(** Two's complement reading of the low [w] bits. *)
Definition signed (w x : Z) : Z :=
  let y := x mod 2 ^ w in if y <? 2 ^ (w - 1) then y else y - 2 ^ w.

Abbreviation i8 := (signed 8).
Abbreviation i32 := (signed 32).

(** - [Carry i j r k m]: [c := (h[i] + r) >> k; h[j] += c * m; h[i] -= c << k];
    - [Trim i k]: [h[i] -= (h[i] >> k) << k];
    - [Fold i cs]: [h[j] += h[i] * c] for every [(j, c)], then [h[i] = 0]. *)
Inductive stmt :=
| Carry (i j : nat) (r k m : Z)
| Trim (i : nat) (k : Z)
| Fold (i : nat) (cs : list (nat * Z)).

Section limbs.
Variable w : Z.

Definition add_at (h : list Z) (j : nat) (x : Z) : list Z := <[j := signed w (h !!! j + x)]> h.

Definition exec (h : list Z) (s : stmt) : list Z :=
  match s with
  | Carry i j r k m =>
      let c := Z.shiftr (signed w (h !!! i + r)) k in
      add_at (add_at h j (c * m)) i (- Z.shiftl c k)
  | Trim i k => add_at h i (- Z.shiftl (Z.shiftr (h !!! i) k) k)
  | Fold i cs =>
      let x := h !!! i in
      <[i := 0]> (foldl (λ h jc, add_at h jc.1 (x * jc.2)) h cs)
  end.

Definition run (ss : list stmt) (h : list Z) : list Z := foldl exec h ss.

(** ** Interval analysis *)
Abbreviation range := (Z * Z)%type.

Definition within_range (x : Z) (r : range) : Prop := r.1 ≤ x ≤ r.2.
Definition fits (r : range) : bool := (- 2 ^ (w - 1) <=? r.1) && (r.2 <? 2 ^ (w - 1)).

Definition scale (r : range) (c : Z) : range := (Z.min (r.1 * c) (r.2 * c), Z.max (r.1 * c) (r.2 * c)).

Definition aadd (rs : list range) (j : nat) (r : range) : option (list range) :=
  let r' := ((rs !!! j).1 + r.1, (rs !!! j).2 + r.2) in
  if fits r' && (j <? length rs)%nat then Some (<[j := r']> rs) else None.

Definition aset (rs : list range) (i : nat) (r : range) : option (list range) :=
  if fits r && (i <? length rs)%nat then Some (<[i := r]> rs) else None.

Definition afold (r : range) (i : nat) (rs : option (list range)) (jc : nat * Z) : option (list range) :=
  rs ← rs; if (jc.1 =? i)%nat then None else aadd rs jc.1 (scale r jc.2).

Definition aexec (rs : list range) (s : stmt) : option (list range) :=
  match s with
  | Carry i j r k m =>
      let ri := rs !!! i in
      let c := (Z.shiftr (ri.1 + r) k, Z.shiftr (ri.2 + r) k) in
      if fits (ri.1 + r, ri.2 + r) && negb (i =? j)%nat && (0 <=? k)
      then rs ← aadd rs j (scale c m); aset rs i (- r, 2 ^ k - 1 - r)
      else None
  | Trim i k => if 0 <=? k then aset rs i (0, 2 ^ k - 1) else None
  | Fold i cs => rs' ← foldl (afold (rs !!! i) i) (Some rs) cs; aset rs' i (0, 0)
  end.

Definition arun (ss : list stmt) (rs : list range) : option (list range) :=
  foldl (λ rs s, rs ← rs; aexec rs s) (Some rs) ss.
End limbs.

(** ** The number a list of limbs stands for *)
Fixpoint eval (ws h : list Z) : Z :=
  match ws, h with
  | x :: ws, y :: h => x * y + eval ws h
  | _, _ => 0
  end.

(** The multiple of the carry, trim or folded limb by which a statement changes it. *)
Definition defect (ws : list Z) (s : stmt) : Z :=
  match s with
  | Carry i j r k m => m * ws !!! j - 2 ^ k * ws !!! i
  | Trim i k => - 2 ^ k * ws !!! i
  | Fold i cs => foldl (λ a jc, a + jc.2 * ws !!! jc.1) (- ws !!! i) cs
  end.

Definition keeps_value (N : Z) (ws : list Z) (ss : list stmt) : bool :=
  forallb (λ s, defect ws s mod N =? 0) ss.

(** ** Facts *)
Lemma signed_small w x : 0 < w → - 2 ^ (w - 1) ≤ x < 2 ^ (w - 1) → signed w x = x.
Proof.
  intros Hw Hx. unfold signed. assert (H2 : 2 ^ w = 2 * 2 ^ (w - 1)).
  { rewrite <- Z.pow_succ_r by lia. f_equal. lia. }
  destruct (Z.le_gt_cases 0 x) as [H0|H0].
  - rewrite Z.mod_small by lia. destruct (Z.ltb_spec x (2 ^ (w - 1))); lia.
  - replace (x mod 2 ^ w) with (x + 2 ^ w); [destruct (Z.ltb_spec (x + 2 ^ w) (2 ^ (w - 1))); lia|].
    rewrite <- (Z.mod_small (x + 2 ^ w) (2 ^ w)) by lia.
    rewrite <- (Z.mul_1_l (2 ^ w)) at 1. apply Z.mod_add. lia.
Qed.

Lemma eval_insert ws h i x :
  length ws = length h → (i < length h)%nat → eval ws (<[i := x]> h) = eval ws h + ws !!! i * (x - h !!! i).
Proof.
  revert h i. induction ws as [|c ws IH]; intros [|y h] i; cbn [length eval]; try lia.
  intros Hlen Hi. destruct i as [|i]; [cbn; lia|].
  change (<[S i := x]> (y :: h)) with (y :: <[i := x]> h). cbn [eval]. rewrite IH by lia.
  change ((c :: ws) !!! S i) with (ws !!! i). change ((y :: h) !!! S i) with (h !!! i). lia.
Qed.

Lemma foldl_weights (ws : list Z) (cs : list (nat * Z)) : ∀ a,
  foldl (λ a jc, a + jc.2 * ws !!! jc.1) a cs = a + foldl (λ a jc, a + jc.2 * ws !!! jc.1) 0 cs.
Proof. induction cs as [|jc cs IH]; intros a; cbn [foldl]; [lia|]. rewrite IH, (IH (0 + _)). lia. Qed.

Section facts.
Context (w : Z) (Hw : 0 < w).

Lemma fits_signed x r : fits w r = true → within_range x r → signed w x = x.
Proof.
  unfold fits, within_range. rewrite andb_true_iff, Z.leb_le, Z.ltb_lt. intros [H1 H2] H.
  apply signed_small; lia.
Qed.

Lemma ranges_lookup h rs i :
  Forall2 within_range h rs → (i < length rs)%nat → within_range (h !!! i) (rs !!! i).
Proof.
  intros H Hi. pose proof (Forall2_length H) as Hl.
  destruct (lookup_lt_is_Some_2 h i) as [x Hx]; [lia|]. destruct (lookup_lt_is_Some_2 rs i) as [r Hr]; [lia|].
  rewrite (list_lookup_total_correct _ _ _ Hx), (list_lookup_total_correct _ _ _ Hr).
  by apply (Forall2_lookup_lr _ _ _ _ _ _ H Hx Hr).
Qed.

Lemma ranges_length h rs : Forall2 within_range h rs → length h = length rs.
Proof. intros H. exact (Forall2_length H). Qed.

Lemma scale_range x r c : within_range x r → within_range (x * c) (scale r c).
Proof. unfold within_range, scale. cbn [fst snd]. intros H. destruct (Z.le_ge_cases 0 c); nia. Qed.

(** A write that the analysis accepts does not wrap. *)
Lemma aadd_sound h rs j x r rs' :
  Forall2 within_range h rs → within_range x r → aadd w rs j r = Some rs' →
  add_at w h j x = <[j := h !!! j + x]> h ∧ Forall2 within_range (<[j := h !!! j + x]> h) rs' ∧
  (j < length h)%nat ∧ ∀ i, i ≠ j → rs' !!! i = rs !!! i.
Proof.
  intros Hh Hx. unfold aadd. destruct (fits w _) eqn:Hf; [|done]. cbn [andb].
  destruct (Nat.ltb_spec j (length rs)) as [Hj|]; [|done]. intros [= <-].
  pose proof (ranges_length _ _ Hh) as Hl. pose proof (ranges_lookup _ _ _ Hh Hj) as Hr.
  assert (Hin : within_range (h !!! j + x) ((rs !!! j).1 + r.1, (rs !!! j).2 + r.2)).
  { unfold within_range in *. cbn [fst snd] in *. lia. }
  split_and!; [|by apply Forall2_insert|lia|intros; by rewrite list_lookup_total_insert_ne].
  unfold add_at. by rewrite (fits_signed _ _ Hf Hin).
Qed.

Lemma aset_sound h rs i x r rs' :
  Forall2 within_range h rs → within_range x r → aset w rs i r = Some rs' →
  signed w x = x ∧ Forall2 within_range (<[i := x]> h) rs' ∧ (i < length h)%nat.
Proof.
  intros Hh Hx. unfold aset. destruct (fits w _) eqn:Hf; [|done]. cbn [andb].
  destruct (Nat.ltb_spec i (length rs)) as [Hi|]; [|done]. intros [= <-].
  pose proof (ranges_length _ _ Hh). split_and!; [by eapply fits_signed|by apply Forall2_insert|lia].
Qed.

Lemma carry_parts x r k : 0 ≤ k → x - Z.shiftl (Z.shiftr (x + r) k) k = (x + r) mod 2 ^ k - r.
Proof.
  intros Hk. rewrite Z.shiftl_mul_pow2, Z.shiftr_div_pow2 by done.
  pose proof (Z.div_mod (x + r) (2 ^ k) ltac:(lia)). lia.
Qed.

Lemma shiftr_mono x y k : 0 ≤ k → x ≤ y → Z.shiftr x k ≤ Z.shiftr y k.
Proof. intros. rewrite !Z.shiftr_div_pow2 by done. apply Z.div_le_mono; lia. Qed.

Lemma carry_sound h rs i j r k m rs' ws :
  length ws = length h →
  Forall2 within_range h rs → aexec w rs (Carry i j r k m) = Some rs' →
  Forall2 within_range (exec w h (Carry i j r k m)) rs' ∧
  ∃ c, eval ws (exec w h (Carry i j r k m)) = eval ws h + c * defect ws (Carry i j r k m).
Proof.
  intros Hws Hh. cbn [aexec exec defect]. destruct (fits w _) eqn:Hf; [|done]. cbn [andb].
  destruct (Nat.eqb_spec i j) as [|Hij]; [done|]. destruct (Z.leb_spec 0 k) as [Hk|]; [|done]. cbn [andb negb].
  destruct (aadd w rs j _) as [rs1|] eqn:Ha; cbn [mbind option_bind]; [|done]. intros Hs.
  assert (Hi : (i < length rs)%nat).
  { unfold aset in Hs. destruct (fits w (- r, _)); [|done]. cbn [andb] in Hs.
    destruct (Nat.ltb_spec i (length rs1)) as [Hi|]; [|done].
    unfold aadd in Ha. destruct (_ && _); [|done]. injection Ha as <-. by rewrite length_insert in Hi. }
  pose proof (ranges_lookup _ _ _ Hh Hi) as Hr.
  assert (Hsum : signed w (h !!! i + r) = h !!! i + r).
  { apply (fits_signed _ _ Hf). unfold within_range in *. cbn [fst snd] in *. lia. }
  rewrite Hsum. set (c := Z.shiftr (h !!! i + r) k) in *.
  assert (Hc : within_range (c * m) (scale (Z.shiftr ((rs !!! i).1 + r) k, Z.shiftr ((rs !!! i).2 + r) k) m)).
  { apply scale_range. unfold within_range in *. cbn [fst snd] in *. unfold c. split; apply shiftr_mono; lia. }
  destruct (aadd_sound _ _ _ _ _ _ Hh Hc Ha) as (-> & Hh1 & Hj & _).
  set (h1 := <[j := h !!! j + c * m]> h) in *.
  assert (Hi1 : h1 !!! i = h !!! i) by (unfold h1; by rewrite list_lookup_total_insert_ne).
  unfold add_at. rewrite Hi1. rewrite Z.add_opp_r. unfold c at 1 2. rewrite carry_parts by done.
  assert (Hx : within_range ((h !!! i + r) mod 2 ^ k - r) (- r, 2 ^ k - 1 - r)).
  { pose proof (Z.mod_pos_bound (h !!! i + r) (2 ^ k) ltac:(lia)). unfold within_range. cbn [fst snd]. lia. }
  destruct (aset_sound _ _ _ _ _ _ Hh1 Hx Hs) as (-> & Hh2 & Hil). split; [done|]. exists c.
  unfold h1 in Hil. rewrite length_insert in Hil.
  rewrite eval_insert by (unfold h1; rewrite ?length_insert; lia). rewrite Hi1. unfold h1 at 1.
  rewrite eval_insert by lia. rewrite <- carry_parts by done. fold c. rewrite Z.shiftl_mul_pow2 by done. lia.
Qed.

Lemma trim_sound h rs i k rs' ws :
  length ws = length h → Forall2 within_range h rs → aexec w rs (Trim i k) = Some rs' →
  Forall2 within_range (exec w h (Trim i k)) rs' ∧
  ∃ c, eval ws (exec w h (Trim i k)) = eval ws h + c * defect ws (Trim i k).
Proof.
  intros Hws Hh. cbn [aexec exec defect]. destruct (Z.leb_spec 0 k) as [Hk|]; [|done]. intros Hs.
  pose proof (carry_parts (h !!! i) 0 k Hk) as Hc. rewrite Z.add_0_r, Z.sub_0_r in Hc.
  assert (Hx : within_range ((h !!! i) mod 2 ^ k) (0, 2 ^ k - 1)).
  { pose proof (Z.mod_pos_bound (h !!! i) (2 ^ k) ltac:(lia)). unfold within_range. cbn [fst snd]. lia. }
  unfold add_at. rewrite Z.add_opp_r, Hc. destruct (aset_sound _ _ _ _ _ _ Hh Hx Hs) as (-> & Hh2 & Hil).
  split; [done|]. exists (Z.shiftr (h !!! i) k). rewrite eval_insert, <- Hc, Z.shiftl_mul_pow2 by lia. lia.
Qed.

Lemma afold_None r i cs : foldl (afold w r i) None cs = None.
Proof. by induction cs. Qed.

Lemma afold_length r i cs : ∀ rs rs', foldl (afold w r i) (Some rs) cs = Some rs' → length rs' = length rs.
Proof.
  induction cs as [|[j c] cs IH]; intros rs rs'; cbn [foldl]; [by intros [= <-]|].
  unfold afold at 2. cbn [mbind option_bind fst snd]. destruct (Nat.eqb j i); [by rewrite afold_None|].
  unfold aadd. destruct (_ && _); [|by rewrite afold_None]. intros Hf%IH. by rewrite length_insert in Hf.
Qed.

Lemma fold_at_sound x r i cs : within_range x r → ∀ h rs rs' ws,
  length ws = length h → Forall2 within_range h rs → foldl (afold w r i) (Some rs) cs = Some rs' →
  let h' := foldl (λ h jc, add_at w h jc.1 (x * jc.2)) h cs in
  Forall2 within_range h' rs' ∧ length h' = length h ∧ h' !!! i = h !!! i ∧
  eval ws h' = eval ws h + x * foldl (λ a jc, a + jc.2 * ws !!! jc.1) 0 cs.
Proof.
  intros Hx. induction cs as [|[j c] cs IH]; intros h rs rs' ws Hws Hh; cbn [foldl].
  { intros [= <-]. cbn. split_and!; [done..|lia]. }
  unfold afold at 2. cbn [mbind option_bind fst snd]. destruct (Nat.eqb_spec j i) as [|Hji].
  { by rewrite afold_None. }
  destruct (aadd w rs j (scale r c)) as [rs1|] eqn:Ha; [|by rewrite afold_None].
  intros Hf. destruct (aadd_sound _ _ _ _ _ _ Hh (scale_range x r c Hx) Ha) as (-> & Hh1 & Hj & _).
  assert (Hl : length ws = length (<[j := h !!! j + x * c]> h)) by (rewrite length_insert; lia).
  destruct (IH _ _ _ _ Hl Hh1 Hf) as (Hr & Hlen & Hi & He). rewrite length_insert in Hlen.
  rewrite list_lookup_total_insert_ne in Hi by done.
  split_and!; [done..|]. rewrite He, eval_insert by lia.
  rewrite (foldl_weights ws cs (0 + _)). lia.
Qed.

Lemma fold_exact h rs i cs rs' ws :
  length ws = length h → Forall2 within_range h rs → aexec w rs (Fold i cs) = Some rs' →
  Forall2 within_range (exec w h (Fold i cs)) rs' ∧
  eval ws (exec w h (Fold i cs)) = eval ws h + h !!! i * defect ws (Fold i cs).
Proof.
  intros Hws Hh. cbn [aexec exec defect].
  destruct (foldl _ (Some rs) cs) as [rs1|] eqn:Hf; cbn [mbind option_bind]; [|done]. intros Hs.
  pose proof (ranges_length _ _ Hh) as Hl. pose proof (afold_length _ _ _ _ _ Hf) as Hl1.
  assert (Hi : (i < length rs)%nat).
  { unfold aset in Hs. destruct (fits w _); [|done]. cbn [andb] in Hs.
    destruct (Nat.ltb_spec i (length rs1)) as [Hi1|]; [lia|done]. }
  pose proof (ranges_lookup _ _ _ Hh Hi) as Hr.
  destruct (fold_at_sound _ _ i cs Hr _ _ _ _ Hws Hh Hf) as (Hh1 & Hlen & Hhi & He).
  assert (H0 : within_range 0 (0, 0)) by (unfold within_range; cbn; lia).
  destruct (aset_sound _ _ _ _ _ _ Hh1 H0 Hs) as (_ & Hh2 & Hil). split; [done|].
  rewrite eval_insert, He, Hhi by lia. rewrite (foldl_weights ws cs (- _)). lia.
Qed.

Lemma fold_sound h rs i cs rs' ws :
  length ws = length h → Forall2 within_range h rs → aexec w rs (Fold i cs) = Some rs' →
  Forall2 within_range (exec w h (Fold i cs)) rs' ∧
  ∃ c, eval ws (exec w h (Fold i cs)) = eval ws h + c * defect ws (Fold i cs).
Proof. intros Hws Hh Hs. destruct (fold_exact _ _ _ _ _ _ Hws Hh Hs) as [H E]. eauto. Qed.

Lemma exec_sound h rs s rs' ws :
  length ws = length h → Forall2 within_range h rs → aexec w rs s = Some rs' →
  Forall2 within_range (exec w h s) rs' ∧ ∃ c, eval ws (exec w h s) = eval ws h + c * defect ws s.
Proof. destruct s; [apply carry_sound|apply trim_sound|apply fold_sound]. Qed.

Lemma aexec_length rs s rs' h : Forall2 within_range h rs → aexec w rs s = Some rs' → length (exec w h s) = length h.
Proof.
  intros Hh Hs. destruct s; cbn [exec]; unfold add_at; rewrite ?length_insert; try done.
  generalize (h !!! i) as x. intros x. clear -cs. revert h. induction cs as [|jc cs IH]; intros h; cbn [foldl]; [done|].
  by rewrite IH, length_insert.
Qed.

(** When the analysis of a sequence of statements succeeds, nothing overflows: the
    result is within the ranges, and the number is kept modulo [N]. *)
Theorem run_sound N ws ss : ∀ h rs rs',
  length ws = length h → Forall2 within_range h rs → arun w ss rs = Some rs' → keeps_value N ws ss = true →
  Forall2 within_range (run w ss h) rs' ∧ (N | eval ws (run w ss h) - eval ws h).
Proof.
  unfold arun, run, keeps_value. induction ss as [|s ss IH]; intros h rs rs' Hws Hh; cbn [foldl forallb mbind option_bind].
  { intros [= <-] _. split; [done|]. rewrite Z.sub_diag. apply Z.divide_0_r. }
  intros Hr [Hd Hk]%andb_true_iff. destruct (aexec w rs s) as [rs1|] eqn:Hs.
  2: { exfalso. clear -Hr. by induction ss. }
  destruct (exec_sound _ _ _ _ _ Hws Hh Hs) as (Hh1 & c & He).
  destruct (IH _ _ _ ltac:(by rewrite (aexec_length _ _ _ _ Hh Hs)) Hh1 Hr Hk) as (Hh' & Hdiv). split; [done|].
  replace (eval ws (foldl (exec w) (exec w h s) ss) - eval ws h)
    with (eval ws (foldl (exec w) (exec w h s) ss) - eval ws (exec w h s) + c * defect ws s) by lia.
  apply Z.divide_add_r; [done|]. apply Z.divide_mul_r. apply Z.eqb_eq in Hd.
  destruct (Z.eq_dec N 0) as [->|HN]; [rewrite Z.mod_0_r in Hd; rewrite Hd; apply Z.divide_0_r|by apply Z.mod_divide].
Qed.
End facts.
