(* ===== verification/Primes.v ===== *)
(** * The prime of the field of Ed25519

    Signatures are computed in the integers modulo [2^255 - 19].  The file proves that
    this number is prime, by Pocklington's criterion and a chain of certificates: the
    factors of [n - 1] that the criterion needs are proved prime in the same way, the
    small ones by trial division. *)

From Stdlib Require Import ZArith Zdivisibility Zmod Lia List Bool.
From Bignums Require Import BigZ.BigZ.
Import ListNotations.

#[local] Open Scope Z_scope.

(** ** Powers modulo [n], in the machine arithmetic of [bigZ] *)
Fixpoint powmod (e : positive) (a n : bigZ) : bigZ :=
  match e with
  | xH => BigZ.modulo a n
  | xO e => let b := powmod e a n in BigZ.modulo (BigZ.mul b b) n
  | xI e => let b := powmod e a n in BigZ.modulo (BigZ.mul (BigZ.modulo (BigZ.mul b b) n) a) n
  end.

Lemma powmod_spec a n e : BigZ.to_Z (powmod e a n) = BigZ.to_Z a ^ Z.pos e mod BigZ.to_Z n.
Proof.
  induction e as [e IH|e IH|]; cbn [powmod]; rewrite !BigZ.spec_modulo, ?BigZ.spec_mul, ?BigZ.spec_modulo, ?BigZ.spec_mul, ?IH.
  - rewrite <- Zmult_mod, Zmult_mod_idemp_l, Pos2Z.inj_xI, Z.pow_add_r, Z.pow_twice_r by lia.
    now rewrite Z.pow_1_r.
  - rewrite <- Zmult_mod, Pos2Z.inj_xO. now rewrite Z.pow_twice_r.
  - now rewrite Z.pow_1_r.
Qed.

(** ** Trial division *)
Fixpoint no_divisor (fuel : nat) (d n : Z) : bool :=
  match fuel with
  | O => false
  | S fuel => if n <? d * d then true else negb (n mod d =? 0) && no_divisor fuel (d + 1) n
  end.

Lemma no_divisor_spec fuel : forall d n,
  no_divisor fuel d n = true -> 0 < d -> forall k, d <= k -> k * k <= n -> ~ (k | n).
Proof.
  induction fuel as [|fuel IH]; intros d n; cbn [no_divisor]; [discriminate|].
  destruct (Z.ltb_spec n (d * d)) as [Hlt|Hge]; [intros; nia|].
  rewrite andb_true_iff, negb_true_iff, Z.eqb_neq. intros [Hd Hr] Hpos k Hk Hkn.
  destruct (Z.eq_dec k d) as [->|Hne].
  - intros Hdiv. now apply Z.mod0_divide in Hdiv.
  - apply (IH (d + 1) n Hr); lia.
Qed.

(** A number without a small divisor is prime. *)
Lemma prime_small_divisor n :
  1 < n -> (forall k, 1 < k -> k * k <= n -> ~ (k | n)) -> Z.prime n.
Proof.
  intros Hn Hk. split; [lia|]. intros k Hkn [c Hc].
  destruct (Z.le_gt_cases (k * k) n) as [Hle|Hgt].
  - apply (Hk k); [lia..|]. now exists c.
  - apply (Hk c); [nia|nia|]. exists k. lia.
Qed.

Lemma trial_prime n fuel : 1 < n -> no_divisor fuel 2 n = true -> Z.prime n.
Proof.
  intros Hn Hd. apply prime_small_divisor; [assumption|]. intros k Hk Hkn.
  apply (no_divisor_spec _ _ _ Hd); lia.
Qed.

(** Every number above one has a prime divisor. *)
Lemma prime_divisor n : 1 < n -> exists r, Z.prime r /\ (r | n).
Proof.
  intros Hn. assert (Hp : 0 <= n) by lia. revert Hn. pattern n. apply Zlt_0_ind; [|assumption].
  clear n Hp. intros n IH _ Hn.
  destruct (Znumtheory.prime_dec n) as [Hpr|Hnp].
  - exists n. split; [now apply Znumtheory.prime_alt|apply Z.divide_refl].
  - destruct (Znumtheory.not_prime_divide n Hn Hnp) as (k & Hk & Hkn).
    destruct (IH k) as (r & Hr & Hrk); [lia..|]. exists r. split; [assumption|]. now apply (Z.divide_trans _ k).
Qed.

(** ** Pocklington's criterion *)

(** Powers of one element at two exponents give its power at their greatest common
    divisor. *)
Lemma pow_gcd_one r (x : Zmod r) a b :
  Z.coprime (Zmod.unsigned x) r -> Zmod.pow x a = Zmod.one -> Zmod.pow x b = Zmod.one -> Zmod.pow x (Z.gcd a b) = Zmod.one.
Proof.
  intros Hx Ha Hb. destruct (Z.gcd_bezout a b (Z.gcd a b) eq_refl) as (u & v & <-).
  assert (H1 : forall c, Zmod.pow (@Zmod.one r) c = Zmod.one).
  { intros c. apply Zmod.pow_1_l. }
  rewrite (Z.mul_comm u a), (Z.mul_comm v b), Zmod.pow_add_r_coprime, !Zmod.pow_mul_r_coprime, Ha, Hb, !H1 by assumption.
  apply Zmod.mul_1_l.
Qed.

(** [a] shows that every prime factor of [n] is one more than a multiple of [q]. *)
Definition certifies (n q a : Z) : Prop :=
  Z.prime q /\ (q | n - 1) /\ a ^ (n - 1) mod n = 1 /\ Z.coprime (a ^ ((n - 1) / q) - 1) n.

Lemma certified_factor n q a r :
  1 < n -> certifies n q a -> Z.prime r -> (r | n) -> (q | r - 1).
Proof.
  intros Hn (Hq & [m Hm] & Hpow & Hco) Hr Hrn.
  pose proof (Z.prime_ge_2 _ Hq). pose proof (Z.prime_ge_2 _ Hr).
  destruct (Z.BoolSpec_divide q (r - 1)) as [|Hndiv]; [assumption|exfalso].
  replace ((n - 1) / q) with m in Hco by (rewrite Hm, Z.div_mul; lia).
  set (x := Zmod.of_Z r a).
  assert (Hx1 : Zmod.pow x (n - 1) = Zmod.one).
  { unfold x. rewrite <- Zmod.of_Z_pow, <- Zmod.of_Z_1 by lia. apply Zmod.of_Z_inj.
    destruct Hrn as [c ->]. rewrite (Z.div_mod (a ^ (c * r - 1)) (c * r)), Hpow by lia.
    rewrite Z.add_mod, <- Z.mul_assoc, (Z.mul_comm r), Z.mul_assoc, Z.mod_mul, Z.add_0_l, Z.mod_mod by lia. reflexivity. }
  assert (Hx0 : x <> Zmod.zero).
  { intros Hz. rewrite Hz, Zmod.pow_0_l in Hx1 by lia. symmetry in Hx1. revert Hx1. apply Zmod.one_neq_zero. lia. }
  assert (Hcx : Z.coprime (Zmod.unsigned x) r).
  { unfold Z.coprime. rewrite Z.gcd_comm. apply Z.coprime_prime_small; [assumption|].
    pose proof (Zmod.unsigned_pos_bound x ltac:(lia)). apply Zmod.to_Z_nz in Hx0. lia. }
  pose proof (Zmod.fermat_nz x Hx0 Hr) as Hf. rewrite <- Z.sub_1_r in Hf.
  pose proof (pow_gcd_one r x _ _ Hcx Hx1 Hf) as Hg.
  assert (Hgm : (Z.gcd (n - 1) (r - 1) | m)).
  { apply (Z.gauss _ q).
    - rewrite (Z.mul_comm q), <- Hm. apply Z.gcd_divide_l.
    - rewrite Z.gcd_comm. apply Z.coprime_prime_l; [assumption|]. intros Hd. apply Hndiv.
      apply (Z.divide_trans _ _ _ Hd), Z.gcd_divide_r. }
  destruct Hgm as [c Hc].
  assert (Hxm : Zmod.pow x m = Zmod.one).
  { rewrite Hc, Z.mul_comm, Zmod.pow_mul_r_coprime, Hg by assumption. apply Zmod.pow_1_l. }
  assert (Hm0 : 0 <= m) by nia.
  unfold x in Hxm. rewrite <- Zmod.of_Z_pow, <- Zmod.of_Z_1 in Hxm by lia. apply Zmod.of_Z_inj in Hxm.
  assert (Hd : (r | a ^ m - 1)).
  { apply Z.mod_divide; [lia|]. rewrite Zminus_mod, Hxm, Z.sub_diag. reflexivity. }
  assert (Hd1 : (r | 1)) by (rewrite <- Hco; now apply Z.gcd_greatest).
  apply Z.divide_1_r_nonneg in Hd1; lia.
Qed.

(** Distinct primes that divide a number: so does their product. *)
Lemma primes_divide qs m :
  NoDup qs -> (forall q, In q qs -> Z.prime q /\ (q | m)) -> (fold_right Z.mul 1 qs | m).
Proof.
  induction qs as [|q qs IH]; cbn [fold_right]; intros Hnd Hqs; [apply Z.divide_1_l|].
  inversion Hnd as [|? ? Hin Hnd']; subst.
  destruct (IH Hnd' (fun q' H => Hqs q' (or_intror H))) as [c Hc].
  destruct (Hqs q (or_introl eq_refl)) as [Hq Hqm]. rewrite Hc in Hqm.
  assert (Hco : Z.coprime q (fold_right Z.mul 1 qs)).
  { assert (Hp : forall q', In q' qs -> Z.prime q') by (intros q' H; apply Hqs; now right).
    clear IH Hqs Hnd Hnd' Hc Hqm. induction qs as [|q' qs IH]; cbn; [apply Z.coprime_1_r|].
    apply Z.coprime_mul_r.
    - apply Z.coprime_prime_l; [assumption|]. intros Hd.
      apply Z.divide_prime_prime in Hd; [|assumption|apply Hp; now left]. subst. apply Hin. now left.
    - apply IH; [intros H; apply Hin; now right|intros; apply Hp; now right]. }
  rewrite Z.mul_comm in Hqm. apply Z.gauss in Hqm; [|assumption]. destruct Hqm as [e ->].
  exists e. rewrite Hc. ring.
Qed.

Theorem pocklington n (cs : list (Z * Z)) :
  1 < n -> NoDup (map fst cs) -> (forall q a, In (q, a) cs -> certifies n q a) ->
  n < (fold_right Z.mul 1 (map fst cs) + 1) ^ 2 -> Z.prime n.
Proof.
  intros Hn Hnd Hcs Hbig. apply prime_small_divisor; [assumption|]. intros k Hk Hkn Hdiv.
  destruct (prime_divisor k Hk) as (r & Hr & Hrk).
  assert (Hrn : (r | n)) by now apply (Z.divide_trans _ k).
  pose proof (Z.prime_ge_2 _ Hr).
  assert (HF : (fold_right Z.mul 1 (map fst cs) | r - 1)).
  { apply primes_divide; [assumption|]. intros q Hq. apply in_map_iff in Hq as ((q' & a) & Heq & Hin).
    cbn in Heq. subst q'. pose proof (Hcs q a Hin) as Hc. split; [apply Hc|].
    now apply (certified_factor n q a r). }
  apply Z.divide_pos_le in HF; [|lia]. apply Z.divide_pos_le in Hrk; [|lia].
  assert (0 <= fold_right Z.mul 1 (map fst cs)).
  { clear -Hcs. induction cs as [|[q a] cs IH]; cbn [map fold_right fst]; [lia|].
    pose proof (Z.prime_ge_2 q (proj1 (Hcs q a (or_introl eq_refl)))).
    assert (0 <= fold_right Z.mul 1 (map fst cs)) by (apply IH; intros q' a' Hi; apply Hcs; now right). nia. }
  nia.
Qed.

(** ** The certificates *)
Definition powmodZ (e : positive) (a n : Z) : Z := BigZ.to_Z (powmod e (BigZ.of_Z a) (BigZ.of_Z n)).

Lemma powmodZ_spec e a n : powmodZ e a n = a ^ Z.pos e mod n.
Proof. unfold powmodZ. now rewrite powmod_spec, !BigZ.spec_of_Z. Qed.

Definition check_certificate (n q a : Z) : bool :=
  match n - 1, (n - 1) / q with
  | Z.pos e, Z.pos m =>
      ((n - 1) mod q =? 0) && (powmodZ e a n =? 1) && (Z.gcd (powmodZ m a n - 1) n =? 1)
  | _, _ => false
  end.

Lemma check_certificate_spec n q a :
  1 < n -> Z.prime q -> check_certificate n q a = true -> certifies n q a.
Proof.
  unfold check_certificate, certifies. intros Hn Hq Hc. pose proof (Z.prime_ge_2 _ Hq).
  destruct (n - 1) as [|e|] eqn:He; try discriminate.
  destruct (Z.pos e / q) as [|m|] eqn:Hm; try discriminate.
  rewrite !andb_true_iff, !Z.eqb_eq, !powmodZ_spec in Hc. destruct Hc as [[Hd Hp] Hg].
  split; [assumption|]. split; [apply Z.mod_divide; [lia|assumption]|]. split; [assumption|].
  unfold Z.coprime. rewrite Z.gcd_comm, <- Z.gcd_mod, Z.gcd_comm by lia.
  rewrite Z.gcd_comm, <- Z.gcd_mod, Z.gcd_comm, Zminus_mod_idemp_l in Hg by lia. assumption.
Qed.

(** One level of the chain, checked by computation. *)
Lemma chain_step n cs :
  1 < n -> NoDup (map fst cs) -> Forall Z.prime (map fst cs) ->
  forallb (fun c => check_certificate n (fst c) (snd c)) cs = true ->
  n < (fold_right Z.mul 1 (map fst cs) + 1) ^ 2 -> Z.prime n.
Proof.
  intros Hn Hnd Hp Hc Hbig. apply (pocklington n cs); [assumption..| |assumption].
  intros q a Hin. rewrite Forall_forall in Hp. rewrite forallb_forall in Hc.
  apply check_certificate_spec; [assumption| |exact (Hc _ Hin)]. apply Hp. now apply (in_map fst) in Hin.
Qed.

Ltac small_prime := apply (trial_prime _ 4000); [lia|vm_compute; reflexivity].
Ltac distinct := cbn [map fst]; repeat constructor; cbn [In]; intuition discriminate.

Definition prime51 : Z := 1919519569386763.
Definition prime116 : Z := 75445702479781427272750846543864801.
Definition prime236 : Z := 74058212732561358302231226437062788676166966415465897661863160754340907.
Definition p25519 : Z := 2 ^ 255 - 19.

Lemma prime_prime51 : Z.prime prime51.
Proof.
  apply (chain_step prime51 [(8574133, 2); (127, 2)]); [reflexivity|distinct| |vm_compute; reflexivity..].
  cbn [map fst]. apply Forall_cons; [small_prime|]. apply Forall_cons; [small_prime|apply Forall_nil].
Qed.

Lemma prime_prime116 : Z.prime prime116.
Proof.
  apply (chain_step prime116 [(prime51, 2); (75707, 2)]); [reflexivity|distinct| |vm_compute; reflexivity..].
  cbn [map fst]. apply Forall_cons; [apply prime_prime51|]. apply Forall_cons; [small_prime|apply Forall_nil].
Qed.

Lemma prime_prime236 : Z.prime prime236.
Proof.
  apply (chain_step prime236 [(prime116, 2); (1923133, 2)]); [reflexivity|distinct| |vm_compute; reflexivity..].
  cbn [map fst]. apply Forall_cons; [apply prime_prime116|]. apply Forall_cons; [small_prime|apply Forall_nil].
Qed.

Theorem prime_p25519 : Z.prime p25519.
Proof.
  apply (chain_step p25519 [(prime236, 2)]); [reflexivity|distinct| |vm_compute; reflexivity..].
  cbn [map fst]. apply Forall_cons; [apply prime_prime236|apply Forall_nil].
Qed.
