(* ===== verification/Curve.v ===== *)
(** * The Edwards curve of Ed25519

    The points of [- x^2 + y^2 = 1 + d x^2 y^2] over the integers modulo [2^255 - 19]
    form a commutative group: the addition law is complete because [-1] is a square and
    [d] is not.  This is the specification the group operations of the source are
    compared with. *)

From Stdlib Require Import ZArith Zmod Lia Field Eqdep_dec Bool.
From Bignums Require Import BigZ.BigZ.
From S2P Require Import Primes.

#[local] Open Scope Z_scope.
#[local] Open Scope Zmod_scope.

(** ** The field *)
Abbreviation F := (Zmod p25519).
Abbreviation toF := (Zmod.of_Z p25519).

Lemma F_morph : ring_morph Zmod.zero Zmod.one Zmod.add Zmod.mul Zmod.sub Zmod.opp (@eq F)
  0%Z 1%Z Z.add Z.mul Z.sub Z.opp Z.eqb toF.
Proof.
  split; [reflexivity|reflexivity|..]; intros;
    [apply Zmod.of_Z_add|apply Zmod.of_Z_sub|apply Zmod.of_Z_mul|apply Zmod.of_Z_opp|].
  f_equal. now apply Z.eqb_eq.
Qed.

Ltac F_constant t :=
  match t with
  | Zmod.of_Z _ ?z => match isZcst z with true => z | _ => constr:(InitialRing.NotConstant) end
  | Zmod.zero => constr:(0%Z)
  | Zmod.one => constr:(1%Z)
  | _ => constr:(InitialRing.NotConstant)
  end.

Add Field F_field : (Zmod.field_theory p25519 prime_p25519) (morphism F_morph, constants [F_constant]).

Lemma F_mul_zero (a b : F) : a * b = 0 -> a = 0 \/ b = 0.
Proof. apply Zmod.mul_0_iff_prime, prime_p25519. Qed.

Lemma F_one_zero : (1 : F) <> 0.
Proof. apply Zmod.one_neq_zero. vm_compute. discriminate. Qed.

Lemma F_mul_nonzero (a b : F) : a <> 0 -> b <> 0 -> a * b <> 0.
Proof. intros Ha Hb Hab. destruct (F_mul_zero _ _ Hab); contradiction. Qed.

Lemma F_cancel (a b c : F) : a <> 0 -> a * b = a * c -> b = c.
Proof.
  intros Ha Hbc. assert (Hz : a * (b - c) = 0) by (transitivity (a * b - a * c); [ring|rewrite Hbc; ring]).
  apply F_mul_zero in Hz as [|Hz]; [contradiction|]. transitivity (b - c + c); [ring|rewrite Hz; ring].
Qed.

Lemma of_Z_congr (a b : Z) : (a mod p25519 = b mod p25519)%Z -> toF a = toF b.
Proof. apply Zmod.of_Z_inj. Qed.

(** ** The curve *)
Module E.

(** *** The constants *)
Definition d : F := toF 37095705934669439343138083508754565189542113879843219016388785533085940283555.
Definition sqrtm1 : F := toF 19681161376707505956807079304988542015446066515923890162744021073123829784752.

Lemma d_fraction : toF 121666 * d = toF (-121665).
Proof. unfold d. rewrite <- Zmod.of_Z_mul. apply of_Z_congr. vm_compute. reflexivity. Qed.

Lemma sqrtm1_square : sqrtm1 * sqrtm1 = - (1).
Proof.
  unfold sqrtm1. rewrite <- Zmod.of_Z_mul, <- Zmod.of_Z_m1. apply of_Z_congr. vm_compute. reflexivity.
Qed.

(** [d] is not a square, by Euler's criterion. *)
Lemma d_nonsquare s : s * s <> d.
Proof.
  intros Hs.
  assert (Hd : Zmod.pow d (Z.pos (2 ^ 254 - 10)) = - (1)).
  { unfold d. rewrite <- Zmod.of_Z_pow, <- Zmod.of_Z_m1 by lia. apply of_Z_congr.
    rewrite <- powmodZ_spec. vm_compute. reflexivity. }
  assert (H1 : (1 : F) <> - (1)).
  { rewrite <- Zmod.of_Z_1, <- Zmod.of_Z_opp. intros Heq%Zmod.of_Z_inj. vm_compute in Heq. discriminate. }
  destruct (Zmod.eqb_spec s 0) as [->|Hnz].
  - rewrite <- Hs, Zmod.mul_0_l, Zmod.pow_0_l in Hd by discriminate. apply F_one_zero.
    transitivity (- - (1 : F)); [ring|]. rewrite <- Hd. ring.
  - apply H1. rewrite <- Hd, <- Hs. rewrite <- (Zmod.fermat_nz s Hnz prime_p25519).
    rewrite <- Zmod.pow_2_r, <- (Zmod.pow_mul_r_nonneg s 2) by lia. f_equal.
Qed.

(** *** Points *)
Definition onCurve (x y : F) : Prop := - (x * x) + y * y = 1 + d * (x * x) * (y * y).

Definition onCurveb (x y : F) : bool := Zmod.eqb (- (x * x) + y * y) (1 + d * (x * x) * (y * y)).

Lemma onCurveb_spec x y : onCurveb x y = true <-> onCurve x y.
Proof.
  unfold onCurveb, onCurve. destruct (Zmod.eqb_spec (- (x * x) + y * y) (1 + d * (x * x) * (y * y)));
    split; auto; discriminate.
Qed.

Record point := mkPoint { px : F; py : F; p_on : onCurveb px py = true }.

Lemma point_eq P Q : px P = px Q -> py P = py Q -> P = Q.
Proof.
  destruct P as [x y H], Q as [x' y' H']. cbn [px py]. intros -> ->. f_equal. apply UIP_dec, bool_dec.
Qed.

(** *** Completeness of the addition law

    If the product [d x1 x2 y1 y2] were [1] or [-1], [d] would be a square. *)
Lemma square_witness x1 y1 x2 y2 e i : i * i = - (1) ->
  onCurve x1 y1 -> onCurve x2 y2 -> e * e = 1 -> d * x1 * x2 * y1 * y2 = e ->
  d * ((x1 * y1 * (i * x2 + y2)) * (x1 * y1 * (i * x2 + y2))) = (i * x1 + e * y1) * (i * x1 + e * y1).
Proof.
  unfold onCurve. intros Hi H1 H2 He Hk.
  transitivity (d * (x1 * x1) * (y1 * y1) * (- (x2 * x2) + y2 * y2) + toF 2 * i * (d * x1 * x2 * y1 * y2) * (x1 * y1)
    + d * (x1 * x1) * (y1 * y1) * (x2 * x2) * (i * i + 1)); [ring|].
  rewrite H2, Hi, Hk.
  transitivity (d * (x1 * x1) * (y1 * y1) + (d * x1 * x2 * y1 * y2) * (d * x1 * x2 * y1 * y2) + toF 2 * i * e * (x1 * y1)); [ring|].
  rewrite Hk, He. transitivity (1 + d * (x1 * x1) * (y1 * y1) + toF 2 * i * e * (x1 * y1)); [ring|].
  rewrite <- H1. transitivity (i * i * (x1 * x1) + e * e * (y1 * y1) + toF 2 * i * e * (x1 * y1)); [|ring].
  rewrite Hi, He. ring.
Qed.

Lemma square_ratio a b : b <> 0 -> d * (b * b) = a * a -> False.
Proof.
  intros Hb Hab. apply (d_nonsquare (Zmod.mdiv a b)).
  transitivity (Zmod.mdiv (a * a) (b * b)); [now field|]. rewrite <- Hab. now field.
Qed.

Lemma denominator x1 y1 x2 y2 e :
  onCurve x1 y1 -> onCurve x2 y2 -> e * e = 1 -> d * x1 * x2 * y1 * y2 <> e.
Proof.
  intros H1 H2 He Hk.
  assert (Hprod : x1 <> 0 /\ y1 <> 0 /\ x2 <> 0 /\ y2 <> 0).
  { assert (He0 : e <> 0) by (intros ->; apply F_one_zero; rewrite <- He; ring).
    repeat split; intros ->; apply He0; rewrite <- Hk; ring. }
  destruct Hprod as (Hx1 & Hy1 & Hx2 & Hy2).
  pose proof (square_witness x1 y1 x2 y2 e sqrtm1 sqrtm1_square H1 H2 He Hk) as Hplus.
  assert (Hk' : d * x1 * x2 * y1 * - y2 = - e) by (rewrite <- Hk; ring).
  assert (H2' : onCurve x2 (- y2)) by (revert H2; unfold onCurve; intros H2; transitivity (- (x2 * x2) + y2 * y2); [ring|rewrite H2; ring]).
  assert (He' : - e * - e = 1) by (rewrite <- He; ring).
  pose proof (square_witness x1 y1 x2 (- y2) (- e) sqrtm1 sqrtm1_square H1 H2' He' Hk') as Hminus.
  destruct (Zmod.eqb_spec (sqrtm1 * x2 + y2) 0) as [Ez|Hnz].
  - apply square_ratio in Hminus; [assumption|]. apply F_mul_nonzero; [now apply F_mul_nonzero|].
    intros Ez'. apply (F_mul_nonzero (toF 2) y2); [|assumption|].
    + intros Hz%Zmod.of_Z_inj. vm_compute in Hz. discriminate.
    + transitivity ((sqrtm1 * x2 + y2) - (sqrtm1 * x2 + - y2)); [ring|]. rewrite Ez, Ez'. ring.
  - apply square_ratio in Hplus; [assumption|]. apply F_mul_nonzero; [now apply F_mul_nonzero|assumption].
Qed.

Lemma denominators P Q :
  1 + d * px P * px Q * py P * py Q <> 0 /\ 1 - d * px P * px Q * py P * py Q <> 0.
Proof.
  destruct P as [x1 y1 H1], Q as [x2 y2 H2]. cbn [px py]. apply onCurveb_spec in H1, H2. split; intros Hz.
  - apply (denominator x1 y1 x2 y2 (- (1)) H1 H2); [ring|].
    transitivity (1 + d * x1 * x2 * y1 * y2 - 1); [ring|]. rewrite Hz. ring.
  - apply (denominator x1 y1 x2 y2 1 H1 H2); [ring|].
    transitivity (1 - (1 - d * x1 * x2 * y1 * y2)); [ring|]. rewrite Hz. ring.
Qed.

(** *** Addition *)
Definition add_x (x1 y1 x2 y2 : F) : F := Zmod.mdiv (x1 * y2 + x2 * y1) (1 + d * x1 * x2 * y1 * y2).
Definition add_y (x1 y1 x2 y2 : F) : F := Zmod.mdiv (y1 * y2 + x1 * x2) (1 - d * x1 * x2 * y1 * y2).

Lemma curve_monomial x y : onCurve x y -> d * (x * x) * (y * y) = - (x * x) + y * y - 1.
Proof. unfold onCurve. intros H. rewrite H. ring. Qed.

Lemma add_on_curve x1 y1 x2 y2 :
  onCurve x1 y1 -> onCurve x2 y2 ->
  1 + d * x1 * x2 * y1 * y2 <> 0 -> 1 - d * x1 * x2 * y1 * y2 <> 0 ->
  onCurve (add_x x1 y1 x2 y2) (add_y x1 y1 x2 y2).
Proof.
  unfold add_x, add_y. intros H1%curve_monomial H2%curve_monomial Hp Hm. unfold onCurve.
  field_simplify_eq; [|now split]. ring [H1 H2].
Qed.

Lemma point_on P : onCurve (px P) (py P).
Proof. apply onCurveb_spec, p_on. Qed.

Lemma add_closed P Q : onCurveb (add_x (px P) (py P) (px Q) (py Q)) (add_y (px P) (py P) (px Q) (py Q)) = true.
Proof.
  destruct (denominators P Q) as [H1 H2]. apply onCurveb_spec.
  exact (add_on_curve _ _ _ _ (point_on P) (point_on Q) H1 H2).
Qed.

Definition add (P Q : point) : point := mkPoint _ _ (add_closed P Q).

Definition zero : point.
Proof. refine (mkPoint 0 1 _). apply onCurveb_spec. unfold onCurve. ring. Defined.

Definition neg (P : point) : point.
Proof.
  refine (mkPoint (- px P) (py P) _). apply onCurveb_spec. pose proof (point_on P) as H.
  unfold onCurve in *. transitivity (- (px P * px P) + py P * py P); [ring|]. rewrite H. ring.
Defined.

Ltac point_eqs := apply point_eq; unfold add, zero, neg, add_x, add_y; cbn [px py].

Lemma add_comm P Q : add P Q = add Q P.
Proof. destruct (denominators P Q), (denominators Q P). point_eqs; field; auto. Qed.

Lemma add_zero_l P : add zero P = P.
Proof.
  destruct (denominators zero P) as [H1 H2]. unfold zero in H1, H2. cbn [px py] in H1, H2.
  point_eqs; field; assumption.
Qed.

Lemma add_neg_r P : add P (neg P) = zero.
Proof.
  destruct (denominators P (neg P)) as [H1 H2]. unfold neg in H1, H2. cbn [px py] in H1, H2.
  pose proof (curve_monomial _ _ (point_on P)) as H.
  point_eqs; field_simplify_eq; try assumption; ring [H].
Qed.

(** A sum with a point given by fractions. *)
Lemma add_x_fractions x1 y1 C D E G :
  E <> 0 -> G <> 0 -> 1 + d * x1 * Zmod.mdiv C E * y1 * Zmod.mdiv D G <> 0 ->
  add_x x1 y1 (Zmod.mdiv C E) (Zmod.mdiv D G) = Zmod.mdiv (x1 * D * E + C * G * y1) (E * G + d * x1 * y1 * C * D) /\
  E * G + d * x1 * y1 * C * D <> 0.
Proof.
  intros HE HG Hd.
  assert (Hn : E * G + d * x1 * y1 * C * D <> 0).
  { intros Hz. apply Hd. apply (F_cancel (E * G)); [now apply F_mul_nonzero|].
    rewrite Zmod.mul_0_r, <- Hz. field. now split. }
  split; [|assumption]. unfold add_x. field. repeat split; try assumption.
Qed.

Lemma add_y_fractions x1 y1 C D E G :
  E <> 0 -> G <> 0 -> 1 - d * x1 * Zmod.mdiv C E * y1 * Zmod.mdiv D G <> 0 ->
  add_y x1 y1 (Zmod.mdiv C E) (Zmod.mdiv D G) = Zmod.mdiv (y1 * D * E + x1 * C * G) (E * G - d * x1 * y1 * C * D) /\
  E * G - d * x1 * y1 * C * D <> 0.
Proof.
  intros HE HG Hd.
  assert (Hn : E * G - d * x1 * y1 * C * D <> 0).
  { intros Hz. apply Hd. apply (F_cancel (E * G)); [now apply F_mul_nonzero|].
    rewrite Zmod.mul_0_r, <- Hz. field. now split. }
  split; [|assumption]. unfold add_y. field. repeat split; try assumption.
Qed.

Lemma mdiv_cross (a b c e : F) : b <> 0 -> e <> 0 -> a * e = c * b -> Zmod.mdiv a b = Zmod.mdiv c e.
Proof.
  intros Hb He H. apply (F_cancel (b * e)); [now apply F_mul_nonzero|].
  transitivity (a * e); [now field|]. rewrite H. now field.
Qed.

Lemma add_assoc P Q R : add P (add Q R) = add (add P Q) R.
Proof.
  rewrite (add_comm (add P Q) R).
  destruct (denominators P Q) as [A1 A2], (denominators Q R) as [B1 B2].
  destruct (denominators P (add Q R)) as [C1 C2], (denominators R (add P Q)) as [D1 D2].
  pose proof (curve_monomial _ _ (point_on P)) as HP. pose proof (curve_monomial _ _ (point_on Q)) as HQ.
  pose proof (curve_monomial _ _ (point_on R)) as HR.
  destruct P as [x1 y1 ?], Q as [x2 y2 ?], R as [x3 y3 ?].
  unfold add in *; cbn [px py] in *. unfold add_x, add_y in C1, C2, D1, D2.
  destruct (add_x_fractions x1 y1 _ _ _ _ B1 B2 C1) as [X1 N1], (add_x_fractions x3 y3 _ _ _ _ A1 A2 D1) as [X2 N2].
  destruct (add_y_fractions x1 y1 _ _ _ _ B1 B2 C2) as [Y1 M1], (add_y_fractions x3 y3 _ _ _ _ A1 A2 D2) as [Y2 M2].
  apply point_eq; cbn [px py].
  - etransitivity; [exact X1|]. etransitivity; [|symmetry; exact X2]. apply mdiv_cross; [assumption..|]. ring [HP HQ HR].
  - etransitivity; [exact Y1|]. etransitivity; [|symmetry; exact Y2]. apply mdiv_cross; [assumption..|]. ring [HP HQ HR].
Qed.

Lemma add_zero_r P : add P zero = P.
Proof. now rewrite add_comm, add_zero_l. Qed.

Lemma add_neg_l P : add (neg P) P = zero.
Proof. now rewrite add_comm, add_neg_r. Qed.

Lemma add_swap P Q R : add P (add Q R) = add Q (add P R).
Proof. now rewrite !add_assoc, (add_comm P). Qed.

Lemma add_cancel P Q R : add P Q = add P R -> Q = R.
Proof.
  intros H. rewrite <- (add_zero_l Q), <- (add_zero_l R), <- (add_neg_l P), <- !add_assoc. now rewrite H.
Qed.

Lemma neg_unique P Q : add P Q = zero -> Q = neg P.
Proof. intros H. apply (add_cancel P). now rewrite add_neg_r. Qed.

Lemma neg_neg P : neg (neg P) = P.
Proof. symmetry. apply neg_unique, add_neg_l. Qed.

Lemma neg_zero : neg zero = zero.
Proof. symmetry. apply neg_unique, add_zero_l. Qed.

Lemma neg_add P Q : neg (add P Q) = add (neg P) (neg Q).
Proof.
  symmetry. apply neg_unique. now rewrite <- add_assoc, (add_swap Q), add_neg_r, add_zero_r, add_neg_r.
Qed.

(** *** Multiples *)
Fixpoint nmul (n : nat) (P : point) : point :=
  match n with
  | O => zero
  | S n => add P (nmul n P)
  end.

Definition mul (n : Z) (P : point) : point :=
  if (n <? 0)%Z then neg (nmul (Z.to_nat (- n)) P) else nmul (Z.to_nat n) P.

Lemma mul_0 P : mul 0 P = zero.
Proof. reflexivity. Qed.

Lemma mul_succ n P : mul (Z.succ n) P = add P (mul n P).
Proof.
  unfold mul. destruct (Z.ltb_spec n 0) as [Hn|Hn].
  - replace (Z.to_nat (- n)) with (S (Z.to_nat (- Z.succ n))) by lia. cbn [nmul].
    rewrite neg_add, add_assoc, add_neg_r, add_zero_l.
    destruct (Z.ltb_spec (Z.succ n) 0) as [|Hs]; [reflexivity|].
    replace (Z.succ n) with 0%Z by lia. apply (eq_sym neg_zero).
  - rewrite (proj2 (Z.ltb_ge (Z.succ n) 0)) by lia. now rewrite Z2Nat.inj_succ by assumption.
Qed.

Lemma mul_1 P : mul 1 P = P.
Proof. change 1%Z with (Z.succ 0). now rewrite mul_succ, mul_0, add_zero_r. Qed.

Lemma mul_add m n P : mul (m + n) P = add (mul m P) (mul n P).
Proof.
  pattern m. apply Z.bi_induction.
  - intros ? ? ->. reflexivity.
  - now rewrite Z.add_0_l, mul_0, add_zero_l.
  - intros k. rewrite Z.add_succ_l, !mul_succ, <- add_assoc. split; [now intros ->|apply add_cancel].
Qed.

Lemma mul_opp n P : mul (- n) P = neg (mul n P).
Proof. apply neg_unique. rewrite <- mul_add, Z.add_opp_diag_r. apply mul_0. Qed.

Lemma mul_neg n P : mul n (neg P) = neg (mul n P).
Proof.
  pattern n. apply Z.bi_induction.
  - intros ? ? ->. reflexivity.
  - rewrite !mul_0. apply (eq_sym neg_zero).
  - intros k. rewrite !mul_succ, neg_add. split; [now intros ->|apply add_cancel].
Qed.

Lemma mul_point_add n P Q : mul n (add P Q) = add (mul n P) (mul n Q).
Proof.
  pattern n. apply Z.bi_induction.
  - intros ? ? ->. reflexivity.
  - now rewrite !mul_0, add_zero_l.
  - intros k. rewrite !mul_succ, <- (add_assoc P (mul k P)), (add_swap (mul k P) Q), (add_assoc P Q).
    split; [now intros ->|apply add_cancel].
Qed.

Lemma mul_mul m n P : mul (m * n) P = mul m (mul n P).
Proof.
  pattern m. apply Z.bi_induction.
  - intros ? ? ->. reflexivity.
  - reflexivity.
  - intros k. rewrite Z.mul_succ_l, Z.add_comm, mul_add, mul_succ. split; [now intros ->|apply add_cancel].
Qed.

Lemma mul_zero n : mul n zero = zero.
Proof. rewrite <- (mul_0 zero) at 1. now rewrite <- mul_mul, Z.mul_0_r. Qed.

Lemma mul_double n P : mul (2 * n) P = add (mul n P) (mul n P).
Proof. now rewrite <- mul_add, <- Z.add_diag. Qed.
End E.
