(* ===== verification/Field25519.v ===== *)
(** * The field of Ed25519: [crypto/ed25519/internal/edwards25519/edwards25519.go]

    A field element is an array of ten [int32] limbs of alternately 26 and 25 bits.  The
    operations work on bounded limbs, not on reduced numbers; the file proves that they
    do not overflow within the bounds that occur, and that they compute in the integers
    modulo [2^255 - 19]. *)

From Stdlib Require Import Zmod.
From S2P Require Import Prelude Limbs Primes Curve.

Abbreviation FieldElement := (list Z).

Definition FeZero : FieldElement := replicate 10 0.
Definition FeOne : FieldElement := <[0%nat := 1]> FeZero.

Definition FeAdd (a b : FieldElement) : FieldElement := zip_with (λ x y, i32 (x + y)) a b.
Definition FeSub (a b : FieldElement) : FieldElement := zip_with (λ x y, i32 (x - y)) a b.
Definition FeNeg (f : FieldElement) : FieldElement := (λ x, i32 (- x)) <$> f.

(** The new value of [f]. *)
Definition FeCMove (f g : FieldElement) (b : Z) : FieldElement :=
  let b := i32 (- b) in zip_with (λ x y, Z.lxor x (Z.land b (Z.lxor x y))) f g.

Definition byte (x : Z) : Z := x mod 256.

Definition load3 (bs : list Z) : Z :=
  Z.lor (Z.lor (bs !!! 0%nat) (Z.shiftl (bs !!! 1%nat) 8)) (Z.shiftl (bs !!! 2%nat) 16).
Definition load4 (bs : list Z) : Z :=
  Z.lor (load3 bs) (Z.shiftl (bs !!! 3%nat) 24).

(** The carries of [FeCombine], in [int64]. *)
Definition combineSteps : list stmt :=
  [Carry 0 1 (2 ^ 25) 26 1; Carry 4 5 (2 ^ 25) 26 1;
   Carry 1 2 (2 ^ 24) 25 1; Carry 5 6 (2 ^ 24) 25 1;
   Carry 2 3 (2 ^ 25) 26 1; Carry 6 7 (2 ^ 25) 26 1;
   Carry 3 4 (2 ^ 24) 25 1; Carry 7 8 (2 ^ 24) 25 1;
   Carry 4 5 (2 ^ 25) 26 1; Carry 8 9 (2 ^ 25) 26 1;
   Carry 9 0 (2 ^ 24) 25 19;
   Carry 0 1 (2 ^ 25) 26 1].

Definition FeCombine (h : list Z) : FieldElement := i32 <$> run 64 combineSteps h.

Definition FeFromBytes (src : list Z) : FieldElement :=
  FeCombine
    [load4 src;
     Z.shiftl (load3 (drop 4 src)) 6;
     Z.shiftl (load3 (drop 7 src)) 5;
     Z.shiftl (load3 (drop 10 src)) 3;
     Z.shiftl (load3 (drop 13 src)) 2;
     load4 (drop 16 src);
     Z.shiftl (load3 (drop 20 src)) 7;
     Z.shiftl (load3 (drop 23 src)) 5;
     Z.shiftl (load3 (drop 26 src)) 4;
     Z.shiftl (Z.land (load3 (drop 29 src)) 8388607) 2].

(** The quotient by the prime, the carries in [int32], and the bytes of the reduced
    limbs.  [FeToBytes] writes the reduced limbs back through its argument. *)
Definition quotientOf (h : FieldElement) : Z :=
  foldl (λ q xk, Z.shiftr (i32 (xk.1 + q)) xk.2)
    (Z.shiftr (i32 (19 * h !!! 9%nat + 2 ^ 24)) 25)
    (zip h [26; 25; 26; 25; 26; 25; 26; 25; 26; 25]).

Definition toBytesSteps : list stmt :=
  [Carry 0 1 0 26 1; Carry 1 2 0 25 1; Carry 2 3 0 26 1; Carry 3 4 0 25 1; Carry 4 5 0 26 1;
   Carry 5 6 0 25 1; Carry 6 7 0 26 1; Carry 7 8 0 25 1; Carry 8 9 0 26 1; Trim 9 25].

Definition limbBytes (h : FieldElement) : list Z :=
  [byte (Z.shiftr (h !!! 0%nat) 0);
   byte (Z.shiftr (h !!! 0%nat) 8);
   byte (Z.shiftr (h !!! 0%nat) 16);
   byte (Z.lor (Z.shiftr (h !!! 0%nat) 24) (i32 (Z.shiftl (h !!! 1%nat) 2)));
   byte (Z.shiftr (h !!! 1%nat) 6);
   byte (Z.shiftr (h !!! 1%nat) 14);
   byte (Z.lor (Z.shiftr (h !!! 1%nat) 22) (i32 (Z.shiftl (h !!! 2%nat) 3)));
   byte (Z.shiftr (h !!! 2%nat) 5);
   byte (Z.shiftr (h !!! 2%nat) 13);
   byte (Z.lor (Z.shiftr (h !!! 2%nat) 21) (i32 (Z.shiftl (h !!! 3%nat) 5)));
   byte (Z.shiftr (h !!! 3%nat) 3);
   byte (Z.shiftr (h !!! 3%nat) 11);
   byte (Z.lor (Z.shiftr (h !!! 3%nat) 19) (i32 (Z.shiftl (h !!! 4%nat) 6)));
   byte (Z.shiftr (h !!! 4%nat) 2);
   byte (Z.shiftr (h !!! 4%nat) 10);
   byte (Z.shiftr (h !!! 4%nat) 18);
   byte (Z.shiftr (h !!! 5%nat) 0);
   byte (Z.shiftr (h !!! 5%nat) 8);
   byte (Z.shiftr (h !!! 5%nat) 16);
   byte (Z.lor (Z.shiftr (h !!! 5%nat) 24) (i32 (Z.shiftl (h !!! 6%nat) 1)));
   byte (Z.shiftr (h !!! 6%nat) 7);
   byte (Z.shiftr (h !!! 6%nat) 15);
   byte (Z.lor (Z.shiftr (h !!! 6%nat) 23) (i32 (Z.shiftl (h !!! 7%nat) 3)));
   byte (Z.shiftr (h !!! 7%nat) 5);
   byte (Z.shiftr (h !!! 7%nat) 13);
   byte (Z.lor (Z.shiftr (h !!! 7%nat) 21) (i32 (Z.shiftl (h !!! 8%nat) 4)));
   byte (Z.shiftr (h !!! 8%nat) 4);
   byte (Z.shiftr (h !!! 8%nat) 12);
   byte (Z.lor (Z.shiftr (h !!! 8%nat) 20) (i32 (Z.shiftl (h !!! 9%nat) 6)));
   byte (Z.shiftr (h !!! 9%nat) 2);
   byte (Z.shiftr (h !!! 9%nat) 10);
   byte (Z.shiftr (h !!! 9%nat) 18)].

Definition FeToBytes (h : FieldElement) : list Z * FieldElement :=
  let h := run 32 toBytesSteps (add_at 32 h 0 (19 * quotientOf h)) in (limbBytes h, h).

Definition FeIsNegative (f : FieldElement) : Z * FieldElement :=
  let '(s, f) := FeToBytes f in (Z.land (s !!! 0%nat) 1, f).

Definition FeIsNonZero (f : FieldElement) : Z * FieldElement :=
  let '(s, f) := FeToBytes f in
  let x := foldl Z.lor 0 s in
  let x := Z.lor x (Z.shiftr x 4) in
  let x := Z.lor x (Z.shiftr x 2) in
  let x := Z.lor x (Z.shiftr x 1) in
  (Z.land x 1, f).

(** The products of [FeMul]: those by 2 and 19 in [int32], the sums in [int64]. *)
Definition mulLimbs (f g : FieldElement) : list Z :=
  let f0 := f !!! 0%nat in
  let f1 := f !!! 1%nat in
  let f2 := f !!! 2%nat in
  let f3 := f !!! 3%nat in
  let f4 := f !!! 4%nat in
  let f5 := f !!! 5%nat in
  let f6 := f !!! 6%nat in
  let f7 := f !!! 7%nat in
  let f8 := f !!! 8%nat in
  let f9 := f !!! 9%nat in
  let f1_2 := i32 (2 * f !!! 1%nat) in
  let f3_2 := i32 (2 * f !!! 3%nat) in
  let f5_2 := i32 (2 * f !!! 5%nat) in
  let f7_2 := i32 (2 * f !!! 7%nat) in
  let f9_2 := i32 (2 * f !!! 9%nat) in
  let g0 := g !!! 0%nat in
  let g1 := g !!! 1%nat in
  let g2 := g !!! 2%nat in
  let g3 := g !!! 3%nat in
  let g4 := g !!! 4%nat in
  let g5 := g !!! 5%nat in
  let g6 := g !!! 6%nat in
  let g7 := g !!! 7%nat in
  let g8 := g !!! 8%nat in
  let g9 := g !!! 9%nat in
  let g1_19 := i32 (19 * g !!! 1%nat) in
  let g2_19 := i32 (19 * g !!! 2%nat) in
  let g3_19 := i32 (19 * g !!! 3%nat) in
  let g4_19 := i32 (19 * g !!! 4%nat) in
  let g5_19 := i32 (19 * g !!! 5%nat) in
  let g6_19 := i32 (19 * g !!! 6%nat) in
  let g7_19 := i32 (19 * g !!! 7%nat) in
  let g8_19 := i32 (19 * g !!! 8%nat) in
  let g9_19 := i32 (19 * g !!! 9%nat) in
  [i64 (f0 * g0 + f1_2 * g9_19 + f2 * g8_19 + f3_2 * g7_19 + f4 * g6_19 + f5_2 * g5_19 + f6 * g4_19 + f7_2
     * g3_19 + f8 * g2_19 + f9_2 * g1_19);
   i64 (f0 * g1 + f1 * g0 + f2 * g9_19 + f3 * g8_19 + f4 * g7_19 + f5 * g6_19 + f6 * g5_19 + f7 * g4_19 +
     f8 * g3_19 + f9 * g2_19);
   i64 (f0 * g2 + f1_2 * g1 + f2 * g0 + f3_2 * g9_19 + f4 * g8_19 + f5_2 * g7_19 + f6 * g6_19 + f7_2 *
     g5_19 + f8 * g4_19 + f9_2 * g3_19);
   i64 (f0 * g3 + f1 * g2 + f2 * g1 + f3 * g0 + f4 * g9_19 + f5 * g8_19 + f6 * g7_19 + f7 * g6_19 + f8 *
     g5_19 + f9 * g4_19);
   i64 (f0 * g4 + f1_2 * g3 + f2 * g2 + f3_2 * g1 + f4 * g0 + f5_2 * g9_19 + f6 * g8_19 + f7_2 * g7_19 + f8
     * g6_19 + f9_2 * g5_19);
   i64 (f0 * g5 + f1 * g4 + f2 * g3 + f3 * g2 + f4 * g1 + f5 * g0 + f6 * g9_19 + f7 * g8_19 + f8 * g7_19 +
     f9 * g6_19);
   i64 (f0 * g6 + f1_2 * g5 + f2 * g4 + f3_2 * g3 + f4 * g2 + f5_2 * g1 + f6 * g0 + f7_2 * g9_19 + f8 *
     g8_19 + f9_2 * g7_19);
   i64 (f0 * g7 + f1 * g6 + f2 * g5 + f3 * g4 + f4 * g3 + f5 * g2 + f6 * g1 + f7 * g0 + f8 * g9_19 + f9 *
     g8_19);
   i64 (f0 * g8 + f1_2 * g7 + f2 * g6 + f3_2 * g5 + f4 * g4 + f5_2 * g3 + f6 * g2 + f7_2 * g1 + f8 * g0 +
     f9_2 * g9_19);
   i64 (f0 * g9 + f1 * g8 + f2 * g7 + f3 * g6 + f4 * g5 + f5 * g4 + f6 * g3 + f7 * g2 + f8 * g1 + f9 * g0)].

Definition FeMul (f g : FieldElement) : FieldElement := FeCombine (mulLimbs f g).

Definition feSquare (f : FieldElement) : list Z :=
  let f0 := f !!! 0%nat in
  let f1 := f !!! 1%nat in
  let f2 := f !!! 2%nat in
  let f3 := f !!! 3%nat in
  let f4 := f !!! 4%nat in
  let f5 := f !!! 5%nat in
  let f6 := f !!! 6%nat in
  let f7 := f !!! 7%nat in
  let f8 := f !!! 8%nat in
  let f9 := f !!! 9%nat in
  let f0_2 := i32 (2 * f !!! 0%nat) in
  let f1_2 := i32 (2 * f !!! 1%nat) in
  let f2_2 := i32 (2 * f !!! 2%nat) in
  let f3_2 := i32 (2 * f !!! 3%nat) in
  let f4_2 := i32 (2 * f !!! 4%nat) in
  let f5_2 := i32 (2 * f !!! 5%nat) in
  let f6_2 := i32 (2 * f !!! 6%nat) in
  let f7_2 := i32 (2 * f !!! 7%nat) in
  let f5_38 := i64 (38 * f5) in
  let f6_19 := i64 (19 * f6) in
  let f7_38 := i64 (38 * f7) in
  let f8_19 := i64 (19 * f8) in
  let f9_38 := i64 (38 * f9) in
  [i64 (f0 * f0 + f1_2 * f9_38 + f2_2 * f8_19 + f3_2 * f7_38 + f4_2 * f6_19 + f5 * f5_38);
   i64 (f0_2 * f1 + f2 * f9_38 + f3_2 * f8_19 + f4 * f7_38 + f5_2 * f6_19);
   i64 (f0_2 * f2 + f1_2 * f1 + f3_2 * f9_38 + f4_2 * f8_19 + f5_2 * f7_38 + f6 * f6_19);
   i64 (f0_2 * f3 + f1_2 * f2 + f4 * f9_38 + f5_2 * f8_19 + f6 * f7_38);
   i64 (f0_2 * f4 + f1_2 * f3_2 + f2 * f2 + f5_2 * f9_38 + f6_2 * f8_19 + f7 * f7_38);
   i64 (f0_2 * f5 + f1_2 * f4 + f2_2 * f3 + f6 * f9_38 + f7_2 * f8_19);
   i64 (f0_2 * f6 + f1_2 * f5_2 + f2_2 * f4 + f3_2 * f3 + f7_2 * f9_38 + f8 * f8_19);
   i64 (f0_2 * f7 + f1_2 * f6 + f2_2 * f5 + f3_2 * f4 + f8 * f9_38);
   i64 (f0_2 * f8 + f1_2 * f7_2 + f2_2 * f6 + f3_2 * f5_2 + f4 * f4 + f9 * f9_38);
   i64 (f0_2 * f9 + f1_2 * f8 + f2_2 * f7 + f3_2 * f6 + f4_2 * f5)].

Definition FeSquare (f : FieldElement) : FieldElement := FeCombine (feSquare f).
Definition FeSquare2 (f : FieldElement) : FieldElement := FeCombine ((λ x, i64 (x + x)) <$> feSquare f).

Definition squareN (n : nat) (f : FieldElement) : FieldElement := Nat.iter n FeSquare f.

Definition FeInvert (z : FieldElement) : FieldElement :=
  let t0 := FeSquare z in
  let t1 := squareN 1 (FeSquare t0) in
  let t1 := FeMul z t1 in
  let t0 := FeMul t0 t1 in
  let t2 := FeSquare t0 in
  let t1 := FeMul t1 t2 in
  let t2 := squareN 4 (FeSquare t1) in
  let t1 := FeMul t2 t1 in
  let t2 := squareN 9 (FeSquare t1) in
  let t2 := FeMul t2 t1 in
  let t3 := squareN 19 (FeSquare t2) in
  let t2 := FeMul t3 t2 in
  let t2 := squareN 9 (FeSquare t2) in
  let t1 := FeMul t2 t1 in
  let t2 := squareN 49 (FeSquare t1) in
  let t2 := FeMul t2 t1 in
  let t3 := squareN 99 (FeSquare t2) in
  let t2 := FeMul t3 t2 in
  let t2 := squareN 49 (FeSquare t2) in
  let t1 := FeMul t2 t1 in
  let t1 := squareN 4 (FeSquare t1) in
  FeMul t1 t0.

Definition fePow22523 (z : FieldElement) : FieldElement :=
  let t0 := squareN 0 (FeSquare z) in
  let t1 := squareN 1 (FeSquare t0) in
  let t1 := FeMul z t1 in
  let t0 := FeMul t0 t1 in
  let t0 := squareN 0 (FeSquare t0) in
  let t0 := FeMul t1 t0 in
  let t1 := squareN 4 (FeSquare t0) in
  let t0 := FeMul t1 t0 in
  let t1 := squareN 9 (FeSquare t0) in
  let t1 := FeMul t1 t0 in
  let t2 := squareN 19 (FeSquare t1) in
  let t1 := FeMul t2 t1 in
  let t1 := squareN 9 (FeSquare t1) in
  let t0 := FeMul t1 t0 in
  let t1 := squareN 49 (FeSquare t0) in
  let t1 := FeMul t1 t0 in
  let t2 := squareN 99 (FeSquare t1) in
  let t1 := FeMul t2 t1 in
  let t1 := squareN 49 (FeSquare t1) in
  let t0 := FeMul t1 t0 in
  let t0 := squareN 1 (FeSquare t0) in
  FeMul t0 z.

(** ** Bounds and values *)

(** Limbs of [k] times the size of a reduced element. *)
Definition limbRanges (k : Z) : list (Z * Z) :=
  let a := (- (k * 33600000), k * 33600000) in let b := (- (k * 16850000), k * 16850000) in
  [a; b; a; b; a; b; a; b; a; b].

Definition bounded (k : Z) (f : FieldElement) : Prop := Forall2 within_range f (limbRanges k).

Definition radix : list Z := Eval vm_compute in
  [2 ^ 0; 2 ^ 26; 2 ^ 51; 2 ^ 77; 2 ^ 102; 2 ^ 128; 2 ^ 153; 2 ^ 179; 2 ^ 204; 2 ^ 230].

Definition feZ (f : FieldElement) : Z := eval radix f.
Definition feF (f : FieldElement) : F := toF (feZ f).

Ltac fe_limbs H :=
  unfold bounded, limbRanges in H;
  repeat match type of H with
  | Forall2 _ _ (_ :: _) =>
      let x := fresh "x" in let l := fresh "l" in let Hx := fresh "Hx" in let E := fresh "E" in
      apply Forall2_cons_inv_r in H as (x & l & Hx & H & E); subst; unfold within_range in Hx; cbn [fst snd] in Hx
  | Forall2 _ _ [] => apply Forall2_nil_inv_r in H; subst
  end.

Lemma divide_toF a b : (p25519 | a - b) → toF a = toF b.
Proof.
  intros [c Hc]. apply of_Z_congr. replace a with (b + c * p25519) by lia. apply Z.mod_add. done.
Qed.

Lemma i32_map_id k f : k ≤ 60 → bounded k f → i32 <$> f = f.
Proof.
  intros Hk Hf. fe_limbs Hf. cbn [fmap list_fmap]. repeat f_equal; apply signed_small; lia.
Qed.

Lemma FeCombine_spec h :
  length h = 10%nat → Forall (λ x, - 2 ^ 62 ≤ x ≤ 2 ^ 62) h →
  bounded 1 (FeCombine h) ∧ feF (FeCombine h) = toF (eval radix h).
Proof.
  intros Hl Hh.
  assert (Hr : Forall2 within_range h (replicate 10 (- 2 ^ 62, 2 ^ 62))).
  { rewrite <- Hl. apply Forall2_replicate_r; [done|]. revert Hh. apply Forall_impl. intros x Hx. exact Hx. }
  destruct (arun 64 combineSteps (replicate 10 (- 2 ^ 62, 2 ^ 62))) as [rs|] eqn:Ha; [|vm_compute in Ha; done].
  destruct (run_sound 64 ltac:(lia) p25519 radix combineSteps h (replicate 10 (- 2 ^ 62, 2 ^ 62)) rs) as [Hrs Hd];
    [by rewrite Hl|done|done|vm_compute; reflexivity|].
  assert (Hb : bounded 1 (run 64 combineSteps h)).
  { vm_compute in Ha. injection Ha as <-. revert Hrs. generalize (run 64 combineSteps h). clear. intros f Hf.
    fe_limbs Hf. unfold bounded, limbRanges. repeat constructor; unfold within_range; cbn [fst snd]; lia. }
  unfold FeCombine. rewrite (i32_map_id 1) by (done || lia). split; [done|].
  unfold feF, feZ. by apply divide_toF.
Qed.

Lemma mul_bound a b x y : - a ≤ x ≤ a → - b ≤ y ≤ b → - (a * b) ≤ x * y ≤ a * b.
Proof. nia. Qed.

Lemma sum_bound a b x y : - a ≤ x ≤ a → - b ≤ y ≤ b → - (a + b) ≤ x + y ≤ a + b.
Proof. lia. Qed.

Lemma const_bound c : 0 ≤ c → - c ≤ c ≤ c.
Proof. lia. Qed.

Lemma i64_bounded B e : - B ≤ e ≤ B → (B <=? 2 ^ 61) = true → i64 e = e ∧ - 2 ^ 61 ≤ e ≤ 2 ^ 61.
Proof.
  intros He HB%Z.leb_le. split; [|lia]. change (signed 64 e = e). apply signed_small; lia.
Qed.

(** Bounds of sums of products from the bounds of the limbs. *)
Ltac abs_bound :=
  lazymatch goal with
  | |- - _ ≤ _ + _ ≤ _ => eapply sum_bound; abs_bound
  | |- - _ ≤ _ * _ ≤ _ => eapply mul_bound; abs_bound
  | |- _ => first [eassumption | apply const_bound; lia]
  end.

Ltac no_overflow :=
  repeat match goal with
  | |- context [i64 ?e] =>
      let H := fresh "Hi" in
      assert (H : i64 e = e ∧ - 2 ^ 61 ≤ e ≤ 2 ^ 61) by (eapply i64_bounded; [abs_bound|vm_compute; reflexivity]);
      destruct H as [-> H]
  end.

(** The part of a product at [2^255] and above. *)
Definition highPart (f g : FieldElement) : Z :=
  match f, g with
  | [x0; x1; x2; x3; x4; x5; x6; x7; x8; x9], [y0; y1; y2; y3; y4; y5; y6; y7; y8; y9] =>
      2 ^ 1 * (x1 * y9) + 2 ^ 0 * (x2 * y8) + 2 ^ 26 * (x2 * y9) + 2 ^ 1 * (x3 * y7) + 2 ^ 26 * (x3 * y8)
      + 2 ^ 52 * (x3 * y9) + 2 ^ 0 * (x4 * y6) + 2 ^ 26 * (x4 * y7) + 2 ^ 51 * (x4 * y8) + 2 ^ 77 * (x4 *
      y9) + 2 ^ 1 * (x5 * y5) + 2 ^ 26 * (x5 * y6) + 2 ^ 52 * (x5 * y7) + 2 ^ 77 * (x5 * y8) + 2 ^ 103 *
      (x5 * y9) + 2 ^ 0 * (x6 * y4) + 2 ^ 26 * (x6 * y5) + 2 ^ 51 * (x6 * y6) + 2 ^ 77 * (x6 * y7) + 2 ^
      102 * (x6 * y8) + 2 ^ 128 * (x6 * y9) + 2 ^ 1 * (x7 * y3) + 2 ^ 26 * (x7 * y4) + 2 ^ 52 * (x7 * y5)
      + 2 ^ 77 * (x7 * y6) + 2 ^ 103 * (x7 * y7) + 2 ^ 128 * (x7 * y8) + 2 ^ 154 * (x7 * y9) + 2 ^ 0 * (x8
      * y2) + 2 ^ 26 * (x8 * y3) + 2 ^ 51 * (x8 * y4) + 2 ^ 77 * (x8 * y5) + 2 ^ 102 * (x8 * y6) + 2 ^ 128
      * (x8 * y7) + 2 ^ 153 * (x8 * y8) + 2 ^ 179 * (x8 * y9) + 2 ^ 1 * (x9 * y1) + 2 ^ 26 * (x9 * y2) + 2
      ^ 52 * (x9 * y3) + 2 ^ 77 * (x9 * y4) + 2 ^ 103 * (x9 * y5) + 2 ^ 128 * (x9 * y6) + 2 ^ 154 * (x9 *
      y7) + 2 ^ 179 * (x9 * y8) + 2 ^ 205 * (x9 * y9)
  | _, _ => 0
  end.

Ltac no_wrap :=
  repeat match goal with
  | |- context [signed 32 ?e] => rewrite (signed_small 32 e) by lia
  end.

(** Without overflow, the sums are those of the integers. *)
Lemma mulLimbs_spec f g : bounded 3 f → bounded 3 g →
  length (mulLimbs f g) = 10%nat ∧ Forall (λ x, - 2 ^ 61 ≤ x ≤ 2 ^ 61) (mulLimbs f g) ∧
  eval radix (mulLimbs f g) = feZ f * feZ g - highPart f g * p25519.
Proof.
  intros Hf Hg. fe_limbs Hf. fe_limbs Hg. unfold mulLimbs. cbn [lookup_total list_lookup_total].
  no_wrap. no_overflow. split; [done|]. split; [repeat (constructor; [assumption|]); constructor|].
  unfold feZ, radix, p25519, highPart. cbn [eval]. ring.
Qed.

Lemma feSquare_spec f : bounded 3 f →
  length (feSquare f) = 10%nat ∧ Forall (λ x, - 2 ^ 61 ≤ x ≤ 2 ^ 61) (feSquare f) ∧
  eval radix (feSquare f) = feZ f * feZ f - highPart f f * p25519.
Proof.
  intros Hf. fe_limbs Hf. unfold feSquare. cbn [lookup_total list_lookup_total].
  no_wrap. no_overflow. split; [done|]. split; [repeat (constructor; [assumption|]); constructor|].
  unfold feZ, radix, p25519, highPart. cbn [eval]. ring.
Qed.

Lemma toF_high x h : toF (x - h * p25519) = toF x.
Proof. apply divide_toF. exists (- h). lia. Qed.

Lemma weaken_limbs h : Forall (λ x, - 2 ^ 61 ≤ x ≤ 2 ^ 61) h → Forall (λ x, - 2 ^ 62 ≤ x ≤ 2 ^ 62) h.
Proof. apply Forall_impl. intros; lia. Qed.

Lemma FeMul_spec f g : bounded 3 f → bounded 3 g →
  bounded 1 (FeMul f g) ∧ feF (FeMul f g) = Zmod.mul (feF f) (feF g).
Proof.
  intros Hf Hg. destruct (mulLimbs_spec f g Hf Hg) as (Hl & Hb & He). unfold FeMul.
  destruct (FeCombine_spec _ Hl (weaken_limbs _ Hb)) as [Hr Hv]. split; [done|].
  rewrite Hv, He, toF_high. apply Zmod.of_Z_mul.
Qed.

Lemma FeSquare_spec f : bounded 3 f →
  bounded 1 (FeSquare f) ∧ feF (FeSquare f) = Zmod.mul (feF f) (feF f).
Proof.
  intros Hf. destruct (feSquare_spec f Hf) as (Hl & Hb & He). unfold FeSquare.
  destruct (FeCombine_spec _ Hl (weaken_limbs _ Hb)) as [Hr Hv]. split; [done|].
  rewrite Hv, He, toF_high. apply Zmod.of_Z_mul.
Qed.

Lemma eval_double ws h : eval ws ((λ x, x + x) <$> h) = eval ws h + eval ws h.
Proof. revert h. induction ws as [|c ws IH]; intros [|x h]; cbn [eval fmap list_fmap]; [done..|]. rewrite IH. lia. Qed.

Lemma FeSquare2_spec f : bounded 3 f →
  bounded 1 (FeSquare2 f) ∧ feF (FeSquare2 f) = Zmod.mul (toF 2) (Zmod.mul (feF f) (feF f)).
Proof.
  intros Hf. destruct (feSquare_spec f Hf) as (Hl & Hb & He). unfold FeSquare2.
  assert (Hd : (λ x, i64 (x + x)) <$> feSquare f = (λ x, x + x) <$> feSquare f).
  { apply list_fmap_ext. intros i x Hx. rewrite list.Forall_forall in Hb. apply list_elem_of_lookup_2, Hb in Hx.
    change (signed 64 (x + x) = x + x). apply signed_small; lia. }
  rewrite Hd. destruct (FeCombine_spec ((λ x, x + x) <$> feSquare f)) as [Hr Hv].
  - by rewrite length_fmap.
  - apply Forall_fmap. revert Hb. apply Forall_impl. intros x Hx. cbn. lia.
  - split; [done|]. rewrite Hv, eval_double, He, Z.add_diag, Zmod.of_Z_mul, toF_high, Zmod.of_Z_mul. done.
Qed.

Lemma FeAdd_spec a b f g : 0 ≤ a → 0 ≤ b → a + b ≤ 60 → bounded a f → bounded b g →
  bounded (a + b) (FeAdd f g) ∧ feF (FeAdd f g) = Zmod.add (feF f) (feF g).
Proof.
  intros Ha Hb Hab Hf Hg. fe_limbs Hf. fe_limbs Hg. unfold FeAdd. cbn [zip_with]. no_wrap. split.
  - unfold bounded, limbRanges. repeat (constructor; [unfold within_range; cbn [fst snd]; lia|]). constructor.
  - unfold feF. rewrite <- Zmod.of_Z_add. f_equal. unfold feZ, radix. cbn [eval]. ring.
Qed.

Lemma FeSub_spec a b f g : 0 ≤ a → 0 ≤ b → a + b ≤ 60 → bounded a f → bounded b g →
  bounded (a + b) (FeSub f g) ∧ feF (FeSub f g) = Zmod.sub (feF f) (feF g).
Proof.
  intros Ha Hb Hab Hf Hg. fe_limbs Hf. fe_limbs Hg. unfold FeSub. cbn [zip_with]. no_wrap. split.
  - unfold bounded, limbRanges. repeat (constructor; [unfold within_range; cbn [fst snd]; lia|]). constructor.
  - unfold feF. rewrite <- Zmod.of_Z_sub. f_equal. unfold feZ, radix. cbn [eval]. ring.
Qed.

Lemma FeNeg_spec a f : 0 ≤ a ≤ 60 → bounded a f →
  bounded a (FeNeg f) ∧ feF (FeNeg f) = Zmod.opp (feF f).
Proof.
  intros Ha Hf. fe_limbs Hf. unfold FeNeg. cbn [fmap list_fmap]. no_wrap. split.
  - unfold bounded, limbRanges. repeat (constructor; [unfold within_range; cbn [fst snd]; lia|]). constructor.
  - unfold feF. rewrite <- Zmod.of_Z_opp. f_equal. unfold feZ, radix. cbn [eval]. ring.
Qed.

Lemma bounded_weaken a b f : 0 ≤ a ≤ b → bounded a f → bounded b f.
Proof.
  intros Hab Hf. fe_limbs Hf. unfold bounded, limbRanges.
  repeat (constructor; [unfold within_range; cbn [fst snd]; lia|]). constructor.
Qed.

Lemma FeZero_spec : bounded 1 FeZero ∧ feF FeZero = Zmod.zero.
Proof.
  split; [|reflexivity]. unfold bounded, limbRanges, FeZero. cbn [replicate].
  repeat (constructor; [unfold within_range; cbn [fst snd]; lia|]). constructor.
Qed.

Lemma FeOne_spec : bounded 1 FeOne ∧ feF FeOne = Zmod.one.
Proof.
  split; [|reflexivity]. unfold bounded, limbRanges, FeOne, FeZero. cbn.
  repeat (constructor; [unfold within_range; cbn [fst snd]; lia|]). constructor.
Qed.

(** A conditional move takes one of the two elements. *)
Lemma FeCMove_spec f g (b : bool) : length f = length g →
  FeCMove f g (if b then 1 else 0) = if b then g else f.
Proof.
  unfold FeCMove. revert g. induction f as [|x f IH]; intros [|y g] Hl; try done; [by destruct b|].
  cbn [zip_with]. rewrite IH by (cbn in Hl; lia). destruct b; f_equal.
  - change (i32 (- 1)) with (-1). by rewrite Z.land_m1_l, <- Z.lxor_assoc, Z.lxor_nilpotent, Z.lxor_0_l.
  - change (i32 (- 0)) with 0. by rewrite Z.land_0_l, Z.lxor_0_r.
Qed.

(** ** Bytes *)
Lemma lor_shift a b k : 0 ≤ k → 0 ≤ a < 2 ^ k → Z.lor a (Z.shiftl b k) = a + b * 2 ^ k.
Proof.
  intros Hk Ha. rewrite <- Z.shiftl_mul_pow2 by done.
  assert (Hl : Z.land a (Z.shiftl b k) = 0).
  { apply Z.bits_inj'. intros n Hn. rewrite Z.land_spec, Z.bits_0, Z.shiftl_spec by done.
    destruct (Z.lt_ge_cases n k) as [Hlt|Hge]; [rewrite (Z.testbit_neg_r b), andb_false_r by lia; done|].
    replace a with (a mod 2 ^ k) by (apply Z.mod_small; lia). by rewrite Z.mod_pow2_bits_high by lia. }
  by rewrite Z.add_nocarry_lxor, Z.lxor_lor.
Qed.

Lemma load3_spec b0 b1 b2 bs : is_byte b0 → is_byte b1 → is_byte b2 →
  load3 (b0 :: b1 :: b2 :: bs) = b0 + 256 * b1 + 65536 * b2.
Proof.
  unfold is_byte. intros. unfold load3. cbn [lookup_total list_lookup_total].
  rewrite (lor_shift b0), lor_shift by lia. lia.
Qed.

Lemma load4_spec b0 b1 b2 b3 bs : is_byte b0 → is_byte b1 → is_byte b2 → is_byte b3 →
  load4 (b0 :: b1 :: b2 :: b3 :: bs) = b0 + 256 * b1 + 65536 * b2 + 16777216 * b3.
Proof.
  unfold is_byte. intros. unfold load4. rewrite load3_spec by done. cbn [lookup_total list_lookup_total].
  rewrite lor_shift by lia. lia.
Qed.

Ltac destruct_bytes Hl Hb :=
  repeat match type of Hl with
  | length ?l = S _ =>
      let b := fresh "b" in destruct l as [|b l]; [done|]; cbn [length] in Hl; apply (f_equal pred) in Hl; cbn [pred] in Hl;
      let H := fresh "Hb" in apply Forall_cons_iff in Hb as [H Hb]; unfold is_byte in H
  | length ?l = O => apply nil_length_inv in Hl; subst l
  end.

Lemma FeFromBytes_spec src : length src = 32%nat → Forall is_byte src →
  bounded 1 (FeFromBytes src) ∧ feF (FeFromBytes src) = toF (le_combine src mod 2 ^ 255).
Proof.
  intros Hl Hb. destruct_bytes Hl Hb. unfold FeFromBytes. cbn [drop].
  rewrite !load4_spec, !load3_spec by done. rewrite !Z.shiftl_mul_pow2 by lia.
  change 8388607 with (Z.ones 23). rewrite Z.land_ones by lia.
  match goal with |- context [FeCombine ?l] => destruct (FeCombine_spec l) as [H1 H2] end; [done| |].
  - repeat (constructor; [lia|]). constructor; [|constructor].
    match goal with |- context [?x mod 2 ^ 23] => pose proof (Z.mod_pos_bound x (2 ^ 23) ltac:(lia)) end. lia.
  - split; [exact H1|]. rewrite H2. f_equal. unfold radix. cbn [eval le_combine].
    pose proof (Z.div_mod b30 128 ltac:(lia)) as Hd. pose proof (Z.mod_pos_bound b30 128 ltac:(lia)) as Hm.
    assert (E : (b28 + 256 * b29 + 65536 * b30) mod 2 ^ 23 = b28 + 256 * b29 + 65536 * (b30 mod 128)).
    { symmetry. apply (Z.mod_unique _ _ (b30 / 128)); [left|]; lia. }
    rewrite E. apply (Z.mod_unique _ _ (b30 / 128)); [left; lia|].
    generalize dependent (b30 / 128). generalize dependent (b30 mod 128). intros. subst. ring.
Qed.

Lemma shiftr32 y k : 0 ≤ k → - 2 ^ 31 ≤ y < 2 ^ 31 →
  ∃ q r, Z.shiftr (i32 y) k = q ∧ y = 2 ^ k * q + r ∧ 0 ≤ r < 2 ^ k.
Proof.
  intros Hk Hy. rewrite signed_small, Z.shiftr_div_pow2 by lia. exists (y / 2 ^ k), (y mod 2 ^ k).
  split_and!; [done|apply Z.div_mod; lia|apply Z.mod_pos_bound; lia..].
Qed.

(** The chain of shifts gives the quotient by the prime. *)
Lemma quotientOf_spec h : bounded 3 h →
  quotientOf h = feZ h / p25519 ∧ -16 ≤ quotientOf h ≤ 16.
Proof.
  intros Hh. fe_limbs Hh. unfold quotientOf. cbn [lookup_total list_lookup_total zip zip_with foldl fst snd].
  unfold feZ, radix. cbn [eval].
  do 11 (match goal with
  | |- context [Z.shiftr (i32 ?y) ?k] =>
      lazymatch y with context [i32 _] => fail | _ => idtac end;
      let q := fresh "q" in let r := fresh "r" in let E := fresh "E" in let R := fresh "R" in
      destruct (shiftr32 y k ltac:(lia) ltac:(lia)) as (q & r & -> & E & R)
  end).
  split; [|lia]. apply (Z.div_unique _ _ _ (feZ [x; x0; x1; x2; x3; x4; x5; x6; x7; x8] - p25519 * q9)).
  - left. unfold p25519, feZ, radix. cbn [eval]. lia.
  - unfold feZ, radix. cbn [eval]. lia.
Qed.

(** The ranges of reduced limbs. *)
Definition reducedRanges : list (Z * Z) :=
  let a := (0, 2 ^ 26 - 1) in let b := (0, 2 ^ 25 - 1) in [a; b; a; b; a; b; a; b; a; b].

Lemma reduced_value h : Forall2 within_range h reducedRanges → 0 ≤ feZ h < 2 ^ 255 ∧ bounded 2 h.
Proof.
  intros Hh. unfold reducedRanges in Hh. fe_limbs Hh. split.
  - unfold feZ, radix. cbn [eval]. lia.
  - unfold bounded, limbRanges. repeat (constructor; [unfold within_range; cbn [fst snd]; lia|]). constructor.
Qed.

Lemma byte_shiftr x k : 0 ≤ k → byte (Z.shiftr x k) = (x / 2 ^ k) mod 256.
Proof. intros. unfold byte. by rewrite Z.shiftr_div_pow2. Qed.

Lemma signed_byte w x : 8 ≤ w → byte (signed w x) = byte x.
Proof.
  intros Hw. unfold byte, signed. assert (E : x mod 2 ^ w mod 256 = x mod 256).
  { apply Z.mod_mod_divide. exists (2 ^ (w - 8)). change 256 with (2 ^ 8). rewrite <- Z.pow_add_r by lia. f_equal. lia. }
  destruct (_ <? _); [done|]. rewrite <- E. replace (2 ^ w) with (2 ^ (w - 8) * 256) at 2.
  - by rewrite Zminus_mod, Z.mod_mul, Z.sub_0_r, Z.mod_mod by lia.
  - change 256 with (2 ^ 8). rewrite <- Z.pow_add_r by lia. f_equal. lia.
Qed.

Lemma byte_lor a b : byte (Z.lor a b) = Z.lor (byte a) (byte b).
Proof.
  unfold byte. change 256 with (2 ^ 8). rewrite <- !Z.land_ones by lia. apply Z.land_lor_distr_l.
Qed.

(** A byte at the border of two limbs. *)
Lemma byte_join w x y k m : 8 ≤ w → 0 ≤ k → 0 ≤ m ≤ 8 → 0 ≤ x < 2 ^ (k + m) →
  byte (Z.lor (Z.shiftr x k) (signed w (Z.shiftl y m))) = x / 2 ^ k + 2 ^ m * (y mod 2 ^ (8 - m)).
Proof.
  intros Hw Hk Hm Hx. rewrite byte_lor, signed_byte, <- byte_lor, Z.shiftr_div_pow2 by done.
  assert (Hq : 0 ≤ x / 2 ^ k < 2 ^ m).
  { split; [apply Z.div_pos; lia|]. apply Z.div_lt_upper_bound; [lia|]. rewrite <- Z.pow_add_r by lia. lia. }
  rewrite lor_shift by lia. unfold byte. replace 256 with (2 ^ m * 2 ^ (8 - m)).
  2: { rewrite <- Z.pow_add_r by lia. by replace (m + (8 - m)) with 8 by lia. }
  pose proof (Z.mod_pos_bound y (2 ^ (8 - m)) ltac:(lia)) as Hy. pose proof (Z.div_mod y (2 ^ (8 - m)) ltac:(lia)) as Hd.
  symmetry. apply (Z.mod_unique _ _ (y / 2 ^ (8 - m))); [left; nia|nia].
Qed.

(** The bytes of a limb between its borders. *)
Lemma limb_split x a : 0 ≤ a →
  x = x mod 2 ^ a + 2 ^ a * ((x / 2 ^ a) mod 256) + 2 ^ (a + 8) * ((x / 2 ^ (a + 8)) mod 256) + 2 ^ (a + 16) * (x / 2 ^ (a + 16)).
Proof.
  intros Ha. assert (E : ∀ b, 0 ≤ b → x / 2 ^ b = (x / 2 ^ b) mod 256 + 256 * (x / 2 ^ (b + 8))).
  { intros b Hb. rewrite Z.pow_add_r, <- Z.div_div by lia. change (2 ^ 8) with 256.
    rewrite Z.add_comm. apply Z.div_mod. done. }
  pose proof (E a Ha) as E1. pose proof (E (a + 8) ltac:(lia)) as E2. replace (a + 8 + 8) with (a + 16) in E2 by lia.
  pose proof (Z.div_mod x (2 ^ a) ltac:(lia)) as E0.
  generalize dependent (x / 2 ^ a). intros q0. generalize (q0 mod 256). intros b0 E1 E0.
  generalize dependent (x / 2 ^ (a + 8)). intros q1. generalize (q1 mod 256). intros b1 E2 E1.
  generalize dependent (x / 2 ^ (a + 16)). intros q2 E2. rewrite !Z.pow_add_r by lia. change (2 ^ 8) with 256. change (2 ^ 16) with 65536.
  rewrite E0 at 1. rewrite E1, E2. ring.
Qed.

Lemma le_bytes_le_combine bs : Forall is_byte bs → le_bytes (length bs) (le_combine bs) = bs.
Proof.
  induction 1 as [|b bs Hb _ IH]; [done|]. cbn [length le_bytes le_combine]. unfold is_byte in Hb.
  rewrite (Z.mul_comm 256), Z.mod_add, Z.div_add, Z.mod_small, Z.div_small by lia. by rewrite Z.add_0_l, IH.
Qed.

Ltac norm_pow :=
  repeat match goal with
  | |- context [2 ^ ?e] => let v := eval vm_compute in (2 ^ e) in change (2 ^ e) with v
  | H : context [2 ^ ?e] |- _ => let v := eval vm_compute in (2 ^ e) in change (2 ^ e) with v in H
  end.

Lemma limbBytes_spec h : Forall2 within_range h reducedRanges → limbBytes h = le_bytes 32 (feZ h).
Proof.
  intros Hh. unfold reducedRanges in Hh. fe_limbs Hh.
  assert (Hb : Forall is_byte (limbBytes [x; x0; x1; x2; x3; x4; x5; x6; x7; x8])).
  { unfold limbBytes. repeat (constructor; [apply Z.mod_pos_bound; lia|]). constructor. }
  rewrite <- (le_bytes_le_combine _ Hb). change (length _) with 32%nat. f_equal.
  unfold limbBytes, feZ, radix. cbn [lookup_total list_lookup_total eval le_combine].
  rewrite !byte_join by (try lia; cbn; lia). rewrite !byte_shiftr by lia.
  pose proof (limb_split x 8 ltac:(lia)) as S0. pose proof (limb_split x0 6 ltac:(lia)) as S1.
  pose proof (limb_split x1 5 ltac:(lia)) as S2. pose proof (limb_split x2 3 ltac:(lia)) as S3.
  pose proof (limb_split x3 2 ltac:(lia)) as S4. pose proof (limb_split x4 8 ltac:(lia)) as S5.
  pose proof (limb_split x5 7 ltac:(lia)) as S6. pose proof (limb_split x6 5 ltac:(lia)) as S7.
  pose proof (limb_split x7 4 ltac:(lia)) as S8. pose proof (limb_split x8 2 ltac:(lia)) as S9.
  rewrite (Z.mod_small (x3 / 2 ^ 18)), (Z.mod_small (x8 / 2 ^ 18)) by (split; [apply Z.div_pos|apply Z.div_lt_upper_bound]; lia).
  clear -S0 S1 S2 S3 S4 S5 S6 S7 S8 S9. norm_pow. rewrite !Z.div_1_r. lia.
Qed.

Lemma toBytes_limbs h q : bounded 3 h → -16 ≤ q ≤ 16 →
  let h' := run 32 toBytesSteps (add_at 32 h 0 (19 * q)) in
  Forall2 within_range h' reducedRanges ∧ (2 ^ 255 | feZ h' - (feZ h + 19 * q)).
Proof.
  intros Hh Hq. cbn zeta.
  set (rs0 := <[0%nat := (-101000000, 101000000)]> (limbRanges 3)).
  assert (Hr : Forall2 within_range (add_at 32 h 0 (19 * q)) rs0 ∧ feZ (add_at 32 h 0 (19 * q)) = feZ h + 19 * q).
  { fe_limbs Hh. unfold add_at, rs0, limbRanges. cbn. no_wrap. split.
    - repeat (constructor; [unfold within_range; cbn [fst snd]; lia|]). constructor.
    - unfold feZ, radix. cbn [eval]. lia. }
  destruct Hr as [Hr <-].
  destruct (arun 32 toBytesSteps rs0) as [rs|] eqn:Ha; [|vm_compute in Ha; done].
  destruct (run_sound 32 ltac:(lia) (2 ^ 255) radix toBytesSteps (add_at 32 h 0 (19 * q)) rs0 rs) as [Hrs Hd];
    [|done|done|vm_compute; reflexivity|].
  { pose proof (Forall2_length Hr) as Hl. rewrite Hl. done. }
  split; [|done]. vm_compute in Ha. injection Ha as <-. exact Hrs.
Qed.

(** [FeToBytes] writes the canonical little-endian encoding and leaves reduced limbs. *)
Lemma FeToBytes_spec h : bounded 3 h →
  ∃ h', FeToBytes h = (le_bytes 32 (feZ h mod p25519), h') ∧ bounded 2 h' ∧ feZ h' = feZ h mod p25519.
Proof.
  intros Hh. destruct (quotientOf_spec h Hh) as [Hq Hqr].
  destruct (toBytes_limbs h (quotientOf h) Hh Hqr) as [Hr Hd]. cbn zeta in *.
  exists (run 32 toBytesSteps (add_at 32 h 0 (19 * quotientOf h))). unfold FeToBytes.
  destruct (reduced_value _ Hr) as [Hv Hb]. rewrite limbBytes_spec by done.
  assert (E : feZ (run 32 toBytesSteps (add_at 32 h 0 (19 * quotientOf h))) = feZ h mod p25519).
  { destruct Hd as [c Hc]. pose proof (Z.mod_pos_bound (feZ h) p25519 ltac:(done)) as Hm.
    pose proof (Z.div_mod (feZ h) p25519 ltac:(done)) as Hdm. rewrite <- Hq in Hdm. unfold p25519 in *.
    assert (c = - quotientOf h) by nia. nia. }
  by rewrite E.
Qed.

Lemma feF_reduced h h' : feZ h' = feZ h mod p25519 → feF h' = feF h.
Proof. unfold feF. intros ->. apply Zmod.of_Z_mod. Qed.

Lemma feF_unsigned h : Zmod.unsigned (feF h) = feZ h mod p25519.
Proof. apply Zmod.unsigned_of_Z. Qed.

(** The sign of a field element is the parity of its residue. *)
Lemma FeIsNegative_spec h : bounded 3 h →
  ∃ h', FeIsNegative h = (Zmod.unsigned (feF h) mod 2, h') ∧ bounded 2 h' ∧ feF h' = feF h.
Proof.
  intros Hh. destruct (FeToBytes_spec h Hh) as (h' & E & Hb & Hv). exists h'. unfold FeIsNegative. rewrite E.
  split_and!; [|done|by apply feF_reduced]. rewrite feF_unsigned. f_equal.
  cbn [le_bytes lookup_total list_lookup_total]. rewrite (Z.land_ones _ 1) by lia.
  change 256 with (2 * 128). change (2 ^ 1) with 2. apply Z.mod_mod_divide. exists 128. done.
Qed.

Lemma any_bit x : is_byte x →
  (let x := Z.lor x (Z.shiftr x 4) in let x := Z.lor x (Z.shiftr x 2) in let x := Z.lor x (Z.shiftr x 1) in
   Z.land x 1) = if x =? 0 then 0 else 1.
Proof.
  intros Hx. assert (Hall : Forall (λ x, (let x := Z.lor x (Z.shiftr x 4) in let x := Z.lor x (Z.shiftr x 2) in
    let x := Z.lor x (Z.shiftr x 1) in Z.land x 1) = if x =? 0 then 0 else 1) (seqZ 0 256)).
  { apply Forall_forall. intros y Hy. revert y Hy. apply Forall_forall.
    repeat (constructor; [reflexivity|]). constructor. }
  rewrite list.Forall_forall in Hall. apply Hall, elem_of_seqZ. exact Hx.
Qed.

Lemma lor_bytes bs : ∀ a, is_byte a → Forall is_byte bs →
  is_byte (foldl Z.lor a bs) ∧ (foldl Z.lor a bs = 0 ↔ a = 0 ∧ le_combine bs = 0).
Proof.
  induction bs as [|b bs IH]; intros a Ha; cbn [foldl le_combine]; [tauto|]. intros [Hb Hbs]%Forall_cons_iff.
  assert (Hab : is_byte (Z.lor a b)).
  { unfold is_byte in *. assert (0 ≤ Z.lor a b) by (apply Z.lor_nonneg; lia). split; [done|]. change 256 with (2 ^ 8) in *.
    destruct (Z.eq_dec (Z.lor a b) 0) as [->|]; [lia|]. apply Z.log2_lt_pow2; [lia|].
    rewrite Z.log2_lor by lia. apply Z.max_lub_lt.
    - destruct (Z.eq_dec a 0) as [->|]; [done|]. apply Z.log2_lt_pow2; lia.
    - destruct (Z.eq_dec b 0) as [->|]; [done|]. apply Z.log2_lt_pow2; lia. }
  destruct (IH _ Hab Hbs) as [H1 H2]. split; [done|]. rewrite H2, Z.lor_eq_0_iff.
  assert (0 ≤ le_combine bs).
  { clear -Hbs. induction Hbs as [|c bs Hc _ IH]; cbn [le_combine]; unfold is_byte in *; lia. }
  unfold is_byte in *. lia.
Qed.

Lemma le_bytes_byte n : ∀ z, Forall is_byte (le_bytes n z).
Proof. induction n as [|n IH]; intros z; cbn [le_bytes]; constructor; [apply Z.mod_pos_bound; lia|apply IH]. Qed.

Lemma le_combine_nonneg bs : Forall is_byte bs → 0 ≤ le_combine bs.
Proof. induction 1 as [|b bs Hb _ IH]; cbn [le_combine]; unfold is_byte in *; lia. Qed.

Lemma le_combine_bound bs : Forall is_byte bs → 0 ≤ le_combine bs < 256 ^ Z.of_nat (length bs).
Proof.
  induction 1 as [|b bs Hb _ IH]; cbn [le_combine length]; [lia|].
  rewrite Nat2Z.inj_succ, Z.pow_succ_r by lia. unfold is_byte in *. lia.
Qed.

Lemma le_combine_drop bs k : Forall is_byte bs → (k ≤ length bs)%nat →
  le_combine (drop k bs) = le_combine bs / 256 ^ Z.of_nat k.
Proof.
  intros Hb. revert k. induction Hb as [|b bs Hb Hbs IH]; intros [|k] Hk; cbn [drop length] in *;
    rewrite ?Z.div_1_r; [done|lia|done|].
  assert (0 < 256 ^ Z.of_nat k) by (apply Z.pow_pos_nonneg; lia).
  rewrite IH by lia. rewrite Nat2Z.inj_succ, Z.pow_succ_r by lia. rewrite <- Z.div_div by lia. cbn [le_combine]. unfold is_byte in Hb.
  by rewrite (Z.mul_comm 256), Z.div_add, (Z.div_small b), Z.add_0_l by lia.
Qed.

Lemma le_bytes_lookup n : ∀ z i, (i < n)%nat → le_bytes n z !!! i = (z / 256 ^ Z.of_nat i) mod 256.
Proof.
  induction n as [|n IH]; intros z [|i] Hi; [lia..|by rewrite Z.div_1_r|]. cbn [le_bytes lookup_total list_lookup_total].
  rewrite IH by lia. by rewrite Nat2Z.inj_succ, Z.pow_succ_r, Z.div_div by lia.
Qed.

Lemma le_combine_insert bs : ∀ i v, (i < length bs)%nat →
  le_combine (<[i := v]> bs) = le_combine bs + 256 ^ Z.of_nat i * (v - bs !!! i).
Proof.
  induction bs as [|b bs IH]; intros [|i] v Hi; cbn [length] in Hi; [lia..|cbn [insert list_insert le_combine]; change (256 ^ Z.of_nat 0) with 1; change ((b :: bs) !!! 0%nat) with b; lia|].
  cbn [insert list_insert le_combine]. rewrite IH by lia. rewrite Nat2Z.inj_succ, Z.pow_succ_r by lia.
  change ((b :: bs) !!! S i) with (bs !!! i). ring.
Qed.

Lemma le_bytes_unique bs n z : length bs = n → Forall is_byte bs → 0 ≤ z < 256 ^ Z.of_nat n → le_combine bs = z →
  bs = le_bytes n z.
Proof. intros <- Hb _ <-. by rewrite le_bytes_le_combine. Qed.

Lemma FeIsNonZero_spec h : bounded 3 h →
  ∃ h', FeIsNonZero h = (if Zmod.eqb (feF h) Zmod.zero then 0 else 1, h') ∧ bounded 2 h' ∧ feF h' = feF h.
Proof.
  intros Hh. destruct (FeToBytes_spec h Hh) as (h' & E & Hb & Hv). exists h'. unfold FeIsNonZero. rewrite E.
  split_and!; [|done|by apply feF_reduced].
  destruct (lor_bytes (le_bytes 32 (feZ h mod p25519)) 0) as [H1 H2]; [unfold is_byte; lia|apply le_bytes_byte|].
  pose proof (any_bit _ H1) as Hany. cbn zeta in Hany. rewrite Hany. f_equal.
  rewrite le_combine_le_bytes, (Z.mod_small (feZ h mod p25519)) in H2.
  2: { pose proof (Z.mod_pos_bound (feZ h) p25519 ltac:(done)). assert (p25519 < 256 ^ Z.of_nat 32) by done. lia. }
  destruct (Zmod.eqb_spec (feF h) Zmod.zero) as [Ez|Hz].
  - apply (f_equal Zmod.unsigned) in Ez. rewrite feF_unsigned, Zmod.unsigned_0 in Ez. by rewrite (proj2 H2 (conj eq_refl Ez)).
  - destruct (Z.eqb_spec (foldl Z.lor 0 (le_bytes 32 (feZ h mod p25519))) 0) as [E0|]; [|done].
    exfalso. apply Hz. apply Zmod.unsigned_inj. rewrite feF_unsigned, Zmod.unsigned_0. by apply H2.
Qed.

(** *** Powers *)
Definition isPower (z : FieldElement) (e : Z) (t : FieldElement) : Prop :=
  bounded 1 t ∧ feF t = Zmod.pow (feF z) e.

Lemma isPower_mul z a b s t : 0 ≤ a → 0 ≤ b → isPower z a s → isPower z b t → isPower z (a + b) (FeMul s t).
Proof.
  intros Ha Hb [Hs Es] [Ht Et]. destruct (FeMul_spec s t) as [H E]; [eapply bounded_weaken; [|done]; lia..|].
  split; [done|]. by rewrite E, Es, Et, Zmod.pow_add_r_nonneg.
Qed.

Lemma isPower_square z a s : 0 ≤ a → isPower z a s → isPower z (2 * a) (FeSquare s).
Proof.
  intros Ha [Hs Es]. destruct (FeSquare_spec s) as [H E]; [eapply bounded_weaken; [|done]; lia|].
  split; [done|]. by rewrite E, Es, <- Z.add_diag, Zmod.pow_add_r_nonneg.
Qed.

Lemma isPower_squareN z n : ∀ a s, 0 ≤ a → isPower z a s → isPower z (2 ^ Z.of_nat n * a) (squareN n s).
Proof.
  induction n as [|n IH]; intros a s Ha Hs; [by rewrite Z.pow_0_r, Z.mul_1_l|].
  rewrite Nat2Z.inj_succ, Z.pow_succ_r, <- Z.mul_assoc by lia. unfold squareN. cbn [Nat.iter nat_rect].
  apply isPower_square; [lia|]. by apply IH.
Qed.

Lemma isPower_start_mul_l z b t : bounded 3 z → 0 ≤ b → isPower z b t → isPower z (1 + b) (FeMul z t).
Proof.
  intros Hz Hb [Ht Et]. assert (Ht3 : bounded 3 t) by (eapply bounded_weaken; [|done]; lia).
  destruct (FeMul_spec z t Hz Ht3) as [H1 E1]. split; [done|]. by rewrite E1, Et, Zmod.pow_add_r_nonneg, Zmod.pow_1_r by lia.
Qed.

Lemma isPower_start_mul_r z b t : bounded 3 z → 0 ≤ b → isPower z b t → isPower z (b + 1) (FeMul t z).
Proof.
  intros Hz Hb [Ht Et]. assert (Ht3 : bounded 3 t) by (eapply bounded_weaken; [|done]; lia).
  destruct (FeMul_spec t z Ht3 Hz) as [H1 E1]. split; [done|]. by rewrite E1, Et, Zmod.pow_add_r_nonneg, Zmod.pow_1_r by lia.
Qed.

Lemma isPower_start z : bounded 3 z → isPower z 2 (FeSquare z).
Proof. intros Hz. destruct (FeSquare_spec z Hz) as [H E]. split; [done|]. by rewrite E, Zmod.pow_2_r. Qed.

Lemma isPower_let z e a v (k : FieldElement → FieldElement) :
  isPower z a v → (∀ t, isPower z a t → isPower z e (k t)) → isPower z e (let t := v in k t).
Proof. auto. Qed.

Ltac nonneg := vm_compute; discriminate.
Ltac power z Hz :=
  lazymatch goal with
  | |- isPower _ _ (squareN _ _) => eapply isPower_squareN; [|power z Hz]; nonneg
  | |- isPower _ _ (FeSquare z) => exact (isPower_start z Hz)
  | |- isPower _ _ (FeSquare _) => eapply isPower_square; [|power z Hz]; nonneg
  | |- isPower _ _ (FeMul z _) => eapply (isPower_start_mul_l z); [exact Hz| |power z Hz]; nonneg
  | |- isPower _ _ (FeMul _ z) => eapply (isPower_start_mul_r z); [exact Hz| |power z Hz]; nonneg
  | |- isPower _ _ (FeMul _ _) => eapply isPower_mul; [| |power z Hz|power z Hz]; nonneg
  | |- _ => eassumption
  end.
Ltac powers z Hz :=
  repeat lazymatch goal with
  | |- isPower ?z ?e (let t := ?v in @?k t) =>
      refine (isPower_let z e _ v k _ _); [power z Hz|intros ? ?; cbv beta]
  end.

Lemma FeInvert_power z : bounded 3 z → isPower z (p25519 - 2) (FeInvert z).
Proof.
  intros Hz. cbv beta delta [FeInvert]. powers z Hz.
  match goal with |- isPower _ ?e _ => evar (e' : Z); replace e with e'; subst e'; [power z Hz|vm_compute; reflexivity] end.
Qed.

Lemma fePow22523_power z : bounded 3 z → isPower z ((p25519 - 5) / 8) (fePow22523 z).
Proof.
  intros Hz. cbv beta delta [fePow22523]. powers z Hz.
  match goal with |- isPower _ ?e _ => evar (e' : Z); replace e with e'; subst e'; [power z Hz|vm_compute; reflexivity] end.
Qed.

(** Inversion: the inverse of the field, and zero for zero. *)
Lemma FeInvert_spec z : bounded 3 z → bounded 1 (FeInvert z) ∧ feF (FeInvert z) = Zmod.inv (feF z).
Proof.
  intros Hz. destruct (FeInvert_power z Hz) as [Hb ->]. split; [done|].
  destruct (Zmod.eqb_spec (feF z) Zmod.zero) as [->|Hnz]; [|by apply Zmod.fermat_inv; [|apply prime_p25519]].
  rewrite Zmod.pow_0_l by (vm_compute; discriminate). symmetry. apply Zmod.inv_0.
Qed.

(** C29: multiplication, squaring and inversion compute modulo the prime and give limbs that
    the next operation accepts. *)
Theorem field_operations f g : bounded 3 f → bounded 3 g →
  bounded 1 (FeMul f g) ∧ feZ (FeMul f g) mod p25519 = (feZ f * feZ g) mod p25519 ∧
  bounded 1 (FeSquare f) ∧ feZ (FeSquare f) mod p25519 = (feZ f * feZ f) mod p25519 ∧
  bounded 1 (FeInvert f) ∧ (feZ f mod p25519 ≠ 0 → (feZ f * feZ (FeInvert f)) mod p25519 = 1).
Proof.
  intros Hf Hg. destruct (FeMul_spec f g Hf Hg) as [B1 E1], (FeSquare_spec f Hf) as [B2 E2], (FeInvert_spec f Hf) as [B3 E3].
  assert (Hz : ∀ a b, toF a = toF b → a mod p25519 = b mod p25519)
    by (intros a b H; by apply (f_equal Zmod.unsigned) in H; rewrite !Zmod.unsigned_of_Z in H).
  split_and!; [done| |done| |done|].
  - apply Hz. rewrite Zmod.of_Z_mul. exact E1.
  - apply Hz. rewrite Zmod.of_Z_mul. exact E2.
  - intros Hn. change 1 with (1 mod p25519). apply Hz. rewrite Zmod.of_Z_mul. fold (feF f) (feF (FeInvert f)). rewrite E3.
    apply Zmod.mul_inv_same_r_prime; [apply prime_p25519|]. intros H0. apply Hn.
    rewrite <- feF_unsigned, H0. apply Zmod.unsigned_0.
Qed.

Lemma field_operations_witness :
  feZ (FeMul FeOne FeOne) mod p25519 = (feZ FeOne * feZ FeOne) mod p25519.
Proof.
  destruct FeOne_spec as [H _]. assert (H3 : bounded 3 FeOne) by (eapply bounded_weaken; [|exact H]; lia).
  destruct (field_operations FeOne FeOne H3 H3) as (_ & E & _). exact E.
Defined.
