(* ===== verification/Scalar25519.v ===== *)
(** * The scalars of Ed25519: [crypto/ed25519/internal/edwards25519/edwards25519.go]

    Scalars are numbers of 32 or 64 bytes, read into limbs of 21 bits and reduced modulo
    the order of the base point by straight-line code.  The file proves that the code
    does not overflow and computes the canonical residue. *)

From S2P Require Import Prelude Limbs Field25519.

(** The order of the base point. *)
Definition l25519 : Z := 2 ^ 252 + 27742317777372353535851937790883648493.

Definition sround (i : nat) : stmt := Carry i (S i) (2 ^ 20) 21 1.
Definition sfloor (i : nat) : stmt := Carry i (S i) 0 21 1.
Definition sfold (i : nat) : stmt :=
  Fold i [((i - 12)%nat, 666643); ((i - 11)%nat, 470296); ((i - 10)%nat, 654183);
          ((i - 9)%nat, -997805); ((i - 8)%nat, 136657); ((i - 7)%nat, -683901)].

(** The statements of [ScReduce] from the first fold to the last carry, the same in
    [ScMulAdd]. *)
Definition roughSteps : list stmt :=
  (sfold <$> [23; 22; 21; 20; 19; 18]%nat) ++
  (sround <$> [6; 8; 10; 12; 14; 16; 7; 9; 11; 13; 15]%nat) ++
  (sfold <$> [17; 16; 15; 14; 13; 12]%nat) ++
  (sround <$> [0; 2; 4; 6; 8; 10; 1; 3; 5; 7; 9; 11]%nat) ++
  [sfold 12].
Definition floorSteps (n : nat) : list stmt := sfloor <$> seq 0 n.
Definition reduceSteps : list stmt := roughSteps ++ floorSteps 12 ++ [sfold 12] ++ floorSteps 11.

(** The carries of [ScMulAdd] after the products. *)
Definition productSteps : list stmt :=
  sround <$> [0; 2; 4; 6; 8; 10; 12; 14; 16; 18; 20; 22; 1; 3; 5; 7; 9; 11; 13; 15; 17; 19; 21]%nat.

Definition scalarLimbs (bs : list Z) : list Z :=
  [Z.land 2097151 (load3 bs);
   Z.land 2097151 (Z.shiftr (load4 (drop 2 bs)) 5);
   Z.land 2097151 (Z.shiftr (load3 (drop 5 bs)) 2);
   Z.land 2097151 (Z.shiftr (load4 (drop 7 bs)) 7);
   Z.land 2097151 (Z.shiftr (load4 (drop 10 bs)) 4);
   Z.land 2097151 (Z.shiftr (load3 (drop 13 bs)) 1);
   Z.land 2097151 (Z.shiftr (load4 (drop 15 bs)) 6);
   Z.land 2097151 (Z.shiftr (load3 (drop 18 bs)) 3);
   Z.land 2097151 (load3 (drop 21 bs));
   Z.land 2097151 (Z.shiftr (load4 (drop 23 bs)) 5);
   Z.land 2097151 (Z.shiftr (load3 (drop 26 bs)) 2);
   Z.shiftr (load4 (drop 28 bs)) 7].

Definition wideLimbs (bs : list Z) : list Z :=
  [Z.land 2097151 (load3 bs);
   Z.land 2097151 (Z.shiftr (load4 (drop 2 bs)) 5);
   Z.land 2097151 (Z.shiftr (load3 (drop 5 bs)) 2);
   Z.land 2097151 (Z.shiftr (load4 (drop 7 bs)) 7);
   Z.land 2097151 (Z.shiftr (load4 (drop 10 bs)) 4);
   Z.land 2097151 (Z.shiftr (load3 (drop 13 bs)) 1);
   Z.land 2097151 (Z.shiftr (load4 (drop 15 bs)) 6);
   Z.land 2097151 (Z.shiftr (load3 (drop 18 bs)) 3);
   Z.land 2097151 (load3 (drop 21 bs));
   Z.land 2097151 (Z.shiftr (load4 (drop 23 bs)) 5);
   Z.land 2097151 (Z.shiftr (load3 (drop 26 bs)) 2);
   Z.land 2097151 (Z.shiftr (load4 (drop 28 bs)) 7);
   Z.land 2097151 (Z.shiftr (load4 (drop 31 bs)) 4);
   Z.land 2097151 (Z.shiftr (load3 (drop 34 bs)) 1);
   Z.land 2097151 (Z.shiftr (load4 (drop 36 bs)) 6);
   Z.land 2097151 (Z.shiftr (load3 (drop 39 bs)) 3);
   Z.land 2097151 (load3 (drop 42 bs));
   Z.land 2097151 (Z.shiftr (load4 (drop 44 bs)) 5);
   Z.land 2097151 (Z.shiftr (load3 (drop 47 bs)) 2);
   Z.land 2097151 (Z.shiftr (load4 (drop 49 bs)) 7);
   Z.land 2097151 (Z.shiftr (load4 (drop 52 bs)) 4);
   Z.land 2097151 (Z.shiftr (load3 (drop 55 bs)) 1);
   Z.land 2097151 (Z.shiftr (load4 (drop 57 bs)) 6);
   Z.shiftr (load4 (drop 60 bs)) 3].

Definition mulAddLimbs (a b c : list Z) : list Z :=
  match a, b, c with
  | [a0; a1; a2; a3; a4; a5; a6; a7; a8; a9; a10; a11],
    [b0; b1; b2; b3; b4; b5; b6; b7; b8; b9; b10; b11],
    [c0; c1; c2; c3; c4; c5; c6; c7; c8; c9; c10; c11] =>
  [i64 (c0 + a0 * b0);
   i64 (c1 + a0 * b1 + a1 * b0);
   i64 (c2 + a0 * b2 + a1 * b1 + a2 * b0);
   i64 (c3 + a0 * b3 + a1 * b2 + a2 * b1 + a3 * b0);
   i64 (c4 + a0 * b4 + a1 * b3 + a2 * b2 + a3 * b1 + a4 * b0);
   i64 (c5 + a0 * b5 + a1 * b4 + a2 * b3 + a3 * b2 + a4 * b1 + a5 * b0);
   i64 (c6 + a0 * b6 + a1 * b5 + a2 * b4 + a3 * b3 + a4 * b2 + a5 * b1 + a6 * b0);
   i64 (c7 + a0 * b7 + a1 * b6 + a2 * b5 + a3 * b4 + a4 * b3 + a5 * b2 + a6 * b1 + a7 * b0);
   i64 (c8 + a0 * b8 + a1 * b7 + a2 * b6 + a3 * b5 + a4 * b4 + a5 * b3 + a6 * b2 + a7 * b1 + a8 * b0);
   i64 (c9 + a0 * b9 + a1 * b8 + a2 * b7 + a3 * b6 + a4 * b5 + a5 * b4 + a6 * b3 + a7 * b2 + a8 * b1 +
     a9 * b0);
   i64 (c10 + a0 * b10 + a1 * b9 + a2 * b8 + a3 * b7 + a4 * b6 + a5 * b5 + a6 * b4 + a7 * b3 + a8 * b2
     + a9 * b1 + a10 * b0);
   i64 (c11 + a0 * b11 + a1 * b10 + a2 * b9 + a3 * b8 + a4 * b7 + a5 * b6 + a6 * b5 + a7 * b4 + a8 * b3
     + a9 * b2 + a10 * b1 + a11 * b0);
   i64 (a1 * b11 + a2 * b10 + a3 * b9 + a4 * b8 + a5 * b7 + a6 * b6 + a7 * b5 + a8 * b4 + a9 * b3 + a10
     * b2 + a11 * b1);
   i64 (a2 * b11 + a3 * b10 + a4 * b9 + a5 * b8 + a6 * b7 + a7 * b6 + a8 * b5 + a9 * b4 + a10 * b3 +
     a11 * b2);
   i64 (a3 * b11 + a4 * b10 + a5 * b9 + a6 * b8 + a7 * b7 + a8 * b6 + a9 * b5 + a10 * b4 + a11 * b3);
   i64 (a4 * b11 + a5 * b10 + a6 * b9 + a7 * b8 + a8 * b7 + a9 * b6 + a10 * b5 + a11 * b4);
   i64 (a5 * b11 + a6 * b10 + a7 * b9 + a8 * b8 + a9 * b7 + a10 * b6 + a11 * b5);
   i64 (a6 * b11 + a7 * b10 + a8 * b9 + a9 * b8 + a10 * b7 + a11 * b6);
   i64 (a7 * b11 + a8 * b10 + a9 * b9 + a10 * b8 + a11 * b7);
   i64 (a8 * b11 + a9 * b10 + a10 * b9 + a11 * b8);
   i64 (a9 * b11 + a10 * b10 + a11 * b9);
   i64 (a10 * b11 + a11 * b10);
   i64 (a11 * b11);
   0]
  | _, _, _ => []
  end.

Definition scalarBytes (s : list Z) : list Z :=
  [byte (Z.shiftr (s !!! 0%nat) 0);
   byte (Z.shiftr (s !!! 0%nat) 8);
   byte (Z.lor (Z.shiftr (s !!! 0%nat) 16) (i64 (Z.shiftl (s !!! 1%nat) 5)));
   byte (Z.shiftr (s !!! 1%nat) 3);
   byte (Z.shiftr (s !!! 1%nat) 11);
   byte (Z.lor (Z.shiftr (s !!! 1%nat) 19) (i64 (Z.shiftl (s !!! 2%nat) 2)));
   byte (Z.shiftr (s !!! 2%nat) 6);
   byte (Z.lor (Z.shiftr (s !!! 2%nat) 14) (i64 (Z.shiftl (s !!! 3%nat) 7)));
   byte (Z.shiftr (s !!! 3%nat) 1);
   byte (Z.shiftr (s !!! 3%nat) 9);
   byte (Z.lor (Z.shiftr (s !!! 3%nat) 17) (i64 (Z.shiftl (s !!! 4%nat) 4)));
   byte (Z.shiftr (s !!! 4%nat) 4);
   byte (Z.shiftr (s !!! 4%nat) 12);
   byte (Z.lor (Z.shiftr (s !!! 4%nat) 20) (i64 (Z.shiftl (s !!! 5%nat) 1)));
   byte (Z.shiftr (s !!! 5%nat) 7);
   byte (Z.lor (Z.shiftr (s !!! 5%nat) 15) (i64 (Z.shiftl (s !!! 6%nat) 6)));
   byte (Z.shiftr (s !!! 6%nat) 2);
   byte (Z.shiftr (s !!! 6%nat) 10);
   byte (Z.lor (Z.shiftr (s !!! 6%nat) 18) (i64 (Z.shiftl (s !!! 7%nat) 3)));
   byte (Z.shiftr (s !!! 7%nat) 5);
   byte (Z.shiftr (s !!! 7%nat) 13);
   byte (Z.shiftr (s !!! 8%nat) 0);
   byte (Z.shiftr (s !!! 8%nat) 8);
   byte (Z.lor (Z.shiftr (s !!! 8%nat) 16) (i64 (Z.shiftl (s !!! 9%nat) 5)));
   byte (Z.shiftr (s !!! 9%nat) 3);
   byte (Z.shiftr (s !!! 9%nat) 11);
   byte (Z.lor (Z.shiftr (s !!! 9%nat) 19) (i64 (Z.shiftl (s !!! 10%nat) 2)));
   byte (Z.shiftr (s !!! 10%nat) 6);
   byte (Z.lor (Z.shiftr (s !!! 10%nat) 14) (i64 (Z.shiftl (s !!! 11%nat) 7)));
   byte (Z.shiftr (s !!! 11%nat) 1);
   byte (Z.shiftr (s !!! 11%nat) 9);
   byte (Z.shiftr (s !!! 11%nat) 17)].

Definition ScMulAdd (a b c : list Z) : list Z :=
  scalarBytes (run 64 (productSteps ++ reduceSteps) (mulAddLimbs (scalarLimbs a) (scalarLimbs b) (scalarLimbs c))).

Definition ScReduce (s : list Z) : list Z := scalarBytes (run 64 reduceSteps (wideLimbs s)).

(** The four words of the order, least significant first. *)
Definition order : list Z := [0x5812631a5cf5d3ed; 0x14def9dea2f79cd6; 0; 0x1000000000000000].

Fixpoint scMinimalFrom (i : nat) (scalar : list Z) : bool :=
  let v := le_combine (take 8 (drop (i * 8) scalar)) in
  if order !!! i <? v then false
  else if v <? order !!! i then true
  else match i with O => false | S i => scMinimalFrom i scalar end.

Definition ScMinimal (scalar : list Z) : bool := scMinimalFrom 3 scalar.

(** ** Reading limbs *)
Definition radix21 : list Z := Eval vm_compute in (λ i, 2 ^ (21 * Z.of_nat i)) <$> seq 0 24.

Lemma load3_combine bs : Forall is_byte bs → (3 ≤ length bs)%nat → load3 bs = le_combine bs mod 2 ^ 24.
Proof.
  intros Hb Hl. destruct bs as [|b0 [|b1 [|b2 bs]]]; cbn [length] in Hl; try lia.
  repeat (apply Forall_cons_iff in Hb as [? Hb]). rewrite load3_spec by done. cbn [le_combine]. unfold is_byte in *.
  apply (Z.mod_unique _ _ (le_combine bs)); [left|]; lia.
Qed.

Lemma load4_combine bs : Forall is_byte bs → (4 ≤ length bs)%nat → load4 bs = le_combine bs mod 2 ^ 32.
Proof.
  intros Hb Hl. destruct bs as [|b0 [|b1 [|b2 [|b3 bs]]]]; cbn [length] in Hl; try lia.
  repeat (apply Forall_cons_iff in Hb as [? Hb]). rewrite load4_spec by done. cbn [le_combine]. unfold is_byte in *.
  apply (Z.mod_unique _ _ (le_combine bs)); [left|]; lia.
Qed.

(** A field of [m] bits inside a field of [n] bits. *)
Lemma slice_bits x a n b m : 0 ≤ a → 0 ≤ b → 0 ≤ m → b + m ≤ n →
  ((x / 2 ^ a) mod 2 ^ n / 2 ^ b) mod 2 ^ m = (x / 2 ^ (a + b)) mod 2 ^ m.
Proof.
  intros. apply Z.bits_inj'. intros i Hi. destruct (Z.lt_ge_cases i m) as [Hlt|Hge].
  - rewrite !Z.mod_pow2_bits_low by lia. rewrite !Z.div_pow2_bits by lia. rewrite Z.mod_pow2_bits_low by lia.
    rewrite Z.div_pow2_bits by lia. f_equal. lia.
  - by rewrite !Z.mod_pow2_bits_high by lia.
Qed.

Lemma limb3 bs k j : Forall is_byte bs → (k + 3 ≤ length bs)%nat → 0 ≤ j ≤ 3 →
  Z.land 2097151 (Z.shiftr (load3 (drop k bs)) j) = (le_combine bs / 2 ^ (8 * Z.of_nat k + j)) mod 2 ^ 21.
Proof.
  intros Hb Hl Hj. rewrite Z.land_comm. change 2097151 with (Z.ones 21). rewrite Z.land_ones, Z.shiftr_div_pow2 by lia.
  rewrite load3_combine, le_combine_drop by (try done; try (by apply Forall_drop); rewrite ?length_drop; lia).
  change 256 with (2 ^ 8). rewrite <- Z.pow_mul_r by lia. by apply slice_bits; lia.
Qed.

Lemma limb4 bs k j : Forall is_byte bs → (k + 4 ≤ length bs)%nat → 0 ≤ j ≤ 11 →
  Z.land 2097151 (Z.shiftr (load4 (drop k bs)) j) = (le_combine bs / 2 ^ (8 * Z.of_nat k + j)) mod 2 ^ 21.
Proof.
  intros Hb Hl Hj. rewrite Z.land_comm. change 2097151 with (Z.ones 21). rewrite Z.land_ones, Z.shiftr_div_pow2 by lia.
  rewrite load4_combine, le_combine_drop by (try done; try (by apply Forall_drop); rewrite ?length_drop; lia).
  change 256 with (2 ^ 8). rewrite <- Z.pow_mul_r by lia. by apply slice_bits; lia.
Qed.

(** The top limb is not masked. *)
Lemma limb_top bs k j : Forall is_byte bs → (k + 4 = length bs)%nat → 0 ≤ j →
  Z.shiftr (load4 (drop k bs)) j = le_combine bs / 2 ^ (8 * Z.of_nat k + j).
Proof.
  intros Hb Hl Hj. rewrite Z.shiftr_div_pow2 by lia.
  rewrite load4_combine by (try (by apply Forall_drop); rewrite ?length_drop; lia).
  pose proof (le_combine_bound (drop k bs) ltac:(by apply Forall_drop)) as Hd. rewrite length_drop in Hd.
  replace (length bs - k)%nat with 4%nat in Hd by lia. rewrite Z.mod_small by (change (2 ^ 32) with (256 ^ Z.of_nat 4); lia).
  rewrite le_combine_drop by (done || lia). change 256 with (2 ^ 8).
  by rewrite <- Z.pow_mul_r, Z.div_div, <- Z.pow_add_r by lia.
Qed.

(** The first [n] digits of [x] in base [2^21], and the rest. *)
Fixpoint digits (n : nat) (x : Z) : list Z :=
  match n with
  | O => [x]
  | S n => x mod 2 ^ 21 :: digits n (x / 2 ^ 21)
  end.

Fixpoint powers (n : nat) (w : Z) : list Z :=
  match n with
  | O => [w]
  | S n => w :: powers n (w * 2 ^ 21)
  end.

Lemma digits_eval n : ∀ w x, eval (powers n w) (digits n x) = w * x.
Proof.
  induction n as [|n IH]; intros w x; cbn [powers digits eval]; [lia|].
  rewrite IH. pose proof (Z.div_mod x (2 ^ 21) ltac:(lia)). nia.
Qed.

Lemma digits_eq n : ∀ a x, 0 ≤ a →
  digits n (x / 2 ^ a) = ((λ i, (x / 2 ^ (a + 21 * Z.of_nat i)) mod 2 ^ 21) <$> seq 0 n) ++ [x / 2 ^ (a + 21 * Z.of_nat n)].
Proof.
  induction n as [|n IH]; intros a x Ha; cbn [digits seq fmap list_fmap app].
  { by rewrite Z.add_0_r. }
  rewrite Z.div_div, <- Z.pow_add_r, IH by lia. cbn [Z.of_nat]. rewrite Z.mul_0_r, Z.add_0_r. f_equal.
  rewrite <- fmap_S_seq, <- list_fmap_compose. f_equal.
  - apply list_fmap_ext. intros _ i _. unfold compose. do 3 f_equal. lia.
  - do 3 f_equal. lia.
Qed.

Ltac limb n bs k j :=
  f_equal; [lazymatch n with 3%nat => apply (limb3 bs k j) | 4%nat => apply (limb4 bs k j) end; [done|lia|lia]|].

Lemma scalarLimbs_spec bs : length bs = 32%nat → Forall is_byte bs → scalarLimbs bs = digits 11 (le_combine bs).
Proof.
  intros Hl Hb. rewrite <- (Z.div_1_r (le_combine bs)). change 1 with (2 ^ 0). rewrite digits_eq by lia.
  unfold scalarLimbs. cbn [seq fmap list_fmap app].
  limb 3%nat bs 0%nat 0. limb 4%nat bs 2%nat 5. limb 3%nat bs 5%nat 2. limb 4%nat bs 7%nat 7.
  limb 4%nat bs 10%nat 4. limb 3%nat bs 13%nat 1. limb 4%nat bs 15%nat 6. limb 3%nat bs 18%nat 3.
  limb 3%nat bs 21%nat 0. limb 4%nat bs 23%nat 5. limb 3%nat bs 26%nat 2.
  f_equal. apply (limb_top bs 28 7); [done|lia|lia].
Qed.

Lemma wideLimbs_spec bs : length bs = 64%nat → Forall is_byte bs → wideLimbs bs = digits 23 (le_combine bs).
Proof.
  intros Hl Hb. rewrite <- (Z.div_1_r (le_combine bs)). change 1 with (2 ^ 0). rewrite digits_eq by lia.
  unfold wideLimbs. cbn [seq fmap list_fmap app].
  limb 3%nat bs 0%nat 0. limb 4%nat bs 2%nat 5. limb 3%nat bs 5%nat 2. limb 4%nat bs 7%nat 7.
  limb 4%nat bs 10%nat 4. limb 3%nat bs 13%nat 1. limb 4%nat bs 15%nat 6. limb 3%nat bs 18%nat 3.
  limb 3%nat bs 21%nat 0. limb 4%nat bs 23%nat 5. limb 3%nat bs 26%nat 2. limb 4%nat bs 28%nat 7.
  limb 4%nat bs 31%nat 4. limb 3%nat bs 34%nat 1. limb 4%nat bs 36%nat 6. limb 3%nat bs 39%nat 3.
  limb 3%nat bs 42%nat 0. limb 4%nat bs 44%nat 5. limb 3%nat bs 47%nat 2. limb 4%nat bs 49%nat 7.
  limb 4%nat bs 52%nat 4. limb 3%nat bs 55%nat 1. limb 4%nat bs 57%nat 6.
  f_equal. apply (limb_top bs 60 3); [done|lia|lia].
Qed.

Lemma digits_range n B : ∀ x, 0 ≤ x < 2 ^ (21 * Z.of_nat n) * B →
  Forall2 within_range (digits n x) (replicate n (0, 2 ^ 21 - 1) ++ [(0, B - 1)]).
Proof.
  induction n as [|n IH]; intros x Hx; cbn [digits replicate app].
  - constructor; [|constructor]. unfold within_range. cbn [fst snd]. change (21 * Z.of_nat 0) with 0 in Hx. lia.
  - constructor.
    + unfold within_range. cbn [fst snd]. pose proof (Z.mod_pos_bound x (2 ^ 21) ltac:(lia)). lia.
    + apply IH. rewrite Nat2Z.inj_succ in Hx. replace (21 * Z.succ (Z.of_nat n)) with (21 + 21 * Z.of_nat n) in Hx by lia.
      rewrite Z.pow_add_r in Hx by lia. split; [apply Z.div_pos; lia|apply Z.div_lt_upper_bound; lia].
Qed.

(** ** Reduction *)
Definition almostRanges : list (Z * Z) := replicate 12 (0, 2 ^ 21 - 1) ++ (-1, 0) :: replicate 11 (0, 0).
Definition finalRanges : list (Z * Z) := replicate 11 (0, 2 ^ 21 - 1) ++ (0, 2 ^ 21) :: replicate 12 (0, 0).

Lemma almost_value h : Forall2 within_range h almostRanges →
  length h = 24%nat ∧ -1 ≤ h !!! 12%nat ≤ 0 ∧ 0 ≤ eval radix21 h - 2 ^ 252 * h !!! 12%nat < 2 ^ 252.
Proof.
  intros Hh. unfold almostRanges in Hh. cbn [replicate app] in Hh. fe_limbs Hh.
  unfold radix21. cbn [eval lookup_total list_lookup_total]. split_and!; [done|lia..].
Qed.

Lemma final_limbs h rs : rs = replicate 11 (0, 2 ^ 21 - 1) ++ (-1, 2 ^ 21) :: replicate 12 (0, 0) →
  Forall2 within_range h rs → 0 ≤ eval radix21 h → Forall2 within_range h finalRanges.
Proof.
  intros -> Hh. cbn [replicate app] in Hh. fe_limbs Hh. unfold radix21. cbn [eval]. intros H0.
  unfold finalRanges. cbn [replicate app].
  repeat (constructor; [unfold within_range; cbn [fst snd]; lia|]). constructor.
Qed.

(** After the rough reduction and a pass of carries the number is less than [2^252]
    above a multiple of the order of at most one; the last fold makes it canonical. *)
Lemma reduce_spec ss h rs :
  length h = 24%nat → Forall2 within_range h rs → keeps_value l25519 radix21 (ss ++ floorSteps 12) = true →
  arun 64 (ss ++ floorSteps 12) rs = Some almostRanges →
  let h' := run 64 (ss ++ floorSteps 12 ++ [sfold 12] ++ floorSteps 11) h in
  Forall2 within_range h' finalRanges ∧ eval radix21 h' = eval radix21 h mod l25519.
Proof.
  intros Hl Hh Hk Ha. cbn zeta.
  destruct (run_sound 64 ltac:(lia) l25519 radix21 _ h rs _ ltac:(by rewrite Hl) Hh Ha Hk) as [H2 Hd].
  assert (Hrun : run 64 (ss ++ floorSteps 12 ++ [sfold 12] ++ floorSteps 11) h =
    run 64 (floorSteps 11) (exec 64 (run 64 (ss ++ floorSteps 12) h) (sfold 12))).
  { unfold run. by rewrite app_assoc, !foldl_app. }
  rewrite Hrun. clear Hrun. set (h2 := run 64 (ss ++ floorSteps 12) h) in *.
  destruct (almost_value _ H2) as (Hl2 & H12 & Hlow).
  destruct (aexec 64 almostRanges (sfold 12)) as [rs3|] eqn:E3; [|vm_compute in E3; done].
  destruct (fold_exact 64 ltac:(lia) h2 almostRanges 12 _ rs3 radix21 ltac:(by rewrite Hl2) H2 E3) as [H3 V3].
  fold (sfold 12) in H3, V3. change (defect radix21 (sfold 12)) with (- l25519) in V3.
  set (h3 := exec 64 h2 (sfold 12)) in *. assert (Hl3 : length h3 = 24%nat).
  { pose proof (Forall2_length H3) as L. rewrite L. vm_compute in E3. by injection E3 as <-. }
  destruct (arun 64 (floorSteps 11) rs3) as [rs4|] eqn:E4; [|vm_compute in E3; injection E3 as <-; vm_compute in E4; done].
  destruct (run_sound 64 ltac:(lia) 0 radix21 (floorSteps 11) h3 rs3 rs4 ltac:(by rewrite Hl3) H3 E4 ltac:(done)) as [H4 Hd4].
  apply Z.divide_0_l in Hd4. set (h4 := run 64 (floorSteps 11) h3) in *.
  assert (Hc : 0 ≤ eval radix21 h4 < l25519).
  { unfold l25519 in *. assert (h2 !!! 12%nat = -1 ∨ h2 !!! 12%nat = 0) as [E|E] by lia; rewrite E in *; lia. }
  split.
  - apply (final_limbs h4 rs4); [|done|lia]. vm_compute in E3. injection E3 as <-. vm_compute in E4. by injection E4 as <-.
  - destruct Hd as [c Hc']. apply (Z.mod_unique _ _ (h2 !!! 12%nat - c)); [left; done|]. rewrite Z.mul_sub_distr_l. lia.
Qed.

Lemma limb_split1 x a : 0 ≤ a →
  x = x mod 2 ^ a + 2 ^ a * ((x / 2 ^ a) mod 256) + 2 ^ (a + 8) * (x / 2 ^ (a + 8)).
Proof.
  intros Ha. rewrite (limb_split x a Ha) at 1. pose proof (Z.div_mod (x / 2 ^ (a + 8)) 256 ltac:(lia)) as E.
  rewrite Z.div_div in E by lia. change 256 with (2 ^ 8) in E at 1 2. rewrite <- Z.pow_add_r in E by lia.
  replace (a + 8 + 8) with (a + 16) in E by lia.
  replace (2 ^ (a + 16)) with (2 ^ (a + 8) * 2 ^ 8) at 1 by (rewrite <- Z.pow_add_r by lia; f_equal; lia).
  rewrite <- Z.mul_assoc, <- Z.add_assoc, <- Z.mul_add_distr_l. do 2 f_equal. lia.
Qed.

Lemma scalarBytes_spec h : Forall2 within_range h finalRanges → scalarBytes h = le_bytes 32 (eval radix21 h).
Proof.
  intros Hh. unfold finalRanges in Hh. cbn [replicate app] in Hh. fe_limbs Hh.
  assert (x11 = 0 ∧ x12 = 0 ∧ x13 = 0 ∧ x14 = 0 ∧ x15 = 0 ∧ x16 = 0 ∧ x17 = 0 ∧ x18 = 0 ∧ x19 = 0 ∧ x20 = 0 ∧ x21 = 0 ∧ x22 = 0)
    as (-> & -> & -> & -> & -> & -> & -> & -> & -> & -> & -> & ->) by lia.
  match goal with |- scalarBytes ?l = _ => assert (Hb : Forall is_byte (scalarBytes l)) end.
  { unfold scalarBytes. repeat (constructor; [apply Z.mod_pos_bound; lia|]). constructor. }
  rewrite <- (le_bytes_le_combine _ Hb). change (length _) with 32%nat. f_equal.
  unfold scalarBytes, radix21. cbn [lookup_total list_lookup_total eval le_combine].
  change i64 with (signed 64).
  rewrite !byte_join by (try lia; cbn; lia). rewrite !byte_shiftr by lia.
  pose proof (limb_split x 0 ltac:(lia)) as S0. pose proof (limb_split x0 3 ltac:(lia)) as S1.
  pose proof (limb_split1 x1 6 ltac:(lia)) as S2. pose proof (limb_split x2 1 ltac:(lia)) as S3.
  pose proof (limb_split x3 4 ltac:(lia)) as S4. pose proof (limb_split1 x4 7 ltac:(lia)) as S5.
  pose proof (limb_split x5 2 ltac:(lia)) as S6. pose proof (limb_split1 x6 5 ltac:(lia)) as S7.
  pose proof (limb_split x7 0 ltac:(lia)) as S8. pose proof (limb_split x8 3 ltac:(lia)) as S9.
  pose proof (limb_split1 x9 6 ltac:(lia)) as S10. pose proof (limb_split x10 1 ltac:(lia)) as S11.
  rewrite (Z.mod_small (x6 / 2 ^ 13)), (Z.mod_small (x10 / 2 ^ 17)) by (split; [apply Z.div_pos|apply Z.div_lt_upper_bound]; lia).
  clear -S0 S1 S2 S3 S4 S5 S6 S7 S8 S9 S10 S11. norm_pow. rewrite Z.mod_1_r in S0, S8. lia.
Qed.

(** [ScReduce] gives the canonical encoding of its argument modulo the order. *)
Lemma ScReduce_spec s : length s = 64%nat → Forall is_byte s →
  ScReduce s = le_bytes 32 (le_combine s mod l25519).
Proof.
  intros Hl Hb. unfold ScReduce. rewrite wideLimbs_spec by done.
  pose proof (le_combine_bound s Hb) as Hn. rewrite Hl in Hn.
  assert (Hr : Forall2 within_range (digits 23 (le_combine s)) (replicate 23 (0, 2 ^ 21 - 1) ++ [(0, 2 ^ 29 - 1)])).
  { apply digits_range. change (2 ^ (21 * Z.of_nat 23) * 2 ^ 29) with (256 ^ Z.of_nat 64). done. }
  destruct (reduce_spec roughSteps _ _ (Forall2_length Hr) Hr) as [Hf He]; [vm_compute; reflexivity..|].
  cbn zeta in *. unfold reduceSteps. rewrite scalarBytes_spec by done. rewrite He.
  change radix21 with (powers 23 1). by rewrite digits_eval, Z.mul_1_l.
Qed.

Lemma mul_upper a b x y : 0 ≤ x ≤ a → 0 ≤ y ≤ b → 0 ≤ x * y ≤ a * b.
Proof. nia. Qed.

Lemma sum_upper a b x y : 0 ≤ x ≤ a → 0 ≤ y ≤ b → 0 ≤ x + y ≤ a + b.
Proof. lia. Qed.

Lemma i64_upper B C e : 0 ≤ e ≤ B → (B <=? C) && (C <? 2 ^ 63) = true → i64 e = e ∧ within_range e (0, C).
Proof.
  intros He [HB%Z.leb_le HC%Z.ltb_lt]%andb_true_iff. split; [|unfold within_range; cbn [fst snd]; lia].
  change (signed 64 e = e). apply signed_small; lia.
Qed.

Ltac upper_bound :=
  lazymatch goal with
  | |- 0 ≤ _ + _ ≤ _ => eapply sum_upper; upper_bound
  | |- 0 ≤ _ * _ ≤ _ => eapply mul_upper; upper_bound
  | |- _ => eassumption
  end.

Definition narrowRanges : list (Z * Z) := replicate 11 (0, 2 ^ 21 - 1) ++ [(0, 2 ^ 25 - 1)].
Definition productRanges : list (Z * Z) := replicate 22 (0, 2 ^ 48) ++ [(0, 2 ^ 50); (0, 0)].

Lemma mulAddLimbs_spec a b c :
  Forall2 within_range a narrowRanges → Forall2 within_range b narrowRanges → Forall2 within_range c narrowRanges →
  Forall2 within_range (mulAddLimbs a b c) productRanges ∧
  eval radix21 (mulAddLimbs a b c) = eval (powers 11 1) a * eval (powers 11 1) b + eval (powers 11 1) c.
Proof.
  intros Ha Hb Hc. unfold narrowRanges in *. cbn [replicate app] in *. fe_limbs Ha. fe_limbs Hb. fe_limbs Hc.
  unfold mulAddLimbs, productRanges. cbn [replicate app].
  repeat match goal with
  | |- context [i64 ?e] =>
      let H := fresh "Hi" in
      first [assert (H : i64 e = e ∧ within_range e (0, 2 ^ 48)) by (eapply i64_upper; [upper_bound|vm_compute; reflexivity])
            |assert (H : i64 e = e ∧ within_range e (0, 2 ^ 50)) by (eapply i64_upper; [upper_bound|vm_compute; reflexivity])];
      destruct H as [-> H]
  end.
  split; [repeat (constructor; [first [assumption|unfold within_range; cbn [fst snd]; lia]|]); constructor|].
  unfold radix21. cbn [powers eval]. ring.
Qed.

Lemma scalar_digits bs : length bs = 32%nat → Forall is_byte bs →
  Forall2 within_range (scalarLimbs bs) narrowRanges ∧ eval (powers 11 1) (scalarLimbs bs) = le_combine bs.
Proof.
  intros Hl Hb. rewrite scalarLimbs_spec by done. pose proof (le_combine_bound bs Hb) as Hn. rewrite Hl in Hn.
  split; [apply digits_range; exact Hn|]. by rewrite digits_eval, Z.mul_1_l.
Qed.

(** [ScMulAdd] gives the canonical encoding of [a * b + c] modulo the order. *)
Lemma ScMulAdd_spec a b c : length a = 32%nat → length b = 32%nat → length c = 32%nat →
  Forall is_byte a → Forall is_byte b → Forall is_byte c →
  ScMulAdd a b c = le_bytes 32 ((le_combine a * le_combine b + le_combine c) mod l25519).
Proof.
  intros La Lb Lc Ha Hb Hc. destruct (scalar_digits a La Ha) as [Ra Ea], (scalar_digits b Lb Hb) as [Rb Eb],
    (scalar_digits c Lc Hc) as [Rc Ec]. destruct (mulAddLimbs_spec _ _ _ Ra Rb Rc) as [Hr He].
  unfold ScMulAdd, reduceSteps. rewrite app_assoc.
  destruct (reduce_spec (productSteps ++ roughSteps) _ _ (Forall2_length Hr) Hr) as [Hf Hv]; [vm_compute; reflexivity..|].
  cbn zeta in *. rewrite scalarBytes_spec by done. by rewrite Hv, He, Ea, Eb, Ec.
Qed.

(** [ScMinimal] compares with the order. *)
Lemma ScMinimal_spec s : length s = 32%nat → Forall is_byte s →
  ScMinimal s = (le_combine s <? l25519).
Proof.
  intros Hl Hb. unfold ScMinimal. cbn [scMinimalFrom].
  assert (E : ∀ i, (i < 4)%nat → 0 ≤ le_combine (take 8 (drop (i * 8) s)) < 2 ^ 64).
  { intros i Hi. pose proof (le_combine_bound (take 8 (drop (i * 8) s)) ltac:(by apply Forall_take, Forall_drop)) as H.
    rewrite length_take, length_drop in H. replace (8 `min` (length s - i * 8))%nat with 8%nat in H by lia. exact H. }
  assert (V : le_combine s = le_combine (take 8 (drop (0 * 8) s)) + 2 ^ 64 * le_combine (take 8 (drop (1 * 8) s))
    + 2 ^ 128 * le_combine (take 8 (drop (2 * 8) s)) + 2 ^ 192 * le_combine (take 8 (drop (3 * 8) s))).
  { do 32 (destruct s as [|? s]; [done|]). destruct s; [|done]. cbn [take drop le_combine Nat.mul Nat.add]. ring. }
  pose proof (E 0%nat ltac:(lia)). pose proof (E 1%nat ltac:(lia)). pose proof (E 2%nat ltac:(lia)). pose proof (E 3%nat ltac:(lia)).
  rewrite V. clear V E. unfold order. cbn [lookup_total list_lookup_total]. unfold l25519.
  repeat match goal with
  | |- context [if ?a <? ?b then _ else _] => destruct (Z.ltb_spec a b)
  end; symmetry; (rewrite Z.ltb_lt || rewrite Z.ltb_ge); lia.
Qed.

(** C28: the straight-line code of the scalars computes modulo the order of the base point:
    [ScReduce] the canonical residue of 64 bytes, [ScMulAdd] that of [a * b + c], and
    [ScMinimal] recognises canonical scalars. *)
Theorem scalar_arithmetic a b c s : length a = 32%nat → length b = 32%nat → length c = 32%nat → length s = 64%nat →
  Forall is_byte a → Forall is_byte b → Forall is_byte c → Forall is_byte s →
  ScReduce s = le_bytes 32 (le_combine s mod l25519) ∧
  ScMulAdd a b c = le_bytes 32 ((le_combine a * le_combine b + le_combine c) mod l25519) ∧
  ScMinimal a = (le_combine a <? l25519) ∧ ScMinimal (ScReduce s) = true.
Proof.
  intros La Lb Lc Ls Ba Bb Bc Bs. split_and!; [by apply ScReduce_spec|by apply ScMulAdd_spec|by apply ScMinimal_spec|].
  rewrite ScReduce_spec, ScMinimal_spec by (done || apply length_le_bytes || apply le_bytes_byte). rewrite le_combine_le_bytes.
  pose proof (Z.mod_pos_bound (le_combine s) l25519 ltac:(done)) as Hr. assert (l25519 < 256 ^ Z.of_nat 32) by done.
  apply Z.ltb_lt. rewrite (Z.mod_small (le_combine s mod l25519)); lia.
Qed.

Lemma scalar_arithmetic_witness : ScMinimal (ScReduce (le_bytes 64 (l25519 + 5))) = true.
Proof.
  apply (scalar_arithmetic (le_bytes 32 2) (le_bytes 32 3) (le_bytes 32 4) (le_bytes 64 (l25519 + 5)));
    apply length_le_bytes || apply le_bytes_byte.
Defined.
