(* ===== verification/Group25519.v ===== *)
(** * Group elements of Ed25519: [crypto/ed25519/internal/edwards25519/edwards25519.go]

    The source keeps points in five redundant forms, all made of bounded field elements.
    Each form is related to the points of the curve ([projective], [extended],
    [completed], [cached], [preComputed]); every operation is proved to compute the group
    operation it stands for without overflow, the compression [ToBytes] to be the
    standard encoding and [FromBytes] to decode exactly the encodings of points. *)

From Stdlib Require Import Zmod Field.
From S2P Require Import Prelude Limbs Primes Curve Field25519.

Record ProjectiveGroupElement := Projective {
  pX : FieldElement; pY : FieldElement; pZ : FieldElement }.

Record ExtendedGroupElement := Extended {
  eX : FieldElement; eY : FieldElement; eZ : FieldElement; eT : FieldElement }.

Record CompletedGroupElement := Completed {
  cX : FieldElement; cY : FieldElement; cZ : FieldElement; cT : FieldElement }.

Record PreComputedGroupElement := PreComputed {
  yPlusX : FieldElement; yMinusX : FieldElement; xy2d : FieldElement }.

Record CachedGroupElement := Cached {
  caPlus : FieldElement; caMinus : FieldElement; caZ : FieldElement; caT2d : FieldElement }.

#[export] Instance PreComputedGroupElement_inhabited : Inhabited PreComputedGroupElement :=
  populate (PreComputed FeZero FeZero FeZero).
#[export] Instance CachedGroupElement_inhabited : Inhabited CachedGroupElement :=
  populate (Cached FeZero FeZero FeZero FeZero).

Definition d : FieldElement :=
  [-10913610; 13857413; -15372611; 6949391; 114729; -8787816; -6275908; -3247719; -18696448; -12055116].
Definition d2 : FieldElement :=
  [-21827239; -5839606; -30745221; 13898782; 229458; 15978800; -12551817; -6495438; 29715968; 9444199].
Definition SqrtM1 : FieldElement :=
  [-32595792; -7943725; 9377950; 3500415; 12389472; -272473; -25146209; -2005654; 326686; 11406482].

(** ** Operations *)
Definition ProjectiveGroupElement_Zero : ProjectiveGroupElement := Projective FeZero FeOne FeOne.

Definition ProjectiveGroupElement_Double (p : ProjectiveGroupElement) : CompletedGroupElement :=
  let rX := FeSquare (pX p) in
  let rZ := FeSquare (pY p) in
  let rT := FeSquare2 (pZ p) in
  let rY := FeAdd (pX p) (pY p) in
  let t0 := FeSquare rY in
  let rY := FeAdd rZ rX in
  let rZ := FeSub rZ rX in
  let rX := FeSub t0 rY in
  let rT := FeSub rT rZ in
  Completed rX rY rZ rT.

(** The bytes of [y] with the sign of [x] in the last bit. *)
Definition signedBytes (x y : FieldElement) : list Z :=
  let '(s, _) := FeToBytes y in
  let '(neg, _) := FeIsNegative x in
  <[31%nat := Z.lxor (s !!! 31%nat) (byte (Z.shiftl neg 7))]> s.

Definition ProjectiveGroupElement_ToBytes (p : ProjectiveGroupElement) : list Z :=
  let recip := FeInvert (pZ p) in
  let x := FeMul (pX p) recip in
  let y := FeMul (pY p) recip in
  signedBytes x y.

Definition ExtendedGroupElement_Zero : ExtendedGroupElement := Extended FeZero FeOne FeOne FeZero.

Definition ExtendedGroupElement_ToProjective (p : ExtendedGroupElement) : ProjectiveGroupElement :=
  Projective (eX p) (eY p) (eZ p).

Definition ExtendedGroupElement_Double (p : ExtendedGroupElement) : CompletedGroupElement :=
  ProjectiveGroupElement_Double (ExtendedGroupElement_ToProjective p).

Definition ExtendedGroupElement_ToCached (p : ExtendedGroupElement) : CachedGroupElement :=
  Cached (FeAdd (eY p) (eX p)) (FeSub (eY p) (eX p)) (eZ p) (FeMul (eT p) d2).

Definition ExtendedGroupElement_ToBytes (p : ExtendedGroupElement) : list Z :=
  let recip := FeInvert (eZ p) in
  let x := FeMul (eX p) recip in
  let y := FeMul (eY p) recip in
  signedBytes x y.

(** The returned flag and the new value of [p], which a failed decoding leaves half
    written.  [FeToBytes] and [FeIsNegative] reduce [p.X] in place. *)
Definition ExtendedGroupElement_FromBytes (p : ExtendedGroupElement) (s : list Z) : bool * ExtendedGroupElement :=
  let Y := FeFromBytes s in
  let Z1 := FeOne in
  let u := FeSquare Y in
  let v := FeMul u d in
  let u := FeSub u Z1 in
  let v := FeAdd v Z1 in
  let v3 := FeSquare v in
  let v3 := FeMul v3 v in
  let X := FeSquare v3 in
  let X := FeMul X v in
  let X := FeMul X u in
  let X := fePow22523 X in
  let X := FeMul X v3 in
  let X := FeMul X u in
  let vxx := FeSquare X in
  let vxx := FeMul vxx v in
  let finish X :=
    let '(neg, X) := FeIsNegative X in
    let X := if neg =? Z.shiftr (s !!! 31%nat) 7 then X else FeNeg X in
    (true, Extended X Y Z1 (FeMul X Y)) in
  if (FeIsNonZero (FeSub vxx u)).1 =? 1 then
    if (FeIsNonZero (FeAdd vxx u)).1 =? 1 then (false, Extended X Y Z1 (eT p))
    else finish (FeToBytes (FeMul X SqrtM1)).2
  else finish X.

Definition CompletedGroupElement_ToProjective (p : CompletedGroupElement) : ProjectiveGroupElement :=
  Projective (FeMul (cX p) (cT p)) (FeMul (cY p) (cZ p)) (FeMul (cZ p) (cT p)).

Definition CompletedGroupElement_ToExtended (p : CompletedGroupElement) : ExtendedGroupElement :=
  Extended (FeMul (cX p) (cT p)) (FeMul (cY p) (cZ p)) (FeMul (cZ p) (cT p)) (FeMul (cX p) (cY p)).

Definition PreComputedGroupElement_Zero : PreComputedGroupElement := PreComputed FeOne FeOne FeZero.

Definition geAdd (p : ExtendedGroupElement) (q : CachedGroupElement) : CompletedGroupElement :=
  let rX := FeAdd (eY p) (eX p) in
  let rY := FeSub (eY p) (eX p) in
  let rZ := FeMul rX (caPlus q) in
  let rY := FeMul rY (caMinus q) in
  let rT := FeMul (caT2d q) (eT p) in
  let rX := FeMul (eZ p) (caZ q) in
  let t0 := FeAdd rX rX in
  let rX := FeSub rZ rY in
  let rY := FeAdd rZ rY in
  let rZ := FeAdd t0 rT in
  let rT := FeSub t0 rT in
  Completed rX rY rZ rT.

Definition geSub (p : ExtendedGroupElement) (q : CachedGroupElement) : CompletedGroupElement :=
  let rX := FeAdd (eY p) (eX p) in
  let rY := FeSub (eY p) (eX p) in
  let rZ := FeMul rX (caMinus q) in
  let rY := FeMul rY (caPlus q) in
  let rT := FeMul (caT2d q) (eT p) in
  let rX := FeMul (eZ p) (caZ q) in
  let t0 := FeAdd rX rX in
  let rX := FeSub rZ rY in
  let rY := FeAdd rZ rY in
  let rZ := FeSub t0 rT in
  let rT := FeAdd t0 rT in
  Completed rX rY rZ rT.

Definition geMixedAdd (p : ExtendedGroupElement) (q : PreComputedGroupElement) : CompletedGroupElement :=
  let rX := FeAdd (eY p) (eX p) in
  let rY := FeSub (eY p) (eX p) in
  let rZ := FeMul rX (yPlusX q) in
  let rY := FeMul rY (yMinusX q) in
  let rT := FeMul (xy2d q) (eT p) in
  let t0 := FeAdd (eZ p) (eZ p) in
  let rX := FeSub rZ rY in
  let rY := FeAdd rZ rY in
  let rZ := FeAdd t0 rT in
  let rT := FeSub t0 rT in
  Completed rX rY rZ rT.

Definition geMixedSub (p : ExtendedGroupElement) (q : PreComputedGroupElement) : CompletedGroupElement :=
  let rX := FeAdd (eY p) (eX p) in
  let rY := FeSub (eY p) (eX p) in
  let rZ := FeMul rX (yMinusX q) in
  let rY := FeMul rY (yPlusX q) in
  let rT := FeMul (xy2d q) (eT p) in
  let t0 := FeAdd (eZ p) (eZ p) in
  let rX := FeSub rZ rY in
  let rY := FeAdd rZ rY in
  let rZ := FeSub t0 rT in
  let rT := FeAdd t0 rT in
  Completed rX rY rZ rT.

(** ** Bounded elements with their value *)
#[local] Open Scope Zmod_scope.

Definition fe (k : Z) (f : FieldElement) (a : F) : Prop := bounded k f ∧ feF f = a.

Lemma fe_weaken i k f a b : fe i f a → (0 ≤ i ≤ k)%Z → a = b → fe k f b.
Proof. intros [Hf E] Hk <-. split; [by eapply bounded_weaken|done]. Qed.

Lemma fe_bounded3 i f a : fe i f a → (0 ≤ i ≤ 3)%Z → bounded 3 f.
Proof. intros [Hf _] Hk. by eapply bounded_weaken. Qed.

Lemma fe_mul i j f g a b : fe i f a → fe j g b → (0 ≤ i ≤ 3)%Z → (0 ≤ j ≤ 3)%Z → fe 1 (FeMul f g) (a * b).
Proof.
  intros Hf Hg Hi Hj. destruct (FeMul_spec f g) as [H E]; [by eapply fe_bounded3..|].
  destruct Hf as [_ <-], Hg as [_ <-]. by split.
Qed.

Lemma fe_square i f a : fe i f a → (0 ≤ i ≤ 3)%Z → fe 1 (FeSquare f) (a * a).
Proof. intros Hf Hi. destruct (FeSquare_spec f) as [H E]; [by eapply fe_bounded3|]. destruct Hf as [_ <-]. by split. Qed.

Lemma fe_square2 i f a : fe i f a → (0 ≤ i ≤ 3)%Z → fe 1 (FeSquare2 f) (toF 2 * (a * a)).
Proof. intros Hf Hi. destruct (FeSquare2_spec f) as [H E]; [by eapply fe_bounded3|]. destruct Hf as [_ <-]. by split. Qed.

Lemma fe_add i j f g a b : fe i f a → fe j g b → (0 ≤ i ≤ 3)%Z → (0 ≤ j ≤ 3)%Z → fe (i + j) (FeAdd f g) (a + b).
Proof. intros [Hf <-] [Hg <-] Hi Hj. apply FeAdd_spec; [lia..|done|done]. Qed.

Lemma fe_sub i j f g a b : fe i f a → fe j g b → (0 ≤ i ≤ 3)%Z → (0 ≤ j ≤ 3)%Z → fe (i + j) (FeSub f g) (a - b).
Proof. intros [Hf <-] [Hg <-] Hi Hj. apply FeSub_spec; [lia..|done|done]. Qed.

Lemma fe_neg i f a : fe i f a → (0 ≤ i ≤ 3)%Z → fe i (FeNeg f) (- a).
Proof. intros [Hf <-] Hi. apply FeNeg_spec; [lia|done]. Qed.

Lemma fe_invert i f a : fe i f a → (0 ≤ i ≤ 3)%Z → fe 1 (FeInvert f) (Zmod.inv a).
Proof. intros Hf Hi. destruct (FeInvert_spec f) as [H E]; [by eapply fe_bounded3|]. destruct Hf as [_ <-]. by split. Qed.

Lemma fe_pow22523 i f a : fe i f a → (0 ≤ i ≤ 3)%Z → fe 1 (fePow22523 f) (Zmod.pow a ((p25519 - 5) / 8)).
Proof. intros Hf Hi. destruct (fePow22523_power f) as [H E]; [by eapply fe_bounded3|]. destruct Hf as [_ <-]. by split. Qed.

Lemma fe_zero : fe 1 FeZero 0.
Proof. apply FeZero_spec. Qed.

Lemma fe_one : fe 1 FeOne 1.
Proof. apply FeOne_spec. Qed.

Ltac fe_constant :=
  split; [unfold bounded, limbRanges; repeat (constructor; [unfold within_range; cbn [fst snd]; lia|]); constructor
         |apply of_Z_congr; vm_compute; reflexivity].

Lemma fe_d : fe 1 d E.d.
Proof. fe_constant. Qed.

Lemma fe_d2 : fe 1 d2 (toF 2 * E.d).
Proof.
  eapply fe_weaken; [|split; [|reflexivity]; discriminate|unfold E.d; rewrite <- Zmod.of_Z_mul; reflexivity]. fe_constant.
Qed.

Lemma fe_SqrtM1 : fe 1 SqrtM1 E.sqrtm1.
Proof. fe_constant. Qed.

Ltac fe_step :=
  lazymatch goal with
  | |- fe _ (FeMul _ _) _ => eapply fe_mul; [fe_step|fe_step|lia..]
  | |- fe _ (FeSquare _) _ => eapply fe_square; [fe_step|lia]
  | |- fe _ (FeSquare2 _) _ => eapply fe_square2; [fe_step|lia]
  | |- fe _ (FeAdd _ _) _ => eapply fe_add; [fe_step|fe_step|lia..]
  | |- fe _ (FeSub _ _) _ => eapply fe_sub; [fe_step|fe_step|lia..]
  | |- fe _ (FeNeg _) _ => eapply fe_neg; [fe_step|lia]
  | |- fe _ (FeInvert _) _ => eapply fe_invert; [fe_step|lia]
  | |- fe _ (fePow22523 _) _ => eapply fe_pow22523; [fe_step|lia]
  | |- fe _ FeZero _ => exact fe_zero
  | |- fe _ FeOne _ => exact fe_one
  | |- fe _ d _ => exact fe_d
  | |- fe _ d2 _ => exact fe_d2
  | |- fe _ SqrtM1 _ => exact fe_SqrtM1
  | |- _ => eassumption
  end.

(** Closes [fe k f b] by computing a value of [f] and leaving its equality with [b]. *)
Ltac fe_value := eapply fe_weaken; [fe_step|lia|].

(** ** What the elements stand for *)
Import E.

Definition projective (p : ProjectiveGroupElement) (P : point) : Prop :=
  ∃ z, z ≠ 0 ∧ fe 2 (pX p) (px P * z) ∧ fe 1 (pY p) (py P * z) ∧ fe 1 (pZ p) z.

Definition extended (p : ExtendedGroupElement) (P : point) : Prop :=
  ∃ z, z ≠ 0 ∧ fe 2 (eX p) (px P * z) ∧ fe 1 (eY p) (py P * z) ∧ fe 1 (eZ p) z ∧ fe 1 (eT p) (px P * py P * z).

Definition completed (p : CompletedGroupElement) (P : point) : Prop :=
  ∃ z t, z ≠ 0 ∧ t ≠ 0 ∧ fe 3 (cX p) (px P * z) ∧ fe 3 (cY p) (py P * t) ∧ fe 3 (cZ p) z ∧ fe 3 (cT p) t.

Definition cached (p : CachedGroupElement) (P : point) : Prop :=
  ∃ z, z ≠ 0 ∧ fe 3 (caPlus p) ((py P + px P) * z) ∧ fe 3 (caMinus p) ((py P - px P) * z) ∧
  fe 1 (caZ p) z ∧ fe 1 (caT2d p) (toF 2 * E.d * (px P * py P) * z).

Definition preComputed (p : PreComputedGroupElement) (P : point) : Prop :=
  fe 1 (yPlusX p) (py P + px P) ∧ fe 1 (yMinusX p) (py P - px P) ∧ fe 1 (xy2d p) (toF 2 * E.d * (px P * py P)).

(** ** The group operations *)
Lemma F_two : toF 2 ≠ 0.
Proof. intros H%Zmod.of_Z_inj. vm_compute in H. discriminate. Qed.

Lemma F_scale z : z ≠ 0 → toF 2 * z ≠ 0.
Proof. apply F_mul_nonzero, F_two. Qed.

Lemma ProjectiveGroupElement_Zero_spec : projective ProjectiveGroupElement_Zero zero.
Proof.
  exists 1. split_and!; [apply F_one_zero|..]; unfold zero; cbn [px py pX pY pZ ProjectiveGroupElement_Zero];
    fe_value; ring.
Qed.

Lemma ExtendedGroupElement_Zero_spec : extended ExtendedGroupElement_Zero zero.
Proof.
  exists 1. split_and!; [apply F_one_zero|..]; unfold zero; cbn [px py eX eY eZ eT ExtendedGroupElement_Zero];
    fe_value; ring.
Qed.

Lemma PreComputedGroupElement_Zero_spec : preComputed PreComputedGroupElement_Zero zero.
Proof.
  split_and!; unfold zero; cbn [px py yPlusX yMinusX xy2d PreComputedGroupElement_Zero]; fe_value; ring.
Qed.

(** A completed sum, from its coordinates up to a common factor. *)
Lemma completed_sum p P Q w : w ≠ 0 →
  fe 3 (cX p) (w * (px P * py Q + px Q * py P)) → fe 3 (cY p) (w * (py P * py Q + px P * px Q)) →
  fe 3 (cZ p) (w * (1 + E.d * px P * px Q * py P * py Q)) → fe 3 (cT p) (w * (1 - E.d * px P * px Q * py P * py Q)) →
  completed p (add P Q).
Proof.
  intros Hw HX HY HZ HT. destruct (denominators P Q) as [D1 D2].
  eexists _, _. split_and!; [| | | |exact HZ|exact HT]; [by apply F_mul_nonzero..| |];
    unfold add, add_x, add_y; cbn [px py]; fe_value; field; assumption.
Qed.

Lemma Double_spec p P : projective p P → completed (ProjectiveGroupElement_Double p) (add P P).
Proof.
  intros (z & Hz & HX & HY & HZ). pose proof (curve_monomial _ _ (point_on P)) as Hc.
  apply (completed_sum _ _ _ (z * z)); [by apply F_mul_nonzero|..];
    unfold ProjectiveGroupElement_Double; cbn [cX cY cZ cT]; fe_value; ring [Hc].
Qed.

Lemma geAdd_spec p q P Q : extended p P → cached q Q → completed (geAdd p q) (add P Q).
Proof.
  intros (z & Hz & HX & HY & HZ & HT) (w & Hw & Hp & Hm & HZ' & HT').
  apply (completed_sum _ _ _ (toF 2 * (z * w))); [apply F_scale; first [assumption|apply F_mul_nonzero; assumption]|..];
    unfold geAdd; cbn [cX cY cZ cT]; fe_value; ring.
Qed.

Lemma geMixedAdd_spec p q P Q : extended p P → preComputed q Q → completed (geMixedAdd p q) (add P Q).
Proof.
  intros (z & Hz & HX & HY & HZ & HT) (Hp & Hm & Hxy).
  apply (completed_sum _ _ _ (toF 2 * z)); [apply F_scale; first [assumption|apply F_mul_nonzero; assumption]|..];
    unfold geMixedAdd; cbn [cX cY cZ cT]; fe_value; ring.
Qed.

(** Subtraction swaps the sums and negates the product, the element of the opposite. *)
Lemma geSub_spec p q P Q : extended p P → cached q Q → completed (geSub p q) (add P (neg Q)).
Proof.
  intros (z & Hz & HX & HY & HZ & HT) (w & Hw & Hp & Hm & HZ' & HT').
  apply (completed_sum _ _ _ (toF 2 * (z * w))); [apply F_scale; first [assumption|apply F_mul_nonzero; assumption]|..];
    unfold geSub, neg; cbn [cX cY cZ cT px py]; fe_value; ring.
Qed.

Lemma geMixedSub_spec p q P Q : extended p P → preComputed q Q → completed (geMixedSub p q) (add P (neg Q)).
Proof.
  intros (z & Hz & HX & HY & HZ & HT) (Hp & Hm & Hxy).
  apply (completed_sum _ _ _ (toF 2 * z)); [apply F_scale; first [assumption|apply F_mul_nonzero; assumption]|..];
    unfold geMixedSub, neg; cbn [cX cY cZ cT px py]; fe_value; ring.
Qed.

Lemma ToProjective_spec p P : completed p P → projective (CompletedGroupElement_ToProjective p) P.
Proof.
  intros (z & t & Hz & Ht & HX & HY & HZ & HT). exists (z * t). split; [by apply F_mul_nonzero|].
  unfold CompletedGroupElement_ToProjective. cbn [pX pY pZ]. split_and!; fe_value; ring.
Qed.

Lemma ToExtended_spec p P : completed p P → extended (CompletedGroupElement_ToExtended p) P.
Proof.
  intros (z & t & Hz & Ht & HX & HY & HZ & HT). exists (z * t). split; [by apply F_mul_nonzero|].
  unfold CompletedGroupElement_ToExtended. cbn [eX eY eZ eT]. split_and!; fe_value; ring.
Qed.

Lemma ExtendedGroupElement_ToProjective_spec p P : extended p P → projective (ExtendedGroupElement_ToProjective p) P.
Proof. intros (z & Hz & HX & HY & HZ & HT). by exists z. Qed.

Lemma ExtendedGroupElement_Double_spec p P : extended p P → completed (ExtendedGroupElement_Double p) (add P P).
Proof. intros H. by apply Double_spec, ExtendedGroupElement_ToProjective_spec. Qed.

Lemma ToCached_spec p P : extended p P → cached (ExtendedGroupElement_ToCached p) P.
Proof.
  intros (z & Hz & HX & HY & HZ & HT). exists z. split; [done|]. unfold ExtendedGroupElement_ToCached.
  cbn [caPlus caMinus caZ caT2d]. split_and!; fe_value; ring.
Qed.

(** ** Compression *)

(** The encoding of a point: its second coordinate with the parity of the first. *)
Definition encode (P : point) : list Z :=
  le_bytes 32 (Zmod.unsigned (py P) + 2 ^ 255 * (Zmod.unsigned (px P) mod 2))%Z.

Lemma unsigned_range (a : F) : (0 ≤ Zmod.unsigned a < p25519)%Z.
Proof. by apply Zmod.unsigned_pos_bound. Qed.

Lemma unsigned_range255 (a : F) : (0 ≤ Zmod.unsigned a < 2 ^ 255)%Z.
Proof. destruct (unsigned_range a) as [H1 H2]. split; [done|]. by transitivity p25519. Qed.

Lemma top_byte b n : (0 ≤ b < 128)%Z → (n = 0 ∨ n = 1)%Z → (Z.lxor b (byte (Z.shiftl n 7)) = b + 128 * n)%Z.
Proof.
  intros Hb Hn. assert (H0 : Z.land b (128 * n) = 0%Z).
  { apply Z.bits_inj'. intros k Hk. rewrite Z.land_spec, Z.bits_0. destruct Hn as [-> | ->]; [by rewrite Z.bits_0, andb_false_r|].
    destruct (decide (k = 7)%Z) as [->|Hne].
    - rewrite <- (Z.mod_small b (2 ^ 7)), Z.mod_pow2_bits_high by lia. done.
    - change (128 * 1)%Z with (2 ^ 7)%Z. by rewrite Z.pow2_bits_false, andb_false_r. }
  replace (byte (Z.shiftl n 7)) with (128 * n)%Z by (destruct Hn as [-> | ->]; reflexivity).
  rewrite Z.add_nocarry_lxor by done. done.
Qed.

Lemma signedBytes_spec x y a b : fe 1 x a → fe 1 y b →
  signedBytes x y = le_bytes 32 (Zmod.unsigned b + 2 ^ 255 * (Zmod.unsigned a mod 2))%Z.
Proof.
  intros Hx Hy. unfold signedBytes. destruct (FeToBytes_spec y) as (y' & -> & _); [eapply fe_bounded3; [done|lia]|].
  destruct (FeIsNegative_spec x) as (x' & -> & _); [eapply fe_bounded3; [done|lia]|].
  destruct Hx as [_ ->], Hy as [_ <-]. rewrite <- feF_unsigned. pose proof (unsigned_range (feF y)) as Hr.
  pose proof (Z.mod_pos_bound (Zmod.unsigned a) 2 ltac:(lia)) as Hn. set (n := (Zmod.unsigned a mod 2)%Z) in *.
  set (v := Zmod.unsigned (feF y)) in *. unfold p25519 in Hr.
  assert (Ht : (0 ≤ v / 256 ^ 31 < 128)%Z) by (split; [apply Z.div_pos|apply Z.div_lt_upper_bound]; lia).
  assert (Hl : le_bytes 32 v !!! 31%nat = (v / 256 ^ 31)%Z) by (rewrite le_bytes_lookup by lia; apply Z.mod_small; lia).
  rewrite Hl, top_byte by lia. apply le_bytes_unique; [by rewrite length_insert, length_le_bytes| |lia|].
  - apply Forall_insert; [apply le_bytes_byte|unfold is_byte; lia].
  - rewrite le_combine_insert, Hl, le_combine_le_bytes, Z.mod_small by (rewrite ?length_le_bytes; lia). lia.
Qed.

Lemma F_recip (a z : F) : z ≠ 0 → a * z * Zmod.inv z = a.
Proof. intros Hz. transitivity (Zmod.mdiv (a * z) z); [reflexivity|]. by field. Qed.

(** [ToBytes] writes the encoding of the point, whatever its coordinates. *)
Lemma ProjectiveGroupElement_ToBytes_spec p P : projective p P → ProjectiveGroupElement_ToBytes p = encode P.
Proof.
  intros (z & Hz & HX & HY & HZ). unfold ProjectiveGroupElement_ToBytes. apply signedBytes_spec; fe_value; by apply F_recip.
Qed.

Lemma ExtendedGroupElement_ToBytes_spec p P : extended p P → ExtendedGroupElement_ToBytes p = encode P.
Proof.
  intros (z & Hz & HX & HY & HZ & HT). unfold ExtendedGroupElement_ToBytes. apply signedBytes_spec; fe_value; by apply F_recip.
Qed.

(** ** Decompression *)
Lemma curve_denominator y : E.d * (y * y) + 1 ≠ 0.
Proof.
  intros Hz. apply (square_ratio sqrtm1 y).
  - intros ->. apply F_one_zero. rewrite <- Hz. ring.
  - rewrite sqrtm1_square. transitivity (E.d * (y * y) + 1 - 1); [ring|]. rewrite Hz. ring.
Qed.

Lemma onCurve_ratio x y : onCurve x y ↔ x * x * (E.d * (y * y) + 1) = y * y - 1.
Proof.
  unfold onCurve. split; intros H.
  - transitivity (1 + E.d * (x * x) * (y * y) - 1 + x * x); [ring|]. rewrite <- H. ring.
  - transitivity (y * y - 1 + 1 - x * x); [ring|]. rewrite <- H. ring.
Qed.

(** The candidate of the source for a square root of [u / v]. *)
Definition candidate (u v : F) : F :=
  let v3 := v * v * v in Zmod.pow (v3 * v3 * v * u) ((p25519 - 5) / 8) * v3 * u.

Definition quartic (u v : F) : F := Zmod.pow (v * v * v * (v * v * v) * v * u) ((p25519 - 1) / 4).

Lemma candidate_square u v : candidate u v * candidate u v * v = u * quartic u v.
Proof.
  unfold candidate, quartic. cbn zeta. change ((p25519 - 1) / 4)%Z with ((p25519 - 5) / 8 + (p25519 - 5) / 8 + 1)%Z.
  rewrite !Zmod.pow_add_r_nonneg, Zmod.pow_1_r by (vm_compute; discriminate). ring.
Qed.

Lemma square_one (c : F) : c * c = 1 → c = 1 ∨ c = - (1).
Proof.
  intros Hc. assert (Hz : (c - 1) * (c + 1) = 0) by (transitivity (c * c - 1); [ring|]; rewrite Hc; ring).
  apply F_mul_zero in Hz as [Hz|Hz]; [left; transitivity (c - 1 + 1)|right; transitivity (c + 1 - 1)]; [ring|rewrite Hz; ring|ring|rewrite Hz; ring].
Qed.

Lemma candidate_complete x u v : v ≠ 0 → x * x * v = u →
  candidate u v * candidate u v * v = u ∨ candidate u v * candidate u v * v = - u.
Proof.
  intros Hv Hx. rewrite candidate_square. destruct (Zmod.eqb_spec x 0) as [->|Hx0].
  { left. assert (u = 0) as -> by (rewrite <- Hx; ring). ring. }
  assert (Hq : quartic u v = 1 ∨ quartic u v = - (1)).
  { apply square_one. unfold quartic.
    replace (v * v * v * (v * v * v) * v * u) with (Zmod.pow (v * v * v * v * x) 2) by (rewrite Zmod.pow_2_r, <- Hx; ring).
    rewrite <- Zmod.pow_mul_r_nonneg, <- Zmod.pow_add_r_nonneg by (vm_compute; discriminate).
    assert (Hb : v * v * v * v * x ≠ 0) by (by repeat apply F_mul_nonzero).
    rewrite <- (Zmod.fermat_nz _ Hb prime_p25519). f_equal. }
  destruct Hq as [-> | ->]; [left|right]; ring.
Qed.

Lemma opp_parity (x : F) : x ≠ 0 → (Zmod.unsigned (- x) mod 2 = 1 - Zmod.unsigned x mod 2)%Z.
Proof.
  intros Hx. pose proof (unsigned_range x) as Hr.
  assert (Hu : Zmod.unsigned x ≠ 0%Z) by (intros E; apply Hx, Zmod.unsigned_inj; by rewrite E, Zmod.unsigned_0).
  assert (Ho : Zmod.unsigned (- x) = (p25519 - Zmod.unsigned x)%Z).
  { rewrite Zmod.unsigned_opp. rewrite <- (Z.mod_add _ 1) by done. rewrite Z.mod_small; lia. }
  rewrite Ho. generalize (Zmod.unsigned x). intros u. change p25519 with (2 * (2 ^ 254 - 10) + 1)%Z.
  generalize (2 ^ 254 - 10)%Z. intros n. Z.div_mod_to_equations. lia.
Qed.

Lemma opp_nonzero (x : F) : x ≠ 0 → - x ≠ 0.
Proof. intros Hx H. apply Hx. transitivity (- - x); [ring|]. rewrite H. ring. Qed.

(** The last part of [FromBytes]: the root with the wanted sign. *)
Lemma sign_choice X Y x y b : bounded 3 X → feF X = x → fe 1 Y y → onCurve x y → (b = 0 ∨ b = 1)%Z →
  ∃ q P, (let '(neg, X) := FeIsNegative X in
          let X := if (neg =? b)%Z then X else FeNeg X in (true, Extended X Y FeOne (FeMul X Y))) = (true, q) ∧
    extended q P ∧ py P = y ∧ (px P = 0 ∨ (Zmod.unsigned (px P) mod 2)%Z = b).
Proof.
  intros HX Ex HY Hon Hb. destruct (FeIsNegative_spec X HX) as (X' & -> & HX' & Ex').
  assert (H2 : fe 2 X' x) by (split; [done|by rewrite Ex', Ex]). rewrite Ex. clear Ex' HX'.
  apply onCurveb_spec in Hon. destruct (Z.eqb_spec (Zmod.unsigned x mod 2) b) as [Hs|Hs].
  - eexists _, (mkPoint x y Hon). split_and!; [done| |done|by right].
    exists 1. cbn [eX eY eZ eT px py]. split_and!; [apply F_one_zero|..]; fe_value; ring.
  - eexists _, (neg (mkPoint x y Hon)). split_and!; [done| |done|].
    + exists 1. unfold neg. cbn [eX eY eZ eT px py]. split_and!; [apply F_one_zero|..]; fe_value; ring.
    + unfold neg. cbn [px]. destruct (Zmod.eqb_spec x 0) as [->|Hx]; [left; ring|right]. rewrite opp_parity by done.
      pose proof (Z.mod_pos_bound (Zmod.unsigned x) 2). lia.
Qed.

Lemma is_zero_flag f k a : fe k f a → (0 ≤ k ≤ 3)%Z → ((FeIsNonZero f).1 =? 1)%Z = negb (Zmod.eqb a 0).
Proof.
  intros Hf Hk. destruct (FeIsNonZero_spec f) as (f' & -> & _); [by eapply fe_bounded3|]. destruct Hf as [_ ->].
  cbn [fst]. by destruct (Zmod.eqb a 0).
Qed.

Lemma key_sign_bit s : length s = 32%nat → Forall is_byte s →
  Z.shiftr (s !!! 31%nat) 7 = (le_combine s / 2 ^ 255)%Z ∧ (le_combine s / 2 ^ 255 = 0 ∨ le_combine s / 2 ^ 255 = 1)%Z.
Proof.
  intros Hl Hb. pose proof (le_combine_bound s Hb) as Hr. rewrite Hl in Hr.
  rewrite <- (le_bytes_le_combine s Hb) at 1. rewrite Hl, le_bytes_lookup by lia.
  rewrite Z.mod_small by (split; [apply Z.div_pos|apply Z.div_lt_upper_bound]; lia).
  rewrite Z.shiftr_div_pow2, Z.div_div by lia. split; [done|].
  assert (0 ≤ le_combine s / 2 ^ 255 < 2)%Z by (split; [apply Z.div_pos|apply Z.div_lt_upper_bound]; lia). lia.
Qed.

(** [FromBytes] succeeds exactly on the second coordinates of points and chooses the
    sign the last bit asks for. *)
Lemma FromBytes_spec p s : length s = 32%nat → Forall is_byte s →
  let y := toF (le_combine s mod 2 ^ 255) in
  (∃ q P, ExtendedGroupElement_FromBytes p s = (true, q) ∧ extended q P ∧ py P = y ∧
     (px P = 0 ∨ (Zmod.unsigned (px P) mod 2 = le_combine s / 2 ^ 255)%Z)) ∨
  (∃ q, ExtendedGroupElement_FromBytes p s = (false, q) ∧ ∀ x, ¬ onCurve x y).
Proof.
  intros Hl Hb. cbn zeta. destruct (key_sign_bit s Hl Hb) as [Es Hs]. assert (HY : fe 1 (FeFromBytes s) (toF (le_combine s mod 2 ^ 255))) by by apply FeFromBytes_spec.
  set (y := toF (le_combine s mod 2 ^ 255)) in *. unfold ExtendedGroupElement_FromBytes. cbn zeta. rewrite Es.
  set (Y := FeFromBytes s) in *.
  set (u := FeSub (FeSquare Y) FeOne). set (v := FeAdd (FeMul (FeSquare Y) Group25519.d) FeOne).
  assert (Hu : fe 2 u (y * y - 1)) by (unfold u; fe_value; ring).
  assert (Hv : fe 2 v (E.d * (y * y) + 1)) by (unfold v; fe_value; ring).
  set (X := FeMul _ u). assert (HX : fe 1 X (candidate (y * y - 1) (E.d * (y * y) + 1))) by (unfold X, candidate; fe_value; ring).
  clearbody X u v Y. set (U := y * y - 1) in *. set (V := E.d * (y * y) + 1) in *. set (x := candidate U V) in *.
  rewrite (is_zero_flag (FeSub (FeMul (FeSquare X) v) u) 3 (x * x * V - U)) by (try fe_value; reflexivity || lia).
  rewrite (is_zero_flag (FeAdd (FeMul (FeSquare X) v) u) 3 (x * x * V + U)) by (try fe_value; reflexivity || lia).
  destruct (Zmod.eqb_spec (x * x * V - U) 0) as [E1|N1]; cbn [negb].
  { left. apply (sign_choice X Y x); [eapply fe_bounded3; [done|lia]|apply HX|done| |done]. apply onCurve_ratio.
    fold U V. transitivity (x * x * V - U + U); [ring|]. rewrite E1. ring. }
  destruct (Zmod.eqb_spec (x * x * V + U) 0) as [E2|N2]; cbn [negb].
  - left. assert (HM : fe 1 (FeMul X SqrtM1) (x * sqrtm1)) by fe_step.
    destruct (FeToBytes_spec (FeMul X SqrtM1)) as (X' & -> & HX' & Ez); [eapply fe_bounded3; [done|lia]|]. cbn [snd].
    apply (sign_choice X' Y (x * sqrtm1)); [by eapply bounded_weaken; [|done]|rewrite (feF_reduced _ _ Ez); apply HM|done| |done].
    apply onCurve_ratio. fold U V. transitivity (sqrtm1 * sqrtm1 * (x * x * V + U - U)); [ring|]. rewrite E2, sqrtm1_square. ring.
  - right. eexists. split; [done|]. intros x0 H0%onCurve_ratio. fold U V in H0.
    destruct (candidate_complete x0 U V (curve_denominator y) H0) as [H|H]; fold x in H; [apply N1|apply N2]; rewrite H; ring.
Qed.

Lemma encode_length P : length (encode P) = 32%nat.
Proof. apply length_le_bytes. Qed.

Lemma encode_bytes P : Forall is_byte (encode P).
Proof. apply le_bytes_byte. Qed.

Lemma encode_parts P :
  (le_combine (encode P) mod 2 ^ 255 = Zmod.unsigned (py P) ∧
   le_combine (encode P) / 2 ^ 255 = Zmod.unsigned (px P) mod 2)%Z.
Proof.
  pose proof (unsigned_range255 (py P)) as Hy. pose proof (Z.mod_pos_bound (Zmod.unsigned (px P)) 2 ltac:(lia)) as Hx.
  unfold encode. rewrite le_combine_le_bytes. change (256 ^ Z.of_nat 32)%Z with (2 ^ 256)%Z.
  generalize dependent (Zmod.unsigned (py P)). generalize dependent (Zmod.unsigned (px P) mod 2)%Z. intros n Hn v Hv.
  rewrite (Z.mod_small (v + _)) by lia. rewrite (Z.mul_comm _ n), Z.mod_add, Z.div_add, Z.mod_small, Z.div_small by lia. lia.
Qed.

(** Two points with the same second coordinate are equal or opposite. *)
Lemma same_y P Q : py P = py Q → px P = px Q ∨ px P = - px Q.
Proof.
  intros Hy. pose proof (proj1 (onCurve_ratio _ _) (point_on P)) as HP.
  pose proof (proj1 (onCurve_ratio _ _) (point_on Q)) as HQ. rewrite Hy in HP.
  assert (Hz : (px P - px Q) * (px P + px Q) = 0).
  { apply (F_cancel (E.d * (py Q * py Q) + 1)); [apply curve_denominator|].
    transitivity (px P * px P * (E.d * (py Q * py Q) + 1) - px Q * px Q * (E.d * (py Q * py Q) + 1)); [ring|].
    rewrite HP, HQ. ring. }
  apply F_mul_zero in Hz as [Hz|Hz]; [left; transitivity (px P - px Q + px Q)|right; transitivity (px P + px Q - px Q)];
    [ring|rewrite Hz; ring|ring|rewrite Hz; ring].
Qed.

Lemma same_parity P Q : py P = py Q →
  (px P = 0 ∨ (Zmod.unsigned (px P) mod 2 = Zmod.unsigned (px Q) mod 2)%Z) → P = Q.
Proof.
  intros Hy Hs. apply point_eq; [|done]. destruct (same_y P Q Hy) as [?|Ho]; [done|].
  destruct (Zmod.eqb_spec (px Q) 0) as [Hz|Hz]; [rewrite Ho, Hz; ring|].
  destruct Hs as [H0|Hs].
  - exfalso. apply Hz. transitivity (- - px Q); [ring|]. rewrite <- Ho, H0. ring.
  - rewrite Ho, opp_parity in Hs by done. pose proof (Z.mod_pos_bound (Zmod.unsigned (px Q)) 2 ltac:(lia)). lia.
Qed.

Lemma encode_inj P Q : encode P = encode Q → P = Q.
Proof.
  intros H. destruct (encode_parts P) as [Py Px], (encode_parts Q) as [Qy Qx]. rewrite H in Py, Px.
  apply same_parity; [apply Zmod.unsigned_inj; congruence|right; congruence].
Qed.

(** Decoding an encoded point gives the point back. *)
Lemma FromBytes_encode p P :
  ∃ q, ExtendedGroupElement_FromBytes p (encode P) = (true, q) ∧ extended q P.
Proof.
  destruct (encode_parts P) as [Hy Hx]. assert (Ey : toF (Zmod.unsigned (py P)) = py P) by apply Zmod.of_Z_to_Z.
  destruct (FromBytes_spec p (encode P) (encode_length P) (encode_bytes P)) as [(q & Q & E & Hq & Qy & Qx)|(q & _ & Hno)];
    cbn zeta in *; rewrite Hy, Ey in *.
  - exists q. split; [done|]. rewrite Hx in Qx. by rewrite <- (same_parity Q P Qy Qx).
  - destruct (Hno (px P) (point_on P)).
Qed.

(** [FromBytes] accepts 32 bytes exactly when some point has the second coordinate they
    spell, and an accepted canonical encoding is written back by [ToBytes]. *)
Theorem decompression_exact p s : length s = 32%nat → Forall is_byte s →
  ((ExtendedGroupElement_FromBytes p s).1 = true ↔ ∃ x, onCurve x (toF (le_combine s mod 2 ^ 255))) ∧
  ∀ P, s = encode P → (ExtendedGroupElement_FromBytes p s).1 = true ∧
    extended (ExtendedGroupElement_FromBytes p s).2 P ∧
    ExtendedGroupElement_ToBytes (ExtendedGroupElement_FromBytes p s).2 = s.
Proof.
  intros Hl Hb. split.
  - destruct (FromBytes_spec p s Hl Hb) as [(q & P & -> & _ & <- & _)|(q & -> & Hno)]; cbn zeta in *; cbn [fst].
    + split; [|done]. intros _. exists (px P). apply point_on.
    + split; [done|]. intros [x Hx]. destruct (Hno x Hx).
  - intros P ->. destruct (FromBytes_encode p P) as (q & -> & Hq). cbn [fst snd]. split_and!; [done|done|].
    by apply ExtendedGroupElement_ToBytes_spec.
Qed.

Lemma decompression_exact_witness : extended (ExtendedGroupElement_FromBytes ExtendedGroupElement_Zero (encode zero)).2 zero.
Proof. apply (decompression_exact ExtendedGroupElement_Zero (encode zero) (encode_length zero) (encode_bytes zero)). reflexivity. Defined.
