(* ===== verification/Base25519.v ===== *)
(** * The base point of Ed25519 and its tables

    The base point has second coordinate [4 / 5] and an even first coordinate.  The file
    proves that the tables of [crypto/ed25519/internal/edwards25519/const.go] hold the
    multiples of it they are used for, and that its order divides [l25519].  The multiples
    are recomputed with the same formulas in the machine arithmetic of [bigZ]. *)

From Stdlib Require Import Zmod Field.
From Bignums Require Import BigZ.BigZ.
From S2P Require Import Prelude Limbs Primes Curve Field25519 Scalar25519 Group25519 Tables25519.

#[local] Open Scope Zmod_scope.
Import E.

(** ** The base point *)
Definition Bx : F := toF 15112221349535400772501151409588531511454012693041857206046113283949847762202.
Definition By : F := toF 46316835694926478169428394003475163141307993866256225615783033603165251855960.

Lemma B_on_curve : onCurveb Bx By = true.
Proof. vm_compute. reflexivity. Qed.

Definition B : point := mkPoint Bx By B_on_curve.

Lemma B_four_fifths : toF 5 * py B = toF 4 ∧ (Zmod.unsigned (px B) mod 2 = 0)%Z.
Proof.
  split; [|vm_compute; reflexivity]. cbn [B py]. unfold By. rewrite <- Zmod.of_Z_mul. apply of_Z_congr. vm_compute. reflexivity.
Qed.

(** ** Recomputing multiples *)
Definition bp : bigZ := Eval vm_compute in BigZ.of_Z p25519.
Definition ofZ (z : Z) : bigZ := BigZ.of_Z z.
Definition madd (a b : bigZ) : bigZ := BigZ.modulo (BigZ.add a b) bp.
Definition msub (a b : bigZ) : bigZ := BigZ.modulo (BigZ.sub a b) bp.
Definition mmul (a b : bigZ) : bigZ := BigZ.modulo (BigZ.mul a b) bp.
Definition meq (a b : bigZ) : bool := BigZ.eqb (BigZ.modulo a bp) (BigZ.modulo b bp).

Definition bF (a : bigZ) : F := toF (BigZ.to_Z a).

Lemma bp_spec : BigZ.to_Z bp = p25519.
Proof. vm_compute. reflexivity. Qed.

Lemma bF_ofZ z : bF (ofZ z) = toF z.
Proof. unfold bF, ofZ. by rewrite BigZ.spec_of_Z. Qed.

Lemma bF_add a b : bF (madd a b) = bF a + bF b.
Proof. unfold bF, madd. by rewrite BigZ.spec_modulo, BigZ.spec_add, bp_spec, Zmod.of_Z_mod, Zmod.of_Z_add. Qed.

Lemma bF_sub a b : bF (msub a b) = bF a - bF b.
Proof. unfold bF, msub. by rewrite BigZ.spec_modulo, BigZ.spec_sub, bp_spec, Zmod.of_Z_mod, Zmod.of_Z_sub. Qed.

Lemma bF_mul a b : bF (mmul a b) = bF a * bF b.
Proof. unfold bF, mmul. by rewrite BigZ.spec_modulo, BigZ.spec_mul, bp_spec, Zmod.of_Z_mod, Zmod.of_Z_mul. Qed.

Lemma meq_spec a b : meq a b = true → bF a = bF b.
Proof.
  unfold meq, bF. rewrite BigZ.spec_eqb, !BigZ.spec_modulo, bp_spec. intros H%Z.eqb_eq. by apply of_Z_congr.
Qed.

(** The three sums of a table entry, and a point in extended coordinates. *)
Definition entry : Type := bigZ * bigZ * bigZ.
Definition multiple : Type := bigZ * bigZ * bigZ * bigZ.

Definition isEntry (q : entry) (P : point) : Prop :=
  let '(p, m, t) := q in bF p = py P + px P ∧ bF m = py P - px P ∧ bF t = toF 2 * E.d * (px P * py P).

Definition isMultiple (e : multiple) (P : point) : Prop :=
  let '(X, Y, W, T) := e in
  ∃ z, z ≠ 0 ∧ bF X = px P * z ∧ bF Y = py P * z ∧ bF W = z ∧ bF T = px P * py P * z.

Definition finishMultiple (X Y W T : bigZ) : multiple := (mmul X T, mmul Y W, mmul W T, mmul X Y).

Definition addEntry (e : multiple) (q : entry) : multiple :=
  let '(X, Y, W, T) := e in let '(p, m, t) := q in
  let a := mmul (madd Y X) p in let b := mmul (msub Y X) m in let c := mmul t T in let w := madd W W in
  finishMultiple (msub a b) (madd a b) (madd w c) (msub w c).

Definition doubleMultiple (e : multiple) : multiple :=
  let '(X, Y, W, _) := e in
  let a := mmul X X in let b := mmul Y Y in let w := mmul W W in let s := madd X Y in
  let y := madd b a in let z := msub b a in
  finishMultiple (msub (mmul s s) y) y z (msub (madd w w) z).

Lemma finish_sum X Y W T P Q w : w ≠ 0 →
  bF X = w * (px P * py Q + px Q * py P) → bF Y = w * (py P * py Q + px P * px Q) →
  bF W = w * (1 + E.d * px P * px Q * py P * py Q) → bF T = w * (1 - E.d * px P * px Q * py P * py Q) →
  isMultiple (finishMultiple X Y W T) (add P Q).
Proof.
  intros Hw HX HY HW HT. destruct (denominators P Q) as [D1 D2]. unfold isMultiple, finishMultiple.
  exists (bF W * bF T). rewrite !bF_mul, HX, HY, HW, HT. split; [apply F_mul_nonzero; apply F_mul_nonzero; assumption|].
  unfold add, add_x, add_y; cbn [px py]. split_and!; field; try split; assumption.
Qed.

Lemma addEntry_spec e q P Q : isMultiple e P → isEntry q Q → isMultiple (addEntry e q) (add P Q).
Proof.
  destruct e as [[[X Y] W] T], q as [[p m] t]. intros (z & Hz & HX & HY & HW & HT) (Hp & Hm & Ht).
  apply (finish_sum _ _ _ _ _ _ (toF 2 * z)); [by apply F_scale|..];
    repeat rewrite ?bF_add, ?bF_sub, ?bF_mul; rewrite ?HX, ?HY, ?HW, ?HT, ?Hp, ?Hm, ?Ht; ring.
Qed.

Lemma doubleMultiple_spec e P : isMultiple e P → isMultiple (doubleMultiple e) (add P P).
Proof.
  destruct e as [[[X Y] W] T]. intros (z & Hz & HX & HY & HW & HT). pose proof (curve_monomial _ _ (point_on P)) as Hc.
  apply (finish_sum _ _ _ _ _ _ (z * z)); [by apply F_mul_nonzero|..];
    repeat rewrite ?bF_add, ?bF_sub, ?bF_mul; rewrite ?HX, ?HY, ?HW; ring [Hc].
Qed.

(** ** Comparison with a table *)
Definition twod : bigZ := Eval vm_compute in ofZ (2 * 37095705934669439343138083508754565189542113879843219016388785533085940283555).

Definition matches (e : multiple) (q : entry) : bool :=
  let '(X, Y, W, T) := e in let '(p, m, t) := q in
  meq (BigZ.mul p W) (BigZ.add Y X) && meq (BigZ.mul m W) (BigZ.sub Y X) && meq (BigZ.mul t W) (BigZ.mul twod T).

Lemma matches_spec e q P : isMultiple e P → matches e q = true → isEntry q P.
Proof.
  destruct e as [[[X Y] W] T], q as [[p m] t]. intros (z & Hz & HX & HY & HW & HT) [[Hp Hm]%andb_true_iff Ht]%andb_true_iff.
  apply meq_spec in Hp, Hm, Ht. unfold bF in *. rewrite ?BigZ.spec_mul, ?BigZ.spec_add, ?BigZ.spec_sub in *.
  rewrite ?Zmod.of_Z_mul, ?Zmod.of_Z_add, ?Zmod.of_Z_sub, HX, HY, HW, ?HT in *.
  assert (Hd : toF (BigZ.to_Z twod) = toF 2 * E.d) by (unfold E.d; rewrite <- Zmod.of_Z_mul; f_equal; vm_compute; reflexivity).
  unfold isEntry, bF. split_and!; apply (F_cancel z); [done| |done| |done|]; rewrite (Zmod.mul_comm z); rewrite ?Hp, ?Hm, ?Ht, ?Hd; ring.
Qed.

Definition entryOf (q : PreComputedGroupElement) : entry :=
  (ofZ (feZ (yPlusX q)), ofZ (feZ (yMinusX q)), ofZ (feZ (xy2d q))).

Fixpoint withinb (f : list Z) (rs : list (Z * Z)) : bool :=
  match f, rs with
  | [], [] => true
  | x :: f, (a, b) :: rs => (a <=? x)%Z && (x <=? b)%Z && withinb f rs
  | _, _ => false
  end.

Definition validb (q : PreComputedGroupElement) : bool :=
  withinb (yPlusX q) (limbRanges 1) && withinb (yMinusX q) (limbRanges 1) && withinb (xy2d q) (limbRanges 1).

Lemma withinb_spec f : ∀ rs, withinb f rs = true → Forall2 within_range f rs.
Proof.
  induction f as [|x f IH]; intros [|[a b] rs] H; try done. cbn [withinb] in H.
  apply andb_true_iff in H as [[Ha%Z.leb_le Hb%Z.leb_le]%andb_true_iff H]. constructor; [done|by apply IH].
Qed.

Lemma validb_spec q P : validb q = true → isEntry (entryOf q) P → preComputed q P.
Proof.
  intros [[H1 H2]%andb_true_iff H3]%andb_true_iff (E1 & E2 & E3). rewrite bF_ofZ in E1, E2, E3.
  by split_and!; (split; [apply withinb_spec|]).
Qed.

(** The elements [e], [e + step], [e + 2 * step], ... *)
Fixpoint checkSteps (e : multiple) (step : entry) (qs : list PreComputedGroupElement) : bool :=
  match qs with
  | [] => true
  | q :: qs => validb q && matches e (entryOf q) && checkSteps (addEntry e step) step qs
  end.

Lemma checkSteps_spec step S qs : ∀ e P j q, isMultiple e P → isEntry step S → checkSteps e step qs = true →
  qs !! j = Some q → preComputed q (add P (mul (Z.of_nat j) S)).
Proof.
  induction qs as [|q' qs IH]; intros e P j q He Hs H Hj; [done|]. cbn [checkSteps] in H.
  apply andb_true_iff in H as [[Hv Hm]%andb_true_iff H]. destruct j as [|j].
  - injection Hj as ->. rewrite mul_0, add_zero_r. by eapply validb_spec, matches_spec.
  - specialize (IH _ _ j q (addEntry_spec _ _ _ _ He Hs) Hs H Hj).
    by rewrite Nat2Z.inj_succ, mul_succ, add_assoc.
Qed.

Lemma doubles_spec n : ∀ e P, isMultiple e P → isMultiple (Nat.iter n doubleMultiple e) (mul (2 ^ Z.of_nat n) P).
Proof.
  induction n as [|n IH]; intros e P He; [by rewrite mul_1|].
  rewrite Nat2Z.inj_succ, Z.pow_succ_r, mul_double by lia. cbn [Nat.iter nat_rect]. by apply doubleMultiple_spec, IH.
Qed.

Fixpoint checkRows (e : multiple) (rows : list (list PreComputedGroupElement)) : bool :=
  match rows with
  | [] => true
  | [] :: _ => false
  | (q :: _) as row :: rows =>
      matches e (entryOf q) && checkSteps e (entryOf q) row && checkRows (Nat.iter 8 doubleMultiple e) rows
  end.

Lemma checkRows_spec rows : ∀ e P i row j q, isMultiple e P → checkRows e rows = true →
  rows !! i = Some row → row !! j = Some q → preComputed q (mul ((Z.of_nat j + 1) * 256 ^ Z.of_nat i) P).
Proof.
  induction rows as [|row' rows IH]; intros e P i row j q He H Hi Hj; [done|]. destruct row' as [|q0 row']; [done|].
  cbn [checkRows] in H. apply andb_true_iff in H as [[Hm Hs]%andb_true_iff H]. destruct i as [|i].
  - injection Hi as <-. rewrite Z.mul_1_r, Z.add_comm, mul_add, mul_1.
    eapply checkSteps_spec; [done|by eapply matches_spec|done|done].
  - rewrite Nat2Z.inj_succ, Z.pow_succ_r, (Z.mul_comm 256), Z.mul_assoc, mul_mul by lia.
    by eapply IH; [apply (doubles_spec 8)| | |].
Qed.

(** ** The tables *)
Definition eB : multiple := Eval vm_compute in
  let x := ofZ 15112221349535400772501151409588531511454012693041857206046113283949847762202 in
  let y := ofZ 46316835694926478169428394003475163141307993866256225615783033603165251855960 in
  (x, y, ofZ 1, mmul x y).

Lemma eB_spec : isMultiple eB B.
Proof.
  exists 1. cbn [B px py]. unfold Bx, By, bF. rewrite <- Zmod.of_Z_1, <- !Zmod.of_Z_mul.
  split_and!; [rewrite Zmod.of_Z_1; apply F_one_zero|..]; apply of_Z_congr; vm_compute; reflexivity.
Qed.

(** Entry [j] of row [i] of [base] is [(j + 1) * 256 ^ i] times the base point. *)
Lemma base_spec i row j q : base !! i = Some row → row !! j = Some q →
  preComputed q (mul ((Z.of_nat j + 1) * 256 ^ Z.of_nat i) B).
Proof. eapply checkRows_spec; [exact eB_spec|]. vm_compute. reflexivity. Qed.

Lemma base_shape : length base = 32%nat ∧ Forall (λ row, length row = 8%nat) base.
Proof.
  assert (H : (length base =? 32)%nat && forallb (λ row, (length row =? 8)%nat) base = true) by (vm_compute; reflexivity).
  apply andb_true_iff in H as [H1%Nat.eqb_eq H2]. split; [done|].
  apply Is_true_true, forallb_True in H2. eapply Forall_impl; [|exact H2]. intros row Hrow. by apply Nat.eqb_eq, Is_true_true.
Qed.

Definition secondEntry : entry := Eval vm_compute in entryOf ((base !!! 0%nat) !!! 1%nat).

Lemma secondEntry_spec : isEntry secondEntry (mul 2 B).
Proof.
  apply (matches_spec (doubleMultiple eB)); [|vm_compute; reflexivity].
  change 2%Z with (2 * 1)%Z. rewrite mul_double, mul_1. apply doubleMultiple_spec, eB_spec.
Qed.

(** Entry [j] of [bi] is the odd multiple [2 * j + 1] of the base point. *)
Lemma bi_spec j q : bi !! j = Some q → preComputed q (mul (2 * Z.of_nat j + 1) B).
Proof.
  intros Hj. assert (Hc : checkSteps eB secondEntry bi = true) by (vm_compute; reflexivity).
  rewrite (Z.mul_comm 2), Z.add_comm, mul_add, mul_1, mul_mul.
  exact (checkSteps_spec _ _ _ _ _ _ _ eB_spec secondEntry_spec Hc Hj).
Qed.

(** ** The order of the base point *)
Definition firstEntry : entry := Eval vm_compute in entryOf ((base !!! 0%nat) !!! 0%nat).

Fixpoint multipleOf (n : positive) : multiple :=
  match n with
  | xH => eB
  | xO n => doubleMultiple (multipleOf n)
  | xI n => addEntry (doubleMultiple (multipleOf n)) firstEntry
  end.

Lemma multipleOf_spec n : isMultiple (multipleOf n) (mul (Z.pos n) B).
Proof.
  assert (He : isEntry firstEntry B) by (apply (matches_spec eB); [exact eB_spec|vm_compute; reflexivity]).
  induction n as [n IH|n IH|]; cbn [multipleOf]; [| |rewrite mul_1; exact eB_spec].
  - rewrite Pos2Z.inj_xI, mul_add, mul_1, mul_double. by apply addEntry_spec; [apply doubleMultiple_spec|].
  - rewrite Pos2Z.inj_xO, mul_double. by apply doubleMultiple_spec.
Qed.

Definition isNeutral (e : multiple) : bool := let '(X, Y, W, _) := e in meq X (ofZ 0) && meq Y W.

Lemma isNeutral_spec e P : isMultiple e P → isNeutral e = true → P = zero.
Proof.
  destruct e as [[[X Y] W] T]. intros (z & Hz & HX & HY & HW & _) [H0%meq_spec H1%meq_spec]%andb_true_iff.
  rewrite HX, bF_ofZ, Zmod.of_Z_0 in H0. rewrite HY, HW in H1. apply point_eq; unfold zero; cbn [px py];
    apply (F_cancel z); [done| |done|]; rewrite (Zmod.mul_comm z); [rewrite H0|rewrite H1]; ring.
Qed.

Lemma B_order : mul l25519 B = zero.
Proof.
  assert (H : isNeutral (multipleOf (Z.to_pos l25519)) = true) by (vm_compute; reflexivity).
  exact (isNeutral_spec _ _ (multipleOf_spec (Z.to_pos l25519)) H).
Qed.

(** C27: the tables hold what they are used for: row [i] of [base] the multiples
    [256 ^ i, 2 * 256 ^ i, ..., 8 * 256 ^ i] of the base point and [bi] its odd multiples
    up to fifteen, with limbs within the bounds of the field operations; the order of
    the base point divides [l25519]. *)
Theorem tables_hold_multiples :
  (∀ i row j q, base !! i = Some row → row !! j = Some q → preComputed q (mul ((Z.of_nat j + 1) * 256 ^ Z.of_nat i) B)) ∧
  length base = 32%nat ∧ Forall (λ row, length row = 8%nat) base ∧
  (∀ j q, bi !! j = Some q → preComputed q (mul (2 * Z.of_nat j + 1) B)) ∧ mul l25519 B = zero.
Proof. split_and!; [apply base_spec|apply base_shape..|apply bi_spec|apply B_order]. Qed.
