(* ===== verification/ScalarMult25519.v ===== *)
(** * Scalar multiplication of Ed25519: [crypto/ed25519/internal/edwards25519/edwards25519.go]

    [slide] recodes a scalar into sparse signed digits, from which
    [GeDoubleScalarMultVartime] computes [a * A + b * B]; [GeScalarMultBase] recodes into
    signed digits of four bits and adds entries of the table of multiples of the base
    point, selected without branching.  The recodings are proved to keep the scalar, lose
    no carry and stay within eight bits, and both multiplications to be those of the
    group. *)

From Stdlib Require Import Zmod.
From S2P Require Import Prelude Limbs Primes Curve Field25519 Scalar25519 Group25519 Tables25519 Base25519.

(** ** Sliding windows *)
Definition slideBits (a : list Z) : list Z :=
  (λ i, Z.land 1 (Z.shiftr (a !!! (i / 8)%nat) (Z.of_nat (i mod 8)))) <$> seq 0 256.

(** The carry loop [for k := i + b; k < 256; k++], [n] steps from the end. *)
Fixpoint slideCarry (n k : nat) (r : list Z) : list Z :=
  match n with
  | O => r
  | S n => if r !!! k =? 0 then <[k := 1]> r else slideCarry n (S k) (<[k := 0]> r)
  end.

Fixpoint slideMerge (i : nat) (bs : list nat) (r : list Z) : list Z :=
  match bs with
  | [] => r
  | b :: bs =>
      if (i + b <? 256)%nat then
        if r !!! (i + b)%nat =? 0 then slideMerge i bs r
        else
          let x := i8 (Z.shiftl (r !!! (i + b)%nat) (Z.of_nat b)) in
          if i8 (r !!! i + x) <=? 15 then
            slideMerge i bs (<[(i + b)%nat := 0]> (<[i := i8 (r !!! i + x)]> r))
          else if -15 <=? i8 (r !!! i - x) then
            slideMerge i bs (slideCarry (256 - (i + b)) (i + b) (<[i := i8 (r !!! i - x)]> r))
          else r
      else r
  end.

Definition slideAt (r : list Z) (i : nat) : list Z :=
  if r !!! i =? 0 then r else slideMerge i (seq 1 6) r.

Definition slide (a : list Z) : list Z := foldl slideAt (slideBits a) (seq 0 256).

(** ** Multiplication of two points *)
Fixpoint oddMultiplesFrom (n : nat) (A2 : ExtendedGroupElement) (c : CachedGroupElement) : list CachedGroupElement :=
  c :: match n with
       | O => []
       | S n => oddMultiplesFrom n A2 (ExtendedGroupElement_ToCached (CompletedGroupElement_ToExtended (geAdd A2 c)))
       end.

(** The number of digits up to the highest one that is not zero in both scalars. *)
Fixpoint activeDigits (n : nat) (aSlide bSlide : list Z) : nat :=
  match n with
  | O => O
  | S i => if negb (aSlide !!! i =? 0) || negb (bSlide !!! i =? 0) then n else activeDigits i aSlide bSlide
  end.

Definition vartimeStep (Ai : list CachedGroupElement) (a b : Z) (r : ProjectiveGroupElement) : ProjectiveGroupElement :=
  let t := ProjectiveGroupElement_Double r in
  let t :=
    if 0 <? a then geAdd (CompletedGroupElement_ToExtended t) (Ai !!! Z.to_nat (Z.quot a 2))
    else if a <? 0 then geSub (CompletedGroupElement_ToExtended t) (Ai !!! Z.to_nat (Z.quot (i8 (- a)) 2))
    else t in
  let t :=
    if 0 <? b then geMixedAdd (CompletedGroupElement_ToExtended t) (bi !!! Z.to_nat (Z.quot b 2))
    else if b <? 0 then geMixedSub (CompletedGroupElement_ToExtended t) (bi !!! Z.to_nat (Z.quot (i8 (- b)) 2))
    else t in
  CompletedGroupElement_ToProjective t.

Fixpoint vartimeLoop (Ai : list CachedGroupElement) (aSlide bSlide : list Z) (n : nat) (r : ProjectiveGroupElement) :
    ProjectiveGroupElement :=
  match n with
  | O => r
  | S i => vartimeLoop Ai aSlide bSlide i (vartimeStep Ai (aSlide !!! i) (bSlide !!! i) r)
  end.

Definition GeDoubleScalarMultVartime (a : list Z) (A : ExtendedGroupElement) (b : list Z) : ProjectiveGroupElement :=
  let aSlide := slide a in
  let bSlide := slide b in
  let A2 := CompletedGroupElement_ToExtended (ExtendedGroupElement_Double A) in
  let Ai := oddMultiplesFrom 7 A2 (ExtendedGroupElement_ToCached A) in
  vartimeLoop Ai aSlide bSlide (activeDigits 256 aSlide bSlide) ProjectiveGroupElement_Zero.

(** ** Multiplication of the base point *)
Definition equal (b c : Z) : Z :=
  let x := Z.lxor b c mod 2 ^ 32 in
  let x := (x - 1) mod 2 ^ 32 in
  i32 (Z.shiftr x 31).

Definition negative (b : Z) : Z := Z.land (Z.shiftr b 31) 1.

Definition PreComputedGroupElementCMove (t u : PreComputedGroupElement) (b : Z) : PreComputedGroupElement :=
  PreComputed (FeCMove (yPlusX t) (yPlusX u) b) (FeCMove (yMinusX t) (yMinusX u) b) (FeCMove (xy2d t) (xy2d u) b).

Definition selectPoint (pos : nat) (b : Z) : PreComputedGroupElement :=
  let bNegative := negative b in
  let bAbs := i32 (b - i32 (Z.shiftl (Z.land (i32 (- bNegative)) b) 1)) in
  let t := foldl (λ t i, PreComputedGroupElementCMove t ((base !!! pos) !!! i) (equal bAbs (Z.of_nat i + 1)))
    PreComputedGroupElement_Zero (seq 0 8) in
  let minusT := PreComputed (yMinusX t) (yPlusX t) (FeNeg (xy2d t)) in
  PreComputedGroupElementCMove t minusT bNegative.

Definition nibbles (a : list Z) : list Z :=
  a ≫= λ v, [i8 (Z.land v 15); i8 (Z.land (Z.shiftr v 4) 15)].

Fixpoint recode (e : list Z) (carry : Z) : list Z :=
  match e with
  | [] => []
  | [x] => [i8 (x + carry)]
  | x :: e =>
      let x := i8 (x + carry) in
      let carry := Z.shiftr (i8 (x + 8)) 4 in
      i8 (x - i8 (Z.shiftl carry 4)) :: recode e carry
  end.

Definition addDigits (e : list Z) (h : ExtendedGroupElement) (idx : list nat) : ExtendedGroupElement :=
  foldl (λ h i, CompletedGroupElement_ToExtended (geMixedAdd h (selectPoint (i / 2) (e !!! i)))) h idx.

Definition GeScalarMultBase (a : list Z) : ExtendedGroupElement :=
  let e := recode (nibbles a) 0 in
  let h := addDigits e ExtendedGroupElement_Zero ((λ k, 2 * k + 1)%nat <$> seq 0 32) in
  let r := ExtendedGroupElement_Double h in
  let s := CompletedGroupElement_ToProjective r in
  let r := ProjectiveGroupElement_Double s in
  let s := CompletedGroupElement_ToProjective r in
  let r := ProjectiveGroupElement_Double s in
  let s := CompletedGroupElement_ToProjective r in
  let r := ProjectiveGroupElement_Double s in
  let h := CompletedGroupElement_ToExtended r in
  addDigits e h ((λ k, 2 * k)%nat <$> seq 0 32).

(** ** Signed digits *)
Fixpoint val (r : list Z) : Z :=
  match r with
  | [] => 0
  | x :: r => x + 2 * val r
  end.

Definition bit (x : Z) : Prop := x = 0 ∨ x = 1.
Definition slideDigit (x : Z) : Prop := x = 0 ∨ Z.odd x = true ∧ -15 ≤ x ≤ 15.

Lemma val_app l s : val (l ++ s) = val l + 2 ^ Z.of_nat (length l) * val s.
Proof.
  induction l as [|x l IH]; cbn [app val length]; [lia|]. rewrite IH, Nat2Z.inj_succ, Z.pow_succ_r by lia. ring.
Qed.

Lemma val_zeros t : Forall (λ x, x = 0) t → val t = 0.
Proof. induction 1 as [|x t -> _ IH]; cbn [val]; lia. Qed.

Lemma lookup_middle l x (s : list Z) n : n = length l → (l ++ x :: s) !!! n = x.
Proof. intros ->. by apply list_lookup_total_middle. Qed.

Lemma insert_middle l x y (s : list Z) n : n = length l → <[n := y]> (l ++ x :: s) = l ++ y :: s.
Proof. intros ->. by rewrite <- (Nat.add_0_r (length l)), insert_app_r. Qed.

Lemma app_snoc {X} (l : list X) x s : l ++ x :: s = (l ++ [x]) ++ s.
Proof. by rewrite <- app_assoc. Qed.

Lemma lookup_deep l x t y (s : list Z) n : n = (length l + 1 + length t)%nat → (l ++ x :: t ++ y :: s) !!! n = y.
Proof. intros ->. rewrite app_comm_cons, app_assoc. apply lookup_middle. rewrite length_app. cbn [length]. lia. Qed.

Lemma insert_deep l x t y z (s : list Z) n : n = (length l + 1 + length t)%nat →
  <[n := z]> (l ++ x :: t ++ y :: s) = l ++ x :: t ++ z :: s.
Proof.
  intros ->. rewrite app_comm_cons, app_assoc, insert_middle, <- app_assoc by (rewrite length_app; cbn [length]; lia). done.
Qed.

(** Adding one to a number given by its bits, lowest first. *)
Fixpoint increment (s : list Z) : list Z :=
  match s with
  | [] => []
  | x :: s => if x =? 0 then 1 :: s else 0 :: increment s
  end.

Lemma slideCarry_spec s : ∀ l, slideCarry (length s) (length l) (l ++ s) = l ++ increment s.
Proof.
  induction s as [|x s IH]; intros l; [done|]. cbn [slideCarry length increment].
  rewrite lookup_middle, !insert_middle by done. destruct (x =? 0); [done|].
  rewrite (app_snoc l 0 s), (app_snoc l 0 (increment s)), <- IH. f_equal. rewrite length_app. cbn. lia.
Qed.

Lemma slideCarry_deep l x t s n k : n = length s → k = (length l + 1 + length t)%nat →
  slideCarry n k (l ++ x :: t ++ s) = l ++ x :: t ++ increment s.
Proof.
  intros -> ->. replace (length l + 1 + length t)%nat with (length (l ++ x :: t)) by (rewrite length_app; cbn [length]; lia).
  rewrite app_comm_cons, app_assoc, slideCarry_spec, <- app_assoc. done.
Qed.

Lemma increment_bits s : Forall bit s → length (increment s) = length s ∧ Forall bit (increment s).
Proof.
  induction 1 as [|x s Hx Hs [IHl IHb]]; [by split|]. cbn [increment]. destruct (x =? 0); cbn [length].
  - split; [done|]. constructor; [by right|done].
  - split; [lia|]. constructor; [by left|done].
Qed.

Lemma val_bits s : Forall bit s → 0 ≤ val s < 2 ^ Z.of_nat (length s).
Proof.
  induction 1 as [|x s Hx Hs IH]; cbn [val length]; [lia|]. rewrite Nat2Z.inj_succ, Z.pow_succ_r by lia.
  destruct Hx as [-> | ->]; lia.
Qed.

(** No carry is lost unless every bit is set. *)
Lemma increment_val s : Forall bit s → val s + 1 < 2 ^ Z.of_nat (length s) → val (increment s) = val s + 1.
Proof.
  induction 1 as [|x s Hx Hs IH]; cbn [val length increment]; [lia|]. rewrite Nat2Z.inj_succ, Z.pow_succ_r by lia.
  intros Hlt. destruct Hx as [-> | ->]; cbn [Z.eqb Pos.eqb val]; [lia|]. rewrite IH by lia. lia.
Qed.

(** ** [slide] *)
Definition zeros (t : list Z) : Prop := Forall (λ x, x = 0) t.

Lemma zeros_bits t : zeros t → Forall bit t.
Proof. induction 1 as [|x t -> _ IH]; constructor; [by left|done]. Qed.

Lemma window_weight b : (1 ≤ b ≤ 6)%nat →
  i8 (Z.shiftl 1 (Z.of_nat b)) = 2 ^ Z.of_nat b ∧ 2 ≤ 2 ^ Z.of_nat b ≤ 64 ∧ Z.odd (2 ^ Z.of_nat b) = false ∧
  (2 ^ Z.of_nat b ≤ 16 ∨ 32 ≤ 2 ^ Z.of_nat b ∧ (5 ≤ b)%nat).
Proof.
  intros Hb. do 7 (destruct b as [|b]; [try lia; split_and!; try reflexivity; (reflexivity || lia || discriminate)|]). lia.
Qed.

(** What the inner loop leaves at position [length l]: a digit, at least four zeros, and
    bits, of the same value. *)
Definition mergeResult (l : list Z) (v : Z) (r : list Z) : Prop :=
  ∃ x s, r = l ++ x :: s ∧ (length l + 1 + length s = 256)%nat ∧ Forall bit s ∧ zeros (take 4 s) ∧
    Z.odd x = true ∧ -15 ≤ x ≤ 15 ∧ val (x :: s) = v.

Lemma merge_stop b l x t s : (length t + 1 = b)%nat → (length l + b + length s = 256)%nat → zeros t → Forall bit s →
  Z.odd x = true → -15 ≤ x ≤ 15 → (5 ≤ b)%nat ∨ s = [] → mergeResult l (val (x :: t ++ s)) (l ++ x :: t ++ s).
Proof.
  intros Ht Hl Hz Hs Hx Hr Hb. exists x, (t ++ s). split_and!; [done|rewrite length_app; lia| | |done|lia|lia|done].
  - apply Forall_app. split; [by apply zeros_bits|done].
  - destruct Hb as [Hb| ->]; [rewrite take_app_le by lia|rewrite app_nil_r]; by apply Forall_take.
Qed.

(** The carry finds a zero bit. *)
Lemma carry_fits i b x t s : (1 ≤ b)%nat → (length t + 1 = b)%nat → (i + b + length s = 255)%nat → zeros t → Forall bit s →
  1 ≤ x → 2 ^ Z.of_nat i * (val (x :: t ++ 1 :: s) - 1) < 2 ^ 255 → val s + 1 < 2 ^ Z.of_nat (length s).
Proof.
  intros Hb Ht Hl Hz Hs Hx Hv. cbn [val] in Hv. rewrite val_app, (val_zeros t Hz) in Hv. cbn [val] in Hv.
  pose proof (val_bits s Hs) as Hr. destruct (Z.le_gt_cases (2 ^ Z.of_nat (length s)) (val s + 1)) as [Hge|]; [|done].
  assert (E : val s = 2 ^ Z.of_nat (length s) - 1) by lia. rewrite E in Hv.
  assert (P1 : 2 * 2 ^ Z.of_nat (length t) = 2 ^ Z.of_nat b) by (rewrite <- Z.pow_succ_r by lia; f_equal; lia).
  assert (P2 : 2 ^ Z.of_nat i * (2 ^ Z.of_nat b * 2 ^ Z.of_nat (length s)) = 2 ^ 255)
    by (rewrite <- !Z.pow_add_r by lia; f_equal; lia).
  assert (P3 : 0 < 2 ^ Z.of_nat i) by lia.
  assert (P4 : 2 ^ Z.of_nat i * 2 ^ Z.of_nat b ≤ 2 ^ 255) by (rewrite <- Z.pow_add_r by lia; apply Z.pow_le_mono_r; lia).
  nia.
Qed.

Lemma slideMerge_spec m : ∀ b l x t s, (1 ≤ b)%nat → (b + m = 7)%nat → (length t + 1 = b)%nat →
  (length l + b + length s = 256)%nat → zeros t → Forall bit s → Z.odd x = true → -15 ≤ x ≤ 15 →
  2 ^ Z.of_nat (length l) * (val (x :: t ++ s) - 1) < 2 ^ 255 →
  mergeResult l (val (x :: t ++ s)) (slideMerge (length l) (seq b m) (l ++ x :: t ++ s)).
Proof.
  induction m as [|m IH]; intros b l x t s Hb Hm Ht Hl Hz Hs Hx Hr Hv; cbn [seq slideMerge].
  { apply (merge_stop b); auto. left. lia. }
  destruct (Nat.ltb_spec (length l + b) 256) as [Hlt|Hge].
  2:{ apply (merge_stop b); auto. right. apply nil_length_inv. lia. }
  destruct s as [|y s]; [cbn in Hl; lia|]. cbn [length] in Hl.
  pose proof Hs as Hys. apply Forall_cons_iff in Hs as [Hy Hs].
  assert (Hnext : ∀ x' s', (length s' = length s) → Forall bit s' → Z.odd x' = true → -15 ≤ x' ≤ 15 →
    val (x' :: t ++ 0 :: s') = val (x :: t ++ y :: s) →
    mergeResult l (val (x :: t ++ y :: s)) (slideMerge (length l) (seq (S b) m) (l ++ x' :: t ++ 0 :: s'))).
  { intros x' s' Hl' Hs' Hx' Hr' Hv'. rewrite <- Hv', (app_snoc t) in *.
    apply IH; rewrite ?length_app; cbn [length]; [lia..| |done|done|done|done].
    apply Forall_app. by split; [|constructor]. }
  rewrite (lookup_deep l x t y s) by lia. destruct Hy as [-> | ->]; cbn [Z.eqb]; [by apply Hnext|].
  rewrite lookup_middle, !insert_middle by done. destruct (window_weight b ltac:(lia)) as (-> & Hw & Hodd & Hcase).
  set (w := 2 ^ Z.of_nat b) in *. assert (Ev : ∀ x' s', val (x' :: t ++ s') = x' + w * val s').
  { intros x' s'. cbn [val]. rewrite val_app, (val_zeros t Hz). unfold w. rewrite <- Ht, Nat2Z.inj_add, Z.pow_add_r by lia. lia. }
  rewrite (signed_small 8 (x + w)), (signed_small 8 (x - w)) by lia.
  destruct (Z.leb_spec (x + w) 15) as [Hle|Hgt].
  { rewrite insert_deep by lia.
    apply Hnext; [done..|by rewrite Z.odd_add, Hx, Hodd|lia|]. rewrite !Ev. cbn [val]. lia. }
  destruct (Z.leb_spec (-15) (x - w)) as [Hle'|Hgt'].
  - rewrite insert_middle, slideCarry_deep by (cbn [length]; lia). cbn [increment Z.eqb].
    destruct (increment_bits s Hs) as [Li Bi]. apply Hnext; [done..|by rewrite Z.odd_sub, Hx, Hodd|lia|].
    assert (Hx1 : 1 ≤ x) by (destruct Hcase as [|[]]; [|lia]; destruct (Z.eq_dec x 0) as [->|]; [done|lia]).
    rewrite !Ev. cbn [val]. rewrite (increment_val s Hs) by (eapply carry_fits; eauto; lia). lia.
  - destruct Hcase as [Hc|[_ Hb5]]; [exfalso; destruct (Z.eq_dec x 0) as [->|]; [done|lia]|].
    apply (merge_stop b); auto; cbn [length]; lia.
Qed.

(** The state of the outer loop at position [i]: the digits so far are too small to
    reach the bits that are left. *)
Definition slideInv (a : Z) (i : nat) (r : list Z) : Prop :=
  ∃ l s z, r = l ++ s ∧ length l = i ∧ (i + length s = 256)%nat ∧ Forall slideDigit l ∧ Forall bit s ∧
    val l + 2 ^ Z.of_nat i * val s = a ∧ 2 * Z.abs (val l) < 2 ^ (Z.of_nat i + Z.of_nat z) ∧ zeros (take z s).

Lemma slideAt_inv a i r : a < 2 ^ 255 → (i < 256)%nat → slideInv a i r → slideInv a (S i) (slideAt r i).
Proof.
  intros Ha Hi (l & s & z & -> & Hl & Hlen & Hd & Hs & Hv & Hsmall & Hz). destruct s as [|x s]; [cbn in Hlen; lia|].
  unfold slideAt. rewrite lookup_middle by done. cbn [length] in Hlen. pose proof Hs as Hxs.
  apply Forall_cons_iff in Hs as [Hx Hs]. cbn [val] in Hv.
  assert (Hp : 2 ^ Z.of_nat (S i) = 2 * 2 ^ Z.of_nat i) by (rewrite Nat2Z.inj_succ, Z.pow_succ_r; lia).
  assert (H0 : 0 < 2 ^ Z.of_nat i) by lia. destruct (Z.eqb_spec x 0) as [->|Hx1].
  - exists (l ++ [0]), s, (pred z). rewrite <- app_snoc. split_and!; try done.
    + rewrite length_app. cbn. lia.
    + cbn. lia.
    + apply Forall_app. split; [done|]. constructor; [by left|done].
    + rewrite val_app. cbn [val]. lia.
    + rewrite val_app. cbn [val]. rewrite Z.mul_0_r, Z.add_0_r. eapply Z.lt_le_trans; [exact Hsmall|]. apply Z.pow_le_mono_r; lia.
    + destruct z; [constructor|]. by apply Forall_cons_iff in Hz as [_ Hz].
  - destruct z as [|z]; [|by apply Forall_cons_iff in Hz as [? _]]. rewrite Z.add_0_r in Hsmall.
    destruct Hx as [?| ->]; [done|]. subst i.
    destruct (slideMerge_spec 6 1 l 1 [] s) as (x & s' & E & Hl' & Hb' & Hz' & Ho & Hr & Hv'); cbn [app length]; try done; try lia.
    { cbn [val app]. nia. }
    cbn [app] in *. rewrite E. exists (l ++ [x]), s', 4%nat. rewrite <- app_snoc. cbn [val] in Hv'. split_and!; try done.
    + rewrite length_app. cbn. lia.
    + lia.
    + apply Forall_app. split; [done|]. constructor; [by right|done].
    + rewrite val_app. cbn [val]. nia.
    + rewrite val_app. cbn [val]. rewrite Z.pow_add_r, Hp by lia. change (2 ^ Z.of_nat 4) with 16. nia.
Qed.

Lemma slideBits_spec a : length a = 32%nat → Forall is_byte a →
  slideBits a = (λ i, Z.b2z (Z.testbit (le_combine a) (Z.of_nat i))) <$> seq 0 256.
Proof.
  intros Hl Hb. unfold slideBits. apply list_fmap_ext. intros k i [-> Hk]%lookup_seq. rewrite Nat.add_0_l.
  rewrite <- (le_bytes_le_combine a Hb) at 1. rewrite Hl, le_bytes_lookup by (apply Nat.Div0.div_lt_upper_bound; lia).
  rewrite Z.land_comm, (Z.land_ones _ 1), Z.shiftr_div_pow2, <- Z.testbit_spec' by lia. f_equal.
  pose proof (Nat.mod_upper_bound k 8 ltac:(lia)) as Hm.
  change 256 with (2 ^ 8). rewrite Z.mod_pow2_bits_low, <- Z.pow_mul_r, Z.div_pow2_bits by lia. f_equal.
  pose proof (Nat.div_mod k 8 ltac:(lia)). lia.
Qed.

Lemma val_testbits A n : ∀ s, 0 ≤ A →
  val ((λ i, Z.b2z (Z.testbit A (Z.of_nat i))) <$> seq s n) = (A / 2 ^ Z.of_nat s) mod 2 ^ Z.of_nat n.
Proof.
  induction n as [|n IH]; intros s HA; [by rewrite Z.mod_1_r|]. cbn [seq fmap list_fmap val]. rewrite IH by done.
  rewrite Z.testbit_spec', (Nat2Z.inj_succ n), Z.pow_succ_r, Z.rem_mul_r by lia.
  rewrite (Nat2Z.inj_succ s), Z.pow_succ_r, (Z.mul_comm 2 (2 ^ Z.of_nat s)), Z.div_div by lia. done.
Qed.

(** The digits of [slide]: 256 odd or zero digits below sixteen whose value is the
    scalar. *)
Lemma slide_spec a : length a = 32%nat → Forall is_byte a → le_combine a < 2 ^ 255 →
  length (slide a) = 256%nat ∧ Forall slideDigit (slide a) ∧ val (slide a) = le_combine a.
Proof.
  intros Hl Hb Ha. pose proof (le_combine_nonneg a Hb) as H0.
  assert (Hinv : ∀ n i r, (i + n = 256)%nat → slideInv (le_combine a) i r →
    slideInv (le_combine a) 256 (foldl slideAt r (seq i n))).
  { induction n as [|n IH]; intros i r Hn Hr; cbn [seq foldl]; [by replace 256%nat with i by lia|].
    apply IH; [lia|]. apply slideAt_inv; [done|lia|done]. }
  destruct (Hinv 256%nat 0%nat (slideBits a)) as (l & s & z & E & Ll & Ls & Hd & _ & Hv & _); [done| |].
  - exists [], (slideBits a), 0%nat. rewrite slideBits_spec by done. split_and!; try done.
    + apply Forall_fmap, Forall_true. intros i. cbn. destruct (Z.testbit _ _); [by right|by left].
    + rewrite val_testbits by done. cbn [val]. change (2 ^ Z.of_nat 0) with 1. rewrite Z.div_1_r, Z.mod_small; lia.
    + constructor.
  - destruct s; [|cbn in Ls; lia]. rewrite app_nil_r in E. unfold slide. rewrite E. cbn [val] in Hv. split_and!; [done|done|lia].
Qed.

(** ** [GeDoubleScalarMultVartime] *)
Import E.

Lemma oddMultiplesFrom_spec A2 P n : ∀ c k, extended A2 (mul 2 P) → cached c (mul k P) →
  length (oddMultiplesFrom n A2 c) = S n ∧
  ∀ j q, oddMultiplesFrom n A2 c !! j = Some q → cached q (mul (k + 2 * Z.of_nat j) P).
Proof.
  induction n as [|n IH]; intros c k H2 Hc; cbn [oddMultiplesFrom].
  - split; [done|]. intros [|j] q Hq; [|done]. injection Hq as <-. by rewrite Z.add_0_r.
  - destruct (IH (ExtendedGroupElement_ToCached (CompletedGroupElement_ToExtended (geAdd A2 c))) (2 + k) H2) as [Hl Hj].
    { rewrite mul_add. by apply ToCached_spec, ToExtended_spec, geAdd_spec. }
    split; [cbn [length]; by rewrite Hl|]. intros [|j] q Hq; [injection Hq as <-; by rewrite Z.add_0_r|].
    replace (k + 2 * Z.of_nat (S j)) with (2 + k + 2 * Z.of_nat j) by lia. by apply Hj.
Qed.

Lemma half_odd x : Z.odd x = true → 0 < x ≤ 15 → (Z.to_nat (Z.quot x 2) < 8)%nat ∧ 2 * Z.of_nat (Z.to_nat (Z.quot x 2)) + 1 = x.
Proof.
  intros Ho Hx. rewrite Z.quot_div_nonneg by lia. apply Z.odd_spec in Ho as [k ->].
  rewrite (Z.mul_comm 2), Z.div_add_l, Z.div_small by lia. lia.
Qed.

Lemma slide_sign x : slideDigit x → x = 0 ∨
  0 < x ∧ (Z.to_nat (Z.quot x 2) < 8)%nat ∧ 2 * Z.of_nat (Z.to_nat (Z.quot x 2)) + 1 = x ∨
  x < 0 ∧ (Z.to_nat (Z.quot (i8 (- x)) 2) < 8)%nat ∧ - (2 * Z.of_nat (Z.to_nat (Z.quot (i8 (- x)) 2)) + 1) = x.
Proof.
  intros [->|[Ho Hr]]; [by left|right]. destruct (Z.lt_trichotomy x 0) as [Hx|[->|Hx]]; [right|done|left].
  - rewrite signed_small by lia. destruct (half_odd (- x)) as [H1 H2]; [by rewrite Z.odd_opp|lia|]. split_and!; [done|done|lia].
  - by destruct (half_odd x Ho) as [H1 H2]; [lia|].
Qed.

Lemma bi_lookup j x : (j < 8)%nat → 2 * Z.of_nat j + 1 = x → preComputed (bi !!! j) (mul x B).
Proof. intros Hj <-. apply bi_spec, list_lookup_lookup_total_lt. exact Hj. Qed.

Lemma val_take_S (r : list Z) i : (i < length r)%nat → val (take (S i) r) = val (take i r) + 2 ^ Z.of_nat i * (r !!! i).
Proof.
  intros Hi. rewrite (take_S_r r i (r !!! i)) by (by apply list_lookup_lookup_total_lt).
  rewrite val_app, length_take_le by lia. cbn [val]. lia.
Qed.

Lemma digit_lookup (r : list Z) i : Forall slideDigit r → (i < length r)%nat → slideDigit (r !!! i).
Proof. intros Hr Hi. rewrite list.Forall_forall in Hr. by apply Hr, list_elem_of_lookup_total_2. Qed.

Section vartime.
Context (A : point) (Ai : list CachedGroupElement).
Context (Ai_length : length Ai = 8%nat).
Context (Ai_spec : ∀ j q, Ai !! j = Some q → cached q (mul (1 + 2 * Z.of_nat j) A)).

Lemma Ai_lookup j x : (j < 8)%nat → 2 * Z.of_nat j + 1 = x → cached (Ai !!! j) (mul x A).
Proof. intros Hj <-. rewrite Z.add_comm. apply Ai_spec, list_lookup_lookup_total_lt. lia. Qed.

Lemma vartimeStep_spec a b r R : slideDigit a → slideDigit b → projective r R →
  projective (vartimeStep Ai a b r) (add (add (add R R) (mul a A)) (mul b B)).
Proof.
  intros Ha Hb Hr. unfold vartimeStep. apply ToProjective_spec. set (t := if 0 <? a then _ else _).
  assert (Ht : completed t (add (add R R) (mul a A))).
  { apply Double_spec in Hr. unfold t.
    destruct (slide_sign a Ha) as [->|[(Hs & Hj & E)|(Hs & Hj & E)]]; [by rewrite mul_0, add_zero_r|..].
    - rewrite (proj2 (Z.ltb_lt 0 a) Hs). by apply geAdd_spec; [apply ToExtended_spec|apply Ai_lookup].
    - rewrite (proj2 (Z.ltb_ge 0 a)), (proj2 (Z.ltb_lt a 0)) by lia.
      replace (mul a A) with (neg (mul (2 * Z.of_nat (Z.to_nat (Z.quot (i8 (- a)) 2)) + 1) A)) by (by rewrite <- mul_opp, E).
      by apply geSub_spec; [apply ToExtended_spec|apply Ai_lookup]. }
  clearbody t. destruct (slide_sign b Hb) as [->|[(Hs & Hj & E)|(Hs & Hj & E)]]; [by rewrite mul_0, add_zero_r|..].
  - rewrite (proj2 (Z.ltb_lt 0 b) Hs). by apply geMixedAdd_spec; [apply ToExtended_spec|apply bi_lookup].
  - rewrite (proj2 (Z.ltb_ge 0 b)), (proj2 (Z.ltb_lt b 0)) by lia.
    replace (mul b B) with (neg (mul (2 * Z.of_nat (Z.to_nat (Z.quot (i8 (- b)) 2)) + 1) B)) by (by rewrite <- mul_opp, E).
    by apply geMixedSub_spec; [apply ToExtended_spec|apply bi_lookup].
Qed.

(** The accumulator is the value of the digits read so far, shifted. *)
Lemma vartimeLoop_spec aS bS n : ∀ r R, Forall slideDigit aS → Forall slideDigit bS →
  (n ≤ length aS)%nat → (n ≤ length bS)%nat → projective r R →
  projective (vartimeLoop Ai aS bS n r)
    (add (mul (2 ^ Z.of_nat n) R) (add (mul (val (take n aS)) A) (mul (val (take n bS)) B))).
Proof.
  induction n as [|i IH]; intros r R Ha Hb Hla Hlb Hr; cbn [vartimeLoop].
  { cbn [take val]. by rewrite !mul_0, add_zero_r, mul_1, add_zero_r. }
  assert (Hs := vartimeStep_spec _ _ _ _ (digit_lookup aS i Ha ltac:(lia)) (digit_lookup bS i Hb ltac:(lia)) Hr).
  apply (IH _ _ Ha Hb ltac:(lia) ltac:(lia)) in Hs. rewrite !val_take_S by lia.
  rewrite !mul_add, !mul_mul. rewrite !mul_point_add, <- mul_add in Hs.
  rewrite Nat2Z.inj_succ, Z.pow_succ_r, <- Z.add_diag by lia.
  set (X := mul (2 ^ Z.of_nat i + 2 ^ Z.of_nat i) R) in *. set (Y := mul (2 ^ Z.of_nat i) (mul (aS !!! i) A)) in *.
  set (W := mul (2 ^ Z.of_nat i) (mul (bS !!! i) B)) in *. set (U := mul (val (take i aS)) A) in *.
  set (V := mul (val (take i bS)) B) in *. rewrite <- !add_assoc in Hs. rewrite <- !add_assoc.
  rewrite (add_swap U), (add_comm V), (add_swap U). exact Hs.
Qed.
End vartime.

Lemma activeDigits_spec aS bS n : (n ≤ length aS)%nat → (n ≤ length bS)%nat →
  (activeDigits n aS bS ≤ n)%nat ∧ val (take (activeDigits n aS bS) aS) = val (take n aS) ∧
  val (take (activeDigits n aS bS) bS) = val (take n bS).
Proof.
  induction n as [|i IH]; intros Ha Hb; [done|]. cbn [activeDigits].
  destruct (Z.eqb_spec (aS !!! i) 0) as [Ea|], (Z.eqb_spec (bS !!! i) 0) as [Eb|]; cbn [negb orb]; try done.
  destruct IH as (H1 & H2 & H3); [lia..|]. rewrite !val_take_S, Ea, Eb, H2, H3 by lia. split_and!; lia.
Qed.

Lemma GeDoubleScalarMultVartime_spec a A P b : length a = 32%nat → length b = 32%nat → Forall is_byte a → Forall is_byte b →
  le_combine a < 2 ^ 255 → le_combine b < 2 ^ 255 → extended A P →
  projective (GeDoubleScalarMultVartime a A b) (add (mul (le_combine a) P) (mul (le_combine b) B)).
Proof.
  intros La Lb Ha Hb Ra Rb HA. unfold GeDoubleScalarMultVartime.
  destruct (slide_spec a La Ha Ra) as (Sa & Da & <-), (slide_spec b Lb Hb Rb) as (Sb & Db & <-).
  destruct (oddMultiplesFrom_spec (CompletedGroupElement_ToExtended (ExtendedGroupElement_Double A)) P 7
    (ExtendedGroupElement_ToCached A) 1) as [Hl Hj].
  { change 2 with (2 * 1). rewrite mul_double, mul_1. by apply ToExtended_spec, ExtendedGroupElement_Double_spec. }
  { rewrite mul_1. by apply ToCached_spec. }
  destruct (activeDigits_spec (slide a) (slide b) 256) as (Hn & Va & Vb); [lia..|].
  pose proof (vartimeLoop_spec P _ Hl Hj (slide a) (slide b)
    (activeDigits 256 (slide a) (slide b)) _ _ Da Db ltac:(lia) ltac:(lia) ProjectiveGroupElement_Zero_spec) as H.
  rewrite mul_zero, add_zero_l, Va, Vb, !take_ge in H by lia. exact H.
Qed.

(** ** [GeScalarMultBase] *)
Fixpoint val16 (e : list Z) : Z :=
  match e with
  | [] => 0
  | x :: e => x + 16 * val16 e
  end.

Lemma nibbles_spec a : Forall is_byte a →
  length (nibbles a) = (2 * length a)%nat ∧ Forall (λ x, 0 ≤ x < 16) (nibbles a) ∧ val16 (nibbles a) = le_combine a.
Proof.
  induction 1 as [|v a Hv _ (Hl & Hr & Hval)]; [done|]. unfold nibbles in *. cbn [mbind list_bind app length le_combine val16].
  unfold is_byte in Hv. assert (0 ≤ v / 16 < 16) by (split; [apply Z.div_pos|apply Z.div_lt_upper_bound]; lia).
  pose proof (Z.mod_pos_bound v 16 ltac:(lia)). rewrite !(Z.land_ones _ 4), Z.shiftr_div_pow2 by lia.
  change (2 ^ 4) with 16. rewrite (Z.mod_small (v / 16)), !signed_small by lia. split_and!; [lia| |].
  - by repeat (constructor; [done|]).
  - rewrite Hval. pose proof (Z.div_mod v 16 ltac:(lia)). lia.
Qed.

(** The carry is zero or one and the digits stay within [-8, 8]. *)
Lemma recode_spec e : ∀ c, e ≠ [] → Forall (λ x, 0 ≤ x < 16) e → 0 ≤ c ≤ 1 →
  val16 e < 8 * 16 ^ Z.of_nat (pred (length e)) →
  length (recode e c) = length e ∧ Forall (λ x, -8 ≤ x ≤ 8) (recode e c) ∧ val16 (recode e c) = val16 e + c.
Proof.
  induction e as [|x e IH]; intros c Hne He Hc Hv; [done|]. apply Forall_cons_iff in He as [Hx He]. destruct e as [|y e].
  - cbn [recode val16 length] in *. change (16 ^ Z.of_nat (pred 1)) with 1 in Hv. rewrite signed_small by lia.
    split_and!; [done| |lia]. constructor; [lia|done].
  - change (recode (x :: y :: e) c) with (let x := i8 (x + c) in let carry := Z.shiftr (i8 (x + 8)) 4 in
      i8 (x - i8 (Z.shiftl carry 4)) :: recode (y :: e) carry). cbn zeta.
    rewrite (signed_small 8 (x + c)) by lia. rewrite (signed_small 8 (x + c + 8)) by lia.
    rewrite Z.shiftr_div_pow2 by lia. set (c' := (x + c + 8) / 2 ^ 4).
    assert (Hc' : 16 * c' ≤ x + c + 8 < 16 * c' + 16).
    { unfold c'. pose proof (Z.div_mod (x + c + 8) (2 ^ 4) ltac:(lia)). pose proof (Z.mod_pos_bound (x + c + 8) (2 ^ 4) ltac:(lia)). lia. }
    clearbody c'. rewrite Z.shiftl_mul_pow2 by lia. rewrite (signed_small 8 (c' * 2 ^ 4)) by lia. rewrite (signed_small 8 (_ - _)) by lia.
    set (t := y :: e) in *. cbn [length pred val16] in *.
    assert (Hn : length t = S (pred (length t))) by done. rewrite Hn, Nat2Z.inj_succ, Z.pow_succ_r in Hv by lia.
    destruct (IH c') as (Hl & Hr & Hval); [done|done|lia|lia|]. rewrite Hl, Hval. split_and!; [done| |lia].
    constructor; [lia|done].
Qed.

Definition wide (q : PreComputedGroupElement) : Prop :=
  length (yPlusX q) = 10%nat ∧ length (yMinusX q) = 10%nat ∧ length (xy2d q) = 10%nat.

Lemma fe_length k f a : fe k f a → length f = 10%nat.
Proof. intros [Hf _]. by apply Forall2_length in Hf. Qed.

Lemma preComputed_wide q P : preComputed q P → wide q.
Proof. intros (H1 & H2 & H3). split_and!; by eapply fe_length. Qed.

Lemma PreComputedGroupElementCMove_spec t u (b : bool) : wide t → wide u →
  PreComputedGroupElementCMove t u (if b then 1 else 0) = if b then u else t.
Proof.
  intros (T1 & T2 & T3) (U1 & U2 & U3). unfold PreComputedGroupElementCMove. rewrite !FeCMove_spec by congruence.
  by destruct b, t, u.
Qed.

Lemma equal_spec b c : 0 ≤ b ≤ 8 → 1 ≤ c ≤ 8 → equal b c = if b =? c then 1 else 0.
Proof.
  intros Hb Hc. assert (H : Forall (λ b, Forall (λ c, equal b c = if b =? c then 1 else 0) (seqZ 1 8)) (seqZ 0 9))
    by (apply (bool_decide_unpack _); vm_compute; exact I).
  rewrite list.Forall_forall in H. specialize (H b ltac:(apply elem_of_seqZ; lia)).
  rewrite list.Forall_forall in H. apply H, elem_of_seqZ. lia.
Qed.

Lemma absolute_spec b : -8 ≤ b ≤ 8 →
  negative b = (if b <? 0 then 1 else 0) ∧ i32 (b - i32 (Z.shiftl (Z.land (i32 (- negative b)) b) 1)) = Z.abs b.
Proof.
  intros Hb. assert (H : Forall (λ b, negative b = (if b <? 0 then 1 else 0) ∧
    i32 (b - i32 (Z.shiftl (Z.land (i32 (- negative b)) b) 1)) = Z.abs b) (seqZ (-8) 17))
    by (apply (bool_decide_unpack _); vm_compute; exact I).
  rewrite list.Forall_forall in H. apply H, elem_of_seqZ. lia.
Qed.

(** The eight conditional moves leave the entry of the digit. *)
Lemma select_moves (row : list PreComputedGroupElement) b n : 0 ≤ b ≤ 8 → (n ≤ 8)%nat → (∀ i, (i < 8)%nat → wide (row !!! i)) →
  foldl (λ t i, PreComputedGroupElementCMove t (row !!! i) (equal b (Z.of_nat i + 1))) PreComputedGroupElement_Zero (seq 0 n) =
  if (0 <? b) && (b <=? Z.of_nat n) then row !!! Z.to_nat (b - 1) else PreComputedGroupElement_Zero.
Proof.
  intros Hb Hn Hrow. induction n as [|n IH]; [by destruct (Z.ltb_spec 0 b), (Z.leb_spec b (Z.of_nat 0)); try lia|].
  rewrite seq_S, foldl_app, IH by lia. cbn [foldl]. rewrite Nat.add_0_l, equal_spec by lia.
  rewrite PreComputedGroupElementCMove_spec; [| |apply Hrow; lia].
  - destruct (Z.eqb_spec b (Z.of_nat n + 1)) as [E|], (Z.ltb_spec 0 b), (Z.leb_spec b (Z.of_nat n)), (Z.leb_spec b (Z.of_nat (S n)));
      cbn [andb]; try lia; try done. f_equal. lia.
  - destruct (_ && _); [apply Hrow; lia|]. by eapply preComputed_wide, PreComputedGroupElement_Zero_spec.
Qed.

Lemma base_lookup pos i : (pos < 32)%nat → (i < 8)%nat →
  preComputed ((base !!! pos) !!! i) (mul ((Z.of_nat i + 1) * 256 ^ Z.of_nat pos) B).
Proof.
  intros Hp Hi. destruct base_shape as [Hl Hr]. eapply base_spec; apply list_lookup_lookup_total_lt; [lia|].
  rewrite list.Forall_forall in Hr. rewrite (Hr (base !!! pos)); [done|]. apply list_elem_of_lookup_total_2. lia.
Qed.

Lemma negated_entry q P : preComputed q P → preComputed (PreComputed (yMinusX q) (yPlusX q) (FeNeg (xy2d q))) (neg P).
Proof.
  intros (H1 & H2 & H3). apply (fe_neg 1) in H3; [|lia]. split_and!; cbn [yPlusX yMinusX xy2d]; unfold neg; cbn [px py];
    (eapply fe_weaken; [eassumption|lia|]); ring.
Qed.

Lemma selectPoint_spec pos b : (pos < 32)%nat → -8 ≤ b ≤ 8 →
  preComputed (selectPoint pos b) (mul (b * 256 ^ Z.of_nat pos) B).
Proof.
  intros Hp Hb. unfold selectPoint. destruct (absolute_spec b Hb) as [En Ea]. rewrite Ea, En. clear Ea En.
  rewrite select_moves by (done || lia || (intros i Hi; by eapply preComputed_wide, base_lookup)).
  set (t := if _ && _ then _ else _).
  assert (Ht : preComputed t (mul (Z.abs b * 256 ^ Z.of_nat pos) B)).
  { unfold t. destruct (Z.ltb_spec 0 (Z.abs b)), (Z.leb_spec (Z.abs b) (Z.of_nat 8)); cbn [andb]; try lia.
    - pose proof (base_lookup pos (Z.to_nat (Z.abs b - 1)) Hp ltac:(lia)) as He.
      replace (Z.of_nat (Z.to_nat (Z.abs b - 1)) + 1) with (Z.abs b) in He by lia. exact He.
    - replace (Z.abs b) with 0 by lia. apply PreComputedGroupElement_Zero_spec. }
  clearbody t. rewrite PreComputedGroupElementCMove_spec;
    [|by eapply preComputed_wide|by eapply preComputed_wide, negated_entry].
  destruct (Z.ltb_spec b 0).
  - apply negated_entry in Ht. rewrite <- mul_opp in Ht. replace (- (Z.abs b * 256 ^ Z.of_nat pos)) with (b * 256 ^ Z.of_nat pos) in Ht; [exact Ht|].
    rewrite Z.abs_neq by lia. ring.
  - by rewrite Z.abs_eq in Ht by lia.
Qed.

Definition sumAt (e : list Z) (idx : list nat) : Z := foldr (λ i s, e !!! i * 256 ^ Z.of_nat (i / 2) + s) 0 idx.

Lemma addDigits_spec e idx : ∀ h H, Forall (λ x, -8 ≤ x ≤ 8) e → Forall (λ i, (i < length e)%nat) idx → length e = 64%nat →
  extended h H → extended (addDigits e h idx) (add H (mul (sumAt e idx) B)).
Proof.
  induction idx as [|i idx IH]; intros h H He Hi Hl Hh; [by rewrite mul_0, add_zero_r|].
  apply Forall_cons_iff in Hi as [Hi Hidx]. cbn [addDigits foldl sumAt foldr]. fold (sumAt e idx).
  rewrite mul_add, add_assoc. apply IH; [done..|]. apply ToExtended_spec, geMixedAdd_spec; [done|]. apply selectPoint_spec.
  - apply Nat.Div0.div_lt_upper_bound. lia.
  - rewrite list.Forall_forall in He. by apply He, list_elem_of_lookup_total_2.
Qed.

Lemma sumAt_app e l1 l2 : sumAt e (l1 ++ l2) = sumAt e l1 + sumAt e l2.
Proof. unfold sumAt. induction l1 as [|i l1 IH]; cbn [app foldr]; [done|]. rewrite IH. ring. Qed.

Lemma val16_app l s : val16 (l ++ s) = val16 l + 16 ^ Z.of_nat (length l) * val16 s.
Proof.
  induction l as [|x l IH]; cbn [app val16 length]; [lia|]. rewrite IH, Nat2Z.inj_succ, Z.pow_succ_r by lia. ring.
Qed.

Lemma val16_take_S (r : list Z) i : (i < length r)%nat → val16 (take (S i) r) = val16 (take i r) + 16 ^ Z.of_nat i * (r !!! i).
Proof.
  intros Hi. rewrite (take_S_r r i (r !!! i)) by (by apply list_lookup_lookup_total_lt).
  rewrite val16_app, length_take_le by lia. cbn [val16]. lia.
Qed.

(** The odd digits, shifted by four bits, and the even digits. *)
Lemma val16_split e n : (2 * n ≤ length e)%nat →
  16 * sumAt e ((λ k, 2 * k + 1)%nat <$> seq 0 n) + sumAt e ((λ k, 2 * k)%nat <$> seq 0 n) = val16 (take (2 * n) e).
Proof.
  induction n as [|n IH]; intros Hn; [done|]. rewrite seq_S, !fmap_app, !sumAt_app. cbn [fmap list_fmap sumAt foldr].
  rewrite !Nat.add_0_l. replace (2 * S n)%nat with (S (S (2 * n))) by lia. rewrite !val16_take_S by lia.
  rewrite <- IH by lia. replace (S (2 * n)) with (2 * n + 1)%nat by lia.
  replace ((2 * n + 1) / 2)%nat with n by (apply Nat.div_unique with 1%nat; lia).
  replace (2 * n / 2)%nat with n by (apply Nat.div_unique with 0%nat; lia).
  rewrite Nat2Z.inj_add, Nat2Z.inj_mul, Z.pow_add_r, Z.pow_mul_r by lia. change (16 ^ Z.of_nat 2) with 256.
  change (16 ^ Z.of_nat 1) with 16. ring.
Qed.

Lemma four_doublings h P : extended h P →
  extended (CompletedGroupElement_ToExtended (ProjectiveGroupElement_Double (CompletedGroupElement_ToProjective
    (ProjectiveGroupElement_Double (CompletedGroupElement_ToProjective (ProjectiveGroupElement_Double
      (CompletedGroupElement_ToProjective (ExtendedGroupElement_Double h)))))))) (mul 16 P).
Proof.
  intros Hh. change 16 with (2 * (2 * (2 * (2 * 1)))). rewrite !mul_double, mul_1.
  by apply ToExtended_spec, Double_spec, ToProjective_spec, Double_spec, ToProjective_spec, Double_spec, ToProjective_spec,
    ExtendedGroupElement_Double_spec.
Qed.

Lemma GeScalarMultBase_spec a : length a = 32%nat → Forall is_byte a → le_combine a < 2 ^ 255 →
  extended (GeScalarMultBase a) (mul (le_combine a) B).
Proof.
  intros Hl Hb Ha. destruct (nibbles_spec a Hb) as (Ln & Rn & Vn). rewrite Hl in Ln.
  destruct (recode_spec (nibbles a) 0) as (Le & Re & Ve); [by intros E; rewrite E in Ln|done|lia|rewrite Vn, Ln; exact Ha|].
  unfold GeScalarMultBase. set (e := recode (nibbles a) 0) in *. rewrite Ln in Le.
  assert (Hodd : Forall (λ i, (i < length e)%nat) ((λ k, 2 * k + 1)%nat <$> seq 0 32)).
  { apply Forall_fmap, Forall_seq. intros j Hj. cbn. lia. }
  assert (Heven : Forall (λ i, (i < length e)%nat) ((λ k, 2 * k)%nat <$> seq 0 32)).
  { apply Forall_fmap, Forall_seq. intros j Hj. cbn. lia. }
  pose proof (addDigits_spec e _ _ _ Re Hodd Le ExtendedGroupElement_Zero_spec) as H1. rewrite add_zero_l in H1.
  apply four_doublings in H1. apply (addDigits_spec e _ _ _ Re Heven Le) in H1.
  rewrite <- mul_mul, <- mul_add, (val16_split e 32), take_ge, Ve, Vn, Z.add_0_r in H1 by lia. exact H1.
Qed.

(** ** The claims *)

(** [slide] writes a scalar below [2 ^ 255] with 256 digits that are zero or odd and at
    most fifteen in absolute value; no carry is lost at the end of the array. *)
Theorem slide_recoding a : length a = 32%nat → Forall is_byte a → le_combine a < 2 ^ 255 →
  length (slide a) = 256%nat ∧ Forall (λ x, x = 0 ∨ Z.odd x = true ∧ -15 ≤ x ≤ 15) (slide a) ∧ val (slide a) = le_combine a.
Proof. apply slide_spec. Qed.

Lemma slide_recoding_witness : val (slide (le_bytes 32 (2 ^ 254 - 1))) = le_combine (le_bytes 32 (2 ^ 254 - 1)).
Proof. apply (slide_recoding (le_bytes 32 (2 ^ 254 - 1))); [reflexivity|apply le_bytes_byte|vm_compute; reflexivity]. Defined.

(** C23: [GeDoubleScalarMultVartime] gives [a * A + b * B] for every point and scalars below
    [2 ^ 255]. *)
Theorem double_multiplication a A P b : length a = 32%nat → length b = 32%nat → Forall is_byte a → Forall is_byte b →
  le_combine a < 2 ^ 255 → le_combine b < 2 ^ 255 → extended A P →
  ProjectiveGroupElement_ToBytes (GeDoubleScalarMultVartime a A b) = encode (add (mul (le_combine a) P) (mul (le_combine b) B)).
Proof. intros. by apply ProjectiveGroupElement_ToBytes_spec, GeDoubleScalarMultVartime_spec. Qed.

Lemma double_multiplication_witness :
  ProjectiveGroupElement_ToBytes (GeDoubleScalarMultVartime (le_bytes 32 7) ExtendedGroupElement_Zero (le_bytes 32 9)) =
  encode (add (mul (le_combine (le_bytes 32 7)) zero) (mul (le_combine (le_bytes 32 9)) B)).
Proof.
  apply (double_multiplication (le_bytes 32 7) ExtendedGroupElement_Zero zero (le_bytes 32 9));
    [reflexivity|reflexivity|apply le_bytes_byte|apply le_bytes_byte|vm_compute; reflexivity|vm_compute; reflexivity|
     apply ExtendedGroupElement_Zero_spec].
Defined.

(** C24: [GeScalarMultBase] gives [a * B] for scalars below [2 ^ 255]. *)
Theorem base_multiplication a : length a = 32%nat → Forall is_byte a → le_combine a < 2 ^ 255 →
  ExtendedGroupElement_ToBytes (GeScalarMultBase a) = encode (mul (le_combine a) B).
Proof. intros. by apply ExtendedGroupElement_ToBytes_spec, GeScalarMultBase_spec. Qed.

Lemma base_multiplication_witness :
  ExtendedGroupElement_ToBytes (GeScalarMultBase (le_bytes 32 (2 ^ 255 - 1))) = encode (mul (le_combine (le_bytes 32 (2 ^ 255 - 1))) B).
Proof. apply (base_multiplication (le_bytes 32 (2 ^ 255 - 1))); [reflexivity|apply le_bytes_byte|vm_compute; reflexivity]. Defined.
