(* ===== verification/Ed25519.v ===== *)
(** * Signatures: [crypto/ed25519/ed25519.go]

    Key generation, signing and verification over the scalar multiplications.  The digest
    [blake2b.Sum512] is a parameter; the streaming hash of [blake2b.New512(nil)] is the
    digest of the bytes written since the last [Reset].  The file proves that [Verify]
    accepts exactly what the verification equation says, that the signatures of [Sign]
    are accepted, and that an accepted signature can be changed into another one. *)

From Stdlib Require Import Zmod.
From S2P Require Import Prelude Limbs Primes Curve Field25519 Scalar25519 Group25519 Base25519 ScalarMult25519.

Definition PublicKeySize : nat := 32%nat.
Definition PrivateKeySize : nat := 64%nat.
Definition SignatureSize : nat := 64%nat.

Definition PrivateKey_Public (priv : list Z) : res (list Z) :=
  if (length priv <? 32)%nat then Panic else Ok (copyInto PublicKeySize (drop 32 priv)).

Definition clampGenerated (digest : list Z) : list Z :=
  let digest := <[0%nat := Z.land (digest !!! 0%nat) 248]> digest in
  let digest := <[31%nat := Z.land (digest !!! 31%nat) 127]> digest in
  <[31%nat := Z.lor (digest !!! 31%nat) 64]> digest.

Definition clampSecret (k : list Z) : list Z :=
  let k := <[0%nat := Z.land (k !!! 0%nat) 248]> k in
  let k := <[31%nat := Z.land (k !!! 31%nat) 63]> k in
  <[31%nat := Z.lor (k !!! 31%nat) 64]> k.

Section ed25519.
Context (blake2b512 : list Z → list Z).

(** [rand] is what the reader still has to give. *)
Definition GenerateKey (rand : list Z) : res (list Z * list Z) :=
  if (length rand <? 32)%nat then Err (Errorf (if (length rand =? 0)%nat then "EOF" else "unexpected EOF"))
  else
    let seed := take 32 rand in
    let digest := clampGenerated (blake2b512 seed) in
    let hBytes := copyInto 32 digest in
    let A := GeScalarMultBase hBytes in
    let publicKeyBytes := ExtendedGroupElement_ToBytes A in
    Ok (publicKeyBytes, seed ++ publicKeyBytes).

Definition Sign (privateKey message : list Z) : res (list Z) :=
  if negb (length privateKey =? PrivateKeySize)%nat then Panic
  else
    let digest1 := blake2b512 (take 32 privateKey) in
    let expandedSecretKey := clampSecret (copyInto 32 digest1) in
    let messageDigest := blake2b512 (drop 32 digest1 ++ message) in
    let messageDigestReduced := ScReduce messageDigest in
    let R := GeScalarMultBase messageDigestReduced in
    let encodedR := ExtendedGroupElement_ToBytes R in
    let hramDigest := blake2b512 (encodedR ++ drop 32 privateKey ++ message) in
    let hramDigestReduced := ScReduce hramDigest in
    let s := ScMulAdd hramDigestReduced expandedSecretKey messageDigestReduced in
    Ok (encodedR ++ s).

(** [hashFunc] is [opts.HashFunc()]. *)
Definition PrivateKey_Sign (priv message : list Z) (hashFunc : Z) : res (list Z) :=
  if negb (hashFunc =? 0) then Err (Errorf "ed25519: cannot sign hashed message") else Sign priv message.

Definition Verify (publicKey message sig : list Z) : res bool :=
  if negb (length publicKey =? PublicKeySize)%nat then Panic
  else if negb (length sig =? SignatureSize)%nat || negb (Z.land (sig !!! 63%nat) 224 =? 0) then Ok false
  else
    match ExtendedGroupElement_FromBytes (Extended FeZero FeZero FeZero FeZero) publicKey with
    | (false, _) => Ok false
    | (true, A) =>
        let A := Extended (FeNeg (eX A)) (eY A) (eZ A) (FeNeg (eT A)) in
        let digest := blake2b512 (take 32 sig ++ publicKey ++ message) in
        let hReduced := ScReduce digest in
        let b := copyInto 32 (drop 32 sig) in
        let R := GeDoubleScalarMultVartime hReduced A b in
        let checkR := ProjectiveGroupElement_ToBytes R in
        Ok (bool_decide (take 32 sig = checkR))
    end.

(** ** Facts *)
Import E.
#[local] Opaque ScReduce ScMulAdd GeScalarMultBase GeDoubleScalarMultVartime encode.

(** The two ways to clamp a digest agree. *)
Lemma clamp_byte v : is_byte v → Z.lor (Z.land v 127) 64 = Z.lor (Z.land v 63) 64 ∧ 64 ≤ Z.lor (Z.land v 63) 64 < 128.
Proof.
  intros Hv. assert (H : Forall (λ v, Z.lor (Z.land v 127) 64 = Z.lor (Z.land v 63) 64 ∧ 64 ≤ Z.lor (Z.land v 63) 64 < 128) (seqZ 0 256))
    by (apply (bool_decide_unpack _); vm_compute; exact I).
  rewrite list.Forall_forall in H. apply H, elem_of_seqZ. unfold is_byte in Hv. lia.
Qed.

Lemma low_byte v : is_byte v → is_byte (Z.land v 248).
Proof.
  intros Hv. assert (H : Forall (λ v, is_byte (Z.land v 248)) (seqZ 0 256))
    by (repeat (constructor; [by vm_compute|]); constructor).
  rewrite list.Forall_forall in H. apply H, elem_of_seqZ. unfold is_byte in Hv. lia.
Qed.

Lemma byte_lookup bs i : Forall is_byte bs → (i < length bs)%nat → is_byte (bs !!! i).
Proof. intros Hb Hi. rewrite list.Forall_forall in Hb. by apply Hb, list_elem_of_lookup_total_2. Qed.

Lemma top_bound k : length k = 32%nat → Forall is_byte k → le_combine k < 256 ^ 31 * (k !!! 31%nat + 1).
Proof.
  intros Hl Hb. pose proof (le_combine_bound k Hb) as Hr. rewrite Hl in Hr.
  rewrite <- (le_bytes_le_combine k Hb) at 2. rewrite Hl, le_bytes_lookup by lia.
  rewrite Z.mod_small by (split; [apply Z.div_pos|apply Z.div_lt_upper_bound]; lia).
  apply Z.mul_succ_div_gt. lia.
Qed.

(** A clamped secret is a scalar below [2 ^ 255]. *)
Lemma clampSecret_spec k : length k = 32%nat → Forall is_byte k →
  length (clampSecret k) = 32%nat ∧ Forall is_byte (clampSecret k) ∧ le_combine (clampSecret k) < 2 ^ 255.
Proof.
  intros Hl Hb. destruct (clamp_byte (k !!! 31%nat)) as [_ Hc]; [apply byte_lookup; [done|lia]|].
  assert (El : length (clampSecret k) = 32%nat) by (unfold clampSecret; by rewrite !length_insert).
  assert (E31 : clampSecret k !!! 31%nat = Z.lor (Z.land (k !!! 31%nat) 63) 64).
  { unfold clampSecret. by rewrite !list_lookup_total_insert_eq, list_lookup_total_insert_ne by (rewrite ?length_insert; lia). }
  assert (Eb : Forall is_byte (clampSecret k)).
  { apply list.Forall_forall. intros x (j & Hj & <-)%list_elem_of_lookup_total. rewrite El in Hj.
    destruct (decide (j = 31%nat)) as [->|H31]; [rewrite E31; unfold is_byte; lia|]. unfold clampSecret.
    rewrite !(list_lookup_total_insert_ne _ 31 j) by done. destruct (decide (j = 0%nat)) as [->|H0].
    - rewrite list_lookup_total_insert_eq by lia. apply low_byte, byte_lookup; [done|lia].
    - rewrite list_lookup_total_insert_ne by done. apply byte_lookup; [done|lia]. }
  split_and!; [done|done|]. pose proof (top_bound _ El Eb) as Ht. rewrite E31 in Ht. lia.
Qed.

Lemma clamp_agree digest : length digest = 64%nat → Forall is_byte digest →
  copyInto 32 (clampGenerated digest) = clampSecret (copyInto 32 digest).
Proof.
  intros Hl Hb. destruct (clamp_byte (digest !!! 31%nat)) as [Hc _]; [apply byte_lookup; [done|lia]|].
  rewrite !copyInto_take by (unfold clampGenerated; rewrite ?length_insert; lia). unfold clampGenerated, clampSecret.
  rewrite !list_lookup_total_insert_eq, !list_lookup_total_insert_ne by (rewrite ?length_insert, ?length_take; lia).
  rewrite !take_insert_lt, !list_insert_insert_eq, !lookup_total_take by lia. by rewrite Hc.
Qed.

(** ** Verification *)
Context (blake2b512_length : ∀ m, length (blake2b512 m) = 64%nat).
Context (blake2b512_bytes : ∀ m, Forall is_byte (blake2b512 m)).

(** The digest of a message as a scalar. *)
Definition scalarOf (m : list Z) : Z := le_combine (blake2b512 m) mod l25519.

Lemma l25519_bounds : 2 ^ 252 < l25519 < 2 ^ 253.
Proof. done. Qed.

Lemma scalar_bytes s : 0 ≤ s < l25519 →
  length (le_bytes 32 s) = 32%nat ∧ Forall is_byte (le_bytes 32 s) ∧ le_combine (le_bytes 32 s) = s.
Proof.
  intros Hs. pose proof l25519_bounds. split_and!; [apply length_le_bytes|apply le_bytes_byte|].
  rewrite le_combine_le_bytes. apply Z.mod_small. lia.
Qed.

Lemma digest_scalar m : length (ScReduce (blake2b512 m)) = 32%nat ∧ Forall is_byte (ScReduce (blake2b512 m)) ∧
  le_combine (ScReduce (blake2b512 m)) = scalarOf m ∧ 0 ≤ scalarOf m < l25519.
Proof.
  assert (Hr : 0 ≤ scalarOf m < l25519) by (by apply Z.mod_pos_bound). rewrite ScReduce_spec by done.
  destruct (scalar_bytes _ Hr) as (H1 & H2 & H3). by split_and!; try apply Hr.
Qed.

(** The point a public key stands for. *)
Definition decodes (pk : list Z) (P : point) : Prop :=
  py P = toF (le_combine pk mod 2 ^ 255) ∧
  (px P = Zmod.zero ∨ Zmod.unsigned (px P) mod 2 = le_combine pk / 2 ^ 255).

Lemma decodes_unique pk P Q : decodes pk P → decodes pk Q → P = Q.
Proof.
  intros [Py Px] [Qy Qx]. assert (E : py P = py Q) by congruence.
  destruct Px as [Px|Px]; [apply same_parity; [done|by left]|].
  destruct Qx as [Qx|Qx]; [symmetry; apply same_parity; [done|by left]|].
  apply same_parity; [done|right; congruence].
Qed.

Lemma decodes_encode P : decodes (encode P) P.
Proof.
  destruct (encode_parts P) as [Hy Hx]. split; [rewrite Hy; symmetry; apply Zmod.of_Z_to_Z|by right].
Qed.

(** The verification equation: [R] is the encoding of [S * B - h * A]. *)
Definition accepts (pk message sig : list Z) : Prop :=
  length sig = SignatureSize ∧ le_combine (drop 32 sig) < 2 ^ 253 ∧ ∃ A, decodes pk A ∧
  take 32 sig = encode (add (mul (le_combine (drop 32 sig)) B) (neg (mul (scalarOf (take 32 sig ++ pk ++ message)) A))).

Lemma top_bits v : is_byte v → (Z.land v 224 =? 0) = (v <? 32).
Proof.
  intros Hv. assert (H : Forall (λ v, (Z.land v 224 =? 0) = (v <? 32)) (seqZ 0 256))
    by (apply (bool_decide_unpack _); vm_compute; exact I).
  rewrite list.Forall_forall in H. apply H, elem_of_seqZ. unfold is_byte in Hv. lia.
Qed.

Lemma small_scalar sig : length sig = 64%nat → Forall is_byte sig →
  (Z.land (sig !!! 63%nat) 224 =? 0) = (le_combine (drop 32 sig) <? 2 ^ 253).
Proof.
  intros Hl Hb. rewrite top_bits by (apply byte_lookup; [done|lia]).
  assert (Hk : length (drop 32 sig) = 32%nat) by (rewrite length_drop; lia). set (k := drop 32 sig) in *.
  assert (Hkb : Forall is_byte k) by by apply Forall_drop.
  replace (sig !!! 63%nat) with (k !!! 31%nat) by (unfold k; by rewrite lookup_total_drop).
  pose proof (top_bound k Hk Hkb) as Ht. pose proof (le_combine_insert k 31 0 ltac:(lia)) as Hi.
  pose proof (le_combine_nonneg (<[31%nat := 0]> k) ltac:(apply Forall_insert; [done|unfold is_byte; lia])) as Hn.
  destruct (Z.ltb_spec (k !!! 31%nat) 32), (Z.ltb_spec (le_combine k) (2 ^ 253)); lia.
Qed.

Lemma negated_extended q P : extended q P → extended (Extended (FeNeg (eX q)) (eY q) (eZ q) (FeNeg (eT q))) (neg P).
Proof.
  intros (z & Hz & HX & HY & HZ & HT). exists z. apply fe_neg in HX; [|lia]. apply fe_neg in HT; [|lia].
  unfold neg. cbn [eX eY eZ eT px py]. split_and!; [done| |done|done|]; (eapply fe_weaken; [eassumption|lia|]); ring.
Qed.

Lemma Verify_complete pk message sig : length pk = 32%nat → Forall is_byte pk → Forall is_byte sig →
  ∃ b, Verify pk message sig = Ok b ∧ (b = true ↔ accepts pk message sig).
Proof.
  intros Hl Hp Hb. unfold Verify, accepts, SignatureSize. rewrite Hl. cbn [negb Nat.eqb PublicKeySize].
  destruct (Nat.eqb_spec (length sig) 64) as [Hs|Hs]; cbn [negb orb]; [|exists false; naive_solver].
  rewrite small_scalar by done.
  destruct (Z.ltb_spec (le_combine (drop 32 sig)) (2 ^ 253)) as [Hk|Hk]; cbn [negb]; [|exists false; split; [done|]; split; [done|lia]].
  destruct (FromBytes_spec (Extended FeZero FeZero FeZero FeZero) pk Hl Hp) as [(q & P & -> & Hq & Py & Px)|(q & -> & Hno)]; cbn zeta in *.
  - eexists. split; [done|]. destruct (digest_scalar (take 32 sig ++ pk ++ message)) as (L & Bs & Es & Rs). pose proof l25519_bounds.
    rewrite (copyInto_take 32 (drop 32 sig)), (take_ge (drop 32 sig)) by (rewrite length_drop; lia). rewrite bool_decide_eq_true.
    rewrite (ProjectiveGroupElement_ToBytes_spec _ (add (mul (le_combine (drop 32 sig)) B)
      (neg (mul (scalarOf (take 32 sig ++ pk ++ message)) P)))).
    + split; [intros E; split; [exact Hs|]; split; [exact Hk|]; exists P; exact (conj (conj Py Px) E)|]. intros (_ & _ & A & HA & E).
      rewrite (decodes_unique pk P A (conj Py Px) HA). exact E.
    + rewrite add_comm, <- mul_neg, <- Es. apply GeDoubleScalarMultVartime_spec; [exact L|rewrite length_drop; lia|exact Bs| |lia|lia|].
      * by apply Forall_drop.
      * apply negated_extended, Hq.
  - exists false. split; [done|]. split; [done|]. intros (_ & _ & A & [Ay _] & _). destruct (Hno (px A)). rewrite <- Ay. apply point_on.
Qed.

(** ** Keys and signatures *)
Definition secretOf (seed : list Z) : Z := le_combine (clampSecret (take 32 (blake2b512 seed))).

Lemma secret_bytes seed : let k := clampSecret (copyInto 32 (blake2b512 seed)) in
  length k = 32%nat ∧ Forall is_byte k ∧ le_combine k = secretOf seed ∧ le_combine k < 2 ^ 255.
Proof.
  cbn zeta. unfold secretOf. rewrite copyInto_take by (rewrite blake2b512_length; lia).
  destruct (clampSecret_spec (take 32 (blake2b512 seed))) as (H1 & H2 & H3); [|by apply Forall_take|done].
  rewrite length_take, blake2b512_length. lia.
Qed.

Lemma GenerateKey_spec rand : (32 ≤ length rand)%nat →
  GenerateKey rand = Ok (encode (mul (secretOf (take 32 rand)) B), take 32 rand ++ encode (mul (secretOf (take 32 rand)) B)).
Proof.
  intros Hl. unfold GenerateKey. rewrite (proj2 (Nat.ltb_ge (length rand) 32)) by lia. cbn zeta.
  rewrite clamp_agree by done. destruct (secret_bytes (take 32 rand)) as (H1 & H2 & <- & H4).
  by rewrite (ExtendedGroupElement_ToBytes_spec _ _ (GeScalarMultBase_spec _ H1 H2 H4)).
Qed.

Lemma Sign_spec priv m : length priv = 64%nat →
  let r := scalarOf (drop 32 (blake2b512 (take 32 priv)) ++ m) in
  let h := scalarOf (encode (mul r B) ++ drop 32 priv ++ m) in
  Sign priv m = Ok (encode (mul r B) ++ le_bytes 32 ((h * secretOf (take 32 priv) + r) mod l25519)).
Proof.
  intros Hl. cbn zeta. unfold Sign. rewrite Hl. cbn [negb Nat.eqb PrivateKeySize]. cbn zeta.
  destruct (secret_bytes (take 32 priv)) as (K1 & K2 & <- & K4).
  set (m1 := drop 32 (blake2b512 (take 32 priv)) ++ m). destruct (digest_scalar m1) as (L1 & B1 & E1 & R1).
  pose proof l25519_bounds. pose proof (GeScalarMultBase_spec _ L1 B1 ltac:(lia)) as HR. rewrite E1 in HR.
  rewrite (ExtendedGroupElement_ToBytes_spec _ _ HR). set (m2 := encode (mul (scalarOf m1) B) ++ drop 32 priv ++ m). destruct (digest_scalar m2) as (L2 & B2 & E2 & _).
  rewrite (ScMulAdd_spec _ _ _ L2 K1 L1 B2 K2 B1), E1, E2. reflexivity.
Qed.

Lemma mul_mod_order x : mul (x mod l25519) B = mul x B.
Proof.
  rewrite (Z.div_mod x l25519) at 2 by done. by rewrite Z.mul_comm, mul_add, mul_mul, B_order, mul_zero, add_zero_l.
Qed.

Lemma sig_parts (R s : list Z) : length R = 32%nat → take 32 (R ++ s) = R ∧ drop 32 (R ++ s) = s.
Proof. intros <-. split; [apply take_app_length|apply drop_app_length]. Qed.

(** The equation holds for the values of [Sign]. *)
Lemma honest_accepted a r m : 
  let A := encode (mul a B) in let R := encode (mul r B) in
  accepts A m (R ++ le_bytes 32 ((scalarOf (R ++ A ++ m) * a + r) mod l25519)).
Proof.
  cbn zeta. set (A := encode (mul a B)). set (R := encode (mul r B)). set (h := scalarOf (R ++ A ++ m)).
  pose proof l25519_bounds. pose proof (Z.mod_pos_bound (h * a + r) l25519 ltac:(done)) as Hs.
  destruct (scalar_bytes _ Hs) as (L & _ & E). destruct (sig_parts R (le_bytes 32 ((h * a + r) mod l25519))) as [ER ES]; [apply encode_length|].
  unfold accepts. rewrite ER, ES, E. fold h. split_and!; [|lia|].
  - unfold R, SignatureSize. by rewrite length_app, encode_length, L.
  - exists (mul a B). split; [apply decodes_encode|]. unfold R. f_equal.
    by rewrite mul_mod_order, (Z.add_comm (h * a)), mul_add, mul_mul, <- add_assoc, add_neg_r, add_zero_r.
Qed.

Lemma shifted_scalar pk m sig : accepts pk m sig → Forall is_byte sig →
  le_combine (drop 32 sig) + l25519 < 2 ^ 253 →
  accepts pk m (take 32 sig ++ le_bytes 32 (le_combine (drop 32 sig) + l25519)).
Proof.
  intros (Hl & Hk & A & HA & E) Hb Hlt. pose proof l25519_bounds. unfold SignatureSize in Hl.
  pose proof (le_combine_nonneg (drop 32 sig) ltac:(by apply Forall_drop)) as Hn. set (S := le_combine (drop 32 sig)) in *.
  destruct (sig_parts (take 32 sig) (le_bytes 32 (S + l25519))) as [ER ES]; [rewrite length_take; lia|].
  unfold accepts, SignatureSize. rewrite ER, ES, le_combine_le_bytes, Z.mod_small by lia. split_and!; [|done|].
  - rewrite length_app, length_take, length_le_bytes. lia.
  - exists A. split; [done|]. rewrite E at 1. by rewrite mul_add, B_order, add_zero_r.
Qed.

Lemma generated_pair rand : (32 ≤ length rand)%nat →
  ∃ pub priv, GenerateKey rand = Ok (pub, priv) ∧ PrivateKey_Public priv = Ok pub ∧
    length pub = PublicKeySize ∧ Forall is_byte pub ∧
    ∀ m, ∃ sig, Sign priv m = Ok sig ∧ length sig = SignatureSize ∧ Verify pub m sig = Ok true.
Proof.
  intros Hl. set (seed := take 32 rand). assert (Ls : length seed = 32%nat) by (unfold seed; rewrite length_take; lia).
  set (a := secretOf seed). set (A := encode (mul a B)). assert (LA : length A = 32%nat) by apply encode_length.
  destruct (sig_parts seed A Ls) as [ET ED]. exists A, (seed ++ A).
  split_and!; [by apply GenerateKey_spec| |exact LA|apply encode_bytes|].
  - unfold PrivateKey_Public. rewrite length_app, (proj2 (Nat.ltb_ge _ 32)) by lia. rewrite ED, copyInto_take by (rewrite LA; done).
    by rewrite take_ge by (rewrite LA; done).
  - intros m. eexists. split_and!; [apply Sign_spec; rewrite length_app; lia|by rewrite length_app, encode_length, length_le_bytes|].
    rewrite ET, ED. fold a A. set (r := scalarOf (drop 32 (blake2b512 seed) ++ m)).
    destruct (Verify_complete A m (encode (mul r B) ++ le_bytes 32 ((scalarOf (encode (mul r B) ++ A ++ m) * a + r) mod l25519)))
      as (b & -> & Hb'); [done|apply encode_bytes|apply Forall_app; split; [apply encode_bytes|apply le_bytes_byte]|].
    f_equal. by apply Hb', honest_accepted.
Qed.

(** C5: key generation never fails on 32 bytes, the key pair fits together, and every
    signature of the private key is accepted under the public key. *)
Theorem signatures_verify rand m : (32 ≤ length rand)%nat →
  ∃ pub priv sig, GenerateKey rand = Ok (pub, priv) ∧ PrivateKey_Public priv = Ok pub ∧
    Sign priv m = Ok sig ∧ length sig = SignatureSize ∧ Verify pub m sig = Ok true.
Proof.
  intros Hl. destruct (generated_pair rand Hl) as (pub & priv & HG & HP & _ & _ & HS). destruct (HS m) as (sig & H).
  by exists pub, priv, sig.
Qed.

(** C15: [Verify] panics exactly on keys of a wrong length; otherwise it decides the
    verification equation. *)
Theorem Verify_decides pk m sig : Forall is_byte pk → Forall is_byte sig →
  (length pk ≠ PublicKeySize ∧ Verify pk m sig = Panic) ∨
  (length pk = PublicKeySize ∧ ∃ b, Verify pk m sig = Ok b ∧ (b = true ↔ accepts pk m sig)).
Proof.
  intros Hp Hs. destruct (decide (length pk = PublicKeySize)) as [Hl|Hl].
  - right. split; [done|]. by apply Verify_complete.
  - left. split; [done|]. unfold Verify. by rewrite (proj2 (Nat.eqb_neq _ _) Hl).
Qed.

(** [Verify] does not call [ScMinimal]: adding the order to the scalar of an accepted
    signature gives a second accepted signature of the message. *)
Theorem signature_malleable pk m sig : length pk = PublicKeySize → Forall is_byte pk → Forall is_byte sig →
  Verify pk m sig = Ok true → le_combine (drop 32 sig) + l25519 < 2 ^ 253 →
  ∃ sig', sig' ≠ sig ∧ take 32 sig' = take 32 sig ∧ ScMinimal (drop 32 sig') = false ∧ Verify pk m sig' = Ok true.
Proof.
  intros Hl Hp Hs Hv Hlt. destruct (Verify_complete pk m sig Hl Hp Hs) as (b & Hb & Hacc). rewrite Hv in Hb. injection Hb as <-.
  pose proof (proj1 Hacc eq_refl) as Ha. pose proof (le_combine_nonneg (drop 32 sig) ltac:(by apply Forall_drop)) as Hn.
  set (S := le_combine (drop 32 sig)) in *. pose proof l25519_bounds.
  assert (Hd : length (take 32 sig) = 32%nat) by (destruct Ha as (E & _); unfold SignatureSize in E; rewrite length_take; lia).
  destruct (sig_parts (take 32 sig) (le_bytes 32 (S + l25519)) Hd) as [ER ES].
  assert (Ec : le_combine (le_bytes 32 (S + l25519)) = S + l25519) by (rewrite le_combine_le_bytes, Z.mod_small; lia).
  exists (take 32 sig ++ le_bytes 32 (S + l25519)). split_and!; [|done| |].
  - intros E. assert (El : le_combine (drop 32 sig) = S + l25519) by (rewrite <- E, ES; exact Ec). unfold S in El. lia.
  - rewrite ES, ScMinimal_spec, Ec by (apply length_le_bytes || apply le_bytes_byte). apply Z.ltb_ge. lia.
  - destruct (Verify_complete pk m (take 32 sig ++ le_bytes 32 (S + l25519)) Hl Hp) as (b & -> & Hb).
    + apply Forall_app. split; [by apply Forall_take|apply le_bytes_byte].
    + f_equal. by apply Hb, shifted_scalar.
Qed.
End ed25519.
