(* ===== verification/Base32.v ===== *)
(** * Base 32 text: package [encoding/base32] of the Go library

    The encoding [base32.NewEncoding(alphabet)] with the standard padding, as of Go 1.14.
    A quantum of five bytes is a number of 40 bits written with eight digits.  Decoding
    drops line breaks and accepts padding at the end. *)

From S2P Require Import Prelude.

(** The bytes of a Go string constant. *)
Definition str (s : string) : list Z := (λ c, Z.of_nat (Ascii.nat_of_ascii c)) <$> String.list_ascii_of_string s.

Definition padChar : Z := 61. (* '=' *)

(** ** Digits *)
Fixpoint digits32 (n : nat) (z : Z) : list Z :=
  match n with
  | O => []
  | S n => digits32 n (z / 32) ++ [z mod 32]
  end.

Definition combine32 (ds : list Z) : Z := foldl (λ acc d, acc * 32 + d) 0 ds.

Section base32.
Context (alphabet : list Z).

Definition encodeDigit (d : Z) : Z := alphabet !!! Z.to_nat d.
Definition decodeDigit (c : Z) : option Z := (λ p, Z.of_nat (p.1)) <$> list_find (λ x, x = c) alphabet.

(** A last quantum of fewer bytes is filled up with zeros and padded. *)
Definition encodePartial (src : list Z) : list Z :=
  let n := length src in
  let k := ((8 * n + 4) / 5)%nat in
  (encodeDigit <$> take k (digits32 8 (be_combine (src ++ replicate (5 - n) 0)))) ++ replicate (8 - k) padChar.

Fixpoint EncodeToString (src : list Z) : list Z :=
  match src with
  | [] => []
  | b0 :: b1 :: b2 :: b3 :: b4 :: rest =>
      (encodeDigit <$> digits32 8 (be_combine [b0; b1; b2; b3; b4])) ++ EncodeToString rest
  | _ => encodePartial src
  end.

(** The digits of one quantum, whether padding ended it, and the text after it; [n]
    digits are missing and [j] have been read. *)
Fixpoint readQuantum (n j : nat) (src : list Z) : option (list Z * bool * list Z) :=
  match n with
  | O => Some ([], false, src)
  | S n =>
      match src with
      | [] => None
      | c :: src =>
          if (c =? padChar) && (2 <=? j)%nat && (length src <? 8)%nat then
            if (length src + j <? 7)%nat then None
            else if negb (forallb (λ x, x =? padChar) (take (7 - j) src)) then None
            else if (j =? 3)%nat || (j =? 6)%nat then None
            else Some ([], true, src)
          else
            match decodeDigit c with
            | None => None
            | Some d =>
                match readQuantum n (S j) src with
                | Some (ds, e, rest) => Some (d :: ds, e, rest)
                | None => None
                end
            end
      end
  end.

(** [5 * n / 8] bytes of [n] digits. *)
Definition packQuantum (ds : list Z) : list Z :=
  take (5 * length ds / 8) (be_bytes 5 (combine32 (ds ++ replicate (8 - length ds) 0))).

Fixpoint decodeLoop (fuel : nat) (src : list Z) : option (list Z) :=
  match src, fuel with
  | [], _ => Some []
  | _, O => None
  | _, S fuel =>
      match readQuantum 8 0 src with
      | None => None
      | Some (ds, true, _) => Some (packQuantum ds)
      | Some (ds, false, rest) =>
          match decodeLoop fuel rest with
          | Some bs => Some (packQuantum ds ++ bs)
          | None => None
          end
      end
  end.

Definition stripNewlines (s : list Z) : list Z := filter (λ c, c ≠ 13 ∧ c ≠ 10) s.

(** [None] is a [CorruptInputError]; a quantum takes at least one character. *)
Definition DecodeString (s : list Z) : option (list Z) :=
  let s := stripNewlines s in decodeLoop (length s) s.
End base32.

(** ** Numbers *)
Lemma be_bytes_app m n : ∀ x y, 0 ≤ y < 256 ^ Z.of_nat n →
  be_bytes (m + n) (x * 256 ^ Z.of_nat n + y) = be_bytes m x ++ be_bytes n y.
Proof.
  induction n as [|n IH]; intros x y Hy.
  - change (256 ^ Z.of_nat 0) with 1 in *. rewrite Nat.add_0_r, app_nil_r. f_equal. lia.
  - rewrite Nat2Z.inj_succ, Z.pow_succ_r in * by lia. rewrite Nat.add_succ_r. cbn [be_bytes]. rewrite app_assoc.
    replace (x * (256 * 256 ^ Z.of_nat n) + y) with (y + (x * 256 ^ Z.of_nat n) * 256) by ring.
    rewrite Z.mod_add, Z.div_add by lia. f_equal. rewrite Z.add_comm. apply IH. split; [apply Z.div_pos; lia|].
    apply Z.div_lt_upper_bound; lia.
Qed.

Lemma length_digits32 n : ∀ z, length (digits32 n z) = n.
Proof. induction n as [|n IH]; intros z; [done|]. cbn [digits32]. rewrite length_app, IH. cbn. lia. Qed.

Lemma digits32_range n : ∀ z, Forall (λ d, 0 ≤ d < 32) (digits32 n z).
Proof.
  induction n as [|n IH]; intros z; [constructor|]. cbn [digits32]. apply Forall_app. split; [apply IH|].
  constructor; [apply Z.mod_pos_bound; lia|constructor].
Qed.

Lemma combine32_snoc ds d : combine32 (ds ++ [d]) = combine32 ds * 32 + d.
Proof. unfold combine32. by rewrite foldl_app. Qed.

Lemma combine32_app ds es : combine32 (ds ++ es) = combine32 ds * 32 ^ Z.of_nat (length es) + combine32 es.
Proof.
  induction es as [|e es IH] using rev_ind; [rewrite app_nil_r; cbn; lia|].
  rewrite app_assoc, !combine32_snoc, IH, length_app, Nat2Z.inj_add, Z.pow_add_r by lia. change (32 ^ Z.of_nat (length [e])) with 32. ring.
Qed.

Lemma combine32_range ds : Forall (λ d, 0 ≤ d < 32) ds → 0 ≤ combine32 ds < 32 ^ Z.of_nat (length ds).
Proof.
  induction ds as [|d ds IH] using rev_ind; [done|]. intros [H1 H2]%Forall_app. apply Forall_cons_iff in H2 as [H2 _].
  specialize (IH H1). rewrite combine32_snoc, length_app, Nat2Z.inj_add, Z.pow_add_r by lia. change (32 ^ Z.of_nat (length [d])) with 32. lia.
Qed.

Lemma combine32_digits32 n : ∀ z, combine32 (digits32 n z) = z mod 32 ^ Z.of_nat n.
Proof.
  induction n as [|n IH]; intros z; [by rewrite Z.mod_1_r|]. cbn [digits32].
  rewrite combine32_snoc, IH, Nat2Z.inj_succ, Z.pow_succ_r, Z.rem_mul_r by lia. lia.
Qed.

Lemma digits32_combine32 ds : Forall (λ d, 0 ≤ d < 32) ds → digits32 (length ds) (combine32 ds) = ds.
Proof.
  induction ds as [|d ds IH] using rev_ind; [done|]. intros [H1 H2]%Forall_app. apply Forall_cons_iff in H2 as [H2 _].
  rewrite length_app, Nat.add_1_r, combine32_snoc. cbn [digits32].
  rewrite Z.div_add_l, Z.div_small, Z.add_0_r, IH by (done || lia).
  rewrite Z.add_comm, Z.mod_add, Z.mod_small by lia. done.
Qed.

Lemma digits32_app m n : ∀ x y, 0 ≤ y < 32 ^ Z.of_nat n →
  digits32 (m + n) (x * 32 ^ Z.of_nat n + y) = digits32 m x ++ digits32 n y.
Proof.
  induction n as [|n IH]; intros x y Hy.
  - change (32 ^ Z.of_nat 0) with 1 in *. rewrite Nat.add_0_r, app_nil_r. f_equal. lia.
  - rewrite Nat2Z.inj_succ, Z.pow_succ_r in * by lia. rewrite Nat.add_succ_r. cbn [digits32]. rewrite app_assoc.
    replace (x * (32 * 32 ^ Z.of_nat n) + y) with (y + (x * 32 ^ Z.of_nat n) * 32) by ring.
    rewrite Z.mod_add, Z.div_add by lia. f_equal. rewrite Z.add_comm. apply IH. split; [apply Z.div_pos; lia|].
    apply Z.div_lt_upper_bound; lia.
Qed.

Lemma digits32_mod n z : digits32 n (z mod 32 ^ Z.of_nat n) = digits32 n z.
Proof.
  rewrite <- combine32_digits32. rewrite <- (length_digits32 n z) at 1. apply digits32_combine32, digits32_range.
Qed.

(** ** Encoding and decoding whole quanta *)
Class Alphabet (alphabet : list Z) := {
  alphabet_length : length alphabet = 32%nat;
  alphabet_NoDup : NoDup alphabet;
  alphabet_plain : Forall (λ c, c ≠ padChar ∧ c ≠ 13 ∧ c ≠ 10) alphabet
}.

Section laws.
Context (alphabet : list Z) `{!Alphabet alphabet}.
Abbreviation enc := (encodeDigit alphabet).
Abbreviation digit := (λ d, 0 ≤ d < 32).

Lemma encodeDigit_elem d : 0 ≤ d < 32 → enc d ∈ alphabet.
Proof. intros Hd. apply list_elem_of_lookup_total_2. rewrite alphabet_length. lia. Qed.

Lemma encodeDigit_plain d : 0 ≤ d < 32 → enc d ≠ padChar ∧ enc d ≠ 13 ∧ enc d ≠ 10.
Proof. intros Hd. pose proof alphabet_plain as H. rewrite list.Forall_forall in H. by apply H, encodeDigit_elem. Qed.

Lemma decodeDigit_Some c d : decodeDigit alphabet c = Some d ↔ 0 ≤ d < 32 ∧ c = enc d.
Proof.
  unfold decodeDigit, encodeDigit. rewrite fmap_Some. split.
  - intros ([i x] & (Hi & -> & _)%list_find_Some & ->). cbn [fst]. pose proof (lookup_lt_Some _ _ _ Hi) as Hl.
    rewrite alphabet_length in Hl. split; [lia|]. rewrite Nat2Z.id. symmetry. by apply list_lookup_total_correct.
  - intros [Hd ->]. assert (Hi : alphabet !! Z.to_nat d = Some (alphabet !!! Z.to_nat d))
      by (apply list_lookup_lookup_total_lt; rewrite alphabet_length; lia).
    exists (Z.to_nat d, alphabet !!! Z.to_nat d). split; [|cbn; lia]. apply list_find_Some. split_and!; [done|done|].
    intros j y Hj Hlt ->. pose proof (NoDup_lookup _ _ _ _ alphabet_NoDup Hi Hj). lia.
Qed.

Lemma decodeDigit_enc d : 0 ≤ d < 32 → decodeDigit alphabet (enc d) = Some d.
Proof. intros Hd. by apply decodeDigit_Some. Qed.

Lemma EncodeToString_quanta k : ∀ N, EncodeToString alphabet (be_bytes (5 * k) N) = enc <$> digits32 (8 * k) N.
Proof.
  induction k as [|k IH]; intros N; [done|]. pose proof (Z.div_mod N (256 ^ Z.of_nat (5 * k)) ltac:(lia)) as HN.
  pose proof (Z.mod_pos_bound N (256 ^ Z.of_nat (5 * k)) ltac:(lia)) as Hr.
  set (x := N / 256 ^ Z.of_nat (5 * k)) in *. set (y := N mod 256 ^ Z.of_nat (5 * k)) in *.
  assert (E : 256 ^ Z.of_nat (5 * k) = 32 ^ Z.of_nat (8 * k)).
  { rewrite !Nat2Z.inj_mul, !Z.pow_mul_r by lia. done. }
  replace N with (x * 256 ^ Z.of_nat (5 * k) + y) by lia. replace (5 * S k)%nat with (5 + 5 * k)%nat by lia.
  rewrite be_bytes_app by done. rewrite E in *. replace (8 * S k)%nat with (8 + 8 * k)%nat by lia.
  rewrite digits32_app, fmap_app, <- IH by done.
  assert (Hq : ∀ q l, length q = 5%nat → EncodeToString alphabet (q ++ l) = (enc <$> digits32 8 (be_combine q)) ++ EncodeToString alphabet l).
  { intros q l Hq. do 5 (destruct q as [|? q]; [done|]). by destruct q. }
  rewrite Hq, be_combine_be_bytes by apply length_be_bytes. f_equal. f_equal. apply (digits32_mod 8).
Qed.

Lemma readQuantum_digits ds : ∀ j rest, Forall digit ds →
  readQuantum alphabet (length ds) j ((enc <$> ds) ++ rest) = Some (ds, false, rest).
Proof.
  induction ds as [|d ds IH]; intros j rest; [done|]. intros [Hd Hds]%Forall_cons_iff. cbn [length fmap list_fmap app readQuantum].
  destruct (encodeDigit_plain d Hd) as [Hp _]. rewrite (proj2 (Z.eqb_neq _ _) Hp). cbn [andb].
  by rewrite decodeDigit_enc, IH.
Qed.

Lemma packQuantum_full ds : length ds = 8%nat → packQuantum ds = be_bytes 5 (combine32 ds).
Proof. intros Hl. unfold packQuantum. rewrite Hl, app_nil_r. apply take_ge. by rewrite length_be_bytes. Qed.

Lemma decodeLoop_digits k : ∀ ds fuel, length ds = (8 * k)%nat → (k ≤ fuel)%nat → Forall digit ds →
  decodeLoop alphabet fuel (enc <$> ds) = Some (be_bytes (5 * k) (combine32 ds)).
Proof.
  induction k as [|k IH]; intros ds fuel Hl Hf Hd; [by apply nil_length_inv in Hl as ->; destruct fuel|].
  destruct fuel as [|fuel]; [lia|]. rewrite <- (take_drop 8 ds) in *. set (q := take 8 ds) in *. set (r := drop 8 ds) in *.
  assert (Hq : length q = 8%nat) by (unfold q; rewrite length_take; rewrite length_app in Hl; unfold q, r in Hl; rewrite length_take, length_drop in Hl; lia).
  rewrite length_app, Hq in Hl. apply Forall_app in Hd as [Hdq Hdr]. rewrite fmap_app.
  pose proof (readQuantum_digits q 0 (enc <$> r) Hdq) as HR. rewrite Hq in HR.
  assert (EL : decodeLoop alphabet (S fuel) ((enc <$> q) ++ (enc <$> r)) =
    match decodeLoop alphabet fuel (enc <$> r) with Some bs => Some (packQuantum q ++ bs) | None => None end).
  { cbn [decodeLoop]. rewrite HR. destruct q; [done|]. done. }
  rewrite EL, IH, packQuantum_full by (done || lia). f_equal. replace (5 * S k)%nat with (5 + 5 * k)%nat by lia.
  assert (E : 256 ^ Z.of_nat (5 * k) = 32 ^ Z.of_nat (length r)).
  { replace (length r) with (8 * k)%nat by lia. rewrite !Nat2Z.inj_mul, !Z.pow_mul_r by lia. done. }
  rewrite combine32_app, <- E, be_bytes_app; [done|]. rewrite E. by apply combine32_range.
Qed.

Lemma stripNewlines_digits ds : Forall digit ds → stripNewlines (enc <$> ds) = enc <$> ds.
Proof.
  unfold stripNewlines. induction 1 as [|d ds Hd _ IH]; [done|]. cbn [fmap list_fmap]. rewrite filter_cons_True, IH; [done|].
  apply encodeDigit_plain, Hd.
Qed.

Lemma DecodeString_digits k ds : length ds = (8 * k)%nat → Forall digit ds →
  DecodeString alphabet (enc <$> ds) = Some (be_bytes (5 * k) (combine32 ds)).
Proof.
  intros Hl Hd. unfold DecodeString. rewrite stripNewlines_digits by done. apply decodeLoop_digits; [done| |done].
  rewrite length_fmap. lia.
Qed.

(** Whole quanta of bytes come back. *)
Lemma DecodeString_EncodeToString k N : 0 ≤ N < 256 ^ Z.of_nat (5 * k) →
  DecodeString alphabet (EncodeToString alphabet (be_bytes (5 * k) N)) = Some (be_bytes (5 * k) N).
Proof.
  intros HN. rewrite EncodeToString_quanta, (DecodeString_digits k) by (apply length_digits32 || apply digits32_range).
  rewrite combine32_digits32, Z.mod_small; [done|]. rewrite !Nat2Z.inj_mul, !Z.pow_mul_r in * by lia. exact HN.
Qed.

Lemma readQuantum_plain n : ∀ j src ds e rest, padChar ∉ src → readQuantum alphabet n j src = Some (ds, e, rest) →
  e = false ∧ length ds = n ∧ Forall digit ds ∧ src = (enc <$> ds) ++ rest.
Proof.
  induction n as [|n IH]; intros j src ds e rest Hp H; cbn [readQuantum] in H; [by injection H as <- <- <-|].
  destruct src as [|c src]; [done|]. apply not_elem_of_cons in Hp as [Hc Hp]. rewrite (proj2 (Z.eqb_neq _ _)) in H by congruence.
  cbn [andb] in H. destruct (decodeDigit alphabet c) as [d|] eqn:Ed; [|done]. apply decodeDigit_Some in Ed as [Hd ->].
  destruct (readQuantum alphabet n (S j) src) as [[[ds' e'] rest']|] eqn:ER; [|done]. injection H as <- <- <-.
  destruct (IH _ _ _ _ _ Hp ER) as (-> & Hl & Hds & ->). split_and!; [done|cbn; by rewrite Hl|by constructor|done].
Qed.

(** A text without padding that is accepted is a sequence of digits. *)
Lemma decodeLoop_plain fuel : ∀ src bs, padChar ∉ src → decodeLoop alphabet fuel src = Some bs →
  ∃ k ds, length ds = (8 * k)%nat ∧ Forall digit ds ∧ src = enc <$> ds.
Proof.
  induction fuel as [|fuel IH]; intros src bs Hp H; (destruct src as [|c src]; [by exists 0%nat, []|]); [done|].
  cbn [decodeLoop] in H. destruct (readQuantum alphabet 8 0 (c :: src)) as [[[ds e] rest]|] eqn:ER; [|done].
  destruct (readQuantum_plain _ _ _ _ _ _ Hp ER) as (-> & Hl & Hds & E). rewrite E in Hp |- *. apply not_elem_of_app in Hp as [_ Hp].
  destruct (decodeLoop alphabet fuel rest) as [bs'|] eqn:EL; [|done].
  destruct (IH _ _ Hp EL) as (k & es & Hk & Hes & ->). exists (S k), (ds ++ es). split_and!.
  - rewrite length_app. lia.
  - by apply Forall_app.
  - by rewrite fmap_app.
Qed.
End laws.
