(* ===== verification/Types.v ===== *)
(** * Data of the ledger: balances, hashes, blocks and account metas

    Models [common/util/math_integer.go] and [common/types]: [balance.go],
    [hash.go], [work.go], [block.go], [block_state.go], [account.go],
    [benefit.go], [pending.go] and [frontier.go]. *)

From S2P Require Import Prelude.

(** ** Checked unsigned arithmetic: [common/util/math_integer.go]

    Operands are [uint64] values; the second component reports overflow. *)
Module Util.
Definition SafeMul (x y : Z) : Z * bool :=
  if (x =? 0) || (y =? 0) then (0, false)
  else (u64 (x * y), y >? MaxUint64 / x).

Definition SafeAdd (x y : Z) : Z * bool := (u64 (x + y), y >? u64 (MaxUint64 - x)).

Definition SafeSub (x y : Z) : Z * bool := (u64 (x - y), x <? y).
End Util.

(** ** Balances: [common/types/balance.go]

    A [Balance] wraps a [*big.Int] that may be nil: [None] is the nil pointer. *)
Inductive BalanceComp := BalanceCompEqual | BalanceCompBigger | BalanceCompSmaller.

#[global] Instance BalanceComp_eq_dec : EqDecision BalanceComp.
Proof. solve_decision. Defined.

Abbreviation Balance := (option Z) (only parsing).

Module Bal.
Definition ZeroBalance : Balance := Some 0.

(** [big.Int.Uint64]: the low 64 bits of the absolute value. *)
Definition Uint64 (x : Z) : Z := u64 (Z.abs x).

(** [big.Int.Int64]. *)
Definition Int64 (x : Z) : Z :=
  let v := i64 (Z.abs x) in if x <? 0 then i64 (- v) else v.

Definition Bytes (b : Balance) : list Z :=
  match b with None => [] | Some x => big_bytes x end.

Definition BytesToBalance (bs : list Z) : Balance := Some (be_combine bs).

Definition Equal (b b2 : Balance) : bool :=
  match b, b2 with Some x, Some y => x =? y | _, _ => false end.

Definition Add (b n : Balance) : res Balance :=
  match b, n with
  | Some x, Some y =>
      let '(u, i) := Util.SafeAdd (Uint64 x) (Uint64 y) in
      if negb i then Ok (Some u) else Ok ZeroBalance
  | _, _ => Panic
  end.

Definition Sub (b n : Balance) : res Balance :=
  match b, n with
  | Some x, Some y =>
      let '(u, i) := Util.SafeSub (Uint64 x) (Uint64 y) in
      if negb i then Ok (Some u) else Ok ZeroBalance
  | _, _ => Panic
  end.

Definition Div (b : Balance) (n : Z) : res Balance :=
  if n =? 0 then Err (Errorf "n should not be zero")
  else match b with
       | Some x => Ok (Some (i64 (Z.quot (Int64 x) n)))
       | None => Panic
       end.

Definition Mul (b : Balance) (n : Z) : res Balance :=
  match b with
  | Some x =>
      let '(u, i) := Util.SafeMul (Uint64 x) (u64 n) in
      if negb i then Ok (Some u) else Ok ZeroBalance
  | None => Panic
  end.

(** [b.Int.Cmp(n.Int)]: equal pointers compare equal before any dereference. *)
Definition Compare (b n : Balance) : res BalanceComp :=
  match b, n with
  | Some x, Some y =>
      match x ?= y with
      | Gt => Ok BalanceCompBigger
      | Lt => Ok BalanceCompSmaller
      | Eq => Ok BalanceCompEqual
      end
  | None, None => Ok BalanceCompEqual
  | _, _ => Panic
  end.

Definition IsZero (b : Balance) : bool := Equal b ZeroBalance.

(** The amount of a balance, a nil one counting for zero. *)
Definition amount (b : Balance) : Z := match b with Some x => x | None => 0 end.

(** A non-nil amount of at most 64 bits, the range of the arithmetic. *)
Definition ok (b : Balance) : Prop :=
  match b with Some x => 0 ≤ x < 2 ^ 64 | None => False end.

(** The accessors [GetVote], [GetBalance], ... replace a nil amount by zero. *)
Definition orZero (b : Balance) : Balance :=
  match b with None => ZeroBalance | Some _ => b end.

(** [MarshalBinaryTo] followed by [UnmarshalBinary]: what an amount becomes when
    the structure that holds it is serialized and read back. *)
Definition wire (b : Balance) : Balance := BytesToBalance (Bytes b).
End Bal.

(** ** Hashes and addresses: [common/types/hash.go], [address.go]

    A [Hash] and an [Address] are arrays of 32 bytes, modelled by the number they
    spell in big-endian order, so the conversions [types.Address(hash)] and
    [addr.ToHash()] of the source are the identity. *)
Abbreviation Hash := Z (only parsing).
Abbreviation Address := Z (only parsing).

Definition HashSize : nat := 32%nat.
Definition ZeroHash : Hash := 0.
Definition hash_bytes (h : Hash) : list Z := be_bytes HashSize h.
Definition wf_hash (h : Hash) : Prop := 0 ≤ h < 256 ^ 32.

(** [IsZero] tests every byte; the number spelled by 32 zero bytes is zero. *)
Definition hash_IsZero (h : Hash) : bool := h =? 0.

(** The digests of [golang.org/x/crypto/blake2b] with 32 and with 8 bytes, and the
    interface of package [crypto/ed25519], which [Address.ed25519Crypto] implements. *)
Class Crypto := {
  blake2b256 : list Z → Hash;
  blake2b64 : list Z → list Z;
  ed25519_Verify : Address → list Z → list Z → bool;
}.

(** Constants that [config] reads from the genesis configuration. *)
Class Config := {
  ChainToken : Hash;
  genesisMintageHash : Hash;
  genesisBlockHash : Hash;
  gasMintageHash : Hash;
  gasBlockHash : Hash;
}.

Definition HashData `{Crypto} (data : list Z) : Hash := blake2b256 data.
Definition HashBytes `{Crypto} (inputs : list (list Z)) : Hash := blake2b256 (concat inputs).

(** ** Proof of work on a block root: [common/types/work.go] *)
Definition WorkThreshold : Z := 18446741874686296064. (* 0xfffffe0000000000 *)

Definition Work_IsValid `{Crypto} (w : Z) (root : Hash) : bool :=
  let workBytes := le_bytes 8 w in
  let sum := blake2b64 (workBytes ++ hash_bytes root) in
  let value := le_combine sum in
  value >=? WorkThreshold.

(** ** Block types: [common/types/block.go] *)
Inductive BlockType :=
| State | Send | Receive | Change | Open | ContractReward | ContractSend
| ContractRefund | ContractError | SmartContract | Online | Invalid.

#[global] Instance BlockType_eq_dec : EqDecision BlockType.
Proof. solve_decision. Defined.

Module BT.
Definition byte_of (t : BlockType) : Z :=
  match t with
  | State => 0 | Send => 1 | Receive => 2 | Change => 3 | Open => 4
  | ContractReward => 5 | ContractSend => 6 | ContractRefund => 7
  | ContractError => 8 | SmartContract => 9 | Online => 10 | Invalid => 11
  end.

(** [strings.ToLower] on the ASCII names used here. *)
Definition lower_ascii (c : Ascii.ascii) : Ascii.ascii :=
  let n := Ascii.nat_of_ascii c in
  if (65 <=? n)%nat && (n <=? 90)%nat then Ascii.ascii_of_nat (n + 32) else c.

Fixpoint ToLower (s : string) : string :=
  match s with
  | EmptyString => EmptyString
  | String.String c s' => String.String (lower_ascii c) (ToLower s')
  end.

Definition parseString (s : string) : BlockType :=
  let l := ToLower s in
  if String.eqb l "state" then State
  else if String.eqb l "send" then Send
  else if String.eqb l "receive" then Receive
  else if String.eqb l "change" then Change
  else if String.eqb l "open" then Open
  else if String.eqb l "contractreward" then ContractReward
  else if String.eqb l "contractsend" then ContractSend
  else if String.eqb l "contractrefund" then ContractRefund
  else if String.eqb l "contracterror" then ContractError
  else if String.eqb l "smartcontract" then SmartContract
  else if String.eqb l "online" then Online
  else Invalid.

Definition to_string (t : BlockType) : string :=
  match t with
  | State => "State" | Send => "Send" | Receive => "Receive" | Change => "Change"
  | Open => "Open" | ContractReward => "ContractReward" | ContractSend => "ContractSend"
  | ContractRefund => "ContractRefund" | ContractError => "ContractError"
  | SmartContract => "SmartContract" | Online => "Online" | Invalid => "<invalid>"
  end.
End BT.

(** ** State blocks: [common/types/block_state.go] *)
Record StateBlock := mkStateBlock {
  sb_Type : BlockType;
  sb_Token : Hash;
  sb_Address : Address;
  sb_Balance : Balance;
  sb_Vote : Balance;
  sb_Network : Balance;
  sb_Storage : Balance;
  sb_Oracle : Balance;
  sb_Previous : Hash;
  sb_Link : Hash;
  sb_Sender : list Z;
  sb_Receiver : list Z;
  sb_Message : Hash;
  sb_Data : list Z;
  sb_PoVHeight : Z;
  sb_Timestamp : Z;
  sb_Extra : Hash;
  sb_Representative : Address;
  sb_PrivateFrom : list Z;
  sb_PrivateFor : list (list Z);
  sb_PrivateGroupID : list Z;
  sb_Work : Z;
  sb_Signature : list Z;
  sb_Flag : Z;
  sb_PrivateRecvRsp : bool;
  sb_PrivatePayload : list Z;
}.

#[global] Instance StateBlock_eq_dec : EqDecision StateBlock.
Proof. solve_decision. Defined.

Module SB.
Definition BuildHashData (b : StateBlock) : list Z :=
  [BT.byte_of (sb_Type b)] ++
  hash_bytes (sb_Token b) ++
  hash_bytes (sb_Address b) ++
  Bal.Bytes (sb_Balance b) ++
  Bal.Bytes (sb_Vote b) ++
  Bal.Bytes (sb_Network b) ++
  Bal.Bytes (sb_Storage b) ++
  Bal.Bytes (sb_Oracle b) ++
  hash_bytes (sb_Previous b) ++
  hash_bytes (sb_Link b) ++
  sb_Sender b ++
  sb_Receiver b ++
  hash_bytes (sb_Message b) ++
  sb_Data b ++
  be_bytes 8 (u64 (sb_Timestamp b)) ++
  be_bytes 8 (sb_PoVHeight b) ++
  hash_bytes (sb_Extra b) ++
  hash_bytes (sb_Representative b) ++
  sb_PrivateFrom b ++
  concat (sb_PrivateFor b) ++
  sb_PrivateGroupID b.

Definition GetHash `{Crypto} (b : StateBlock) : Hash := HashData (BuildHashData b).

Definition GetVote (b : StateBlock) : Balance := Bal.orZero (sb_Vote b).
Definition GetOracle (b : StateBlock) : Balance := Bal.orZero (sb_Oracle b).
Definition GetNetwork (b : StateBlock) : Balance := Bal.orZero (sb_Network b).
Definition GetStorage (b : StateBlock) : Balance := Bal.orZero (sb_Storage b).
Definition GetBalance (b : StateBlock) : Balance := sb_Balance b.

Definition IsPrivate (b : StateBlock) : bool :=
  match sb_PrivateFrom b with [] => false | _ => true end.

Definition IsRecipient (b : StateBlock) : bool :=
  if IsPrivate b then
    match sb_PrivatePayload b with [] => false | _ => true end
  else true.

Definition GetPayload (b : StateBlock) : list Z :=
  if IsPrivate b then sb_PrivatePayload b else sb_Data b.

(** [if x.Int != nil { balance = balance.Add(x) }]. *)
Definition addIf (acc x : Balance) : res Balance :=
  match x with None => Ok acc | Some _ => Bal.Add acc x end.

Definition TotalBalance (b : StateBlock) : res Balance :=
  balance ← addIf (sb_Balance b) (sb_Vote b);
  balance ← addIf balance (sb_Network b);
  balance ← addIf balance (sb_Oracle b);
  addIf balance (sb_Storage b).

Definition IsOpen (b : StateBlock) : bool := hash_IsZero (sb_Previous b).

Definition Root (b : StateBlock) : Hash :=
  if IsOpen b then sb_Address b else sb_Previous b.

Definition Parent (b : StateBlock) : Hash :=
  if IsOpen b then sb_Link b else sb_Previous b.

Definition IsValid `{Crypto} (b : StateBlock) : bool :=
  if IsOpen b then Work_IsValid (sb_Work b) (sb_Address b)
  else Work_IsValid (sb_Work b) (sb_Previous b).

Definition IsReceiveBlock (b : StateBlock) : bool :=
  match sb_Type b with Receive | Open | ContractReward => true | _ => false end.

Definition IsSendBlock (b : StateBlock) : bool :=
  match sb_Type b with Send | ContractSend => true | _ => false end.

Definition IsContractBlock (b : StateBlock) : bool :=
  match sb_Type b with
  | ContractReward | ContractSend | ContractRefund | ContractError => true
  | _ => false
  end.

(** [Serialize] then [Deserialize]: the fields marked [msg:"-"] are lost, amounts
    and the type go through their wire representation. *)
Definition wire (b : StateBlock) : StateBlock :=
  {| sb_Type := BT.parseString (BT.to_string (sb_Type b));
     sb_Token := sb_Token b; sb_Address := sb_Address b;
     sb_Balance := Bal.wire (sb_Balance b); sb_Vote := Bal.wire (sb_Vote b);
     sb_Network := Bal.wire (sb_Network b); sb_Storage := Bal.wire (sb_Storage b);
     sb_Oracle := Bal.wire (sb_Oracle b);
     sb_Previous := sb_Previous b; sb_Link := sb_Link b;
     sb_Sender := sb_Sender b; sb_Receiver := sb_Receiver b;
     sb_Message := sb_Message b; sb_Data := sb_Data b;
     sb_PoVHeight := sb_PoVHeight b; sb_Timestamp := sb_Timestamp b;
     sb_Extra := sb_Extra b; sb_Representative := sb_Representative b;
     sb_PrivateFrom := sb_PrivateFrom b; sb_PrivateFor := sb_PrivateFor b;
     sb_PrivateGroupID := sb_PrivateGroupID b;
     sb_Work := sb_Work b; sb_Signature := sb_Signature b;
     sb_Flag := 0; sb_PrivateRecvRsp := false; sb_PrivatePayload := [] |}.

(** Replace the three fields that are never serialized. *)
Definition with_local (b : StateBlock) (flag : Z) (rsp : bool) (payload : list Z) : StateBlock :=
  {| sb_Type := sb_Type b;
     sb_Token := sb_Token b; sb_Address := sb_Address b;
     sb_Balance := sb_Balance b; sb_Vote := sb_Vote b;
     sb_Network := sb_Network b; sb_Storage := sb_Storage b; sb_Oracle := sb_Oracle b;
     sb_Previous := sb_Previous b; sb_Link := sb_Link b;
     sb_Sender := sb_Sender b; sb_Receiver := sb_Receiver b;
     sb_Message := sb_Message b; sb_Data := sb_Data b;
     sb_PoVHeight := sb_PoVHeight b; sb_Timestamp := sb_Timestamp b;
     sb_Extra := sb_Extra b; sb_Representative := sb_Representative b;
     sb_PrivateFrom := sb_PrivateFrom b; sb_PrivateFor := sb_PrivateFor b;
     sb_PrivateGroupID := sb_PrivateGroupID b;
     sb_Work := sb_Work b; sb_Signature := sb_Signature b;
     sb_Flag := flag; sb_PrivateRecvRsp := rsp; sb_PrivatePayload := payload |}.

Definition Clone (b : StateBlock) : StateBlock :=
  with_local (wire b) (sb_Flag b) (sb_PrivateRecvRsp b) (sb_PrivatePayload b).

Definition SetPrivatePayload (b : StateBlock) (raw : list Z) : StateBlock :=
  with_local b (sb_Flag b) true raw.

Definition CheckPrivateRecvRsp (b : StateBlock) : res unit :=
  if IsPrivate b && negb (sb_PrivateRecvRsp b)
  then Err (Errorf "private does not got recv rsp")
  else Ok tt.
End SB.

Definition IsGenesisBlock `{Crypto} `{Config} (b : StateBlock) : bool :=
  let hash := SB.GetHash b in
  (hash =? genesisMintageHash) || (hash =? genesisBlockHash) ||
  (hash =? gasMintageHash) || (hash =? gasBlockHash).

(** ** Account metas: [common/types/account.go] *)
Record TokenMeta := mkTokenMeta {
  tm_Type : Hash;
  tm_Header : Hash;
  tm_Representative : Address;
  tm_OpenBlock : Hash;
  tm_Balance : Balance;
  tm_BelongTo : Address;
  tm_Modified : Z;
  tm_BlockCount : Z;
}.

Record AccountMeta := mkAccountMeta {
  am_Address : Address;
  am_CoinBalance : Balance;
  am_CoinVote : Balance;
  am_CoinNetwork : Balance;
  am_CoinStorage : Balance;
  am_CoinOracle : Balance;
  am_Tokens : list TokenMeta;
}.

#[global] Instance TokenMeta_eq_dec : EqDecision TokenMeta.
Proof. solve_decision. Defined.
#[global] Instance AccountMeta_eq_dec : EqDecision AccountMeta.
Proof. solve_decision. Defined.

Module AM.
(** The first token meta of the given type. *)
Fixpoint find_token (tokens : list TokenMeta) (tt : Hash) : option TokenMeta :=
  match tokens with
  | [] => None
  | t :: ts => if tm_Type t =? tt then Some t else find_token ts tt
  end.

Definition Token (am : AccountMeta) (tt : Hash) : option TokenMeta :=
  find_token (am_Tokens am) tt.

(** Mutation through the pointer [am.Token(tt)]: the first meta of that type. *)
Fixpoint update_token (tokens : list TokenMeta) (tt : Hash) (f : TokenMeta → TokenMeta)
  : list TokenMeta :=
  match tokens with
  | [] => []
  | t :: ts => if tm_Type t =? tt then f t :: ts else t :: update_token ts tt f
  end.

Definition GetVote (a : AccountMeta) : Balance := Bal.orZero (am_CoinVote a).
Definition GetOracle (a : AccountMeta) : Balance := Bal.orZero (am_CoinOracle a).
Definition GetNetwork (a : AccountMeta) : Balance := Bal.orZero (am_CoinNetwork a).
Definition GetBalance (a : AccountMeta) : Balance := Bal.orZero (am_CoinBalance a).
Definition GetStorage (a : AccountMeta) : Balance := Bal.orZero (am_CoinStorage a).

Definition VoteWeight (a : AccountMeta) : res Balance :=
  balance ← SB.addIf Bal.ZeroBalance (am_CoinBalance a);
  balance ← SB.addIf balance (am_CoinVote a);
  SB.addIf balance (am_CoinNetwork a).

Definition TotalBalance (a : AccountMeta) : res Balance :=
  balance ← SB.addIf Bal.ZeroBalance (am_CoinBalance a);
  balance ← SB.addIf balance (am_CoinVote a);
  balance ← SB.addIf balance (am_CoinStorage a);
  balance ← SB.addIf balance (am_CoinNetwork a);
  SB.addIf balance (am_CoinOracle a).

(** [TokenMeta.Clone], a serialization round trip. *)
Definition tm_wire (t : TokenMeta) : TokenMeta :=
  {| tm_Type := tm_Type t; tm_Header := tm_Header t;
     tm_Representative := tm_Representative t; tm_OpenBlock := tm_OpenBlock t;
     tm_Balance := Bal.wire (tm_Balance t); tm_BelongTo := tm_BelongTo t;
     tm_Modified := tm_Modified t; tm_BlockCount := tm_BlockCount t |}.

Definition with_tokens (a : AccountMeta) (ts : list TokenMeta) : AccountMeta :=
  {| am_Address := am_Address a; am_CoinBalance := am_CoinBalance a;
     am_CoinVote := am_CoinVote a; am_CoinNetwork := am_CoinNetwork a;
     am_CoinStorage := am_CoinStorage a; am_CoinOracle := am_CoinOracle a;
     am_Tokens := ts |}.

(** [AccountMeta.Clone] shares the coin amounts and round-trips the tokens. *)
Definition Clone (a : AccountMeta) : AccountMeta :=
  with_tokens a (tm_wire <$> am_Tokens a).

(** [Serialize] then [Deserialize]. *)
Definition wire (a : AccountMeta) : AccountMeta :=
  {| am_Address := am_Address a; am_CoinBalance := Bal.wire (am_CoinBalance a);
     am_CoinVote := Bal.wire (am_CoinVote a); am_CoinNetwork := Bal.wire (am_CoinNetwork a);
     am_CoinStorage := Bal.wire (am_CoinStorage a); am_CoinOracle := Bal.wire (am_CoinOracle a);
     am_Tokens := tm_wire <$> am_Tokens a |}.
End AM.

(** ** Delegated weight: [common/types/benefit.go] *)
Record Benefit := mkBenefit {
  bn_Balance : Balance;
  bn_Vote : Balance;
  bn_Network : Balance;
  bn_Storage : Balance;
  bn_Oracle : Balance;
  bn_Total : Balance;
}.

#[global] Instance Benefit_eq_dec : EqDecision Benefit.
Proof. solve_decision. Defined.

Definition ZeroBenefit : Benefit :=
  {| bn_Balance := Bal.ZeroBalance; bn_Vote := Bal.ZeroBalance;
     bn_Network := Bal.ZeroBalance; bn_Storage := Bal.ZeroBalance;
     bn_Oracle := Bal.ZeroBalance; bn_Total := Bal.ZeroBalance |}.

(** [Benefit.Clone], a serialization round trip. *)
Definition Benefit_Clone (b : Benefit) : Benefit :=
  {| bn_Balance := Bal.wire (bn_Balance b); bn_Vote := Bal.wire (bn_Vote b);
     bn_Network := Bal.wire (bn_Network b); bn_Storage := Bal.wire (bn_Storage b);
     bn_Oracle := Bal.wire (bn_Oracle b); bn_Total := Bal.wire (bn_Total b) |}.

(** ** Pending transfers and frontiers: [pending.go], [frontier.go] *)
Record PendingKey := mkPendingKey { pk_Address : Address; pk_Hash : Hash }.

Record PendingInfo := mkPendingInfo {
  pi_Source : Address;
  pi_Amount : Balance;
  pi_Type : Hash;
}.

Record Frontier := mkFrontier { fr_HeaderBlock : Hash; fr_OpenBlock : Hash }.

#[global] Instance PendingKey_eq_dec : EqDecision PendingKey.
Proof. solve_decision. Defined.
#[global] Instance PendingInfo_eq_dec : EqDecision PendingInfo.
Proof. solve_decision. Defined.

Definition PendingKey_Serialize (pk : PendingKey) : list Z :=
  hash_bytes (pk_Address pk) ++ hash_bytes (pk_Hash pk).

Definition PendingKey_Deserialize (text : list Z) : res PendingKey :=
  let a := take HashSize text in
  let h := drop HashSize text in
  if (length text <? HashSize)%nat then Panic
  else if negb (length h =? HashSize)%nat then Err (Errorf "invalid Hash size")
  else Ok (mkPendingKey (be_combine a) (be_combine h)).

Definition PendingInfo_wire (p : PendingInfo) : PendingInfo :=
  {| pi_Source := pi_Source p; pi_Amount := Bal.wire (pi_Amount p); pi_Type := pi_Type p |}.

(** ** Lemmas: checked arithmetic *)
Section arithmetic.
Local Open Scope Z_scope.

Lemma SafeAdd_spec x y :
  0 ≤ x < 2 ^ 64 → 0 ≤ y < 2 ^ 64 →
  Util.SafeAdd x y = (u64 (x + y), negb (x + y <? 2 ^ 64)).
Proof.
  intros. unfold Util.SafeAdd, MaxUint64. f_equal.
  rewrite u64_small by lia. destruct (Z.ltb_spec (x + y) (2 ^ 64)); lia.
Qed.

Lemma SafeMul_spec x y :
  0 ≤ x < 2 ^ 64 → 0 ≤ y < 2 ^ 64 →
  Util.SafeMul x y = (u64 (x * y), negb (x * y <? 2 ^ 64)).
Proof.
  intros Hx Hy. unfold Util.SafeMul, MaxUint64.
  destruct (Z.eqb_spec x 0) as [->|Hx0]; [done|].
  destruct (Z.eqb_spec y 0) as [->|Hy0]; [by rewrite Z.mul_0_r|]. cbn [orb]. f_equal.
  destruct (Z.ltb_spec (x * y) (2 ^ 64)) as [Hlt|Hge]; cbn [negb].
  - rewrite Z.gtb_ltb. apply Z.ltb_ge, Z.div_le_lower_bound; lia.
  - rewrite Z.gtb_ltb. apply Z.ltb_lt, Z.div_lt_upper_bound; lia.
Qed.
End arithmetic.

(** ** Lemmas: balances *)
Module BalFacts.
Lemma wire_amount b : Bal.wire b = Some (Z.abs (Bal.amount b)).
Proof. destruct b; cbn; [|done]. unfold Bal.wire, Bal.BytesToBalance; cbn. by rewrite be_combine_big_bytes. Qed.

Lemma Bal_wire_wire b : Bal.wire (Bal.wire b) = Bal.wire b.
Proof. rewrite !wire_amount. cbn. f_equal. lia. Qed.

Lemma wire_ok b : Bal.ok b → Bal.wire b = b.
Proof. rewrite wire_amount. destruct b; cbn; intros; [f_equal; lia|done]. Qed.

Lemma Bytes_wire b : Bal.Bytes (Bal.wire b) = Bal.Bytes b.
Proof.
  rewrite wire_amount. destruct b as [x|]; cbn; [|done].
  unfold big_bytes, byte_len. by rewrite Z.abs_idemp.
Qed.

Lemma Uint64_ok x : 0 ≤ x < 2 ^ 64 → Bal.Uint64 x = x.
Proof. intros. unfold Bal.Uint64. rewrite u64_small; lia. Qed.

Lemma Add_ok x y :
  0 ≤ x < 2 ^ 64 → 0 ≤ y < 2 ^ 64 →
  Bal.Add (Some x) (Some y) = Ok (Some (if x + y <? 2 ^ 64 then x + y else 0)).
Proof.
  intros. unfold Bal.Add. rewrite !Uint64_ok, SafeAdd_spec by lia.
  destruct (Z.ltb_spec (x + y) (2 ^ 64)); cbn; [|done]. by rewrite u64_small by lia.
Qed.

Lemma Sub_ok x y :
  0 ≤ x < 2 ^ 64 → 0 ≤ y < 2 ^ 64 →
  Bal.Sub (Some x) (Some y) = Ok (Some (if y <=? x then x - y else 0)).
Proof.
  intros. unfold Bal.Sub, Util.SafeSub. rewrite !Uint64_ok by lia.
  rewrite Z.leb_antisym. destruct (Z.ltb_spec x y); cbn; [done|]. by rewrite u64_small by lia.
Qed.

Lemma Add_no_overflow x y :
  0 ≤ x → 0 ≤ y → x + y < 2 ^ 64 → Bal.Add (Some x) (Some y) = Ok (Some (x + y)).
Proof. intros. rewrite Add_ok by lia. destruct (Z.ltb_spec (x + y) (2 ^ 64)); [done|lia]. Qed.

Lemma Sub_no_underflow x y :
  0 ≤ y → y ≤ x → x < 2 ^ 64 → Bal.Sub (Some x) (Some y) = Ok (Some (x - y)).
Proof. intros. rewrite Sub_ok by lia. destruct (Z.leb_spec y x); [done|lia]. Qed.

(** Every sum and difference is again in the range of the arithmetic. *)
Lemma Add_range b n r : Bal.Add b n = Ok r → Bal.ok r.
Proof.
  destruct b as [x|], n as [y|]; cbn; try done.
  destruct (_ >? _); cbn; intros; simplify_eq; cbn; [lia|apply u64_range].
Qed.

Lemma Sub_range b n r : Bal.Sub b n = Ok r → Bal.ok r.
Proof.
  destruct b as [x|], n as [y|]; cbn; try done.
  destruct (_ <? _); cbn; intros; simplify_eq; cbn; [lia|apply u64_range].
Qed.

(** Sums and differences of non-nil amounts always exist. *)
Lemma Add_total x y : ∃ n, Bal.Add (Some x) (Some y) = Ok (Some n).
Proof. cbn. destruct (_ >? _); cbn; eauto. Qed.

Lemma Sub_total x y : ∃ n, Bal.Sub (Some x) (Some y) = Ok (Some n).
Proof. cbn. destruct (_ <? _); cbn; eauto. Qed.

Lemma Compare_Some x y :
  Bal.Compare (Some x) (Some y) =
  Ok (if x =? y then BalanceCompEqual else if y <? x then BalanceCompBigger else BalanceCompSmaller).
Proof.
  cbn. destruct (Z.compare_spec x y) as [->|Hlt|Hgt].
  - by rewrite Z.eqb_refl.
  - destruct (Z.eqb_spec x y); [lia|]. destruct (Z.ltb_spec y x); [lia|done].
  - destruct (Z.eqb_spec x y); [lia|]. destruct (Z.ltb_spec y x); [done|lia].
Qed.

Lemma Compare_Equal b n : Bal.Compare b n = Ok BalanceCompEqual → b = n.
Proof.
  destruct b as [x|], n as [y|]; try done. rewrite Compare_Some.
  destruct (Z.eqb_spec x y); [by subst|]. by destruct (_ <? _).
Qed.

Lemma Compare_Bigger b n :
  Bal.Compare b n = Ok BalanceCompBigger → ∃ x y, b = Some x ∧ n = Some y ∧ y < x.
Proof.
  destruct b as [x|], n as [y|]; try done. rewrite Compare_Some.
  destruct (Z.eqb_spec x y); [done|]. destruct (Z.ltb_spec y x); [|done]. eauto 10.
Qed.

Lemma Equal_true b n : Bal.Equal b n = true → b = n ∧ is_Some b.
Proof.
  destruct b as [x|], n as [y|]; cbn; try done. intros ->%Z.eqb_eq. eauto.
Qed.

Lemma orZero_amount b : Bal.amount (Bal.orZero b) = Bal.amount b.
Proof. by destruct b. Qed.

Lemma orZero_Some b : is_Some (Bal.orZero b).
Proof. destruct b; cbn; eauto. Qed.
End BalFacts.

#[export] Hint Resolve BalFacts.Add_range BalFacts.Sub_range : qlc.

(** ** Lemmas: blocks *)
Module SBFacts.
Lemma parse_to_string t : BT.parseString (BT.to_string t) = t.
Proof. by destruct t. Qed.

(** Serialization does not change what is hashed and signed. *)
Lemma BuildHashData_wire b : SB.BuildHashData (SB.wire b) = SB.BuildHashData b.
Proof.
  unfold SB.BuildHashData; cbn -[hash_bytes be_bytes BT.parseString Bal.Bytes Bal.wire].
  by rewrite parse_to_string, !BalFacts.Bytes_wire.
Qed.

Lemma BuildHashData_with_local b f r p :
  SB.BuildHashData (SB.with_local b f r p) = SB.BuildHashData b.
Proof. done. Qed.

Lemma GetHash_Clone `{Crypto} b : SB.GetHash (SB.Clone b) = SB.GetHash b.
Proof. unfold SB.GetHash, SB.Clone. by rewrite BuildHashData_with_local, BuildHashData_wire. Qed.

Lemma GetHash_wire `{Crypto} b : SB.GetHash (SB.wire b) = SB.GetHash b.
Proof. unfold SB.GetHash. by rewrite BuildHashData_wire. Qed.

Lemma SB_wire_wire b : SB.wire (SB.wire b) = SB.wire b.
Proof. unfold SB.wire; cbn -[BT.parseString Bal.wire]. by rewrite !BalFacts.Bal_wire_wire, !parse_to_string. Qed.

Lemma SB_Clone_Clone b : SB.Clone (SB.Clone b) = SB.Clone b.
Proof.
  unfold SB.Clone, SB.with_local, SB.wire; cbn -[BT.parseString Bal.wire].
  by rewrite !BalFacts.Bal_wire_wire, !parse_to_string.
Qed.

(** A block with another balance and vote. *)
Definition with_amounts (b : StateBlock) (balance vote : Balance) : StateBlock :=
  {| sb_Type := sb_Type b; sb_Token := sb_Token b; sb_Address := sb_Address b;
     sb_Balance := balance; sb_Vote := vote;
     sb_Network := sb_Network b; sb_Storage := sb_Storage b; sb_Oracle := sb_Oracle b;
     sb_Previous := sb_Previous b; sb_Link := sb_Link b; sb_Sender := sb_Sender b;
     sb_Receiver := sb_Receiver b; sb_Message := sb_Message b; sb_Data := sb_Data b;
     sb_PoVHeight := sb_PoVHeight b; sb_Timestamp := sb_Timestamp b; sb_Extra := sb_Extra b;
     sb_Representative := sb_Representative b; sb_PrivateFrom := sb_PrivateFrom b;
     sb_PrivateFor := sb_PrivateFor b; sb_PrivateGroupID := sb_PrivateGroupID b;
     sb_Work := sb_Work b; sb_Signature := sb_Signature b; sb_Flag := sb_Flag b;
     sb_PrivateRecvRsp := sb_PrivateRecvRsp b; sb_PrivatePayload := sb_PrivatePayload b |}.

(** The hash does not determine the amounts of a block.  The amounts enter the
    hashed data as byte strings of variable length without separators, so a block
    with balance [256 x + y] and vote 0 has the same hash, and the same valid
    signature and work, as the block with balance [x] and vote [y]. *)
Theorem hash_data_ambiguous `{Crypto} b x y :
  0 < x → 0 < y < 256 →
  SB.GetHash (with_amounts b (Some (x * 256 + y)) (Some 0)) = SB.GetHash (with_amounts b (Some x) (Some y)).
Proof.
  intros Hx Hy. unfold SB.GetHash. f_equal. unfold SB.BuildHashData; cbn -[be_bytes big_bytes].
  rewrite big_bytes_snoc by lia. assert (Hy1 : big_bytes y = [y]).
  { unfold big_bytes, byte_len. rewrite Z.abs_eq by lia. destruct y as [|p|p]; [lia| |lia].
    pose proof (Z.log2_nonneg (Z.pos p)). assert (Z.log2 (Z.pos p) < 8) by (apply Z.log2_lt_pow2; lia).
    rewrite Z.div_small by lia. change (Z.to_nat (0 + 1)) with 1%nat. cbn [be_bytes app].
    by rewrite Z.mod_small by lia. }
  rewrite Hy1. change (big_bytes 0) with (@nil Z). cbn [app]. by rewrite <- !app_assoc.
Qed.

Lemma Clone_Type b : sb_Type (SB.Clone b) = sb_Type b.
Proof. unfold SB.Clone; cbn -[BT.parseString]. apply parse_to_string. Qed.
End SBFacts.

(** ** Lemmas: token metas *)
Module AMFacts.
Lemma find_token_Type ts tt t : AM.find_token ts tt = Some t → tm_Type t = tt.
Proof.
  induction ts as [|t' ts IH]; cbn; [done|].
  destruct (Z.eqb_spec (tm_Type t') tt); intros; simplify_eq; eauto.
Qed.

Lemma find_token_elem ts tt t : AM.find_token ts tt = Some t → t ∈ ts.
Proof.
  induction ts as [|t' ts IH]; cbn; [done|].
  destruct (Z.eqb_spec (tm_Type t') tt); intros; simplify_eq; [left|right; auto].
Qed.

Lemma find_token_None ts tt : AM.find_token ts tt = None ↔ tt ∉ (tm_Type <$> ts).
Proof.
  induction ts as [|t' ts IH]; cbn; [split; [intros _; apply not_elem_of_nil|done]|].
  rewrite not_elem_of_cons. destruct (Z.eqb_spec (tm_Type t') tt); [split; [done|naive_solver]|].
  rewrite IH. naive_solver.
Qed.

Lemma find_token_app ts1 ts2 tt :
  AM.find_token (ts1 ++ ts2) tt =
  match AM.find_token ts1 tt with Some t => Some t | None => AM.find_token ts2 tt end.
Proof. induction ts1 as [|t' ts IH]; cbn; [done|]. by destruct (tm_Type t' =? tt). Qed.

Lemma find_token_fmap f ts tt :
  (∀ t, tm_Type (f t) = tm_Type t) → AM.find_token (f <$> ts) tt = f <$> AM.find_token ts tt.
Proof.
  intros Hf. induction ts as [|t' ts IH]; cbn; [done|]. rewrite Hf. by destruct (tm_Type t' =? tt).
Qed.

Lemma find_update_token ts tt tt' f :
  (∀ t, tm_Type (f t) = tm_Type t) →
  AM.find_token (AM.update_token ts tt f) tt' =
  if tt =? tt' then f <$> AM.find_token ts tt else AM.find_token ts tt'.
Proof.
  intros Hf. induction ts as [|t' ts IH]; cbn; [by destruct (tt =? tt')|].
  destruct (Z.eqb_spec (tm_Type t') tt) as [<-|Hne]; cbn.
  - rewrite Hf. by destruct (tm_Type t' =? tt').
  - rewrite IH. destruct (Z.eqb_spec tt tt') as [<-|]; [|done].
    destruct (Z.eqb_spec (tm_Type t') tt); done.
Qed.

(** Replacing a meta by one of the same type. *)
Lemma update_token_const ts tt tt' v :
  tm_Type v = tt →
  AM.find_token (AM.update_token ts tt (λ _, v)) tt' =
  if tt =? tt' then (λ _, v) <$> AM.find_token ts tt else AM.find_token ts tt'.
Proof.
  intros Hv. induction ts as [|t' ts IH]; cbn; [by destruct (tt =? tt')|].
  destruct (Z.eqb_spec (tm_Type t') tt) as [<-|Hne]; cbn.
  - rewrite Hv. by destruct (tm_Type t' =? tt').
  - rewrite IH. destruct (Z.eqb_spec tt tt') as [<-|]; [|done].
    destruct (Z.eqb_spec (tm_Type t') tt); done.
Qed.

Lemma update_token_types ts tt f :
  (∀ t, tm_Type (f t) = tm_Type t) → tm_Type <$> AM.update_token ts tt f = tm_Type <$> ts.
Proof.
  intros Hf. induction ts as [|t' ts IH]; cbn; [done|].
  destruct (tm_Type t' =? tt); cbn; [by rewrite Hf|by rewrite IH].
Qed.

Lemma tm_wire_Type t : tm_Type (AM.tm_wire t) = tm_Type t.
Proof. done. Qed.

Lemma tm_wire_wire t : AM.tm_wire (AM.tm_wire t) = AM.tm_wire t.
Proof. unfold AM.tm_wire; cbn -[Bal.wire]. by rewrite BalFacts.Bal_wire_wire. Qed.

Lemma AM_Clone_Clone a : AM.Clone (AM.Clone a) = AM.Clone a.
Proof.
  unfold AM.Clone, AM.with_tokens; cbn. f_equal. rewrite <- list_fmap_compose.
  apply list_fmap_ext. intros ? t _. apply tm_wire_wire.
Qed.

Lemma AM_wire_wire a : AM.wire (AM.wire a) = AM.wire a.
Proof.
  unfold AM.wire; cbn -[Bal.wire AM.tm_wire]. rewrite !BalFacts.Bal_wire_wire. f_equal.
  rewrite <- list_fmap_compose. apply list_fmap_ext. intros ? t _. apply tm_wire_wire.
Qed.

Lemma Token_Clone a tt : AM.Token (AM.Clone a) tt = AM.tm_wire <$> AM.Token a tt.
Proof. apply find_token_fmap, tm_wire_Type. Qed.
End AMFacts.

(** Pending keys survive their encoding: decoding the 64 bytes of a key gives the
    key back, and a text of any other length is refused (shorter than an address, by
    a slice panic). *)
Theorem PendingKey_roundtrip a h text :
  0 ≤ a < 2 ^ 256 → 0 ≤ h < 2 ^ 256 →
  PendingKey_Deserialize (PendingKey_Serialize (mkPendingKey a h)) = Ok (mkPendingKey a h) ∧
  (∀ pk, PendingKey_Deserialize text = Ok pk → length text = 64%nat).
Proof.
  intros Ha Hh. change (2 ^ 256) with (256 ^ Z.of_nat HashSize) in *. split.
  - unfold PendingKey_Deserialize, PendingKey_Serialize, hash_bytes. cbn [pk_Address pk_Hash].
    rewrite take_app_length', drop_app_length', length_app, !length_be_bytes
      by (by rewrite length_be_bytes).
    cbn [Nat.ltb Nat.leb Nat.eqb negb HashSize Nat.add].
    by rewrite !be_combine_be_bytes, !Z.mod_small.
  - intros pk. unfold PendingKey_Deserialize, HashSize. destruct (Nat.ltb_spec (length text) 32); [done|].
    rewrite length_drop. destruct (Nat.eqb_spec (length text - 32) 32); [intros _; lia|done].
Qed.

Lemma PendingKey_roundtrip_witness :
  PendingKey_Deserialize (PendingKey_Serialize (mkPendingKey 11 12)) = Ok (mkPendingKey 11 12).
Proof. apply (PendingKey_roundtrip 11 12 []); lia. Defined.
