(* ===== verification/Cache.v ===== *)
(** * The layered write cache: [ledger/cache.go]

    Every confirmed write of the ledger goes through a ring of [cacheCount]
    in-memory caches: writers fill the cache at [writeIndex], a background
    goroutine dumps the older ones to disk and advances [readIndex].  The file
    models the ring and its operations over any key and value type, each call as one
    step, and proves that the ring with the store behind it implements one finite map;
    [CacheThreads] has the calls of different goroutines interleaved.  A cache is a map
    without bound: [gcache] evicts entries beyond its capacity of 100000, so what follows
    is about caches that stay below it. *)

From S2P Require Import Prelude.

(** ** One cache *)
Inductive entry (V : Type) : Type :=
| Val (v : V)
| deleteKeyTag.
Arguments Val {V} v.
Arguments deleteKeyTag {V}.

(** What [Get] reports: a value, [ErrKeyDeleted], or a miss. *)
Inductive cached (V : Type) : Type :=
| Hit (v : V)
| KeyDeleted
| NotInCache.
Arguments Hit {V} v.
Arguments KeyDeleted {V}.
Arguments NotInCache {V}.

Definition cacheCount : Z := 6.

Section cache.
Context {K V : Type} `{Countable K}.

(** The bytes [dumpToLevelDb] writes for a value, read back as a value; [None]
    when the value has no [Serialize] method and the dump fails. *)
Variable dump : V → option V.

(** The form a value has once it has been stored and read back. *)
Variable norm : V → V.

Definition Cache_Get (c : gmap K (entry V)) (k : K) : cached V :=
  match c !! k with
  | Some (Val v) => Hit v
  | Some deleteKeyTag => KeyDeleted
  | None => NotInCache
  end.

Definition Cache_Put (c : gmap K (entry V)) (k : K) (v : V) : gmap K (entry V) :=
  <[k:=Val v]> c.

Definition Cache_Delete (c : gmap K (entry V)) (k : K) : gmap K (entry V) :=
  <[k:=deleteKeyTag]> c.

(** [dumpToLevelDb] on one entry of the write batch. *)
Definition dumpToLevelDb (k : K) (e : entry V) (batch : option (gmap K V)) : option (gmap K V) :=
  match batch with
  | None => None
  | Some m =>
      match e with
      | Val v => match dump v with Some v' => Some (<[k:=v']> m) | None => None end
      | deleteKeyTag => Some (delete k m)
      end
  end.

(** [Cache.flush]: all entries in one batch, nothing written when one fails. *)
Definition Cache_flush (c : gmap K (entry V)) (store : gmap K V) : option (gmap K V) :=
  if (size c =? 0)%nat then Some store
  else map_fold dumpToLevelDb (Some store) c.

(** ** The ring *)
Record MemoryCache := mkMemoryCache {
  caches : list (gmap K (entry V));
  writeIndex : Z;
  readIndex : Z;
}.

Definition NewMemoryCache : MemoryCache :=
  {| caches := replicate (Z.to_nat cacheCount) ∅; writeIndex := 1; readIndex := 0 |}.

Definition slot (lc : MemoryCache) (i : Z) : gmap K (entry V) :=
  default ∅ (caches lc !! Z.to_nat i).

Definition set_slot (lc : MemoryCache) (i : Z) (c : gmap K (entry V)) : MemoryCache :=
  {| caches := <[Z.to_nat i:=c]> (caches lc);
     writeIndex := writeIndex lc; readIndex := readIndex lc |}.

Definition set_read (lc : MemoryCache) (i : Z) : MemoryCache :=
  {| caches := caches lc; writeIndex := writeIndex lc; readIndex := i |}.

Definition set_write (lc : MemoryCache) (i : Z) : MemoryCache :=
  {| caches := caches lc; writeIndex := i; readIndex := readIndex lc |}.

(** [(index + 1) % lc.cacheCount]. *)
Definition nextIndex (i : Z) : Z := Z.rem (i + 1) cacheCount.

(** [index = (index - 1) % lc.cacheCount; if index < 0 { index = cacheCount - 1 }]. *)
Definition prevIndex (i : Z) : Z :=
  let j := Z.rem (i - 1) cacheCount in
  if j <? 0 then cacheCount - 1 else j.

(** [MemoryCache.Get]: from the write cache back to the read index.  [None] is a
    loop that has not ended after [fuel] rounds. *)
Fixpoint get_loop (fuel : nat) (lc : MemoryCache) (index : Z) (key : K) : option (cached V) :=
  if index =? readIndex lc then Some NotInCache
  else match fuel with
       | O => None
       | S fuel' =>
           match Cache_Get (slot lc index) key with
           | Hit v => Some (Hit v)
           | KeyDeleted => Some KeyDeleted
           | NotInCache => get_loop fuel' lc (prevIndex index) key
           end
       end.

Definition MC_Get (lc : MemoryCache) (key : K) : cached V :=
  default NotInCache (get_loop (Z.to_nat cacheCount) lc (writeIndex lc) key).

(** [needsFlush]: the flush interval has passed and the write cache holds data. *)
Definition needsFlush (interval_passed : bool) (lc : MemoryCache) : bool :=
  interval_passed && negb (size (slot lc (writeIndex lc)) =? 0)%nat.

(** [GetCache] up to the returned index; [None] while it waits because the next
    cache has not been flushed yet. *)
Definition GetCache (interval_passed : bool) (lc : MemoryCache) : option MemoryCache :=
  if needsFlush interval_passed lc then
    let newWriteIndex := nextIndex (writeIndex lc) in
    if newWriteIndex =? readIndex lc then None
    else Some (set_write lc newWriteIndex)
  else Some lc.

(** Copy every entry of the temporary cache [c] into the write cache. *)
Definition put_all (c mc : gmap K (entry V)) : gmap K (entry V) :=
  map_fold (λ k e acc, <[k:=e]> acc) mc c.

(** [MemoryCache.BatchUpdate] once its callback has filled [c] without error. *)
Definition BatchUpdate (interval_passed : bool) (lc : MemoryCache) (c : gmap K (entry V))
  : option MemoryCache :=
  lc' ← GetCache interval_passed lc;
  Some (set_slot lc' (writeIndex lc') (put_all c (slot lc' (writeIndex lc')))).

(** One round of [MemoryCache.flush] for the cache at [index]: an error of the dump
    is only logged, and the read index advances in any case. *)
Definition flush_slot (lc : MemoryCache) (store : gmap K V) (index : Z) : MemoryCache * gmap K V :=
  match Cache_flush (slot lc index) store with
  | Some store' => (set_read (set_slot lc index ∅) index, store')
  | None => (set_read lc index, store)
  end.

Fixpoint flush_loop (fuel : nat) (lc : MemoryCache) (store : gmap K V) (index : Z)
  : option (MemoryCache * gmap K V) :=
  if index =? writeIndex lc then Some (lc, store)
  else match fuel with
       | O => None
       | S fuel' =>
           let '(lc', store') := flush_slot lc store index in
           flush_loop fuel' lc' store' (nextIndex index)
       end.

Definition MC_flush (lc : MemoryCache) (store : gmap K V) : option (MemoryCache * gmap K V) :=
  flush_loop (Z.to_nat cacheCount) lc store (nextIndex (readIndex lc)).

(** [MemoryCache.close]: flush up to and including the write cache. *)
Fixpoint close_loop (fuel : nat) (lc : MemoryCache) (store : gmap K V) (index : Z)
  : option (MemoryCache * gmap K V) :=
  match fuel with
  | O => None
  | S fuel' =>
      let '(lc', store') := flush_slot lc store index in
      if index =? writeIndex lc then Some (lc', store')
      else close_loop fuel' lc' store' (nextIndex index)
  end.

Definition MC_close (lc : MemoryCache) (store : gmap K V) : option (MemoryCache * gmap K V) :=
  close_loop (Z.to_nat cacheCount) lc store (nextIndex (readIndex lc)).

Definition MC_rebuild (lc : MemoryCache) (store : gmap K V) : option (MemoryCache * gmap K V) :=
  '(lc', store') ← MC_close lc store;
  Some (set_read (set_write lc' 1) 0, store').

(** ** The abstract map *)
Definition overlay (c : gmap K (entry V)) (m : gmap K V) : gmap K V :=
  merge (λ e v, match e with
                | Some (Val x) => Some x
                | Some deleteKeyTag => None
                | None => v
                end) c m.

(** The number of caches between the read index and the write index. *)
Definition depth (lc : MemoryCache) : Z := (writeIndex lc - readIndex lc) mod cacheCount.

(** The live caches, newest first. *)
Definition layers (lc : MemoryCache) : list (gmap K (entry V)) :=
  (λ j, slot lc ((writeIndex lc - Z.of_nat j) mod cacheCount)) <$> seq 0 (Z.to_nat (depth lc)).

Definition view (lc : MemoryCache) (store : gmap K V) : gmap K V :=
  foldr overlay store (layers lc).

(** Lookup through the ring, then the store: [getFromCache] then [store.Get]. *)
Definition MC_lookup (lc : MemoryCache) (store : gmap K V) (k : K) : option V :=
  match MC_Get lc k with
  | Hit v => Some v
  | KeyDeleted => None
  | NotInCache => store !! k
  end.

(** Caches outside the window between the indices hold nothing. *)
Definition ring_ok (lc : MemoryCache) : Prop :=
  length (caches lc) = Z.to_nat cacheCount ∧
  0 ≤ readIndex lc < cacheCount ∧ 0 ≤ writeIndex lc < cacheCount ∧
  readIndex lc ≠ writeIndex lc ∧
  ∀ i, 0 ≤ i < cacheCount → depth lc ≤ (writeIndex lc - i) mod cacheCount → slot lc i = ∅.

Definition norm_entry (e : entry V) : entry V :=
  match e with Val v => Val (norm v) | deleteKeyTag => deleteKeyTag end.

(** The abstract state of ring and store: the map readers see, its values in the
    form they are stored in. *)
Definition nview (lc : MemoryCache) (store : gmap K V) : gmap K V := norm <$> view lc store.

(** Every cached value can be stored. *)
Definition dumpable (lc : MemoryCache) : Prop :=
  ∀ i k v, 0 ≤ i < cacheCount → slot lc i !! k = Some (Val v) → dump v = Some (norm v).

End cache.

Arguments MemoryCache K V {_ _}.

Section cache_facts.
Context {K V : Type} `{Countable K}.
Variable dump : V → option V.
Variable norm : V → V.
Hypothesis norm_idemp : ∀ v, norm (norm v) = norm v.
Implicit Types (lc : MemoryCache K V) (st m : gmap K V) (c : gmap K (entry V)).

(** ** Overlays *)
Lemma lookup_overlay c m k :
  overlay c m !! k =
  match c !! k with Some (Val x) => Some x | Some deleteKeyTag => None | None => m !! k end.
Proof.
  unfold overlay. rewrite lookup_merge.
  destruct (c !! k) as [[|]|] eqn:E1, (m !! k) eqn:E2; cbn; rewrite ?E1, ?E2; done.
Qed.

Lemma overlay_empty m : overlay ∅ m = m.
Proof. apply map_eq. intros k. by rewrite lookup_overlay, lookup_empty. Qed.

Lemma overlay_insert_Val c m k v : overlay (<[k:=Val v]> c) m = <[k:=v]> (overlay c m).
Proof.
  apply map_eq. intros k'. rewrite lookup_overlay. destruct (decide (k = k')) as [->|].
  - by rewrite !lookup_insert_eq.
  - by rewrite !lookup_insert_ne, lookup_overlay by done.
Qed.

Lemma overlay_insert_Del c m k : overlay (<[k:=deleteKeyTag]> c) m = delete k (overlay c m).
Proof.
  apply map_eq. intros k'. rewrite lookup_overlay. destruct (decide (k = k')) as [->|].
  - by rewrite lookup_insert_eq, lookup_delete_eq.
  - by rewrite lookup_insert_ne, lookup_delete_ne, lookup_overlay by done.
Qed.

Lemma norm_overlay c m :
  norm <$> overlay c m = overlay (norm_entry norm <$> c) (norm <$> m).
Proof.
  apply map_eq. intros k. rewrite lookup_fmap, !lookup_overlay, !lookup_fmap.
  by destruct (c !! k) as [[|]|].
Qed.

Lemma norm_norm_overlay c m :
  norm <$> overlay (norm_entry norm <$> c) m = norm <$> overlay c m.
Proof.
  apply map_eq. intros k. rewrite !lookup_fmap, !lookup_overlay, !lookup_fmap.
  destruct (c !! k) as [[v|]|]; cbn; [by rewrite norm_idemp|done..].
Qed.

Lemma norm_foldr cs m :
  norm <$> foldr overlay m cs = foldr overlay (norm <$> m) ((λ c, norm_entry norm <$> c) <$> cs).
Proof. induction cs as [|c cs IH]; cbn; [done|]. by rewrite norm_overlay, IH. Qed.

Lemma lookup_put_all c mc k :
  put_all c mc !! k = match c !! k with Some e => Some e | None => mc !! k end.
Proof.
  unfold put_all. induction c as [|k' e c Hk' IH] using map_ind.
  - by rewrite map_fold_empty, lookup_empty.
  - rewrite map_fold_insert_L; [|intros; by apply insert_insert_ne|done].
    destruct (decide (k' = k)) as [->|].
    + by rewrite !lookup_insert_eq.
    + by rewrite !lookup_insert_ne.
Qed.

Lemma overlay_put_all c mc m : overlay (put_all c mc) m = overlay c (overlay mc m).
Proof.
  apply map_eq. intros k. rewrite !lookup_overlay, lookup_put_all.
  by destruct (c !! k) as [[|]|].
Qed.

(** ** Index arithmetic on the ring *)
Lemma nextIndex_mod i : 0 ≤ i < cacheCount → nextIndex i = (i + 1) mod cacheCount.
Proof. unfold nextIndex, cacheCount. intros. rewrite Z.rem_mod_nonneg by lia. done. Qed.

Lemma prevIndex_mod i : 0 ≤ i < cacheCount → prevIndex i = (i - 1) mod cacheCount.
Proof.
  unfold prevIndex, cacheCount. intros. destruct (decide (i = 0)) as [->|]; [done|].
  rewrite Z.rem_mod_nonneg by lia. destruct (Z.ltb_spec ((i - 1) mod 6) 0); dlia.
Qed.

Lemma slot_set_slot lc i j c :
  0 ≤ i < Z.of_nat (length (caches lc)) → 0 ≤ j →
  slot (set_slot lc i c) j = if i =? j then c else slot lc j.
Proof.
  intros Hi Hj. unfold slot, set_slot; cbn. destruct (Z.eqb_spec i j) as [->|Hne].
  - rewrite list_lookup_insert_eq by lia. done.
  - rewrite list_lookup_insert_ne by lia. done.
Qed.

Lemma slot_set_read lc i j : slot (set_read lc i) j = slot lc j.
Proof. done. Qed.

Lemma slot_set_write lc i j : slot (set_write lc i) j = slot lc j.
Proof. done. Qed.

(** The ring a fresh ledger starts with. *)
Lemma NewMemoryCache_ok : ring_ok (NewMemoryCache (K:=K) (V:=V)).
Proof.
  unfold ring_ok, NewMemoryCache, depth, cacheCount; cbn [caches readIndex writeIndex].
  rewrite length_replicate. split_and!; try done.
  intros i Hi _. unfold slot; cbn [caches]. by rewrite lookup_replicate_2 by lia.
Qed.

(** ** Reading *)
Lemma get_loop_layers lc k fuel i d :
  0 ≤ i < cacheCount → 0 ≤ readIndex lc < cacheCount →
  d = (i - readIndex lc) mod cacheCount → d ≤ Z.of_nat fuel →
  ∃ r, get_loop fuel lc i k = Some r ∧
    ∀ st, match r with Hit v => Some v | KeyDeleted => None | NotInCache => st !! k end =
      foldr overlay st
        ((λ j, slot lc ((i - Z.of_nat j) mod cacheCount)) <$> seq 0 (Z.to_nat d)) !! k.
Proof.
  intros Hi Hr -> Hfuel. revert i Hi Hfuel.
  induction fuel as [|fuel IH]; intros i Hi Hfuel; cbn [get_loop].
  all: destruct (Z.eqb_spec i (readIndex lc)) as [->|Hne];
    [rewrite Z.sub_diag; eexists; split; [done|done]|].
  1: exfalso; unfold cacheCount in *; dlia.
  set (d := (i - readIndex lc) mod cacheCount).
  assert (Hd : 0 < d) by (subst d; unfold cacheCount in *; dlia).
  replace (Z.to_nat d) with (S (Z.to_nat (d - 1))) by lia.
  cbn [seq fmap list_fmap foldr]. rewrite Z.sub_0_r.
  replace (i mod cacheCount) with i by (unfold cacheCount in *; dlia).
  destruct (IH (prevIndex i)) as (r & Hget & Hr').
  { rewrite prevIndex_mod by done. unfold cacheCount. dlia. }
  { rewrite prevIndex_mod by done. unfold d, cacheCount in *. dlia. }
  unfold Cache_Get. setoid_rewrite lookup_overlay.
  destruct (slot lc i !! k) as [[v|]|] eqn:E; [eexists; split; [done|done]..|].
  exists r. split; [done|]. intros st. rewrite Hr'. f_equal. f_equal.
  rewrite <- (fmap_S_seq 0), <- list_fmap_compose. rewrite prevIndex_mod by done.
  replace (Z.to_nat (((i - 1) mod cacheCount - readIndex lc) mod cacheCount)) with (Z.to_nat (d - 1)).
  - apply list_fmap_ext. intros _ j _. unfold compose. f_equal. unfold cacheCount. dlia.
  - f_equal. unfold d, cacheCount in *. dlia.
Qed.

Lemma MC_Get_terminates lc k :
  ring_ok lc → is_Some (get_loop (Z.to_nat cacheCount) lc (writeIndex lc) k).
Proof.
  intros (_ & Hr & Hw & _ & _).
  destruct (get_loop_layers lc k (Z.to_nat cacheCount) (writeIndex lc) (depth lc)) as (r & -> & _);
    [done|done|done|unfold depth, cacheCount in *; dlia|eauto].
Qed.

Lemma MC_lookup_view lc st k : ring_ok lc → MC_lookup lc st k = view lc st !! k.
Proof.
  intros (_ & Hr & Hw & _ & _). unfold MC_lookup, MC_Get, view, layers.
  destruct (get_loop_layers lc k (Z.to_nat cacheCount) (writeIndex lc) (depth lc))
    as (r & -> & Hr'); [done|done|done|unfold depth, cacheCount in *; dlia|]. apply Hr'.
Qed.

(** ** Writing *)
Lemma layers_write lc :
  ring_ok lc →
  layers lc = slot lc (writeIndex lc) ::
    ((λ j, slot lc ((writeIndex lc - Z.of_nat j) mod cacheCount)) <$> seq 1 (Z.to_nat (depth lc - 1))).
Proof.
  intros (_ & Hr & Hw & Hne & _). unfold layers.
  replace (Z.to_nat (depth lc)) with (S (Z.to_nat (depth lc - 1)))
    by (unfold depth, cacheCount in *; dlia).
  cbn [seq fmap list_fmap]. f_equal. f_equal. unfold cacheCount in *. dlia.
Qed.

Lemma view_rotate lc st :
  ring_ok lc → nextIndex (writeIndex lc) ≠ readIndex lc →
  ring_ok (set_write lc (nextIndex (writeIndex lc))) ∧
  view (set_write lc (nextIndex (writeIndex lc))) st = view lc st.
Proof.
  intros Hok Hn. pose proof Hok as (Hlen & Hr & Hw & Hne & Hempty).
  rewrite nextIndex_mod in * by done. set (w' := (writeIndex lc + 1) mod cacheCount) in *.
  assert (Hd : depth (set_write lc w') = depth lc + 1)
    by (unfold depth, w', cacheCount in *; cbn [writeIndex readIndex set_write]; dlia).
  assert (Hok' : ring_ok (set_write lc w')).
  { repeat split; cbn [caches readIndex writeIndex set_write];
      [done|lia|lia|unfold w', cacheCount; dlia..|congruence|].
    intros i Hi. rewrite Hd, slot_set_write. intros Hi'. apply Hempty; [done|].
    unfold depth, w', cacheCount in *. cbn [writeIndex set_write] in *. dlia. }
  split; [done|]. unfold view. rewrite (layers_write _ Hok'). cbn [foldr].
  rewrite slot_set_write. change (writeIndex (set_write lc w')) with w'.
  rewrite (Hempty w'), overlay_empty; cycle 1.
  { unfold w', cacheCount. dlia. }
  { unfold depth, w', cacheCount in *. dlia. }
  f_equal. rewrite Hd, Z.add_simpl_r. unfold layers. rewrite <- fmap_S_seq, <- list_fmap_compose.
  apply list_fmap_ext. intros _ j _. unfold compose. rewrite slot_set_write. f_equal.
  unfold w', cacheCount. cbn [writeIndex set_write]. dlia.
Qed.

Lemma GetCache_ok b lc lc' st :
  ring_ok lc → GetCache b lc = Some lc' → ring_ok lc' ∧ view lc' st = view lc st.
Proof.
  intros Hok. unfold GetCache. destruct (needsFlush b lc); [|intros; by simplify_eq].
  destruct (Z.eqb_spec (nextIndex (writeIndex lc)) (readIndex lc)); intros; simplify_eq.
  by apply view_rotate.
Qed.

Lemma view_put lc st c :
  ring_ok lc →
  let lc' := set_slot lc (writeIndex lc) (put_all c (slot lc (writeIndex lc))) in
  ring_ok lc' ∧ view lc' st = overlay c (view lc st).
Proof.
  intros Hok lc'. pose proof Hok as (Hlen & Hr & Hw & Hne & Hempty).
  assert (Hslot : ∀ j, 0 ≤ j → slot lc' j =
    if writeIndex lc =? j then put_all c (slot lc (writeIndex lc)) else slot lc j).
  { intros j Hj. apply slot_set_slot; [|done]. rewrite Hlen. unfold cacheCount in *. lia. }
  assert (Hok' : ring_ok lc').
  { repeat split; cbn; rewrite ?length_insert; try done; try lia.
    intros i Hi Hd. rewrite Hslot by lia. destruct (Z.eqb_spec (writeIndex lc) i) as [<-|].
    - exfalso. unfold depth, cacheCount in *. cbn in Hd. dlia.
    - by apply Hempty. }
  split; [done|]. unfold view. rewrite (layers_write _ Hok'), (layers_write _ Hok).
  cbn [foldr]. rewrite Hslot by (cbn; lia). cbn [writeIndex set_slot lc'].
  rewrite Z.eqb_refl, overlay_put_all. f_equal. f_equal. f_equal.
  apply list_fmap_ext. intros i j Hj. apply lookup_seq in Hj as [-> Hj].
  rewrite Hslot by (unfold cacheCount; dlia).
  destruct (Z.eqb_spec (writeIndex lc) ((writeIndex lc - Z.of_nat (1 + i)) mod cacheCount)); [|done].
  exfalso. unfold depth, cacheCount in *. cbn in Hj. dlia.
Qed.

Lemma BatchUpdate_ok b lc c lc' st :
  ring_ok lc → BatchUpdate b lc c = Some lc' →
  ring_ok lc' ∧ view lc' st = overlay c (view lc st).
Proof.
  intros Hok. unfold BatchUpdate. destruct (GetCache b lc) as [lc1|] eqn:E; [|done].
  cbn. intros; simplify_eq. destruct (GetCache_ok b lc lc1 st Hok E) as [Hok1 Hview].
  rewrite <- Hview. by apply view_put.
Qed.

(** ** Flushing *)
Lemma Cache_flush_overlay c st :
  (∀ k v, c !! k = Some (Val v) → dump v = Some (norm v)) →
  Cache_flush dump c st = Some (overlay (norm_entry norm <$> c) st).
Proof.
  intros Hd. unfold Cache_flush. destruct (Nat.eqb_spec (size c) 0) as [Hs|_].
  { apply map_size_empty_iff in Hs. by rewrite Hs, fmap_empty, overlay_empty. }
  revert Hd. apply (map_fold_weak_ind (λ r c,
    (∀ k v, c !! k = Some (Val v) → dump v = Some (norm v)) →
    r = Some (overlay (norm_entry norm <$> c) st))).
  - intros _. by rewrite fmap_empty, overlay_empty.
  - intros k e c' r Hk IH Hd. rewrite IH; cycle 1.
    { intros k' v Hk'. apply (Hd k' v). rewrite lookup_insert_ne; [done|congruence]. }
    unfold dumpToLevelDb. rewrite fmap_insert. destruct e as [v|]; cbn [norm_entry].
    + rewrite (Hd k v) by apply lookup_insert_eq. by rewrite overlay_insert_Val.
    + by rewrite overlay_insert_Del.
Qed.

Lemma layers_read lc :
  0 ≤ readIndex lc < cacheCount → 0 ≤ writeIndex lc < cacheCount → readIndex lc ≠ writeIndex lc →
  layers lc =
    ((λ j, slot lc ((writeIndex lc - Z.of_nat j) mod cacheCount)) <$> seq 0 (Z.to_nat (depth lc - 1)))
    ++ [slot lc (nextIndex (readIndex lc))].
Proof.
  intros Hr Hw Hne. unfold layers.
  replace (Z.to_nat (depth lc)) with (Z.to_nat (depth lc - 1) + 1)%nat
    by (unfold depth, cacheCount in *; dlia).
  rewrite seq_app, fmap_app. f_equal. cbn [seq fmap list_fmap]. f_equal. f_equal.
  rewrite nextIndex_mod by done. unfold depth, cacheCount in *. dlia.
Qed.

(** Flushing the oldest live cache moves its entries below the others. *)
Lemma flush_slot_ok lc st i :
  ring_ok lc → dumpable dump norm lc → i = nextIndex (readIndex lc) →
  let '(lc', st') := flush_slot dump lc st i in
  nview norm lc' st' = nview norm lc st ∧ dumpable dump norm lc' ∧ writeIndex lc' = writeIndex lc ∧
  readIndex lc' = i ∧ slot lc' i = ∅ ∧ (i ≠ writeIndex lc → ring_ok lc') ∧
  length (caches lc') = length (caches lc) ∧
  (∀ j, 0 ≤ j → j ≠ i → slot lc' j = slot lc j).
Proof.
  intros Hok Hdump ->. pose proof Hok as (Hlen & Hr & Hw & Hne & Hempty).
  set (i := nextIndex (readIndex lc)).
  assert (Hi : 0 ≤ i < cacheCount /\ i = (readIndex lc + 1) mod cacheCount).
  { unfold i. rewrite nextIndex_mod by done. unfold cacheCount. dlia. }
  destruct Hi as [Hi Hi'].
  unfold flush_slot. rewrite Cache_flush_overlay by eauto.
  assert (Hslot : ∀ j, 0 ≤ j → slot (set_read (set_slot lc i ∅) i) j = if i =? j then ∅ else slot lc j).
  { intros j Hj. rewrite slot_set_read. apply slot_set_slot; [|done].
    rewrite Hlen. unfold cacheCount in *. lia. }
  split_and!; cbn [writeIndex readIndex set_read set_slot caches]; rewrite ?length_insert; try done.
  - unfold nview, view. rewrite (layers_read lc) by done. fold i. rewrite foldr_app. cbn [foldr].
    rewrite !norm_foldr, norm_norm_overlay. f_equal. f_equal. unfold layers.
    replace (depth (set_read (set_slot lc i ∅) i)) with (depth lc - 1)
      by (unfold depth, cacheCount in *; cbn [writeIndex readIndex set_read set_slot]; dlia).
    apply list_fmap_ext. intros n j Hj. apply lookup_seq in Hj as [-> Hj].
    cbn [writeIndex readIndex set_read set_slot]. rewrite Hslot by (unfold cacheCount; dlia).
    destruct (Z.eqb_spec i ((writeIndex lc - Z.of_nat (0 + n)) mod cacheCount)); [|done].
    exfalso. unfold depth, cacheCount in *. dlia.
  - intros j k v Hj. rewrite Hslot by lia. destruct (i =? j); [by rewrite lookup_empty|eauto].
  - rewrite Hslot by lia. by rewrite Z.eqb_refl.
  - intros Hiw. repeat split; cbn; rewrite ?length_insert; try done; try lia.
    intros j Hj Hd. rewrite Hslot by lia. destruct (Z.eqb_spec i j) as [|Hij]; [done|].
    apply Hempty; [done|]. unfold depth, cacheCount in *. cbn in Hd. dlia.
  - intros j Hj Hij. rewrite Hslot by lia. by destruct (Z.eqb_spec i j).
Qed.

Lemma flush_loop_ok fuel lc st :
  ring_ok lc → dumpable dump norm lc → depth lc ≤ Z.of_nat fuel →
  ∃ lc' st', flush_loop dump fuel lc st (nextIndex (readIndex lc)) = Some (lc', st') ∧
    ring_ok lc' ∧ dumpable dump norm lc' ∧ writeIndex lc' = writeIndex lc ∧
    depth lc' = 1 ∧ nview norm lc' st' = nview norm lc st.
Proof.
  revert lc st. induction fuel as [|fuel IH]; intros lc st Hok Hdump Hfuel;
    pose proof Hok as (Hlen & Hr & Hw & Hne & Hempty); cbn [flush_loop].
  all: destruct (Z.eqb_spec (nextIndex (readIndex lc)) (writeIndex lc)) as [Heq|Hnw];
    [exists lc, st; rewrite nextIndex_mod in Heq by done; split_and!; try done;
     unfold depth, cacheCount in *; dlia|].
  { exfalso. unfold depth, cacheCount in *. dlia. }
  pose proof (flush_slot_ok lc st _ Hok Hdump eq_refl) as Hfs.
  destruct (flush_slot dump lc st (nextIndex (readIndex lc))) as [lc1 st1].
  destruct Hfs as (Hview & Hdump1 & Hw1 & Hr1 & _ & Hok1 & _). specialize (Hok1 Hnw).
  rewrite <- Hr1. destruct (IH lc1 st1) as (lc' & st' & Hloop & Hrest); [done..| |].
  { rewrite nextIndex_mod in * by done. unfold depth, cacheCount in *. rewrite Hw1, Hr1. dlia. }
  exists lc', st'. rewrite Hloop, <- Hw1, <- Hview. split; [done|apply Hrest].
Qed.

Lemma nview_lookup lc st lc' st' k :
  nview norm lc' st' = nview norm lc st → norm <$> view lc' st' !! k = norm <$> view lc st !! k.
Proof. unfold nview. intros Hv. by rewrite <- !lookup_fmap, Hv. Qed.

Lemma depth_range lc : ring_ok lc → 1 ≤ depth lc < cacheCount.
Proof. intros (_ & Hr & Hw & Hne & _). unfold depth, cacheCount in *. dlia. Qed.

Lemma close_loop_ok fuel lc st :
  ring_ok lc → dumpable dump norm lc → depth lc ≤ Z.of_nat fuel →
  ∃ lc' st', close_loop dump fuel lc st (nextIndex (readIndex lc)) = Some (lc', st') ∧
    norm <$> st' = nview norm lc st ∧
    length (caches lc') = Z.to_nat cacheCount ∧ readIndex lc' = writeIndex lc' ∧
    (∀ i, 0 ≤ i < cacheCount → slot lc' i = ∅).
Proof.
  revert lc st. induction fuel as [|fuel IH]; intros lc st Hok Hdump Hfuel;
    pose proof Hok as (Hlen & Hr & Hw & Hne & Hempty); pose proof (depth_range lc Hok); [lia|].
  cbn [close_loop]. pose proof (flush_slot_ok lc st _ Hok Hdump eq_refl) as Hfs.
  destruct (flush_slot dump lc st (nextIndex (readIndex lc))) as [lc1 st1].
  destruct Hfs as (Hview & Hdump1 & Hw1 & Hr1 & Hz & Hok1 & Hlen1 & Hother).
  destruct (Z.eqb_spec (nextIndex (readIndex lc)) (writeIndex lc)) as [Heq|Hnw].
  - exists lc1, st1. assert (view lc1 st1 = st1) as Hv.
    { unfold view, layers, depth. rewrite Hw1, Hr1, Heq, Z.sub_diag. done. }
    rewrite <- Hview. unfold nview. rewrite Hv. split_and!; [done|done|congruence|congruence|].
    intros i Hi. destruct (decide (i = nextIndex (readIndex lc))) as [->|Hni]; [done|].
    rewrite Hother by lia. apply Hempty; [done|]. rewrite nextIndex_mod in * by done.
    unfold depth, cacheCount in *. dlia.
  - rewrite <- Hr1, <- Hview. apply IH; [by apply Hok1|done|].
    rewrite nextIndex_mod in * by done. unfold depth, cacheCount in *. rewrite Hw1, Hr1. dlia.
Qed.

Lemma view_all_empty lc st :
  0 ≤ readIndex lc < cacheCount → 0 ≤ writeIndex lc < cacheCount →
  (∀ i, 0 ≤ i < cacheCount → slot lc i = ∅) → view lc st = st.
Proof.
  intros Hr Hw He. unfold view, layers. generalize (seq 0 (Z.to_nat (depth lc))) as l.
  induction l as [|j l IH]; [done|]. cbn [fmap list_fmap foldr]. rewrite He, overlay_empty; [done|].
  unfold cacheCount. dlia.
Qed.

(** ** The steps of the flusher *)
Lemma view_last lc st st' :
  ring_ok lc →
  norm <$> overlay (slot lc (nextIndex (readIndex lc))) st' =
    norm <$> overlay (slot lc (nextIndex (readIndex lc))) st →
  nview norm lc st' = nview norm lc st.
Proof.
  intros (_ & Hr & Hw & Hne & _) He. unfold nview, view. rewrite layers_read by done.
  rewrite !foldr_app. cbn [foldr]. by rewrite !norm_foldr, He.
Qed.

Lemma overlay_idem c m : overlay c (overlay c m) = overlay c m.
Proof. apply map_eq. intros k. rewrite !lookup_overlay. by destruct (c !! k) as [[|]|]. Qed.

(** Emptying the oldest cache, then advancing over an empty one. *)
Lemma view_purge lc st i :
  ring_ok lc → i = nextIndex (readIndex lc) → i ≠ writeIndex lc →
  overlay (norm_entry norm <$> slot lc i) (norm <$> st) = norm <$> st →
  ring_ok (set_slot lc i ∅) ∧ nview norm (set_slot lc i ∅) st = nview norm lc st ∧
  slot (set_slot lc i ∅) i = ∅ ∧ (dumpable dump norm lc → dumpable dump norm (set_slot lc i ∅)).
Proof.
  intros Hok -> Hiw He. pose proof Hok as (Hlen & Hr & Hw & Hne & Hempty).
  set (i := nextIndex (readIndex lc)) in *.
  assert (Hi : 0 ≤ i < cacheCount ∧ i = (readIndex lc + 1) mod cacheCount).
  { unfold i. rewrite nextIndex_mod by done. unfold cacheCount. dlia. }
  destruct Hi as [Hi Hi'].
  assert (Hslot : ∀ j, 0 ≤ j → slot (set_slot lc i ∅) j = if i =? j then ∅ else slot lc j).
  { intros j Hj. apply slot_set_slot; [|done]. rewrite Hlen. unfold cacheCount in *. lia. }
  split_and!.
  - repeat split; cbn; rewrite ?length_insert; try done; try lia.
    intros j Hj Hd. rewrite Hslot by lia. destruct (Z.eqb_spec i j); [done|by apply Hempty].
  - unfold nview, view. rewrite !layers_read by done. cbn [readIndex set_slot]. fold i.
    rewrite !foldr_app. cbn [foldr]. rewrite Hslot, Z.eqb_refl, overlay_empty by lia.
    rewrite !norm_foldr, norm_overlay, He. f_equal. f_equal. apply list_fmap_ext. intros n j Hj. apply lookup_seq in Hj as [-> Hj].
    cbn [writeIndex set_slot]. rewrite Hslot by (unfold cacheCount; dlia).
    destruct (Z.eqb_spec i ((writeIndex lc - Z.of_nat (0 + n)) mod cacheCount)); [|done].
    exfalso. change (depth (set_slot lc i ∅)) with (depth lc) in Hj.
    unfold depth, cacheCount in *. dlia.
  - rewrite Hslot by lia. by rewrite Z.eqb_refl.
  - intros Hd j k v Hj. rewrite Hslot by lia. destruct (i =? j); [by rewrite lookup_empty|by apply Hd].
Qed.

Lemma view_advance lc st i :
  ring_ok lc → i = nextIndex (readIndex lc) → i ≠ writeIndex lc → slot lc i = ∅ →
  ring_ok (set_read lc i) ∧ view (set_read lc i) st = view lc st.
Proof.
  intros Hok -> Hiw He. pose proof Hok as (Hlen & Hr & Hw & Hne & Hempty).
  rewrite nextIndex_mod in * by done. set (i := (readIndex lc + 1) mod cacheCount) in *.
  assert (Hi : 0 ≤ i < cacheCount) by (unfold i, cacheCount; dlia).
  assert (Hd : depth (set_read lc i) = depth lc - 1)
    by (unfold depth, i, cacheCount in *; cbn [writeIndex readIndex set_read]; dlia).
  split.
  - repeat split; cbn; try done; try lia. intros j Hj. rewrite Hd. cbn [writeIndex set_read].
    intros Hj'. rewrite slot_set_read. destruct (decide (i = j)) as [<-|]; [done|].
    apply Hempty; [done|]. unfold depth, i, cacheCount in *. dlia.
  - unfold view. rewrite (layers_read lc) by done. rewrite nextIndex_mod by done. fold i.
    rewrite foldr_app. cbn [foldr]. rewrite He, overlay_empty. unfold layers. by rewrite Hd.
Qed.

(** ** Ring and store against one finite map *)

(** [BatchUpdate], when it does not wait for a free cache, keeps the ring
    well-formed and changes the map that readers see by exactly the entries of
    the temporary cache: puts overwrite, deletions remove, nothing else moves. *)
Theorem BatchUpdate_refines b lc c lc' st k :
  ring_ok lc → BatchUpdate b lc c = Some lc' →
  ring_ok lc' ∧
  MC_lookup lc' st k =
    match c !! k with
    | Some (Val v) => Some v
    | Some deleteKeyTag => None
    | None => MC_lookup lc st k
    end.
Proof.
  intros Hok Hb. destruct (BatchUpdate_ok b lc c lc' st Hok Hb) as [Hok' Hv].
  split; [done|]. by rewrite !MC_lookup_view, Hv, lookup_overlay.
Qed.

(** The background [flush] terminates, keeps the ring well-formed, changes no
    lookup, and leaves the next [GetCache] a free cache to rotate to, so writers
    do not wait after it. *)
Theorem MC_flush_refines lc st :
  ring_ok lc → dumpable dump norm lc →
  ∃ lc' st', MC_flush dump lc st = Some (lc', st') ∧ ring_ok lc' ∧
    (∀ k, norm <$> MC_lookup lc' st' k = norm <$> MC_lookup lc st k) ∧
    (∀ b, is_Some (GetCache b lc')).
Proof.
  intros Hok Hdump. pose proof (depth_range lc Hok).
  destruct (flush_loop_ok (Z.to_nat cacheCount) lc st) as (lc' & st' & Hf & Hok' & _ & _ & Hd & Hv);
    [done..|unfold cacheCount in *; lia|].
  exists lc', st'. split_and!; [done..| |].
  - intros k. rewrite !MC_lookup_view by done. by apply nview_lookup.
  - intros b. unfold GetCache. destruct (needsFlush b lc'); [|eauto].
    destruct Hok' as (_ & Hr' & Hw' & _). rewrite nextIndex_mod by done.
    destruct (Z.eqb_spec ((writeIndex lc' + 1) mod cacheCount) (readIndex lc')); [|eauto].
    unfold depth, cacheCount in *. dlia.
Qed.

(** [rebuild] writes everything readers could see to the store and restarts an
    empty ring over it: every lookup gives the answer it gave before. *)
Theorem MC_rebuild_refines lc st :
  ring_ok lc → dumpable dump norm lc →
  ∃ lc' st', MC_rebuild dump lc st = Some (lc', st') ∧ ring_ok lc' ∧
    (∀ k, norm <$> st' !! k = norm <$> MC_lookup lc st k) ∧
    (∀ k, norm <$> MC_lookup lc' st' k = norm <$> MC_lookup lc st k).
Proof.
  intros Hok Hdump. pose proof (depth_range lc Hok).
  destruct (close_loop_ok (Z.to_nat cacheCount) lc st) as (lc' & st' & Hc & Hst & Hlen & _ & He);
    [done..|unfold cacheCount in *; lia|].
  unfold MC_rebuild, MC_close. rewrite Hc. cbn [mbind option_bind].
  set (lc2 := set_read (set_write lc' 1) 0). exists lc2, st'.
  assert (Hok2 : ring_ok lc2) by (repeat split; try done; intros i Hi _; by apply He).
  split_and!; [done..| |]; intros k; rewrite !MC_lookup_view by done.
  2: rewrite (view_all_empty lc2) by done.
  all: rewrite <- !lookup_fmap; by rewrite Hst.
Qed.

(** When the dump of the oldest cache fails, [flush] only logs the error and
    still advances the read index, and the entries of that cache are lost: every
    key the write cache does not hold reads the old store again. *)
Theorem MC_flush_failure_drops lc st :
  ring_ok lc → depth lc = 2 →
  Cache_flush dump (slot lc (nextIndex (readIndex lc))) st = None →
  ∃ lc', MC_flush dump lc st = Some (lc', st) ∧
    ∀ k, slot lc (writeIndex lc) !! k = None → MC_lookup lc' st k = st !! k.
Proof.
  intros (Hlen & Hr & Hw & Hne & _) Hd Hf. set (i := nextIndex (readIndex lc)) in *.
  assert (Hi : i = (readIndex lc + 1) mod cacheCount ∧ nextIndex i = writeIndex lc ∧ i ≠ writeIndex lc).
  { assert (Hi : i = (readIndex lc + 1) mod cacheCount) by (by apply nextIndex_mod).
    split; [done|]. rewrite nextIndex_mod by (unfold cacheCount in *; dlia).
    unfold depth, cacheCount in *. dlia. }
  destruct Hi as (Hi & Hni & Hiw). exists (set_read lc i). split.
  - unfold MC_flush. change (Z.to_nat cacheCount) with 6%nat. cbn [flush_loop]. fold i.
    destruct (Z.eqb_spec i (writeIndex lc)); [done|]. unfold flush_slot at 1. rewrite Hf, Hni.
    by rewrite Z.eqb_refl.
  - intros k Hk. destruct (get_loop_layers (set_read lc i) k (Z.to_nat cacheCount) (writeIndex lc)
      (depth lc - 1)) as (r & Hg & Hr'); cbn [readIndex set_read];
      [done|unfold cacheCount in *; dlia|unfold depth, cacheCount in *; dlia|unfold cacheCount; lia|].
    unfold MC_lookup, MC_Get. change (writeIndex (set_read lc i)) with (writeIndex lc).
    rewrite Hg. cbn [default]. rewrite Hr', Hd. change (Z.to_nat (2 - 1)) with 1%nat. cbn [seq fmap list_fmap foldr].
    replace ((writeIndex lc - Z.of_nat 0) mod cacheCount) with (writeIndex lc)
      by (unfold cacheCount in *; dlia).
    by rewrite lookup_overlay, slot_set_read, Hk.
Qed.
End cache_facts.

(** ** Concrete runs *)
Module CacheRuns.
Definition put (k v : Z) : gmap Z (entry Z) := {[k := Val v]}.

(** A ring after two commits with a rotation in between. *)
Definition ring1 : MemoryCache Z Z := default NewMemoryCache (BatchUpdate false NewMemoryCache (put 1 5)).
Definition ring2 : MemoryCache Z Z := default NewMemoryCache (BatchUpdate true ring1 (put 2 6)).

Lemma ring1_ok : ring_ok ring1.
Proof. eapply (BatchUpdate_ok false NewMemoryCache (put 1 5) _ ∅); [apply NewMemoryCache_ok|reflexivity]. Qed.

Lemma ring2_ok : ring_ok ring2.
Proof. eapply (BatchUpdate_ok true ring1 (put 2 6) _ ∅); [apply ring1_ok|reflexivity]. Qed.

Lemma Some_dumpable (lc : MemoryCache Z Z) : dumpable Some id lc.
Proof. intros i k v _ _. reflexivity. Qed.

Lemma BatchUpdate_refines_witness : MC_lookup ring2 ∅ 1 = Some 5.
Proof.
  assert (E : MC_lookup ring2 ∅ 1 = MC_lookup ring1 ∅ 1)
    by (apply (BatchUpdate_refines true ring1 (put 2 6) ring2 ∅ 1 ring1_ok); reflexivity).
  rewrite E. vm_compute. reflexivity.
Defined.

Lemma MC_flush_refines_witness :
  ∃ lc' st', MC_flush Some ring2 ∅ = Some (lc', st') ∧ MC_lookup lc' st' 1 = Some 5.
Proof.
  destruct (MC_flush_refines Some id (λ _, eq_refl) ring2 ∅ ring2_ok (Some_dumpable _))
    as (lc' & st' & Hf & _ & Hl & _).
  exists lc', st'. split; [exact Hf|]. specialize (Hl 1). rewrite !option_fmap_id in Hl.
  rewrite Hl. vm_compute. reflexivity.
Defined.

Lemma MC_rebuild_refines_witness :
  ∃ lc' st', MC_rebuild Some ring2 ∅ = Some (lc', st') ∧ st' !! 2 = Some 6.
Proof.
  destruct (MC_rebuild_refines Some id (λ _, eq_refl) ring2 ∅ ring2_ok (Some_dumpable _))
    as (lc' & st' & Hf & _ & Hl & _).
  exists lc', st'. split; [exact Hf|]. specialize (Hl 2). rewrite !option_fmap_id in Hl.
  rewrite Hl. vm_compute. reflexivity.
Defined.

(** A value that cannot be serialized in the oldest cache. *)
Lemma MC_flush_failure_drops_witness :
  MC_lookup ring2 ∅ 1 = Some 5 ∧
  ∃ lc', MC_flush (λ _, None) ring2 ∅ = Some (lc', ∅) ∧ MC_lookup lc' ∅ 1 = None.
Proof.
  split; [vm_compute; reflexivity|].
  destruct (MC_flush_failure_drops (λ _, None) ring2 ∅ ring2_ok) as (lc' & Hf & Hl);
    [reflexivity|vm_compute; reflexivity|].
  exists lc'. split; [exact Hf|]. apply Hl. vm_compute. reflexivity.
Defined.
End CacheRuns.
