(* ===== verification/CacheThreads.v ===== *)
(** * The write cache under concurrent goroutines: [ledger/cache.go]

    [MemoryCache.Get] takes no lock, [BatchUpdate] asks for the write cache, quotes it and
    puts its entries one by one, and the flusher copies, stores, purges and skips a cache
    while both go on.  Here each of these is a step of its own.  A lookup returns a value
    that the map of all puts had at some moment between its first and its last step,
    provided that no cache is rotated away while a writer is at work on it; without that,
    and the code does not wait for it, a finished write can be lost. *)

From S2P Require Import Prelude Cache.

(** ** The goroutines *)
Section threads.
Context {K V : Type} `{Countable K}.
Variable dump : V → option V.

(** A writer in [BatchUpdate]: it was given the cache [index], has not quoted it yet or is
    putting the entries that are left. *)
Inductive writer :=
| Held (index : Z) (c : gmap K (entry V))
| Putting (index : Z) (c : gmap K (entry V)).

Definition held_index (w : writer) : Z := match w with Held i _ | Putting i _ => i end.

(** The flusher in [flush]: it found the cache unquoted, has copied its entries, has
    written them to the store, or is done with it. *)
Inductive flushing :=
| Waiting
| Unquoted (index : Z)
| Copied (index : Z) (c : gmap K (entry V))
| Stored (index : Z)
| Finished (index : Z).

(** A reader in [Get] and, after a miss, in [store.Get]. *)
Inductive reader :=
| Ready
| ReadWrite (key : K) (index : Z)
| Probing (key : K) (index read : Z)
| Missed (key : K)
| Returned (key : K) (r : option V).

Record machine := mkMachine {
  m_ring : MemoryCache K V;
  m_quote : list Z;
  m_disk : gmap K V;
  m_writers : gmap nat writer;
  m_flusher : flushing;
  m_reader : reader;
}.
Implicit Types (m : machine).

Definition with_ring m lc := mkMachine lc (m_quote m) (m_disk m) (m_writers m) (m_flusher m) (m_reader m).
Definition with_writers m lc quote ws := mkMachine lc quote (m_disk m) ws (m_flusher m) (m_reader m).
Definition with_flusher m lc disk f := mkMachine lc (m_quote m) disk (m_writers m) f (m_reader m).
Definition with_reader m r := mkMachine (m_ring m) (m_quote m) (m_disk m) (m_writers m) (m_flusher m) r.

Definition NewMachine (store : gmap K V) : machine :=
  mkMachine NewMemoryCache (replicate (Z.to_nat cacheCount) 0) store ∅ Waiting Ready.

Definition quote m (i : Z) : Z := default 0 (m_quote m !! Z.to_nat i).
Definition set_quote m (i q : Z) : list Z := <[Z.to_nat i := q]> (m_quote m).

(** [true] asks for the condition under which lookups are right: [GetCache] rotates only
    while nobody is at work on the write cache, and no dump fails.  [false] is the code. *)
Variable strict : bool.

Definition may_rotate m (lc' : MemoryCache K V) : Prop :=
  strict = true → writeIndex lc' ≠ writeIndex (m_ring m) →
  ∀ n w, m_writers m !! n = Some w → held_index w ≠ writeIndex (m_ring m).

(** [MemoryCache.BatchUpdate] after its callback; the label is the entry put.  Go gives the
    entries of the temporary cache in any order.  [GetCache] holds the lock of the ring, and
    the ticker of [flushCache] calls it as well. *)
Inductive writer_step : machine → option (K * entry V) → machine → Prop :=
| step_GetCache m n b c lc' :
    m_writers m !! n = None → GetCache b (m_ring m) = Some lc' → may_rotate m lc' →
    writer_step m None (with_writers m lc' (m_quote m) (<[n := Held (writeIndex lc') c]> (m_writers m)))
| step_tick m b lc' :
    GetCache b (m_ring m) = Some lc' → may_rotate m lc' → writer_step m None (with_ring m lc')
| step_Quoted m n i c :
    m_writers m !! n = Some (Held i c) →
    writer_step m None (with_writers m (m_ring m) (set_quote m i (quote m i + 1)) (<[n := Putting i c]> (m_writers m)))
| step_Put m n i c k e :
    m_writers m !! n = Some (Putting i c) → c !! k = Some e →
    writer_step m (Some (k, e))
      (with_writers m (set_slot (m_ring m) i (<[k := e]> (slot (m_ring m) i))) (m_quote m)
         (<[n := Putting i (delete k c)]> (m_writers m)))
| step_Release m n i :
    m_writers m !! n = Some (Putting i ∅) →
    writer_step m None (with_writers m (m_ring m) (set_quote m i (quote m i - 1)) (delete n (m_writers m))).

(** One round of [MemoryCache.flush] with [Cache.flush]. *)
Inductive flusher_step : machine → machine → Prop :=
| step_unquoted m i :
    m_flusher m = Waiting → i = nextIndex (readIndex (m_ring m)) → i ≠ writeIndex (m_ring m) → quote m i = 0 →
    flusher_step m (with_flusher m (m_ring m) (m_disk m) (Unquoted i))
| step_nothing m i :
    m_flusher m = Unquoted i → slot (m_ring m) i = ∅ →
    flusher_step m (with_flusher m (m_ring m) (m_disk m) (Finished i))
| step_GetALL m i :
    m_flusher m = Unquoted i → slot (m_ring m) i ≠ ∅ →
    flusher_step m (with_flusher m (m_ring m) (m_disk m) (Copied i (slot (m_ring m) i)))
| step_PutBatch m i c disk' :
    m_flusher m = Copied i c → Cache_flush dump c (m_disk m) = Some disk' →
    flusher_step m (with_flusher m (m_ring m) disk' (Stored i))
| step_error m i c :
    m_flusher m = Copied i c → strict = false →
    flusher_step m (with_flusher m (m_ring m) (m_disk m) (Finished i))
| step_purge m i :
    m_flusher m = Stored i →
    flusher_step m (with_flusher m (set_slot (m_ring m) i ∅) (m_disk m) (Finished i))
| step_advance m i :
    m_flusher m = Finished i →
    flusher_step m (with_flusher m (set_read (m_ring m) i) (m_disk m) Waiting).

(** [MemoryCache.Get] and the lookup in the store after a miss. *)
Inductive reader_step : machine → machine → Prop :=
| step_writeIndex m k :
    m_reader m = Ready → reader_step m (with_reader m (ReadWrite k (writeIndex (m_ring m))))
| step_readIndex m k w :
    m_reader m = ReadWrite k w → reader_step m (with_reader m (Probing k w (readIndex (m_ring m))))
| step_hit m k i r v :
    m_reader m = Probing k i r → i ≠ r → Cache_Get (slot (m_ring m) i) k = Hit v →
    reader_step m (with_reader m (Returned k (Some v)))
| step_deleted m k i r :
    m_reader m = Probing k i r → i ≠ r → Cache_Get (slot (m_ring m) i) k = KeyDeleted →
    reader_step m (with_reader m (Returned k None))
| step_next m k i r :
    m_reader m = Probing k i r → i ≠ r → Cache_Get (slot (m_ring m) i) k = NotInCache →
    reader_step m (with_reader m (Probing k (prevIndex i) r))
| step_miss m k i :
    m_reader m = Probing k i i → reader_step m (with_reader m (Missed k))
| step_store m k :
    m_reader m = Missed k → reader_step m (with_reader m (Returned k (m_disk m !! k))).

(** Runs, with the entries put on the way. *)
Inductive path (m : machine) : list (K * entry V) → machine → Prop :=
| path_refl : path m [] m
| path_writer ps m1 l m2 : path m ps m1 → writer_step m1 l m2 → path m (ps ++ option_list l) m2
| path_flusher ps m1 m2 : path m ps m1 → flusher_step m1 m2 → path m ps m2
| path_reader ps m1 m2 : path m ps m1 → reader_step m1 m2 → path m ps m2.

(** The map of all puts: the last put of a key counts. *)
Definition applied (store : gmap K V) (ps : list (K * entry V)) : gmap K V :=
  foldl (λ st p, overlay {[p.1 := p.2]} st) store ps.
End threads.
Arguments writer K V {_ _}.
Arguments flushing K V {_ _}.
Arguments reader : clear implicits.
Arguments machine K V {_ _}.

Section threads_facts.
Context {K V : Type} `{Countable K}.
Variable dump : V → option V.
Variable norm : V → V.
Hypothesis norm_idemp : ∀ v, norm (norm v) = norm v.
Implicit Types (m : machine K V) (lc : MemoryCache K V) (st : gmap K V) (ps : list (K * entry V)).

(** ** What ring, store and goroutines keep *)
Definition entry_dumpable (p : K * entry V) : Prop :=
  match p.2 with Val v => dump v = Some (norm v) | deleteKeyTag => True end.

Definition flusher_ok m : Prop :=
  let next i := i = nextIndex (readIndex (m_ring m)) ∧ i ≠ writeIndex (m_ring m) in
  match m_flusher m with
  | Waiting => True
  | Unquoted i => next i
  | Copied i c => next i ∧ c = slot (m_ring m) i
  | Stored i => next i ∧ overlay (norm_entry norm <$> slot (m_ring m) i) (norm <$> m_disk m) = norm <$> m_disk m
  | Finished i => next i ∧ slot (m_ring m) i = ∅
  end.

Record machine_ok st ps m : Prop := {
  mo_ring : ring_ok (m_ring m);
  mo_dumpable : dumpable dump norm (m_ring m);
  mo_writers n w : m_writers m !! n = Some w → held_index w = writeIndex (m_ring m);
  mo_flusher : flusher_ok m;
  mo_view : nview norm (m_ring m) (m_disk m) = norm <$> applied st ps;
}.

Lemma insert_put_all (c : gmap K (entry V)) k e : <[k := e]> c = put_all {[k := e]} c.
Proof.
  apply map_eq. intros k'. rewrite lookup_put_all. destruct (decide (k = k')) as [->|].
  - by rewrite lookup_insert_eq, lookup_singleton_eq.
  - by rewrite lookup_insert_ne, lookup_singleton_ne.
Qed.

Lemma applied_snoc st ps p : applied st (ps ++ [p]) = overlay {[p.1 := p.2]} (applied st ps).
Proof. unfold applied. by rewrite foldl_app. Qed.

Lemma GetCache_cases b lc lc' : GetCache b lc = Some lc' →
  lc' = lc ∨ lc' = set_write lc (nextIndex (writeIndex lc)) ∧ nextIndex (writeIndex lc) ≠ readIndex lc.
Proof.
  unfold GetCache. destruct (needsFlush b lc); [|intros [= <-]; by left].
  destruct (Z.eqb_spec (nextIndex (writeIndex lc)) (readIndex lc)); [done|]. intros [= <-]. by right.
Qed.

(** Rotating keeps everything; nobody is left behind. *)
Lemma ok_rotate st ps m b lc' :
  machine_ok st ps m → GetCache b (m_ring m) = Some lc' → may_rotate true m lc' →
  machine_ok st ps (with_ring m lc').
Proof.
  intros [Hr Hd Hw Hf Hv] Hg Hmay. destruct (GetCache_ok b _ lc' (m_disk m) Hr Hg) as [Hr' Hv'].
  destruct (GetCache_cases b _ _ Hg) as [->|[-> Hne]]; [by destruct m|].
  pose proof Hr as (_ & Hri & Hwi & Hrw & _).
  assert (Hrot : nextIndex (writeIndex (m_ring m)) ≠ writeIndex (m_ring m)) by (rewrite nextIndex_mod by done; unfold cacheCount in *; dlia).
  split; cbn; try done.
  - intros n w Hn. destruct (Hmay eq_refl Hrot n w Hn). by eapply Hw.
  - assert (Hnext : ∀ i, i = nextIndex (readIndex (m_ring m)) → i ≠ writeIndex (m_ring m) → i ≠ nextIndex (writeIndex (m_ring m))).
    { intros i -> _. rewrite !nextIndex_mod by done. unfold cacheCount in *. dlia. }
    unfold flusher_ok in *. cbn. destruct (m_flusher m); [done|..]; intuition eauto.
  - unfold nview in *. by rewrite Hv'.
Qed.

Lemma ok_put st ps m k e ws :
  machine_ok st ps m → entry_dumpable (k, e) → (∀ n w, ws !! n = Some w → held_index w = writeIndex (m_ring m)) →
  let w := writeIndex (m_ring m) in
  machine_ok st (ps ++ [(k, e)])
    (with_writers m (set_slot (m_ring m) w (<[k := e]> (slot (m_ring m) w))) (m_quote m) ws).
Proof.
  intros [Hr Hd Hw Hf Hv] He Hws w. destruct (view_put (m_ring m) (m_disk m) {[k := e]} Hr) as [Hr' Hv'].
  pose proof Hr as (Hlen & Hri & Hwi & Hrw & _). rewrite insert_put_all. fold w in Hr', Hv'.
  assert (Hslot : ∀ j, 0 ≤ j → slot (set_slot (m_ring m) w (put_all {[k := e]} (slot (m_ring m) w))) j
    = if w =? j then put_all {[k := e]} (slot (m_ring m) w) else slot (m_ring m) j).
  { intros j Hj. apply slot_set_slot; [|done]. rewrite Hlen. unfold w, cacheCount in *. lia. }
  split; cbn; try done.
  - intros i k' v Hi. rewrite Hslot by lia. destruct (Z.eqb_spec w i) as [<-|]; [|by apply Hd].
    rewrite lookup_put_all, lookup_singleton. case_decide as Hk; [|by apply Hd]. intros [= ->]. exact He.
  - unfold flusher_ok in *. cbn. assert (Hother : ∀ i, i = nextIndex (readIndex (m_ring m)) → i ≠ w →
      slot (set_slot (m_ring m) w (put_all {[k := e]} (slot (m_ring m) w))) i = slot (m_ring m) i).
    { intros i Hi Hiw. rewrite Hslot; [by destruct (Z.eqb_spec w i)|]. rewrite Hi, nextIndex_mod by done. unfold cacheCount. dlia. }
    destruct (m_flusher m) as [|i|i c|i|i]; [done|done|..]; destruct Hf as [[Hi Hiw] Hf]; by rewrite (Hother i Hi Hiw).
  - unfold nview in *. rewrite Hv', applied_snoc, !norm_overlay. cbn. by rewrite Hv.
Qed.

Lemma ok_writers st ps m quote ws :
  machine_ok st ps m → (∀ n w, ws !! n = Some w → held_index w = writeIndex (m_ring m)) →
  machine_ok st ps (with_writers m (m_ring m) quote ws).
Proof. intros [] Hws. by split. Qed.

Lemma writer_step_ok st ps m l m' :
  machine_ok st ps m → writer_step true m l m' → Forall entry_dumpable (option_list l) →
  machine_ok st (ps ++ option_list l) m'.
Proof.
  intros Hok Hstep Hl.
  destruct Hstep as [m n b c lc' Hn Hg Hmay|m b lc' Hg Hmay|m n i c Hn|m n i c k e Hn Hk|m n i Hn]; cbn; rewrite ?app_nil_r.
  - destruct (ok_rotate st ps m b lc' Hok Hg Hmay) as [Hr Hd Hw Hf Hv]. split; try done. cbn in *.
    intros n' w [[_ <-]|[_ Hn']]%lookup_insert_Some; [done|by eapply Hw].
  - by eapply ok_rotate.
  - apply ok_writers; [done|]. intros n' w [[_ <-]|[_ Hn']]%lookup_insert_Some; [|by eapply (mo_writers _ _ _ Hok)].
    cbn. by apply (mo_writers _ _ _ Hok _ _ Hn).
  - pose proof (mo_writers _ _ _ Hok _ _ Hn) as Hi. cbn in Hi. subst i. cbn in Hl. rewrite list.Forall_singleton in Hl. apply (ok_put st ps m k e); [done|exact Hl|].
    intros n' w [[_ <-]|[_ Hn']]%lookup_insert_Some; [done|by eapply (mo_writers _ _ _ Hok)].
  - apply ok_writers; [done|]. intros n' w [_ Hn']%lookup_delete_Some. by eapply (mo_writers _ _ _ Hok).
Qed.

Lemma flusher_step_ok st ps m m' :
  machine_ok st ps m → flusher_step dump true m m' → machine_ok st ps m'.
Proof.
  intros [Hr Hd Hw Hf Hv] Hstep. unfold flusher_ok in Hf.
  destruct Hstep as [m i E Hi Hiw _|m i E Hs|m i E _|m i c disk' E Hc|m i c E ?|m i E|m i E]; try rewrite E in Hf;
    try done; try (split; unfold flusher_ok; cbn; by repeat split).
  - destruct Hf as [[Hi Hiw] ->].
    assert (Hrange : 0 ≤ i < cacheCount).
    { destruct Hr as (_ & Hri & _). rewrite Hi, nextIndex_mod by done. unfold cacheCount. dlia. }
    rewrite (Cache_flush_overlay dump norm) in Hc by (intros k v; by apply Hd). injection Hc as <-.
    split; unfold flusher_ok; cbn; try done.
    + split; [done|]. by rewrite norm_norm_overlay, norm_overlay, overlay_idem.
    + rewrite <- Hv. apply view_last; [done|]. rewrite <- Hi.
      by rewrite norm_overlay, norm_norm_overlay, norm_overlay, overlay_idem.
  - destruct Hf as [[Hi Hiw] Hs]. destruct (view_purge dump norm _ (m_disk m) i Hr Hi Hiw Hs) as (Hr' & Hv' & Hz & Hd').
    split; unfold flusher_ok; cbn; [done|by apply Hd'|done|done|by rewrite Hv'].
  - destruct Hf as [[Hi Hiw] Hs]. destruct (view_advance _ (m_disk m) i Hr Hi Hiw Hs) as (Hr' & Hv').
    split; unfold flusher_ok; cbn; try done. unfold nview in *. by rewrite Hv'.
Qed.

Lemma ok_reader st ps m r : machine_ok st ps m → machine_ok st ps (with_reader m r).
Proof. intros []. by split. Qed.

Lemma NewMachine_ok st : machine_ok st [] (NewMachine st).
Proof.
  assert (He : ∀ i, 0 ≤ i < cacheCount → slot (NewMemoryCache (K := K) (V := V)) i = ∅).
  { intros i Hi. unfold slot, NewMemoryCache; cbn [caches]. by rewrite lookup_replicate_2 by (unfold cacheCount in *; lia). }
  split; cbn [m_ring m_disk m_writers NewMachine]; [apply NewMemoryCache_ok| | |done|].
  - intros i k v Hi. by rewrite He, lookup_empty.
  - intros n w. by rewrite lookup_empty.
  - unfold nview. f_equal. by apply view_all_empty.
Qed.

Lemma path_ok st m0 ps0 ps m :
  machine_ok st ps0 m0 → path dump true m0 ps m → Forall entry_dumpable ps → machine_ok st (ps0 ++ ps) m.
Proof.
  intros H0. induction 1 as [|ps m1 l m2 _ IH Hs|ps m1 m2 _ IH Hs|ps m1 m2 _ IH Hs]; intros Hps.
  - by rewrite app_nil_r.
  - apply Forall_app in Hps as [Hps Hl]. rewrite app_assoc. by eapply writer_step_ok; [apply IH|..].
  - by eapply flusher_step_ok; [apply IH|].
  - destruct Hs; apply ok_reader, IH, Hps.
Qed.

(** ** A lookup in progress *)
Definition value_of (e : entry V) : option V := match e with Val v => Some v | deleteKeyTag => None end.

(** How far below the cache [w] the cache [j] is, in the order in which [Get] probes. *)
Definition offset (w j : Z) : Z := (w - j) mod cacheCount.

(** What a writer changes: it rotates to a free cache, or puts an entry into the write
    cache. *)
Lemma writer_step_effect st ps m l m' :
  machine_ok st ps m → writer_step true m l m' →
  m_disk m' = m_disk m ∧ m_flusher m' = m_flusher m ∧ m_reader m' = m_reader m ∧
  readIndex (m_ring m') = readIndex (m_ring m) ∧
  (writeIndex (m_ring m') = writeIndex (m_ring m) ∨
   writeIndex (m_ring m') = nextIndex (writeIndex (m_ring m)) ∧ writeIndex (m_ring m') ≠ readIndex (m_ring m)) ∧
  ∀ j k, 0 ≤ j < cacheCount →
    slot (m_ring m') j !! k = slot (m_ring m) j !! k ∨
    ∃ e, l = Some (k, e) ∧ j = writeIndex (m_ring m) ∧ slot (m_ring m') j !! k = Some e.
Proof.
  intros Hok Hstep.
  destruct Hstep as [m n b c lc' Hn Hg Hmay|m b lc' Hg Hmay|m n i c Hn|m n i c k e Hn Hk|m n i Hn]; cbn.
  - destruct (GetCache_cases b _ _ Hg) as [->|[-> Hne]]; split_and!; auto.
  - destruct (GetCache_cases b _ _ Hg) as [->|[-> Hne]]; split_and!; auto.
  - split_and!; auto.
  - pose proof (mo_writers _ _ _ Hok _ _ Hn) as Hi. cbn in Hi. subst i. split_and!; auto.
    pose proof (mo_ring _ _ _ Hok) as (Hlen & _ & Hwi & _). intros j k' Hj.
    rewrite slot_set_slot by (rewrite ?Hlen; unfold cacheCount in *; lia).
    destruct (Z.eqb_spec (writeIndex (m_ring m)) j) as [<-|]; [|by left].
    destruct (decide (k = k')) as [<-|]; [right; exists e; by rewrite lookup_insert_eq|left; by rewrite lookup_insert_ne].
  - split_and!; auto.
Qed.

Section lookup.
Variables (S : option V → Prop) (k : K).
Hypothesis S_norm : ∀ x y, norm <$> x = norm <$> y → S x → S y.

(** Whatever the ring and the store hold for the key will do. *)
Definition everywhere m : Prop :=
  S (m_disk m !! k) ∧ ∀ j e, 0 ≤ j < cacheCount → slot (m_ring m) j !! k = Some e → S (value_of e).

(** The cache at depth [d] holds the key, is not flushed yet, and the lookup has yet to
    pass it; what is above it, and what came after it, will do. *)
Record shielded m (w p bound d : Z) : Prop := {
  sh_ahead : p ≤ d < bound;
  sh_live : 0 ≤ d < offset w (readIndex (m_ring m));
  sh_found : is_Some (slot (m_ring m) ((w - d) mod cacheCount) !! k);
  sh_good j e : 0 ≤ j < cacheCount → offset w j ≤ d ∨ offset w (readIndex (m_ring m)) ≤ offset w j →
    slot (m_ring m) j !! k = Some e → S (value_of e);
  sh_write : offset w (writeIndex (m_ring m)) = 0 ∨ offset w (readIndex (m_ring m)) < offset w (writeIndex (m_ring m));
  sh_stored i : m_flusher m = Stored i → offset w i ≠ d;
}.

Definition safe m (w p bound : Z) : Prop := everywhere m ∨ ∃ d, shielded m w p bound d.

Lemma offset_range w j : 0 ≤ offset w j < cacheCount.
Proof. unfold offset, cacheCount. dlia. Qed.

Lemma writer_safe st ps m l m' w p bound :
  machine_ok st ps m → writer_step true m l m' → 0 ≤ w < cacheCount → (∀ e, l = Some (k, e) → S (value_of e)) →
  safe m w p bound → safe m' w p bound.
Proof.
  intros Hok Hstep Hw Hl Hsafe. pose proof (mo_ring _ _ _ Hok) as (_ & Hri & Hwi & Hrw & _).
  destruct (writer_step_effect _ _ _ _ _ Hok Hstep) as (Hdisk & Hf & _ & Hr & Hwr & Hslot).
  assert (Hgood : ∀ j e, 0 ≤ j < cacheCount → slot (m_ring m') j !! k = Some e →
    slot (m_ring m) j !! k = Some e ∨ S (value_of e)).
  { intros j e Hj He. destruct (Hslot j k Hj) as [E|(e' & -> & _ & E)]; [left; congruence|right].
    rewrite He in E. injection E as <-. by apply Hl. }
  destruct Hsafe as [[Hd He]|[d [Ha Hlive [e Hfound] Hg Hwrite Hst]]]; [left|right; exists d].
  - split; [by rewrite Hdisk|]. intros j e Hj Hje. destruct (Hgood j e Hj Hje); [by eapply He|done].
  - split; rewrite ?Hr, ?Hf; try done.
    + destruct (Hslot ((w - d) mod cacheCount) k) as [->|(e' & _ & _ & ->)]; [unfold cacheCount; dlia|by exists e|by exists e'].
    + intros j e' Hj Hoff Hje. destruct (Hgood j e' Hj Hje); [by eapply Hg|done].
    + destruct Hwr as [->|[Hw' Hne]]; [done|]. rewrite Hw' in *. rewrite nextIndex_mod in * by done.
      unfold offset, cacheCount in *. dlia.
Qed.

(** What a dump leaves in the store for the key comes from the cache or was there. *)
Lemma dumped_value c disk :
  (∀ e, c !! k = Some e → S (value_of e)) → (c !! k = None → S (disk !! k)) →
  S (overlay (norm_entry norm <$> c) disk !! k).
Proof.
  intros Hc Hd. rewrite lookup_overlay, lookup_fmap. destruct (c !! k) as [[v|]|] eqn:E; cbn; [..|by apply Hd].
  - apply (S_norm (Some v)); [cbn; by rewrite norm_idemp|by apply (Hc (Val v))].
  - by apply (Hc deleteKeyTag).
Qed.

Lemma flusher_range m i : ring_ok (m_ring m) → i = nextIndex (readIndex (m_ring m)) → 0 ≤ i < cacheCount.
Proof. intros (_ & Hri & _) ->. rewrite nextIndex_mod by done. unfold cacheCount. dlia. Qed.

(** The cache the flusher is at is the last one a lookup started in time would probe. *)
Lemma flusher_offset m i w :
  ring_ok (m_ring m) → i = nextIndex (readIndex (m_ring m)) → 0 ≤ w < cacheCount → 0 < offset w (readIndex (m_ring m)) →
  offset w i = offset w (readIndex (m_ring m)) - 1.
Proof. intros (_ & Hri & _) -> Hw. rewrite nextIndex_mod by done. unfold offset, cacheCount in *. dlia. Qed.

Lemma offset_inv w d : 0 ≤ w < cacheCount → 0 ≤ d < cacheCount → offset w ((w - d) mod cacheCount) = d.
Proof. unfold offset, cacheCount. dlia. Qed.

Lemma offset_index w i : 0 ≤ w < cacheCount → 0 ≤ i < cacheCount → (w - offset w i) mod cacheCount = i.
Proof. unfold offset, cacheCount. dlia. Qed.

Lemma dump_safe st ps m i disk' w p bound :
  machine_ok st ps m → m_flusher m = Copied i (slot (m_ring m) i) → i = nextIndex (readIndex (m_ring m)) →
  disk' = overlay (norm_entry norm <$> slot (m_ring m) i) (m_disk m) → 0 ≤ w < cacheCount →
  safe m w p bound → safe (with_flusher m (m_ring m) disk' (Stored i)) w p bound.
Proof.
  intros Hok Hf Hi -> Hw Hsafe. pose proof (mo_ring _ _ _ Hok) as Hr. pose proof (flusher_range m i Hr Hi) as Hrange.
  destruct Hsafe as [[Hd He]|[d [Ha Hlive Hfound Hg Hwrite Hst]]].
  { left. split; [|done]. apply dumped_value; [|done]. intros e. by apply He. }
  pose proof (flusher_offset m i w Hr Hi Hw ltac:(lia)) as Hoff.
  destruct (decide (offset w i = d)) as [Heq|Hne].
  - left. split; cbn.
    + apply dumped_value; [intros e; apply Hg; [done|lia]|]. rewrite <- Heq, offset_index in Hfound by done.
      intros E. rewrite E in Hfound. by destruct Hfound.
    + intros j e Hj. apply Hg; [done|lia].
  - right. exists d. split; cbn; try done. intros i' [= <-]. done.
Qed.

Lemma purge_safe m i w p bound :
  ring_ok (m_ring m) → i = nextIndex (readIndex (m_ring m)) → m_flusher m = Stored i → 0 ≤ w < cacheCount →
  safe m w p bound → safe (with_flusher m (set_slot (m_ring m) i ∅) (m_disk m) (Finished i)) w p bound.
Proof.
  intros Hr Hi E Hw Hsafe. pose proof (flusher_range m i Hr Hi) as Hrange. pose proof Hr as (Hlen & _).
  assert (Hslot : ∀ j, 0 ≤ j → slot (set_slot (m_ring m) i ∅) j = if i =? j then ∅ else slot (m_ring m) j).
  { intros j Hj. apply slot_set_slot; [rewrite Hlen; unfold cacheCount in *; lia|done]. }
  assert (Hsub : ∀ j e, 0 ≤ j < cacheCount → slot (set_slot (m_ring m) i ∅) j !! k = Some e → slot (m_ring m) j !! k = Some e).
  { intros j e Hj. rewrite Hslot by lia. destruct (i =? j); [by rewrite lookup_empty|done]. }
  destruct Hsafe as [[Hd He]|[d [Ha Hlive Hfound Hg Hwrite Hst]]]; [left|right; exists d].
  - split; [done|]. intros j e Hj Hje. by apply (He j e Hj), Hsub.
  - pose proof (offset_range w (readIndex (m_ring m))) as Hro. split; cbn; try done.
    + rewrite Hslot by (unfold cacheCount; dlia). destruct (Z.eqb_spec i ((w - d) mod cacheCount)) as [Hid|]; [|done].
      destruct (Hst i E). rewrite Hid. apply offset_inv; [done|lia].
    + intros j e Hj Hoff Hje. by apply (Hg j e Hj Hoff), Hsub.
Qed.

Lemma flusher_safe st ps m m' w p bound :
  machine_ok st ps m → flusher_step dump true m m' → 0 ≤ w < cacheCount → safe m w p bound → safe m' w p bound.
Proof.
  intros Hok Hstep Hw Hsafe. pose proof (mo_flusher _ _ _ Hok) as Hf. pose proof (mo_ring _ _ _ Hok) as Hr.
  unfold flusher_ok in Hf.
  assert (Hsame : ∀ f, (∀ i, f ≠ Stored i) → safe (with_flusher m (m_ring m) (m_disk m) f) w p bound).
  { intros f Hnot. destruct Hsafe as [?|[d []]]; [by left|right; exists d]. split; cbn; try done. intros i ->. by destruct (Hnot i). }
  destruct Hstep as [m i E Hi Hiw _|m i E Hs|m i E _|m i c disk' E Hc|m i c E ?|m i E|m i E]; try rewrite E in Hf;
    try (apply Hsame; done).
  - destruct Hf as [[Hi Hiw] ->].
    rewrite (Cache_flush_overlay dump norm) in Hc by (intros k' v; by apply (mo_dumpable _ _ _ Hok), (flusher_range m i)).
    injection Hc as <-. by eapply dump_safe.
  - destruct Hf as [[Hi Hiw] _]. by eapply purge_safe.
  - destruct Hf as [[Hi Hiw] Hs]. pose proof (flusher_range m i Hr Hi) as Hrange.
    destruct Hsafe as [?|[d [Ha Hlive Hfound Hg Hwrite Hst]]]; [by left|right; exists d].
    pose proof (flusher_offset m i w Hr Hi Hw ltac:(lia)) as Hoff.
    assert (offset w i ≠ d).
    { intros Heq. rewrite <- Heq, offset_index, Hs, lookup_empty in Hfound by done. by destruct Hfound. }
    split; cbn; try done; try lia.
    intros j e Hj Hjo Hje. destruct (decide (offset w j = offset w i)) as [Heq|]; [|apply (Hg j e Hj); [lia|done]].
    assert (j = i) as -> by (rewrite <- (offset_index w j), Heq, offset_index by done; done).
    change (slot (m_ring m) i !! k = Some e) in Hje. by rewrite Hs, lookup_empty in Hje.
Qed.

(** The first cache that has the key decides what readers see. *)
Lemma first_hit st (cs : list (gmap K (entry V))) :
  (∀ c, c ∈ cs → c !! k = None) ∧ foldr overlay st cs !! k = st !! k ∨
  ∃ d c e, cs !! d = Some c ∧ c !! k = Some e ∧ (∀ d' c', (d' < d)%nat → cs !! d' = Some c' → c' !! k = None) ∧
    foldr overlay st cs !! k = value_of e.
Proof.
  induction cs as [|c cs IH]; [left; split; [by intros c ?%elem_of_nil|done]|].
  cbn [foldr]. rewrite lookup_overlay. destruct (c !! k) as [e|] eqn:E.
  { right. exists 0%nat, c, e. split_and!; [done|done|lia|by destruct e]. }
  destruct IH as [[Hn IH]|(d & c' & e & Hd & He & Hlt & IH)].
  - left. split; [|done]. intros c' [->|?]%elem_of_cons; auto.
  - right. exists (1 + d)%nat, c', e. split_and!; try done. intros [|d'] c'' Hd'; cbn; [by intros [= <-]|apply Hlt; lia].
Qed.

Lemma layers_lookup lc d : 0 ≤ d < depth lc →
  layers lc !! Z.to_nat d = Some (slot lc ((writeIndex lc - d) mod cacheCount)).
Proof.
  intros Hd. unfold layers. rewrite list_lookup_fmap, lookup_seq_lt by lia. cbn. by rewrite Z2Nat.id by lia.
Qed.

(** Either no cache has the key, or the first one that has it, at depth [d], decides and
    the other ones are between it and the read index. *)
Lemma seen_first lc st : ring_ok lc →
  (∀ j e, 0 ≤ j < cacheCount → slot lc j !! k ≠ Some e) ∧ view lc st !! k = st !! k ∨
  ∃ d e, 0 ≤ d < depth lc ∧ slot lc ((writeIndex lc - d) mod cacheCount) !! k = Some e ∧ view lc st !! k = value_of e ∧
    ∀ j e', 0 ≤ j < cacheCount → slot lc j !! k = Some e' →
      offset (writeIndex lc) j = d ∧ e' = e ∨ d < offset (writeIndex lc) j < depth lc.
Proof.
  intros (_ & Hri & Hwi & _ & Hempty). set (w := writeIndex lc) in *.
  assert (Hat : ∀ j e, 0 ≤ j < cacheCount → slot lc j !! k = Some e →
    offset w j < depth lc ∧ layers lc !! Z.to_nat (offset w j) = Some (slot lc j)).
  { intros j e Hj Hje. destruct (decide (offset w j < depth lc)) as [Hlt|Hge].
    - split; [done|]. pose proof (offset_range w j). rewrite layers_lookup by lia. by fold w; rewrite offset_index.
    - rewrite (Hempty j Hj) in Hje by (unfold offset in Hge; lia). by rewrite lookup_empty in Hje. }
  unfold view. destruct (first_hit st (layers lc)) as [[Hn Hd]|(d & c & e & Hd & He & Hlt & Hval)]; [left|right].
  - split; [|done]. intros j e Hj Hje. destruct (Hat j e Hj Hje) as [_ Hl%list_elem_of_lookup_2]. apply Hn in Hl. congruence.
  - pose proof (lookup_lt_Some _ _ _ Hd) as Hlen. unfold layers in Hlen. rewrite length_fmap, length_seq in Hlen.
    pose proof (layers_lookup lc (Z.of_nat d) ltac:(lia)) as Hl. rewrite Nat2Z.id, Hd in Hl. injection Hl as ->.
    exists (Z.of_nat d), e. split_and!; [lia|lia|done|done|]. intros j e' Hj Hje. destruct (Hat j e' Hj Hje) as [Hoff Hl].
    pose proof (offset_range w j). destruct (Z.lt_trichotomy (offset w j) (Z.of_nat d)) as [Hlo|[Heq|]]; [|left|right; lia].
    + apply Hlt in Hl; [congruence|lia].
    + split; [done|]. fold w in He. rewrite <- Heq, offset_index in He by done. congruence.
Qed.

(** A lookup that starts now is safe: what readers see now will do. *)
Lemma start_safe st ps m :
  machine_ok st ps m → S (applied st ps !! k) → safe m (writeIndex (m_ring m)) 0 cacheCount.
Proof.
  intros Hok HS. pose proof (mo_ring _ _ _ Hok) as Hr. pose proof Hr as (_ & Hri & Hwi & Hrw & Hempty).
  assert (Hview : S (view (m_ring m) (m_disk m) !! k)).
  { eapply S_norm; [|exact HS]. pose proof (mo_view _ _ _ Hok) as Hv. unfold nview in Hv. by rewrite <- !lookup_fmap, Hv. }
  destruct (seen_first (m_ring m) (m_disk m) Hr) as [[Hn Hd]|(d & e & Hd & He & Hval & Hothers)].
  { left. rewrite Hd in Hview. split; [done|]. intros j e Hj Hje. by destruct (Hn j e Hj). }
  rewrite Hval in Hview. set (w := writeIndex (m_ring m)) in *. change (depth (m_ring m)) with (offset w (readIndex (m_ring m))) in *.
  pose proof (offset_range w (readIndex (m_ring m))) as Hro.
  assert (Hplain : (∀ i, m_flusher m = Stored i → offset w i ≠ d) → safe m w 0 cacheCount).
  { intros Hst. right. exists d. split; try done; fold w.
    - lia.
    - intros j e' Hj Hoff Hje. destruct (Hothers j e' Hj Hje) as [[_ ->]|]; [done|lia].
    - left. unfold offset, cacheCount in *. dlia. }
  pose proof (mo_flusher _ _ _ Hok) as Hf. unfold flusher_ok in Hf.
  destruct (m_flusher m) as [|i|i c|i|i] eqn:E; try (by apply Hplain).
  destruct (decide (offset w i = d)) as [Heq|Hne]; [|apply Hplain; by intros ? [= <-]].
  destruct Hf as [[Hi Hiw] Hs]. pose proof (flusher_range m i Hr Hi) as Hrange.
  pose proof (flusher_offset m i w Hr Hi Hwi ltac:(lia)) as Hoff. left. split.
  - rewrite <- Heq, offset_index in He by done. apply (S_norm (value_of e)); [|done].
    apply (f_equal (.!! k)) in Hs. rewrite lookup_overlay, !lookup_fmap, He in Hs. rewrite <- Hs.
    by destruct e.
  - intros j e' Hj Hje. destruct (Hothers j e' Hj Hje) as [[_ ->]|]; [done|lia].
Qed.
End lookup.

Lemma safe_mono (S S' : option V → Prop) k m w p bound :
  (∀ x, S x → S' x) → safe S k m w p bound → safe S' k m w p bound.
Proof.
  intros HS [[Hd He]|[d []]]; [left|right; exists d; split; try done; by eauto].
  split; [by apply HS|]. intros j e Hj Hje. by eapply HS, He.
Qed.

(** ** A lookup under way from the moment before it started, after the puts [ps0], to now,
    after the further puts [ps] *)
Section under_way.
Variables (st : gmap K V) (ps0 : list (K * entry V)).

(** A value the key had at one of these moments. *)
Definition seen ps k (x : option V) : Prop :=
  ∃ ps1 ps2, ps = ps1 ++ ps2 ∧ norm <$> x = norm <$> applied st (ps0 ++ ps1) !! k.

Definition looking ps m : Prop :=
  match m_reader m with
  | Ready => True
  | ReadWrite k w => 0 ≤ w < cacheCount ∧ safe (seen ps k) k m w 0 cacheCount
  | Probing k i r => ∃ w p, 0 ≤ w < cacheCount ∧ 0 ≤ r < cacheCount ∧ 0 ≤ p ≤ offset w r ∧
      i = (w - p) mod cacheCount ∧ safe (seen ps k) k m w p (offset w r)
  | Missed k => safe (seen ps k) k m 0 0 0
  | Returned k o => seen ps k o
  end.

Lemma seen_norm ps k x y : norm <$> x = norm <$> y → seen ps k x → seen ps k y.
Proof. intros Hxy (ps1 & ps2 & -> & Hx). exists ps1, ps2. by rewrite <- Hxy. Qed.

Lemma seen_app ps l k x : seen ps k x → seen (ps ++ l) k x.
Proof. intros (ps1 & ps2 & -> & Hx). exists ps1, (ps2 ++ l). by rewrite app_assoc. Qed.

Lemma seen_now ps k : seen ps k (applied st (ps0 ++ ps) !! k).
Proof. exists ps, []. by rewrite app_nil_r. Qed.

Lemma seen_put ps k e : seen (ps ++ [(k, e)]) k (value_of e).
Proof.
  eapply seen_norm; [|apply seen_now]. rewrite app_assoc, applied_snoc, lookup_overlay. cbn [fst snd]. rewrite lookup_singleton_eq. by destruct e.
Qed.

Lemma everywhere_safe (S : option V → Prop) k m w p : safe S k m w p p ↔ everywhere S k m.
Proof. split; [intros [?|[d []]]; [done|lia]|by left]. Qed.

(** The other goroutines do not disturb it. *)
Lemma looking_env ps l m m' :
  m_reader m' = m_reader m → looking ps m →
  (∀ k w p bound, 0 ≤ w < cacheCount → safe (seen (ps ++ l) k) k m w p bound → safe (seen (ps ++ l) k) k m' w p bound) →
  looking (ps ++ l) m'.
Proof.
  intros Hr Hl Hsafe. unfold looking in *. rewrite Hr.
  assert (Hkeep : ∀ k w p bound, 0 ≤ w < cacheCount → safe (seen ps k) k m w p bound → safe (seen (ps ++ l) k) k m' w p bound).
  { intros k w p bound Hw Hs. apply Hsafe; [done|]. eapply safe_mono; [|exact Hs]. intros x. apply seen_app. }
  destruct (m_reader m) as [|k w|k i r|k|k o]; [done|..].
  - destruct Hl. eauto.
  - destruct Hl as (w & p & Hw & Hr' & Hp & Hi & Hs). exists w, p. eauto 10.
  - apply Hkeep; [unfold cacheCount; lia|done].
  - by apply seen_app.
Qed.

(** What is found on the way was seen. *)
Lemma probed_seen ps m k w p i r e :
  0 ≤ w < cacheCount → 0 ≤ r < cacheCount → 0 ≤ p ≤ offset w r → i = (w - p) mod cacheCount →
  safe (seen ps k) k m w p (offset w r) → slot (m_ring m) i !! k = Some e → seen ps k (value_of e).
Proof.
  intros Hw Hr Hp -> Hs He. pose proof (offset_range w r) as Hro.
  destruct Hs as [[_ Hs]|[d []]]; [eapply Hs, He; unfold cacheCount; dlia|].
  eapply sh_good0, He; [unfold cacheCount; dlia|]. left. rewrite offset_inv by lia. lia.
Qed.

(** Its own steps. *)
Lemma looking_reader ps m m' :
  machine_ok st (ps0 ++ ps) m → reader_step m m' → looking ps m → looking ps m'.
Proof.
  intros Hok Hstep Hl. pose proof (mo_ring _ _ _ Hok) as (_ & Hri & Hwi & _). unfold looking in Hl.
  assert (Hsame : ∀ S k w p b r, safe S k m w p b → safe S k (with_reader m r) w p b).
  { intros S k w p b r [?|[d []]]; [by left|right; exists d; by split]. }
  destruct Hstep as [m k E|m k w E|m k i r v E Hir Hg|m k i r E Hir Hg|m k i r E Hir Hg|m k i E|m k E];
    rewrite E in Hl; unfold looking; cbn [m_reader with_reader].
  - split; [done|]. apply Hsame. eapply start_safe; [apply seen_norm|exact Hok|apply seen_now].
  - destruct Hl as [Hw Hs]. exists w, 0. split_and!; try (apply offset_range || lia); [unfold cacheCount in *; dlia|].
    apply Hsame. destruct Hs as [?|[d []]]; [by left|right; exists d; split; try done; lia].
  - unfold Cache_Get in Hg. destruct (slot (m_ring m) i !! k) as [[v'|]|] eqn:Hk; [injection Hg as ->|done..].
    destruct Hl as (w & p & Hw & Hr & Hp & Hi & Hs). by apply (probed_seen ps m k w p i r _ Hw Hr Hp Hi Hs Hk).
  - unfold Cache_Get in Hg. destruct (slot (m_ring m) i !! k) as [[v'|]|] eqn:Hk; [done| |done].
    destruct Hl as (w & p & Hw & Hr & Hp & Hi & Hs). by apply (probed_seen ps m k w p i r _ Hw Hr Hp Hi Hs Hk).
  - unfold Cache_Get in Hg. destruct (slot (m_ring m) i !! k) as [[v'|]|] eqn:Hk; [done..|].
    destruct Hl as (w & p & Hw & Hr & Hp & Hi & Hs). exists w, (p + 1).
    assert (p ≠ offset w r) by (intros ->; rewrite offset_index in Hi; done).
    split_and!; try done; try lia; [pose proof (offset_range w r); unfold prevIndex, cacheCount in *; destruct (Z.ltb_spec (Z.rem (i - 1) 6) 0); dlia|].
    apply Hsame. destruct Hs as [?|[d []]]; [by left|right; exists d; split; try done].
    destruct (decide (d = p)) as [->|]; [|lia]. rewrite <- Hi, Hk in sh_found0. by destruct sh_found0.
  - destruct Hl as (w & p & Hw & Hr & Hp & Hi & Hs). apply everywhere_safe.
    assert (p = offset w i) as ->. { pose proof (offset_range w i). rewrite Hi. symmetry. apply offset_inv; [done|lia]. }
    by apply everywhere_safe in Hs.
  - by apply everywhere_safe in Hl as [Hd _].
Qed.

Lemma path_looking m0 ps m :
  machine_ok st ps0 m0 → m_reader m0 = Ready → path dump true m0 ps m → Forall entry_dumpable ps → looking ps m.
Proof.
  intros H0 Hr Hp. induction Hp as [|ps m1 l m2 Hp IH Hs|ps m1 m2 Hp IH Hs|ps m1 m2 Hp IH Hs]; intros Hps.
  - unfold looking. by rewrite Hr.
  - apply Forall_app in Hps as [Hps Hl]. pose proof (path_ok st m0 ps0 ps m1 H0 Hp Hps) as Hok.
    destruct (writer_step_effect _ _ _ _ _ Hok Hs) as (_ & _ & Hm & _).
    eapply looking_env; [exact Hm|by apply IH|]. intros k w p bound Hw. eapply writer_safe; [done|done|done|].
    intros e ->. apply seen_put.
  - pose proof (path_ok st m0 ps0 ps m1 H0 Hp Hps) as Hok. rewrite <- (app_nil_r ps).
    apply (looking_env ps [] m1 m2); [by destruct Hs|by apply IH|]. intros k w p bound Hw.
    eapply flusher_safe; [apply seen_norm|done|done|done].
  - pose proof (path_ok st m0 ps0 ps m1 H0 Hp Hps) as Hok. eapply looking_reader; [done|done|by apply IH].
Qed.
End under_way.

(** C17: lookups among goroutines.  Start from an empty ring over any store and let any number of
    writers, the flusher and a reader take their steps in any order: every put of an entry,
    every probe of a cache, the copy, the dump and the purge of a cache are separate steps.
    While no cache is rotated away from a writer at work and every value put can be dumped,
    a lookup, from its read of the write index through the ring to the store, returns a value
    the key had, counting all puts so far, at some moment while it ran. *)
Theorem lookup_among_goroutines st ps0 m0 ps m k o :
  path dump true (NewMachine st) ps0 m0 → m_reader m0 = Ready →
  path dump true m0 ps m → m_reader m = Returned k o → Forall entry_dumpable (ps0 ++ ps) →
  ∃ ps1 ps2, ps = ps1 ++ ps2 ∧ norm <$> o = norm <$> applied st (ps0 ++ ps1) !! k.
Proof.
  intros H0 Hr Hp Ho [Hd0 Hd]%Forall_app.
  pose proof (path_ok st _ [] ps0 m0 (NewMachine_ok st) H0 Hd0) as Hok.
  pose proof (path_looking st ps0 m0 ps m Hok Hr Hp Hd) as Hl. unfold looking in Hl. by rewrite Ho in Hl.
Qed.
End threads_facts.

(** ** Runs of a small machine *)
Lemma no_writers `{Countable K} {V} s (m : machine K V) lc' : m_writers m = ∅ → may_rotate s m lc'.
Proof. intros E _ _ n w. by rewrite E, lookup_empty. Qed.

(** One more step of the run [P]; the conditions of the step are computed. *)
Ltac computed := first [apply no_writers; vm_compute; reflexivity | vm_compute; reflexivity | vm_compute; congruence].
Ltac normalise P :=
  match type of P with path _ _ _ _ ?m =>
    let m' := eval vm_compute in m in let E := fresh in
    assert (E : m = m') by (vm_compute; reflexivity); rewrite E in P; clear E
  end.
Tactic Notation "write" hyp(P) uconstr(step) :=
  eapply path_writer in P; [|eapply step; computed]; cbn [app option_list] in P; normalise P.
Tactic Notation "flush" hyp(P) uconstr(step) := eapply path_flusher in P; [|eapply step; computed]; normalise P.
Tactic Notation "look" hyp(P) uconstr(step) := eapply path_reader in P; [|eapply step; computed]; normalise P.

(** The condition on rotation is needed.  A writer that is given a cache and is overtaken by
    the rotation and by the flusher before it quotes that cache puts its entry behind the
    read index: its batch is finished, nobody is at work, and the lookup misses it. *)
Example put_can_be_lost :
  ∃ m, path Some false (NewMachine (K := nat) (V := nat) ∅) [(1%nat, Val 10%nat); (2%nat, Val 20%nat)] m ∧
    m_writers m = ∅ ∧ m_flusher m = Waiting ∧ m_reader m = Returned 2%nat None.
Proof.
  pose proof (path_refl Some false (NewMachine (K := nat) (V := nat) ∅)) as P.
  write P (step_GetCache false _ 2%nat false {[2%nat := Val 20%nat]}).
  write P (step_GetCache false _ 1%nat false {[1%nat := Val 10%nat]}).
  write P (step_Quoted false _ 1%nat).
  write P (step_Put false _ 1%nat _ _ 1%nat (Val 10%nat)).
  write P (step_Release false _ 1%nat).
  write P (step_tick false _ true).
  flush P (step_unquoted Some false).
  flush P (step_GetALL Some false).
  flush P (step_PutBatch Some false).
  flush P (step_purge Some false).
  flush P (step_advance Some false).
  write P (step_Quoted false _ 2%nat).
  write P (step_Put false _ 2%nat _ _ 2%nat (Val 20%nat)).
  write P (step_Release false _ 2%nat).
  look P (step_writeIndex _ 2%nat).
  look P step_readIndex.
  look P step_next.
  look P step_miss.
  look P step_store.
  eexists. split; [exact P|]. split_and!; vm_compute; reflexivity.
Qed.

(** A lookup that is overtaken by a rotation, a flush and a newer put returns the value of
    its beginning. *)
Example lookup_among_goroutines_witness :
  ∃ m0 m, path Some true (NewMachine (K := nat) (V := nat) ∅) [(1%nat, Val 10%nat)] m0 ∧ m_reader m0 = Ready ∧
    path Some true m0 [(1%nat, Val 20%nat)] m ∧ m_reader m = Returned 1%nat (Some 10%nat) ∧
    applied ∅ [(1%nat, Val 10%nat); (1%nat, Val 20%nat)] !! 1%nat = Some 20%nat ∧
    ∃ ps1 ps2, [(1%nat, Val 20%nat)] = ps1 ++ ps2 ∧ id <$> Some 10%nat = id <$> applied ∅ ([(1%nat, Val 10%nat)] ++ ps1) !! 1%nat.
Proof.
  pose proof (path_refl Some true (NewMachine (K := nat) (V := nat) ∅)) as P0.
  write P0 (step_GetCache true _ 1%nat false {[1%nat := Val 10%nat]}).
  write P0 (step_Quoted true _ 1%nat).
  write P0 (step_Put true _ 1%nat _ _ 1%nat (Val 10%nat)).
  write P0 (step_Release true _ 1%nat).
  match type of P0 with path _ _ _ _ ?m => pose proof (path_refl Some true m) as P end.
  look P (step_writeIndex _ 1%nat).
  write P (step_tick true _ true).
  flush P (step_unquoted Some true).
  look P step_readIndex.
  write P (step_GetCache true _ 2%nat false {[1%nat := Val 20%nat]}).
  write P (step_Quoted true _ 2%nat).
  flush P (step_GetALL Some true).
  flush P (step_PutBatch Some true).
  flush P (step_purge Some true).
  look P step_next.
  write P (step_Put true _ 2%nat _ _ 1%nat (Val 20%nat)).
  look P step_miss.
  look P step_store.
  eexists _, _. split; [exact P0|]. split; [reflexivity|]. split; [exact P|]. split; [vm_compute; reflexivity|]. split; [vm_compute; reflexivity|].
  eapply (lookup_among_goroutines Some id (λ v, eq_refl) ∅ _ _ _ _ 1%nat (Some 10%nat) P0 ltac:(reflexivity) P ltac:(vm_compute; reflexivity)).
  repeat constructor.
Defined.
