(* ===== verification/Storage.v ===== *)
(** * Keys and values of the key-value store: [common/storage/storage.go]

    The ledger keeps every table in one key-value store, each table under its own
    prefix byte.  A [Key] names a record of a table by its parts; [GetKeyOfParts]
    gives the bytes the code uses, and the encoding is proved injective, so that
    records never share a key and the model may use the structured keys.
    A [Value] is one of the types the ledger stores. *)

From S2P Require Import Prelude Types.

(** ** Prefixes *)
Definition KeyPrefixBlock : Z := 0.
Definition KeyPrefixSmartContractBlock : Z := 1.
Definition KeyPrefixUncheckedBlockPrevious : Z := 2.
Definition KeyPrefixUncheckedBlockLink : Z := 3.
Definition KeyPrefixAccount : Z := 4.
Definition KeyPrefixFrontier : Z := 5.
Definition KeyPrefixPending : Z := 6.
Definition KeyPrefixRepresentation : Z := 7.
Definition KeyPrefixChild : Z := 9.
Definition KeyPrefixOnlineReps : Z := 17.
Definition KeyPrefixLink : Z := 24.
Definition KeyPrefixBlockCache : Z := 25.
Definition KeyPrefixUncheckedTokenInfo : Z := 27.
Definition KeyPrefixBlockCacheAccount : Z := 28.
Definition KeyPrefixUnconfirmedSync : Z := 30.
Definition KeyPrefixUncheckedSync : Z := 31.
Definition KeyPrefixUncheckedPovHeight : Z := 33.
Definition KeyPrefixGapPublish : Z := 39.
Definition KeyPrefixAccountBlockHash : Z := 41.
Definition KeyPrefixAccountPovHeight : Z := 42.
Definition KeyPrefixPrivatePayload : Z := 43.
Definition KeyPrefixGapDoDSettleState : Z := 44.
Definition KeyPrefixGapPovHeight : Z := 45.
Definition KeyPrefixTrie : Z := 101.
Definition KeyPrefixContractValue : Z := 103.
Definition KeyPrefixVmLogs : Z := 104.
Definition KeyPrefixVMStorage : Z := 105.

(** ** Structured keys *)
Inductive Key : Type :=
| KBlock (h : Hash)
| KSmartContractBlock (h : Hash)
| KAccount (a : Address)
| KFrontier (h : Hash)
| KPending (pk : PendingKey)
| KRepresentation (a : Address)
| KChild (h : Hash)
| KOnlineReps
| KLink (h : Hash)
| KBlockCache (h : Hash)
| KBlockCacheAccount (a : Address)
| KAccountBlockHash (h : Hash)
| KAccountPovHeight (a : Address) (height : Z) (token : Hash)
| KPrivatePayload (h : Hash)
| KTrie (h : Hash)
| KContractValue (h : Hash)
| KVmLogs (h : Hash)
| KVMStorage (suffix : list Z)
| KUncheckedPrevious (h : Hash)
| KUncheckedLink (h : Hash)
| KUncheckedTokenInfo (h : Hash)
| KUncheckedPublish (h : Hash)
| KUnconfirmedSync (h : Hash)
| KUncheckedSync (h : Hash)
| KUncheckedPovHeight (height : Z) (h : Hash)
| KGapPublish (key blk : Hash)
| KGapDoDSettleState (key blk : Hash)
| KGapPovHeight (height : Z).

(** The parts [GetKeyOfParts] accepts. *)
Inductive part : Type :=
| PUint64 (v : Z)
| PBytes (v : list Z)
| PHash (h : Hash)
| PAddress (a : Address)
| PPendingKey (pk : PendingKey).

Definition part_bytes (p : part) : list Z :=
  match p with
  | PUint64 v => be_bytes 8 v
  | PBytes v => v
  | PHash h => hash_bytes h
  | PAddress a => hash_bytes a
  | PPendingKey pk => PendingKey_Serialize pk
  end.

Definition GetKeyOfParts (t : Z) (partList : list part) : list Z :=
  foldl (λ buffer p, buffer ++ part_bytes p) [t] partList.

Definition key_prefix (k : Key) : Z :=
  match k with
  | KBlock _ => KeyPrefixBlock
  | KSmartContractBlock _ => KeyPrefixSmartContractBlock
  | KAccount _ => KeyPrefixAccount
  | KFrontier _ => KeyPrefixFrontier
  | KPending _ => KeyPrefixPending
  | KRepresentation _ => KeyPrefixRepresentation
  | KChild _ => KeyPrefixChild
  | KOnlineReps => KeyPrefixOnlineReps
  | KLink _ => KeyPrefixLink
  | KBlockCache _ => KeyPrefixBlockCache
  | KBlockCacheAccount _ => KeyPrefixBlockCacheAccount
  | KAccountBlockHash _ => KeyPrefixAccountBlockHash
  | KAccountPovHeight _ _ _ => KeyPrefixAccountPovHeight
  | KPrivatePayload _ => KeyPrefixPrivatePayload
  | KTrie _ => KeyPrefixTrie
  | KContractValue _ => KeyPrefixContractValue
  | KVmLogs _ => KeyPrefixVmLogs
  | KVMStorage _ => KeyPrefixVMStorage
  | KUncheckedPrevious _ => KeyPrefixUncheckedBlockPrevious
  | KUncheckedLink _ => KeyPrefixUncheckedBlockLink
  | KUncheckedTokenInfo _ => KeyPrefixUncheckedTokenInfo
  | KUncheckedPublish _ | KGapPublish _ _ => KeyPrefixGapPublish
  | KUnconfirmedSync _ => KeyPrefixUnconfirmedSync
  | KUncheckedSync _ => KeyPrefixUncheckedSync
  | KUncheckedPovHeight _ _ => KeyPrefixUncheckedPovHeight
  | KGapDoDSettleState _ _ => KeyPrefixGapDoDSettleState
  | KGapPovHeight _ => KeyPrefixGapPovHeight
  end.

Definition key_parts (k : Key) : list part :=
  match k with
  | KBlock h | KSmartContractBlock h | KFrontier h | KChild h | KLink h
  | KBlockCache h | KAccountBlockHash h | KPrivatePayload h | KTrie h
  | KContractValue h | KVmLogs h | KUncheckedPrevious h | KUncheckedLink h
  | KUncheckedTokenInfo h | KUncheckedPublish h | KUnconfirmedSync h | KUncheckedSync h => [PHash h]
  | KAccount a | KRepresentation a | KBlockCacheAccount a => [PAddress a]
  | KPending pk => [PPendingKey pk]
  | KOnlineReps => []
  | KAccountPovHeight a height token => [PAddress a; PUint64 height; PHash token]
  | KVMStorage suffix => [PBytes suffix]
  | KUncheckedPovHeight height h => [PUint64 height; PHash h]
  | KGapPublish key blk | KGapDoDSettleState key blk => [PHash key; PHash blk]
  | KGapPovHeight height => [PUint64 height]
  end.

Definition encode_key (k : Key) : list Z := GetKeyOfParts (key_prefix k) (key_parts k).

(** Hashes and addresses of 32 bytes, heights of 64 bits. *)
Definition wf_key (k : Key) : Prop :=
  match k with
  | KBlock h | KSmartContractBlock h | KFrontier h | KChild h | KLink h
  | KBlockCache h | KAccountBlockHash h | KPrivatePayload h | KTrie h
  | KContractValue h | KVmLogs h | KUncheckedPrevious h | KUncheckedLink h
  | KUncheckedTokenInfo h | KUncheckedPublish h | KUnconfirmedSync h | KUncheckedSync h => wf_hash h
  | KAccount a | KRepresentation a | KBlockCacheAccount a => wf_hash a
  | KPending pk => wf_hash (pk_Address pk) ∧ wf_hash (pk_Hash pk)
  | KOnlineReps => True
  | KAccountPovHeight a height token => wf_hash a ∧ 0 ≤ height < 2 ^ 64 ∧ wf_hash token
  | KVMStorage _ => True
  | KUncheckedPovHeight height h => 0 ≤ height < 2 ^ 64 ∧ wf_hash h
  | KGapPublish key blk | KGapDoDSettleState key blk => wf_hash key ∧ wf_hash blk
  | KGapPovHeight height => 0 ≤ height < 2 ^ 64
  end.

(** *** Decidable equality and countability of keys *)
#[global] Instance Key_eq_dec : EqDecision Key.
Proof. solve_decision. Defined.

Definition key_code (k : Key) : Z * list Z :=
  (key_prefix k,
   match k with
   | KBlock h | KSmartContractBlock h | KFrontier h | KChild h | KLink h
   | KBlockCache h | KAccountBlockHash h | KPrivatePayload h | KTrie h
   | KContractValue h | KVmLogs h | KUncheckedPrevious h | KUncheckedLink h
   | KUncheckedTokenInfo h | KUncheckedPublish h | KUnconfirmedSync h | KUncheckedSync h => [h]
   | KAccount a | KRepresentation a | KBlockCacheAccount a => [a]
   | KPending pk => [pk_Address pk; pk_Hash pk]
   | KOnlineReps => []
   | KAccountPovHeight a height token => [a; height; token]
   | KVMStorage suffix => suffix
   | KUncheckedPovHeight height h => [height; h]
   | KGapPublish key blk | KGapDoDSettleState key blk => [key; blk]
   | KGapPovHeight height => [height]
   end).

Definition code_key (c : Z * list Z) : option Key :=
  match c with
  | (0, [h]) => Some (KBlock h)
  | (1, [h]) => Some (KSmartContractBlock h)
  | (4, [a]) => Some (KAccount a)
  | (5, [h]) => Some (KFrontier h)
  | (6, [a; h]) => Some (KPending (mkPendingKey a h))
  | (7, [a]) => Some (KRepresentation a)
  | (9, [h]) => Some (KChild h)
  | (17, []) => Some KOnlineReps
  | (24, [h]) => Some (KLink h)
  | (25, [h]) => Some (KBlockCache h)
  | (28, [a]) => Some (KBlockCacheAccount a)
  | (41, [h]) => Some (KAccountBlockHash h)
  | (42, [a; height; token]) => Some (KAccountPovHeight a height token)
  | (43, [h]) => Some (KPrivatePayload h)
  | (101, [h]) => Some (KTrie h)
  | (103, [h]) => Some (KContractValue h)
  | (104, [h]) => Some (KVmLogs h)
  | (105, suffix) => Some (KVMStorage suffix)
  | (2, [h]) => Some (KUncheckedPrevious h)
  | (3, [h]) => Some (KUncheckedLink h)
  | (27, [h]) => Some (KUncheckedTokenInfo h)
  | (39, [h]) => Some (KUncheckedPublish h)
  | (30, [h]) => Some (KUnconfirmedSync h)
  | (31, [h]) => Some (KUncheckedSync h)
  | (33, [height; h]) => Some (KUncheckedPovHeight height h)
  | (39, [key; blk]) => Some (KGapPublish key blk)
  | (44, [key; blk]) => Some (KGapDoDSettleState key blk)
  | (45, [height]) => Some (KGapPovHeight height)
  | _ => None
  end.

#[global] Instance Key_countable : Countable Key.
Proof. refine (inj_countable key_code code_key _). by intros [| | | |[? ?]| | | | | | | | | | | | | | | | | | | | | | |]. Defined.

(** ** Values

    A block that waits for another is kept with where it came from:
    [common/types/unchecked.go]. *)
Inductive SynchronizedKind := Synchronized | UnSynchronized | InvalidSynchronized.

(** The values of the tables.
    [VObject] is an object of a contract, known by the bytes it serializes to. *)
Inductive Value : Type :=
| VBlock (b : StateBlock)
| VAccount (am : AccountMeta)
| VToken (tm : TokenMeta)
| VPending (p : PendingInfo)
| VBenefit (b : Benefit)
| VHash (h : Hash)
| VAddresses (l : list Address)
| VBytes (bs : list Z)
| VObject (bs : list Z)
| VUnchecked (b : StateBlock) (kind : SynchronizedKind).

(** [Serialize] when a cache is dumped, read back by [Deserialize]. *)
Definition normValue (v : Value) : Value :=
  match v with
  | VBlock b => VBlock (SB.wire b)
  | VAccount am => VAccount (AM.wire am)
  | VToken tm => VToken (AM.tm_wire tm)
  | VPending p => VPending (PendingInfo_wire p)
  | VBenefit b => VBenefit (Benefit_Clone b)
  | VHash h => VHash h
  | VAddresses l => VAddresses l
  | VBytes bs => VBytes bs
  | VObject bs => VBytes bs
  | VUnchecked b kind => VUnchecked (SB.wire b) kind
  end.

Definition dumpValue (v : Value) : option Value := Some (normValue v).

(** ** The encoding is injective *)
Lemma foldl_parts t ps buf :
  foldl (λ buffer p, buffer ++ part_bytes p) (t :: buf) ps = t :: (buf ++ concat (part_bytes <$> ps)).
Proof.
  revert buf. induction ps as [|p ps IH]; intros buf; cbn; [by rewrite app_nil_r|].
  by rewrite IH, <- app_assoc.
Qed.

Lemma GetKeyOfParts_eq t ps : GetKeyOfParts t ps = t :: concat (part_bytes <$> ps).
Proof. apply foldl_parts. Qed.

Lemma hash_bytes_inj x y : wf_hash x → wf_hash y → hash_bytes x = hash_bytes y → x = y.
Proof. exact (be_bytes_inj 32 x y). Qed.

Lemma length_hash_bytes h : length (hash_bytes h) = 32%nat.
Proof. apply length_be_bytes. Qed.

(** Two fields of fixed width in front of any tail. *)
Lemma hash_bytes_app_inj x y l l' :
  wf_hash x → wf_hash y → hash_bytes x ++ l = hash_bytes y ++ l' → x = y ∧ l = l'.
Proof.
  intros Hx Hy Heq. apply app_inj_1 in Heq as [Heq ->]; [|by rewrite !length_hash_bytes].
  split; [by apply hash_bytes_inj|done].
Qed.

Lemma uint64_app_inj x y l l' :
  0 ≤ x < 2 ^ 64 → 0 ≤ y < 2 ^ 64 → be_bytes 8 x ++ l = be_bytes 8 y ++ l' → x = y ∧ l = l'.
Proof.
  intros Hx Hy Heq. apply app_inj_1 in Heq as [Heq ->]; [|by rewrite !length_be_bytes].
  split; [by apply (be_bytes_inj 8)|done].
Qed.

(** Two hashes are longer than one. *)
Lemma hash_length_clash x y z : hash_bytes x ++ [] = hash_bytes y ++ hash_bytes z ++ [] → False.
Proof. intros Heq. apply (f_equal length) in Heq. by rewrite !length_app, !length_hash_bytes in Heq. Qed.

Lemma two_hashes_inj x y x' y' :
  wf_hash x ∧ wf_hash y → wf_hash x' ∧ wf_hash y' →
  hash_bytes x ++ hash_bytes y ++ [] = hash_bytes x' ++ hash_bytes y' ++ [] → x = x' ∧ y = y'.
Proof.
  intros [? ?] [? ?] Heq. apply hash_bytes_app_inj in Heq as [-> Heq]; [|done..].
  by apply hash_bytes_app_inj in Heq as [-> _].
Qed.

(** Records with different prefixes have different keys. *)
Lemma encode_key_prefix k1 k2 : encode_key k1 = encode_key k2 → key_prefix k1 = key_prefix k2.
Proof. unfold encode_key. rewrite !GetKeyOfParts_eq. by intros [= ? _]. Qed.

(** Distinct records of the store have distinct byte keys: [GetKeyOfParts] with
    the prefix and parts of each table is injective on 32-byte hashes and
    addresses and 64-bit heights. *)
Theorem encode_key_inj k1 k2 :
  wf_key k1 → wf_key k2 → encode_key k1 = encode_key k2 → k1 = k2.
Proof.
  intros H1 H2 Heq. pose proof (encode_key_prefix _ _ Heq) as Hp.
  unfold encode_key in Heq. rewrite !GetKeyOfParts_eq in Heq. injection Heq as _ Heq.
  destruct k1, k2; try (discriminate Hp); cbn -[hash_bytes be_bytes] in *;
    unfold PendingKey_Serialize in Heq; rewrite <- ?app_assoc in Heq; try congruence.
  all: try match type of Heq with
           | hash_bytes _ ++ [] = hash_bytes _ ++ [] =>
               apply hash_bytes_app_inj in Heq as [-> _]; [done|done|done]
           end.
  - destruct pk, pk0. apply hash_bytes_app_inj in Heq as [? Heq]; [|tauto..].
    apply hash_bytes_app_inj in Heq as [? _]; [|tauto..]. cbn in *. by subst.
  - apply hash_bytes_app_inj in Heq as [-> Heq]; [|tauto..].
    apply uint64_app_inj in Heq as [-> Heq]; [|tauto..].
    apply hash_bytes_app_inj in Heq as [-> _]; [done|tauto..].
  - rewrite !app_nil_r in Heq. by rewrite Heq.
  - by apply hash_length_clash in Heq.
  - apply uint64_app_inj in Heq as [-> Heq]; [|tauto..].
    apply hash_bytes_app_inj in Heq as [-> _]; [done|tauto..].
  - symmetry in Heq. by apply hash_length_clash in Heq.
  - by apply two_hashes_inj in Heq as [-> ->].
  - by apply two_hashes_inj in Heq as [-> ->].
  - by apply uint64_app_inj in Heq as [-> _].
Qed.

Lemma normValue_idemp v : normValue (normValue v) = normValue v.
Proof.
  destruct v as [b|am|tm|p|b|h|l|bs|bs|b k]; cbn [normValue]; try done.
  - by rewrite SBFacts.SB_wire_wire.
  - by rewrite AMFacts.AM_wire_wire.
  - by rewrite AMFacts.tm_wire_wire.
  - f_equal. unfold PendingInfo_wire; cbn -[Bal.wire]. by rewrite BalFacts.Bal_wire_wire.
  - f_equal. unfold Benefit_Clone; cbn -[Bal.wire]. by rewrite !BalFacts.Bal_wire_wire.
  - by rewrite SBFacts.SB_wire_wire.
Qed.

Lemma encode_key_inj_witness : KPending (mkPendingKey 1 2) = KPending (mkPendingKey 1 (1 + 1)).
Proof. apply encode_key_inj; [split; split; done..|vm_compute; reflexivity]. Defined.
