(* ===== verification/GoBytes.v ===== *)
(** * Comparing byte slices: [bytes.EqualFold] of the Go library

    The node compares the data of contract blocks, the keys of cached records and
    the type byte of a key with [bytes.EqualFold], which reads its arguments as
    UTF-8 text and ignores case.  The file models the function as of Go 1.14; the
    case-folding table of package [unicode] is a parameter. *)

From S2P Require Import Prelude.

(** [unicode.SimpleFold]: the next larger code point of the same fold orbit, or the
    smallest of the orbit. *)
Class Unicode := { SimpleFold : Z → Z }.

Definition RuneError : Z := 65533. (* U+FFFD *)

(** A continuation byte in the range [lo, hi]. *)
Definition inRange (lo hi b : Z) : bool := (lo <=? b) && (b <=? hi).

(** [utf8.DecodeRune] on a slice whose first byte is [p0]: the rune and the bytes
    it takes; an invalid sequence is [RuneError] of width one. *)
Definition DecodeRune (p0 : Z) (rest : list Z) : Z * nat :=
  let bad := (RuneError, 1%nat) in
  let two :=
    match rest with
    | b1 :: _ =>
        if inRange 128 191 b1 then (Z.land p0 31 * 64 + Z.land b1 63, 2%nat) else bad
    | _ => bad
    end in
  let three lo hi :=
    match rest with
    | b1 :: b2 :: _ =>
        if inRange lo hi b1 && inRange 128 191 b2
        then (Z.land p0 15 * 4096 + Z.land b1 63 * 64 + Z.land b2 63, 3%nat) else bad
    | _ => bad
    end in
  let four lo hi :=
    match rest with
    | b1 :: b2 :: b3 :: _ =>
        if inRange lo hi b1 && inRange 128 191 b2 && inRange 128 191 b3
        then (Z.land p0 7 * 262144 + Z.land b1 63 * 4096 + Z.land b2 63 * 64 + Z.land b3 63, 4%nat)
        else bad
    | _ => bad
    end in
  if p0 <? 128 then (p0, 1%nat)
  else if p0 <? 194 then bad
  else if p0 <? 224 then two
  else if p0 =? 224 then three 160 191
  else if p0 =? 237 then three 128 159
  else if p0 <? 240 then three 128 191
  else if p0 =? 240 then four 144 191
  else if p0 <? 244 then four 128 191
  else if p0 =? 244 then four 128 143
  else bad.

Section fold.
Context `{Unicode}.

(** [r := SimpleFold(sr); for r != sr && r < tr { r = SimpleFold(r) }]; a fold orbit
    has at most four members, far fewer than the fuel. *)
Fixpoint foldLoop (fuel : nat) (r sr tr : Z) : Z :=
  match fuel with
  | O => r
  | S fuel' => if negb (r =? sr) && (r <? tr) then foldLoop fuel' (SimpleFold r) sr tr else r
  end.

(** Whether two runes match under case folding. *)
Definition runeFold (r1 r2 : Z) : bool :=
  if r2 =? r1 then true
  else
    let sr := Z.min r1 r2 in
    let tr := Z.max r1 r2 in
    if tr <? 128 then (65 <=? sr) && (sr <=? 90) && (tr =? sr + 32)
    else foldLoop 32 (SimpleFold sr) sr tr =? tr.

(** [bytes.EqualFold], one rune of each slice per round. *)
Fixpoint equalFoldLoop (fuel : nat) (s t : list Z) : bool :=
  match s, t with
  | p :: s', q :: t' =>
      match fuel with
      | O => false
      | S fuel' =>
          let '(sr, n) := DecodeRune p s' in
          let '(tr, m) := DecodeRune q t' in
          if runeFold sr tr then equalFoldLoop fuel' (drop n s) (drop m t) else false
      end
  | [], [] => true
  | _, _ => false
  end.

(** Every round takes at least one byte of [s]. *)
Definition EqualFold (s t : list Z) : bool := equalFoldLoop (length s) s t.

(** ** Facts *)
Lemma DecodeRune_width p rest : (1 ≤ (DecodeRune p rest).2)%nat.
Proof.
  unfold DecodeRune. repeat case_match; cbn; lia.
Qed.

Lemma runeFold_refl r : runeFold r r = true.
Proof. unfold runeFold. by rewrite Z.eqb_refl. Qed.

Lemma equalFoldLoop_refl fuel s : (length s ≤ fuel)%nat → equalFoldLoop fuel s s = true.
Proof.
  revert s. induction fuel as [|fuel IH]; intros [|p s] Hlen; cbn [equalFoldLoop length] in *;
    [done|lia|done|].
  pose proof (DecodeRune_width p s). destruct (DecodeRune p s) as [r n]; cbn in *.
  rewrite runeFold_refl. apply IH. rewrite length_drop. cbn. lia.
Qed.

Lemma EqualFold_refl s : EqualFold s s = true.
Proof. by apply equalFoldLoop_refl. Qed.

(** Bytes that start no UTF-8 sequence are decoded one by one, each as the same rune:
    texts of equal length made of them match, whatever the folding table. *)
Lemma EqualFold_invalid s t :
  Forall (λ b, 128 ≤ b < 194) s → Forall (λ b, 128 ≤ b < 194) t → length s = length t →
  EqualFold s t = true.
Proof.
  assert (Hd : ∀ b rest, 128 ≤ b < 194 → DecodeRune b rest = (RuneError, 1%nat)).
  { intros b rest Hb. unfold DecodeRune.
    destruct (Z.ltb_spec b 128); [lia|]. destruct (Z.ltb_spec b 194); [done|lia]. }
  unfold EqualFold. intros Hs. revert t. induction Hs as [|b s Hb _ IH]; intros t Ht Hlen.
  - by destruct t.
  - destruct Ht as [|b' t Hb' Ht]; [done|]. cbn [length equalFoldLoop].
    rewrite !Hd, runeFold_refl by done. cbn [drop]. apply IH; [done|]. by injection Hlen.
Qed.
End fold.
