(* ===== verification/Ledger.v ===== *)
(** * The ledger's tables: [ledger/*.go]

    The ledger reads through the write cache to the key-value store and writes
    into the temporary cache of a running [BatchUpdate] (confirmed data) or into a
    store transaction (data not yet confirmed).  This file models the state and
    the table operations of [ledger_account.go], [ledger_pending.go],
    [ledger_pending_cache.go], [ledger_represention.go], [ledger_frontier.go],
    [ledger_block.go], [ledger_privacy.go] and the helpers of [ledger.go]. *)

From stdpp Require Import sorting.
From S2P Require Import Prelude Types Cache Storage.

(** ** State *)

(** What other parts of the node are told, in order. *)
Inductive Event : Type :=
| EventAddRelation (b : StateBlock)
| EventDeleteRelation (h : Hash)
| EventRollback (h : Hash)
| EventAddBlockCache (b : StateBlock)
| EventBroadcast (b : StateBlock)
| EventGenerateBlock (b : StateBlock)
| BlockConfirmed (b : StateBlock).

(** Rows to remove from the relational mirror: of a block, of a contract's object. *)
Inductive Schema : Type :=
| BlockSchema (b : StateBlock)
| ObjectSchema (val : list Z).

Abbreviation Batch := (gmap Key (entry Value)) (only parsing).

Record Ledger := mkLedger {
  l_store : gmap Key Value;
  l_cache : MemoryCache Key Value;
  l_rcache : gmap Hash Balance;        (* rCache.accountPending *)
  l_deletedSchema : list Schema;
  l_verifiedData : list Hash;
  l_events : list Event;
}.

(** A ledger inside a running [BatchUpdate]: [ls_bat] is the temporary cache its
    callback receives, [ls_txn] the store transaction opened with it. *)
Record LS := mkLS {
  ls_led : Ledger;
  ls_bat : Batch;
  ls_txn : Batch;
}.

Definition set_bat (s : LS) (c : Batch) : LS := mkLS (ls_led s) c (ls_txn s).
Definition set_txn (s : LS) (c : Batch) : LS := mkLS (ls_led s) (ls_bat s) c.
Definition set_led (s : LS) (l : Ledger) : LS := mkLS l (ls_bat s) (ls_txn s).

Definition set_rcache (l : Ledger) (r : gmap Hash Balance) : Ledger :=
  mkLedger (l_store l) (l_cache l) r (l_deletedSchema l) (l_verifiedData l) (l_events l).
Definition add_deleted (l : Ledger) (sc : Schema) : Ledger :=
  mkLedger (l_store l) (l_cache l) (l_rcache l) (l_deletedSchema l ++ [sc]) (l_verifiedData l) (l_events l).
Definition add_event (l : Ledger) (e : Event) : Ledger :=
  mkLedger (l_store l) (l_cache l) (l_rcache l) (l_deletedSchema l) (l_verifiedData l) (l_events l ++ [e]).
Definition set_cache (l : Ledger) (lc : MemoryCache Key Value) (st : gmap Key Value) : Ledger :=
  mkLedger st lc (l_rcache l) (l_deletedSchema l) (l_verifiedData l) (l_events l).
Definition set_store (l : Ledger) (st : gmap Key Value) : Ledger :=
  mkLedger st (l_cache l) (l_rcache l) (l_deletedSchema l) (l_verifiedData l) (l_events l).

(** [c.Put] and [c.Delete] on the temporary cache, [Publish] on the event bus. *)
Definition bat_Put (k : Key) (v : Value) : M LS unit :=
  modifyS (λ s, set_bat s (Cache_Put (ls_bat s) k v)).
Definition bat_Delete (k : Key) : M LS unit :=
  modifyS (λ s, set_bat s (Cache_Delete (ls_bat s) k)).
Definition publish (e : Event) : M LS unit :=
  modifyS (λ s, set_led s (add_event (ls_led s) e)).

(** ** Reading *)

(** [getFromCache]: the temporary cache when one is given, then the ring. *)
Definition getFromCache (l : Ledger) (c : option Batch) (k : Key) : cached Value :=
  match c with
  | Some bat =>
      match Cache_Get bat k with
      | Hit v => Hit v
      | KeyDeleted => KeyDeleted
      | NotInCache => MC_Get (l_cache l) k
      end
  | None => MC_Get (l_cache l) k
  end.

(** Where a record was found: an object of a cache, or bytes of the store. *)
Inductive fetched : Type :=
| FromCache (v : Value)
| FromStore (v : Value)
| Absent.

(** The reading pattern shared by the tables: cache, then store; a key deleted in
    a cache is absent. *)
Definition fetch (l : Ledger) (c : option Batch) (k : Key) : fetched :=
  match getFromCache l c k with
  | Hit v => FromCache v
  | KeyDeleted => Absent
  | NotInCache =>
      match l_store l !! k with
      | Some v => FromStore v
      | None => Absent
      end
  end.

(** [l.store.Has]. *)
Definition store_Has (l : Ledger) (k : Key) : bool :=
  match l_store l !! k with Some _ => true | None => false end.

(** [HasStateBlockConfirmed] and [HasAccountMetaConfirmed]: no temporary cache. *)
Definition hasKey (l : Ledger) (k : Key) : bool :=
  match fetch l None k with Absent => false | _ => true end.

(** Bytes that are not an encoding of the expected type. *)
Definition deserializeError {A} : res A := Err (Errorf "deserialize").

(** [storage.Batch.Get] of a store transaction: its own writes, then the store. *)
Definition txn_Get (l : Ledger) (txn : Batch) (k : Key) : option Value :=
  match txn !! k with
  | Some (Val v) => Some v
  | Some deleteKeyTag => None
  | None => l_store l !! k
  end.

Definition txn_Put (k : Key) (v : Value) : M LS unit :=
  modifyS (λ s, set_txn s (Cache_Put (ls_txn s) k v)).
Definition txn_Delete (k : Key) : M LS unit :=
  modifyS (λ s, set_txn s (Cache_Delete (ls_txn s) k)).

(** [l.Get]: raw bytes of a contract's storage; a cached object of another type
    fails the assertion to bytes. *)
Definition l_Get (l : Ledger) (c : option Batch) (k : Key) : res (list Z) :=
  match fetch l c k with
  | FromCache (VBytes bs) => Ok bs
  | FromCache _ => Panic
  | FromStore (VBytes bs) => Ok bs
  | FromStore _ => deserializeError
  | Absent => Err KeyNotFound
  end.

(** *** Iteration over the store

    The store iterates over a prefix in the order of the key bytes. *)
Fixpoint bytes_leb (xs ys : list Z) : bool :=
  match xs, ys with
  | [], _ => true
  | _ :: _, [] => false
  | x :: xs', y :: ys' => if x =? y then bytes_leb xs' ys' else x <? y
  end.

Definition key_le (kv1 kv2 : Key * Value) : Prop :=
  Is_true (bytes_leb (encode_key kv1.1) (encode_key kv2.1)).
#[global] Instance key_le_dec : RelDecision key_le.
Proof. intros x y. unfold key_le. apply _. Defined.

Definition store_Iterator (l : Ledger) (prefix : list Z) : list (Key * Value) :=
  merge_sort key_le
    (filter (λ kv, Is_true (has_prefix (encode_key kv.1) prefix)) (map_to_list (l_store l))).

Section ledger.
Context `{Crypto} `{Config}.

(** ** Blocks: [ledger_block.go], [ledger_privacy.go] *)
Definition GetBlockPrivatePayload (l : Ledger) (hash : Hash) : res (list Z) :=
  match l_store l !! KPrivatePayload hash with
  | Some (VBytes pl) => if (length pl =? 1)%nat then Ok [] else Ok pl
  | Some _ => deserializeError
  | None => Err (Errorf "block private payload not found")
  end.

Definition GetStateBlockConfirmed (l : Ledger) (c : option Batch) (hash : Hash) : res StateBlock :=
  match fetch l c (KBlock hash) with
  | FromCache (VBlock b) => Ok (SB.Clone b)
  | FromCache _ => Panic
  | FromStore (VBlock meta) =>
      if SB.IsPrivate meta then
        match GetBlockPrivatePayload l hash with
        | Ok pl => Ok (SB.SetPrivatePayload meta pl)
        | _ => Ok meta
        end
      else Ok meta
  | FromStore _ => deserializeError
  | Absent => Err ErrBlockNotFound
  end.

Definition HasStateBlockConfirmed (l : Ledger) (hash : Hash) : bool := hasKey l (KBlock hash).

Definition GetBlockCache (l : Ledger) (hash : Hash) : res StateBlock :=
  match l_store l !! KBlockCache hash with
  | Some (VBlock b) => Ok b
  | Some _ => deserializeError
  | None => Err ErrBlockNotFound
  end.

Definition HasBlockCache (l : Ledger) (hash : Hash) : bool := store_Has l (KBlockCache hash).

Definition GetStateBlock (l : Ledger) (c : option Batch) (hash : Hash) : res StateBlock :=
  match GetBlockCache l hash with
  | Ok b => Ok b
  | _ => GetStateBlockConfirmed l c hash
  end.

Definition HasStateBlock (l : Ledger) (hash : Hash) : bool :=
  if HasBlockCache l hash then true else HasStateBlockConfirmed l hash.

(** The blocks [GetBlockCaches] passes to its callback. *)
Definition GetBlockCaches (l : Ledger) : list StateBlock :=
  omap (λ kv, match kv.2 with VBlock b => Some b | _ => None end)
    (store_Iterator l (GetKeyOfParts KeyPrefixBlockCache [])).

Definition HasSmartContractBlock (l : Ledger) (key : Hash) : bool :=
  store_Has l (KSmartContractBlock key).

Definition GetBlockChild (l : Ledger) (c : option Batch) (hash : Hash) : res Hash :=
  match fetch l c (KChild hash) with
  | FromCache (VHash h) => Ok h
  | FromCache _ => Panic
  | FromStore (VHash h) => Ok h
  | FromStore _ => Err (Errorf "unmarshal child hash error")
  | Absent => Err (Errorf "block child not found")
  end.

Definition GetBlockLink (l : Ledger) (c : option Batch) (hash : Hash) : res Hash :=
  match fetch l c (KLink hash) with
  | FromCache (VHash h) => Ok h
  | FromCache _ => Panic
  | FromStore (VHash h) => Ok h
  | FromStore _ => Err (Errorf "unmarshal link hash error")
  | Absent => Err (Errorf "block link not found")
  end.

Definition setBlockChild (cBlock : StateBlock) : M LS unit :=
  let pHash := SB.Parent cBlock in
  let cHash := SB.GetHash cBlock in
  if negb (IsGenesisBlock cBlock) && negb (pHash =? ZeroHash) && negb (SB.IsOpen cBlock) then
    s ← getS;
    let l := ls_led s in
    if negb (HasBlockCache l pHash) && negb (HasStateBlockConfirmed l pHash)
    then failS (Errorf "%s can not find parent %s")
    else match GetBlockChild l (Some (ls_bat s)) pHash with
         | Ok _ => failS (Errorf "%s already have child ")
         | Panic => liftR Panic
         | Err _ => bat_Put (KChild pHash) (VHash cHash)
         end
  else mret tt.

Definition setBlockLink (block : StateBlock) : M LS unit :=
  match sb_Type block with
  | Open | Receive | ContractReward => bat_Put (KLink (sb_Link block)) (VHash (SB.GetHash block))
  | _ => mret tt
  end.

Definition setStateBlock (block : StateBlock) : M LS unit :=
  liftR (SB.CheckPrivateRecvRsp block);;
  wrapM "add block child error: %s" (setBlockChild block);;
  wrapM "add block link error: %s" (setBlockLink block);;
  bat_Put (KBlock (SB.GetHash block)) (VBlock (SB.Clone block)).

Definition UpdateStateBlock (block : StateBlock) : M LS unit := setStateBlock block.

Definition deleteBlockChild (blk : StateBlock) : M LS unit :=
  let pHash := SB.Parent blk in
  if negb (hash_IsZero pHash) then bat_Delete (KChild pHash) else mret tt.

Definition deleteBlockLink (blk : StateBlock) : M LS unit :=
  bat_Delete (KLink (sb_Link blk));;
  modifyS (λ s, set_led s (add_deleted (ls_led s) (BlockSchema blk))).

Definition DeleteStateBlock (key : Hash) : M LS unit :=
  blk ← wrapM "get stateblock error %s" (readS (λ s, GetStateBlockConfirmed (ls_led s) None key));
  bat_Delete (KBlock key);;
  wrapM "delete child error: %s" (deleteBlockChild blk);;
  wrapM "delete link error: %s" (deleteBlockLink blk);;
  publish (EventDeleteRelation key).

(** *** Unconfirmed blocks, in the store transaction *)
Definition AddBlockCache (blk : StateBlock) : M LS unit :=
  s ← getS;
  match txn_Get (ls_led s) (ls_txn s) (KBlockCache (SB.GetHash blk)) with
  | Some _ => failS ErrBlockExists
  | None => txn_Put (KBlockCache (SB.GetHash blk)) (VBlock (SB.wire blk))
  end.

Definition DeleteBlockCache (hash : Hash) : M LS unit := txn_Delete (KBlockCache hash).

(** ** Accounts: [ledger_account.go] *)
Definition GetAccountMetaConfirmed (l : Ledger) (c : option Batch) (address : Address)
  : res AccountMeta :=
  match fetch l c (KAccount address) with
  | FromCache (VAccount am) => Ok (AM.Clone am)
  | FromCache _ => Panic
  | FromStore (VAccount am) => Ok am
  | FromStore _ => deserializeError
  | Absent => Err ErrAccountNotFound
  end.

Definition HasAccountMetaConfirmed (l : Ledger) (address : Address) : bool :=
  hasKey l (KAccount address).

Definition GetAccountMeteCache (l : Ledger) (txn : Batch) (address : Address) : res AccountMeta :=
  match txn_Get l txn (KBlockCacheAccount address) with
  | Some (VAccount am) => Ok am
  | Some _ => deserializeError
  | None => Err ErrAccountNotFound
  end.

(** Copy the confirmed token meta [v] over the unconfirmed one of its type when it
    is longer, or append it: one round of the loop in [GetAccountMeta]. *)
Definition mergeToken (meta am : AccountMeta) (v : TokenMeta) : AccountMeta :=
  match AM.Token am (tm_Type v) with
  | Some temp =>
      if tm_BlockCount temp <? tm_BlockCount v then
        let am' := AM.with_tokens am (AM.update_token (am_Tokens am) (tm_Type v) (λ _, v)) in
        if tm_Type temp =? ChainToken then
          {| am_Address := am_Address am';
             am_CoinBalance := AM.GetBalance meta; am_CoinVote := AM.GetVote meta;
             am_CoinNetwork := AM.GetNetwork meta; am_CoinStorage := AM.GetStorage meta;
             am_CoinOracle := AM.GetOracle meta; am_Tokens := am_Tokens am' |}
        else am'
      else am
  | None => AM.with_tokens am (am_Tokens am ++ [v])
  end.

Definition GetAccountMeta (l : Ledger) (c : option Batch) (address : Address) : res AccountMeta :=
  match GetAccountMeteCache l ∅ address, GetAccountMetaConfirmed l c address with
  | Panic, _ | _, Panic => Panic
  | Ok am, Err _ => Ok am
  | Err _, Ok meta => Ok meta
  | Ok am, Ok meta => Ok (foldl (mergeToken meta) am (am_Tokens meta))
  | Err _, Err _ => Err ErrAccountNotFound
  end.

Definition tokenOf (am : AccountMeta) (tokenType : Hash) : res TokenMeta :=
  match AM.Token am tokenType with
  | Some tm => Ok tm
  | None => Err ErrTokenNotFound
  end.

Definition GetTokenMeta (l : Ledger) (address : Address) (tokenType : Hash) : res TokenMeta :=
  am ← GetAccountMeta l None address; tokenOf am tokenType.

Definition HasTokenMeta (l : Ledger) (address : Address) (tokenType : Hash) : res bool :=
  match GetAccountMeta l None address with
  | Ok am => Ok match AM.Token am tokenType with Some _ => true | None => false end
  | Err ErrAccountNotFound => Ok false
  | Err e => Err e
  | Panic => Panic
  end.

Definition GetTokenMetaConfirmed (l : Ledger) (address : Address) (tokenType : Hash)
  : res TokenMeta :=
  am ← GetAccountMetaConfirmed l None address; tokenOf am tokenType.

Definition UpdateAccountMeta (value : AccountMeta) : M LS unit :=
  bat_Put (KAccount (am_Address value)) (VAccount (AM.Clone value)).

Definition AddAccountMeta (value : AccountMeta) : M LS unit :=
  s ← getS;
  match GetAccountMetaConfirmed (ls_led s) None (am_Address value) with
  | Ok _ => failS ErrAccountExists
  | Panic => liftR Panic
  | Err _ => bat_Put (KAccount (am_Address value)) (VAccount (AM.Clone value))
  end.

Definition DeleteAccountMeta (key : Address) : M LS unit := bat_Delete (KAccount key).

Definition AddTokenMetaConfirmed (address : Address) (meta : TokenMeta) : M LS unit :=
  am ← readS (λ s, GetAccountMeta (ls_led s) None address);
  match AM.Token am (tm_Type meta) with
  | Some _ => failS ErrTokenExists
  | None => UpdateAccountMeta (AM.with_tokens am (am_Tokens am ++ [meta]))
  end.

(** [append(tokens[:index], tokens[index+1:]...)] writes into the array the loop
    ranges over: the elements behind [index] move down by one, the last place
    keeps its element.  [removeAt] is that write, seen through the full slice. *)
Definition removeAt (arr : list TokenMeta) (index : nat) : list TokenMeta :=
  match arr !! (length arr - 1)%nat with
  | Some z => take index arr ++ drop (S index) arr ++ [z]
  | None => arr
  end.

(** The loop of [DeleteTokenMetaConfirmed] over the shared array [arr] of length
    [n]; [cur] is the slice last stored in [am.Tokens]. *)
Fixpoint deleteTokens (fuel : nat) (tokenType : Hash) (index : nat)
    (arr : list TokenMeta) (cur : nat) : list TokenMeta * nat :=
  match fuel with
  | O => (arr, cur)
  | S fuel' =>
      match arr !! index with
      | Some token =>
          if tm_Type token =? tokenType
          then deleteTokens fuel' tokenType (S index) (removeAt arr index) (length arr - 1)%nat
          else deleteTokens fuel' tokenType (S index) arr cur
      | None => (arr, cur)
      end
  end.

Definition deleteToken (am : AccountMeta) (tokenType : Hash) : AccountMeta :=
  let '(arr, n) := deleteTokens (length (am_Tokens am)) tokenType 0 (am_Tokens am)
                     (length (am_Tokens am)) in
  AM.with_tokens am (take n arr).

Definition DeleteTokenMetaConfirmed (address : Address) (tokenType : Hash) : M LS unit :=
  am ← readS (λ s, GetAccountMetaConfirmed (ls_led s) None address);
  UpdateAccountMeta (deleteToken am tokenType).

(** *** Unconfirmed accounts, in the store transaction *)
Definition AddAccountMetaCache (value : AccountMeta) : M LS unit :=
  s ← getS;
  match txn_Get (ls_led s) (ls_txn s) (KBlockCacheAccount (am_Address value)) with
  | Some _ => failS ErrAccountExists
  | None => txn_Put (KBlockCacheAccount (am_Address value)) (VAccount (AM.wire value))
  end.

Definition AddOrUpdateAccountMetaCache (value : AccountMeta) : M LS unit :=
  txn_Put (KBlockCacheAccount (am_Address value)) (VAccount (AM.wire value)).

Definition UpdateAccountMeteCache (value : AccountMeta) : M LS unit :=
  s ← getS;
  match txn_Get (ls_led s) (ls_txn s) (KBlockCacheAccount (am_Address value)) with
  | None => failS ErrAccountNotFound
  | Some _ => txn_Put (KBlockCacheAccount (am_Address value)) (VAccount (AM.wire value))
  end.

Definition DeleteAccountMetaCache (address : Address) : M LS unit :=
  txn_Delete (KBlockCacheAccount address).

Definition DeleteTokenMetaCache (address : Address) (tokenType : Hash) : M LS unit :=
  am ← readS (λ s, GetAccountMeteCache (ls_led s) (ls_txn s) address);
  UpdateAccountMeteCache (deleteToken am tokenType).

(** *** History of token metas *)
Definition AddAccountMetaHistory (tm : TokenMeta) (block : StateBlock) : M LS unit :=
  bat_Put (KAccountBlockHash (SB.GetHash block)) (VToken (AM.tm_wire tm));;
  bat_Put (KAccountPovHeight (tm_BelongTo tm) (sb_PoVHeight block) (tm_Type tm)) (VToken (AM.tm_wire tm)).

Definition UpdateAccountMetaHistory (tm : TokenMeta) (block : StateBlock) : M LS unit :=
  bat_Delete (KAccountBlockHash (SB.GetHash block));;
  let kp := KAccountPovHeight (sb_Address block) (sb_PoVHeight block) (sb_Token block) in
  if negb (hash_IsZero (sb_Previous block)) then
    preBlk ← wrapM "get block previous: %s"
               (readS (λ s, GetStateBlock (ls_led s) None (sb_Previous block)));
    if negb (sb_PoVHeight block =? sb_PoVHeight preBlk) then bat_Delete kp
    else bat_Put kp (VToken (AM.tm_wire tm))
  else bat_Delete kp.

Definition GetTokenMetaByBlockHash (l : Ledger) (hash : Hash) : res TokenMeta :=
  match fetch l None (KAccountBlockHash hash) with
  | FromCache (VToken tm) => Ok (AM.tm_wire tm)
  | FromCache _ => Panic
  | FromStore (VToken tm) => Ok tm
  | FromStore _ => deserializeError
  | Absent => Err KeyNotFound
  end.

(** The amount a block moves. *)
Definition CalculateAmount (l : Ledger) (block : StateBlock) : res Balance :=
  let fromPrev (f : StateBlock → res Balance) :=
    match GetStateBlock l None (sb_Previous block) with
    | Ok prev => f prev
    | Err e => Err e
    | Panic => Panic
    end in
  let prevMinus prev := (x ← SB.TotalBalance prev; y ← SB.TotalBalance block; Bal.Sub x y) in
  let minusPrev prev := (x ← SB.TotalBalance block; y ← SB.TotalBalance prev; Bal.Sub x y) in
  match sb_Type block with
  | Open => SB.TotalBalance block
  | Send => fromPrev prevMinus
  | Receive => fromPrev minusPrev
  | Change | Online => Ok Bal.ZeroBalance
  | ContractReward =>
      if hash_IsZero (sb_Previous block) then SB.TotalBalance block else fromPrev minusPrev
  | ContractSend =>
      if IsGenesisBlock block then Ok (SB.GetBalance block) else fromPrev prevMinus
  | _ => Err (Errorf "invalid block type")
  end.

Definition ContractAddress (l : Ledger) (b : StateBlock) : res Address :=
  if SB.IsSendBlock b then Ok (sb_Link b)
  else if SB.IsReceiveBlock b then
    send ← GetStateBlock l None (sb_Link b);
    Ok (sb_Link send)
  else Err (Errorf "invalid block type").

(** ** Pending transfers: [ledger_pending.go], [ledger_pending_cache.go] *)
Definition pendingHash (address : Address) (token : Hash) : Hash :=
  HashBytes [hash_bytes address; hash_bytes token].

Definition rcache_UpdateAccountPending (key : PendingKey) (info : PendingInfo) (add : bool)
  : M LS unit :=
  s ← getS;
  let th := pendingHash (pk_Address key) (pi_Type info) in
  match l_rcache (ls_led s) !! th with
  | Some amount =>
      amount' ← liftR (if add then Bal.Add amount (pi_Amount info) else Bal.Sub amount (pi_Amount info));
      modifyS (λ s, set_led s (set_rcache (ls_led s) (<[th:=amount']> (l_rcache (ls_led s)))))
  | None => mret tt
  end.

Definition GetPending (l : Ledger) (key : PendingKey) : res PendingInfo :=
  match fetch l None (KPending key) with
  | FromCache (VPending p) => Ok p
  | FromCache _ => Panic
  | FromStore (VPending p) => Ok p
  | FromStore _ => deserializeError
  | Absent => Err ErrPendingNotFound
  end.

Definition AddPending (key : PendingKey) (value : PendingInfo) : M LS unit :=
  bat_Put (KPending key) (VPending value);;
  rcache_UpdateAccountPending key value true.

Definition DeletePending (key : PendingKey) : M LS unit :=
  s ← getS;
  match GetPending (ls_led s) key with
  | Ok info => bat_Delete (KPending key);; rcache_UpdateAccountPending key info false
  | Err _ => mret tt
  | Panic => liftR Panic
  end.

(** The pairs [GetPendingsByToken] passes to its callback: the store's only. *)
Definition GetPendingsByToken (l : Ledger) (account : Address) (token : Hash) : list PendingInfo :=
  omap (λ kv, match kv.2 with
              | VPending p => if pi_Type p =? token then Some p else None
              | _ => None
              end)
    (store_Iterator l (KeyPrefixPending :: hash_bytes account)).

Definition sumAmounts (ps : list PendingInfo) : res Balance :=
  foldl (λ acc p, a ← acc; Bal.Add a (pi_Amount p)) (Ok Bal.ZeroBalance) ps.

Definition PendingAmount (address : Address) (token : Hash) : M Ledger Balance :=
  l ← getS;
  match l_rcache l !! pendingHash address token with
  | Some b => mret b
  | None =>
      pendingAmount ← liftR (sumAmounts (GetPendingsByToken l address token));
      modifyS (λ l, set_rcache l (<[pendingHash address token:=pendingAmount]> (l_rcache l)));;
      mret pendingAmount
  end.

(** ** Representatives: [ledger_represention.go] *)
Definition GetRepresentation (l : Ledger) (c : option Batch) (key : Address) : res Benefit :=
  match fetch l c (KRepresentation key) with
  | FromCache (VBenefit b) => Ok (Benefit_Clone b)
  | FromCache _ => Panic
  | FromStore (VBenefit b) => Ok b
  | FromStore _ => deserializeError
  | Absent => Err ErrRepresentationNotFound
  end.

Definition setRepresentation (address : Address) (benefit : Benefit) : M LS unit :=
  bat_Put (KRepresentation address) (VBenefit (Benefit_Clone benefit)).

(** [Add] or [Sub] on every field, in the order of the source. *)
Definition Benefit_map2 (f : Balance → Balance → res Balance) (value diff : Benefit) : res Benefit :=
  balance ← f (bn_Balance value) (bn_Balance diff);
  vote ← f (bn_Vote value) (bn_Vote diff);
  network ← f (bn_Network value) (bn_Network diff);
  oracle ← f (bn_Oracle value) (bn_Oracle diff);
  storage ← f (bn_Storage value) (bn_Storage diff);
  total ← f (bn_Total value) (bn_Total diff);
  Ok {| bn_Balance := balance; bn_Vote := vote; bn_Network := network;
        bn_Storage := storage; bn_Oracle := oracle; bn_Total := total |}.

Definition AddRepresentation (address : Address) (diff : Benefit) : M LS unit :=
  s ← getS;
  match GetRepresentation (ls_led s) (Some (ls_bat s)) address with
  | Panic => liftR Panic
  | Ok value => value' ← liftR (Benefit_map2 Bal.Add value diff); setRepresentation address value'
  | Err ErrRepresentationNotFound =>
      value' ← liftR (Benefit_map2 Bal.Add (Benefit_Clone ZeroBenefit) diff);
      setRepresentation address value'
  | Err _ => failS (Errorf "GetRepresentation err: %s ,address: %s")
  end.

Definition SubRepresentation (address : Address) (diff : Benefit) : M LS unit :=
  s ← getS;
  value ← wrapM "GetRepresentation error: %s ,address: %s"
            (liftR (GetRepresentation (ls_led s) (Some (ls_bat s)) address));
  value' ← liftR (Benefit_map2 Bal.Sub value diff);
  setRepresentation address value'.

(** [Weight]: the total delegated to a representative. *)
Definition Weight (l : Ledger) (account : Address) : res Balance :=
  match GetRepresentation l None account with
  | Ok benefit => Ok (bn_Total benefit)
  | Err _ => Ok Bal.ZeroBalance
  | Panic => Panic
  end.

(** [updateRepresentation], run when a ledger is opened: the representation table
    is rebuilt from the stored accounts. *)
Definition accumulateRep (acc : res (gmap Address Benefit)) (kv : Key * Value)
  : res (gmap Address Benefit) :=
  m ← acc;
  match kv.2 with
  | VAccount am =>
      match AM.Token am ChainToken with
      | None => Ok m
      | Some tm =>
          let rep := tm_Representative tm in
          let cur := default (Benefit_Clone ZeroBenefit) (m !! rep) in
          balance ← Bal.Add (bn_Balance cur) (am_CoinBalance am);
          vote ← Bal.Add (bn_Vote cur) (am_CoinVote am);
          network ← Bal.Add (bn_Network cur) (am_CoinNetwork am);
          weight ← AM.VoteWeight am;
          total ← Bal.Add (bn_Total cur) weight;
          Ok (<[rep := {| bn_Balance := balance; bn_Vote := vote; bn_Network := network;
                          bn_Storage := bn_Storage cur; bn_Oracle := bn_Oracle cur;
                          bn_Total := total |}]> m)
      end
  | _ => deserializeError
  end.

Definition is_KRepresentation (k : Key) : bool :=
  match k with KRepresentation _ => true | _ => false end.

Definition updateRepresentation (l : Ledger) : res Ledger :=
  representMap ← foldl accumulateRep (Ok ∅) (store_Iterator l (GetKeyOfParts KeyPrefixAccount []));
  let dropped := filter (λ kv, is_KRepresentation kv.1 = false) (l_store l) in
  Ok (set_store l (map_fold (λ a b st, <[KRepresentation a := VBenefit (Benefit_Clone b)]> st)
                     dropped representMap)).

(** ** Frontiers: [ledger_frontier.go] *)
Definition GetFrontier (l : Ledger) (c : option Batch) (hash : Hash) : res Frontier :=
  match fetch l c (KFrontier hash) with
  | FromCache (VHash h) => Ok (mkFrontier hash h)
  | FromCache _ => Panic
  | FromStore (VHash h) => Ok (mkFrontier hash h)
  | FromStore _ => Err (Errorf "frontier deserialize: %s")
  | Absent => Err ErrFrontierNotFound
  end.

Definition AddFrontier (frontier : Frontier) : M LS unit :=
  bat_Put (KFrontier (fr_HeaderBlock frontier)) (VHash (fr_OpenBlock frontier)).

Definition DeleteFrontier (key : Hash) : M LS unit := bat_Delete (KFrontier key).

(** ** Committing *)

(** [Cache().BatchUpdate(fn)]: run the callback on an empty temporary cache, then
    move its entries to the write cache.  [None] while [GetCache] waits for the
    flusher to free a cache.  An error drops the temporary cache, not what the
    callback did to the rest of the ledger. *)
Definition BatchUpdate {A} (tick : bool) (fn : M LS A) (l : Ledger) : option (res A * Ledger) :=
  match fn (mkLS l ∅ ∅) with
  | (Ok a, s) =>
      lc ← Cache.BatchUpdate tick (l_cache (ls_led s)) (ls_bat s);
      Some (Ok a, set_cache (ls_led s) lc (l_store (ls_led s)))
  | (Err e, s) => Some (Err e, ls_led s)
  | (Panic, s) => Some (Panic, ls_led s)
  end.

(** [DBStore().PutBatch(batch)]. *)
Definition PutBatch : M LS unit :=
  modifyS (λ s, mkLS (set_store (ls_led s) (overlay (ls_txn s) (l_store (ls_led s)))) (ls_bat s) ∅).

(** [DBStore().BatchWrite(true, fn)]: commit the transaction unless [fn] fails. *)
Definition BatchWrite (fn : M LS unit) : M Ledger unit := λ l,
  match (fn;; PutBatch) (mkLS l ∅ ∅) with
  | (r, s) => (r, ls_led s)
  end.

(** One run of the background flusher. *)
Definition Flush (l : Ledger) : option Ledger :=
  '(lc, st) ← MC_flush dumpValue (l_cache l) (l_store l);
  Some (set_cache l lc st).

(** ** The map a ledger presents *)
Definition lview (l : Ledger) : gmap Key Value := Cache.view (l_cache l) (l_store l).
Definition sview (s : LS) : gmap Key Value := overlay (ls_bat s) (lview (ls_led s)).
Definition bview (l : Ledger) (c : option Batch) : gmap Key Value := overlay (default ∅ c) (lview l).
End ledger.
