(* ===== verification/LedgerFacts.v ===== *)
(** * The tables against the map the ledger presents

    Reading through the temporary cache, the ring and the store is reading one
    finite map ([bview], [lview]); writing changes that map by the written record
    ([sview]).  The lemmas of this file turn a successful run of a table operation
    into an equation on maps, which is what the proofs about block processing use. *)

From stdpp Require Import sorting.
From S2P Require Import Prelude Types Cache Storage Ledger.

Section facts.
Context `{Crypto} `{Config}.
Implicit Types (l : Ledger) (s : LS) (c : option Batch) (k : Key) (v : gmap Key Value).

(** ** Reading *)
Definition fetched_value (f : fetched) : option Value :=
  match f with FromCache x | FromStore x => Some x | Absent => None end.

Definition db_ok (l : Ledger) : Prop := ring_ok (l_cache l).

(** Two ledgers with the same cache and store. *)
Definition same_db (l l' : Ledger) : Prop := l_cache l' = l_cache l ∧ l_store l' = l_store l.

Lemma fetch_view l c k : db_ok l → fetched_value (fetch l c k) = bview l c !! k.
Proof.
  intros Hok. unfold fetch, getFromCache, bview. rewrite lookup_overlay.
  assert (Hring : fetched_value
    match MC_Get (l_cache l) k with
    | Hit v => FromCache v | KeyDeleted => Absent
    | NotInCache => match l_store l !! k with Some v => FromStore v | None => Absent end
    end = lview l !! k).
  { unfold lview. rewrite <- MC_lookup_view by done. unfold MC_lookup.
    destruct (MC_Get _ _); cbn; try done. by destruct (l_store l !! k). }
  destruct c as [bat|]; cbn [default]; [|rewrite lookup_empty; exact Hring].
  change (id bat) with bat. unfold Cache_Get.
  destruct (bat !! k) as [[|]|]; [done|done|exact Hring].
Qed.

Lemma bview_None l : bview l None = lview l.
Proof. apply overlay_empty. Qed.

Lemma fetch_lview l k : db_ok l → fetched_value (fetch l None k) = lview l !! k.
Proof. intros. by rewrite fetch_view, bview_None. Qed.

Lemma hasKey_lview l k : db_ok l → hasKey l k = bool_decide (is_Some (lview l !! k)).
Proof.
  intros Hok. unfold hasKey. rewrite <- fetch_lview by done.
  destruct (fetch l None k); symmetry; [apply bool_decide_true; eexists; done..|].
  apply bool_decide_false. by intros [? ?].
Qed.

Lemma fetch_same_db l l' c k : same_db l l' → fetch l' c k = fetch l c k.
Proof. intros [Hc Hs]. unfold fetch, getFromCache. by rewrite Hc, Hs. Qed.

Lemma GetStateBlockConfirmed_same_db l l' c h :
  same_db l l' → GetStateBlockConfirmed l' c h = GetStateBlockConfirmed l c h.
Proof.
  intros [Hc Hs]. unfold GetStateBlockConfirmed, GetBlockPrivatePayload, fetch, getFromCache.
  by rewrite Hc, Hs.
Qed.

Lemma lview_same_db l l' : same_db l l' → lview l' = lview l.
Proof. intros [Hc Hs]. unfold lview. by rewrite Hc, Hs. Qed.

Lemma db_ok_same l l' : same_db l l' → db_ok l → db_ok l'.
Proof. intros [Hc _]. unfold db_ok. by rewrite Hc. Qed.

Lemma same_db_trans l1 l2 l3 : same_db l1 l2 → same_db l2 l3 → same_db l1 l3.
Proof. intros [H1' H2'] [H3' H4']. split; congruence. Qed.

Lemma GetPending_Ok l key p :
  db_ok l → GetPending l key = Ok p ↔ lview l !! KPending key = Some (VPending p).
Proof.
  intros Hok. rewrite <- fetch_lview by done. unfold GetPending.
  destruct (fetch l None _) as [[]|[]|]; cbn; naive_solver.
Qed.

Lemma GetFrontier_Ok l c h f :
  db_ok l → GetFrontier l c h = Ok f →
  fr_HeaderBlock f = h ∧ bview l c !! KFrontier h = Some (VHash (fr_OpenBlock f)).
Proof.
  intros Hok. rewrite <- fetch_view by done. unfold GetFrontier.
  destruct (fetch l c _) as [[]|[]|]; cbn; naive_solver.
Qed.

(** An account is read as it is stored, or as its clone. *)
Lemma GetAccountMetaConfirmed_Ok l c a am :
  db_ok l → GetAccountMetaConfirmed l c a = Ok am →
  ∃ am0, bview l c !! KAccount a = Some (VAccount am0) ∧ (am = am0 ∨ am = AM.Clone am0).
Proof.
  intros Hok. rewrite <- fetch_view by done. unfold GetAccountMetaConfirmed.
  destruct (fetch l c _) as [[]|[]|]; cbn; naive_solver.
Qed.

Lemma GetAccountMetaConfirmed_absent l c a :
  db_ok l → GetAccountMetaConfirmed l c a = Err ErrAccountNotFound → bview l c !! KAccount a = None.
Proof.
  intros Hok. rewrite <- fetch_view by done. unfold GetAccountMetaConfirmed, deserializeError.
  destruct (fetch l c _) as [[]|[]|]; cbn; naive_solver.
Qed.

(** A block is read up to the fields that are never serialized. *)
Lemma GetStateBlockConfirmed_Ok l c h b :
  db_ok l → GetStateBlockConfirmed l c h = Ok b →
  ∃ b0, bview l c !! KBlock h = Some (VBlock b0) ∧
    (b = SB.Clone b0 ∨ ∃ f r p, b = SB.with_local b0 f r p).
Proof.
  intros Hok. rewrite <- fetch_view by done. unfold GetStateBlockConfirmed.
  assert (Heta : ∀ b0, b0 = SB.with_local b0 (sb_Flag b0) (sb_PrivateRecvRsp b0) (sb_PrivatePayload b0))
    by (by intros []).
  destruct (fetch l c _) as [[]|[]|]; cbn; try done.
  - intros; simplify_eq; eauto.
  - intros Hb. exists b0. split; [done|]. right. revert Hb.
    destruct (SB.IsPrivate b0); [destruct (GetBlockPrivatePayload _ _)|]; intros; simplify_eq;
      unfold SB.SetPrivatePayload; eauto.
Qed.

Lemma GetRepresentation_Ok l c a b :
  db_ok l → GetRepresentation l c a = Ok b →
  ∃ b0, bview l c !! KRepresentation a = Some (VBenefit b0) ∧ (b = b0 ∨ b = Benefit_Clone b0).
Proof.
  intros Hok. rewrite <- fetch_view by done. unfold GetRepresentation.
  destruct (fetch l c _) as [[]|[]|]; cbn; naive_solver.
Qed.

Lemma GetRepresentation_absent l c a :
  db_ok l → GetRepresentation l c a = Err ErrRepresentationNotFound →
  bview l c !! KRepresentation a = None.
Proof.
  intros Hok. rewrite <- fetch_view by done. unfold GetRepresentation, deserializeError.
  destruct (fetch l c _) as [[]|[]|]; cbn; naive_solver.
Qed.

(** ** Writing *)

(** [s] runs to [s'] writing the temporary cache only: its map changes by [f]. *)
Definition writes (s : LS) (f : gmap Key Value → gmap Key Value) (s' : LS) : Prop :=
  same_db (ls_led s) (ls_led s') ∧ ls_txn s' = ls_txn s ∧ sview s' = f (sview s).

Lemma writes_id s : writes s id s.
Proof. done. Qed.

Lemma writes_trans s1 f s2 g s3 : writes s1 f s2 → writes s2 g s3 → writes s1 (λ v, g (f v)) s3.
Proof.
  intros ([Hc1 Hs1] & Ht1 & Hv1) ([Hc2 Hs2] & Ht2 & Hv2).
  split_and!; [split; congruence|congruence|congruence].
Qed.

Lemma writes_db s f s' : writes s f s' → same_db (ls_led s) (ls_led s').
Proof. by intros (? & _). Qed.

Lemma writes_lview s f s' : writes s f s' → lview (ls_led s') = lview (ls_led s).
Proof. intros (Hd & _). by apply lview_same_db. Qed.

Lemma bat_Put_writes k x s : ∃ s', bat_Put k x s = (Ok tt, s') ∧ writes s <[k:=x]> s'.
Proof.
  eexists. split; [done|]. split_and!; try done. apply overlay_insert_Val.
Qed.

Lemma bat_Delete_writes k s : ∃ s', bat_Delete k s = (Ok tt, s') ∧ writes s (delete k) s'.
Proof.
  eexists. split; [done|]. split_and!; try done. apply overlay_insert_Del.
Qed.

Lemma rcache_writes key info add s r s' :
  rcache_UpdateAccountPending key info add s = (r, s') → writes s id s'.
Proof.
  unfold rcache_UpdateAccountPending, getS, mbind, M_bind.
  destruct (l_rcache _ !! _) as [amount|]; [|by intros [= <- <-]].
  unfold liftR, modifyS. destruct (if add then _ else _); intros [= <- <-]; done.
Qed.

(** A successful run of a write followed by the rest. *)
Lemma bat_Put_then {A} k x (m : M LS A) s a s' :
  (bat_Put k x ;; m) s = (Ok a, s') → ∃ s1, writes s <[k:=x]> s1 ∧ m s1 = (Ok a, s').
Proof.
  intros Hr. destruct (bat_Put_writes k x s) as (s1 & Hb & Hw). exists s1. split; [done|].
  unfold mbind, M_bind in Hr. by rewrite Hb in Hr.
Qed.

Lemma bat_Delete_then {A} k (m : M LS A) s a s' :
  (bat_Delete k ;; m) s = (Ok a, s') → ∃ s1, writes s (delete k) s1 ∧ m s1 = (Ok a, s').
Proof.
  intros Hr. destruct (bat_Delete_writes k s) as (s1 & Hb & Hw). exists s1. split; [done|].
  unfold mbind, M_bind in Hr. by rewrite Hb in Hr.
Qed.

Lemma bat_Put_Ok k x s r s' : bat_Put k x s = (Ok r, s') → writes s <[k:=x]> s'.
Proof. intros Hr. destruct (bat_Put_writes k x s) as (s1 & Hb & Hw). rewrite Hb in Hr. by simplify_eq. Qed.

Lemma bat_Delete_Ok k s r s' : bat_Delete k s = (Ok r, s') → writes s (delete k) s'.
Proof. intros Hr. destruct (bat_Delete_writes k s) as (s1 & Hb & Hw). rewrite Hb in Hr. by simplify_eq. Qed.

Lemma AddPending_writes key p s r s' :
  AddPending key p s = (Ok r, s') → writes s <[KPending key := VPending p]> s'.
Proof.
  intros (s1 & Hw & Hr)%bat_Put_then. apply rcache_writes in Hr.
  exact (writes_trans _ _ _ _ _ Hw Hr).
Qed.

Lemma DeletePending_writes key s r s' :
  DeletePending key s = (Ok r, s') →
  (∃ p, GetPending (ls_led s) key = Ok p ∧ writes s (delete (KPending key)) s') ∨
  ((∃ e, GetPending (ls_led s) key = Err e) ∧ writes s id s').
Proof.
  unfold DeletePending, getS. unfold mbind at 1, M_bind at 1.
  destruct (GetPending _ _) as [p|e|]; [|intros [= <- <-]; right; split; [eauto|apply writes_id]|done].
  intros (s1 & Hw & Hr)%bat_Delete_then. apply rcache_writes in Hr.
  left. exists p. split; [done|]. exact (writes_trans _ _ _ _ _ Hw Hr).
Qed.

(** [setBlockChild] only looks at a parent that exists and has no child. *)
Definition has_parent (b : StateBlock) : bool :=
  negb (IsGenesisBlock b) && negb (SB.Parent b =? ZeroHash) && negb (SB.IsOpen b).

Definition child_write (b : StateBlock) (v : gmap Key Value) : gmap Key Value :=
  if has_parent b then <[KChild (SB.Parent b) := VHash (SB.GetHash b)]> v else v.

Definition link_write (b : StateBlock) (v : gmap Key Value) : gmap Key Value :=
  match sb_Type b with
  | Open | Receive | ContractReward => <[KLink (sb_Link b) := VHash (SB.GetHash b)]> v
  | _ => v
  end.

Lemma setBlockChild_writes b s r s' :
  db_ok (ls_led s) → setBlockChild b s = (Ok r, s') →
  writes s (child_write b) s' ∧
  (has_parent b = true → ∃ e, GetBlockChild (ls_led s) (Some (ls_bat s)) (SB.Parent b) = Err e).
Proof.
  intros Hok. unfold setBlockChild, child_write. fold (has_parent b).
  destruct (has_parent b); [|by intros [= <- <-]].
  unfold getS. unfold mbind at 1, M_bind at 1.
  destruct (_ && _); [done|]. destruct (GetBlockChild _ _ _) as [h|e|]; [done| |done].
  intros Hw%bat_Put_Ok. eauto.
Qed.

Lemma setBlockLink_writes b s r s' : setBlockLink b s = (Ok r, s') → writes s (link_write b) s'.
Proof.
  unfold setBlockLink, link_write. destruct (sb_Type b); try (by intros [= <- <-]); apply bat_Put_Ok.
Qed.

(** What [UpdateStateBlock] writes. *)
Definition block_write (b : StateBlock) (v : gmap Key Value) : gmap Key Value :=
  <[KBlock (SB.GetHash b) := VBlock (SB.Clone b)]> (link_write b (child_write b v)).

Lemma UpdateStateBlock_writes b s r s' :
  db_ok (ls_led s) → UpdateStateBlock b s = (Ok r, s') →
  writes s (block_write b) s' ∧
  (has_parent b = true → ∃ e, GetBlockChild (ls_led s) (Some (ls_bat s)) (SB.Parent b) = Err e).
Proof.
  intros Hok Hr. unfold UpdateStateBlock, setStateBlock in Hr. inv_m.
  match goal with H1 : setBlockChild _ _ = _ |- _ =>
    apply setBlockChild_writes in H1 as [Hw1 Hc]; [|done] end.
  match goal with H1 : setBlockLink _ _ = _ |- _ => apply setBlockLink_writes in H1 as Hw2 end.
  match goal with H1 : bat_Put _ _ _ = _ |- _ => apply bat_Put_Ok in H1 as Hw3 end.
  split; [|done]. pose proof (writes_trans _ _ _ _ _ Hw1 Hw2) as Hw.
  exact (writes_trans _ _ _ _ _ Hw Hw3).
Qed.

(** ** Accounts and representatives *)
Lemma AddAccountMetaHistory_writes tm b s r s' :
  AddAccountMetaHistory tm b s = (Ok r, s') →
  writes s (λ v, <[KAccountPovHeight (tm_BelongTo tm) (sb_PoVHeight b) (tm_Type tm) := VToken (AM.tm_wire tm)]>
                 (<[KAccountBlockHash (SB.GetHash b) := VToken (AM.tm_wire tm)]> v)) s'.
Proof.
  intros (s1 & Hw1 & Hw2%bat_Put_Ok)%bat_Put_then. exact (writes_trans _ _ _ _ _ Hw1 Hw2).
Qed.

Lemma UpdateAccountMeta_writes am s r s' :
  UpdateAccountMeta am s = (Ok r, s') →
  writes s <[KAccount (am_Address am) := VAccount (AM.Clone am)]> s'.
Proof. apply bat_Put_Ok. Qed.

Lemma AddAccountMeta_writes am s r s' :
  AddAccountMeta am s = (Ok r, s') →
  writes s <[KAccount (am_Address am) := VAccount (AM.Clone am)]> s'.
Proof.
  unfold AddAccountMeta, getS. unfold mbind, M_bind.
  destruct (GetAccountMetaConfirmed _ _ _); [done|apply bat_Put_Ok|done].
Qed.

Lemma bview_sview s : bview (ls_led s) (Some (ls_bat s)) = sview s.
Proof. done. Qed.

(** The benefit recorded for a representative, zero when there is none. *)
Definition rep_of (v : gmap Key Value) (a : Address) : Benefit :=
  match v !! KRepresentation a with Some (VBenefit b) => b | _ => ZeroBenefit end.

(** Recorded benefits are in the form they are stored in. *)
Definition reps_ok (v : gmap Key Value) : Prop :=
  ∀ a x, v !! KRepresentation a = Some x → ∃ b, x = VBenefit b ∧ Benefit_Clone b = b.

Lemma Benefit_Clone_Clone b : Benefit_Clone (Benefit_Clone b) = Benefit_Clone b.
Proof. unfold Benefit_Clone; cbn -[Bal.wire]. by rewrite !BalFacts.Bal_wire_wire. Qed.

Lemma reps_ok_insert v a b : reps_ok v → reps_ok (<[KRepresentation a := VBenefit (Benefit_Clone b)]> v).
Proof.
  intros Hv a' x. destruct (decide (a = a')) as [->|Hne].
  - rewrite lookup_insert_eq. intros [= <-]. eexists. split; [done|apply Benefit_Clone_Clone].
  - rewrite lookup_insert_ne by congruence. apply Hv.
Qed.

Lemma GetRepresentation_rep_of s a b :
  db_ok (ls_led s) → reps_ok (sview s) →
  GetRepresentation (ls_led s) (Some (ls_bat s)) a = Ok b → b = rep_of (sview s) a.
Proof.
  intros Hok Hr Hg. apply GetRepresentation_Ok in Hg as (b0 & Hb0 & Hb); [|done].
  rewrite bview_sview in Hb0. unfold rep_of. rewrite Hb0.
  destruct (Hr _ _ Hb0) as (b1 & [= <-] & Hc). destruct Hb as [->| ->]; [done|by rewrite Hc].
Qed.

(** Both operations put the old record plus or minus the difference. *)
Lemma SubRepresentation_writes a diff s r s' :
  db_ok (ls_led s) → reps_ok (sview s) → SubRepresentation a diff s = (Ok r, s') →
  ∃ b', Benefit_map2 Bal.Sub (rep_of (sview s) a) diff = Ok b' ∧
    writes s <[KRepresentation a := VBenefit (Benefit_Clone b')]> s'.
Proof.
  intros Hok Hreps. unfold SubRepresentation, getS. unfold mbind at 1, M_bind at 1. intros Hr. inv_m.
  match goal with H1 : GetRepresentation _ _ _ = Ok _ |- _ =>
    apply GetRepresentation_rep_of in H1 as ->; [|done..] end.
  eexists. split; [eassumption|by eapply bat_Put_Ok].
Qed.

Lemma AddRepresentation_writes a diff s r s' :
  db_ok (ls_led s) → reps_ok (sview s) → AddRepresentation a diff s = (Ok r, s') →
  ∃ b', Benefit_map2 Bal.Add (rep_of (sview s) a) diff = Ok b' ∧
    writes s <[KRepresentation a := VBenefit (Benefit_Clone b')]> s'.
Proof.
  intros Hok Hreps. unfold AddRepresentation, getS. unfold mbind at 1, M_bind at 1.
  destruct (GetRepresentation _ _ _) as [b|e|] eqn:Hg; [..|done].
  - apply GetRepresentation_rep_of in Hg as ->; [|done..]. intros Hr. inv_m.
    eexists. split; [eassumption|by eapply bat_Put_Ok].
  - destruct e; try done. apply GetRepresentation_absent in Hg; [|done].
    rewrite bview_sview in Hg. unfold rep_of. rewrite Hg.
    change (Benefit_Clone ZeroBenefit) with ZeroBenefit. intros Hr. inv_m.
    eexists. split; [eassumption|by eapply bat_Put_Ok].
Qed.

(** Records other than representations are not touched. *)
Inductive rep_writes (v : gmap Key Value) : gmap Key Value → Prop :=
| rep_writes_refl : rep_writes v v
| rep_writes_step v' a b :
    rep_writes v v' → rep_writes v (<[KRepresentation a := VBenefit (Benefit_Clone b)]> v').

Lemma rep_writes_lookup v v' k :
  rep_writes v v' → (∀ a, k ≠ KRepresentation a) → v' !! k = v !! k.
Proof.
  intros Hr Hk. induction Hr as [|v' a b _ IH]; [done|].
  rewrite lookup_insert_ne; [done|]. intros Heq. by destruct (Hk a).
Qed.

(** ** Committing *)
Lemma BatchUpdate_Ok {A} tick (fn : M LS A) l a l' f :
  db_ok l → BatchUpdate tick fn l = Some (Ok a, l') →
  (∀ s', fn (mkLS l ∅ ∅) = (Ok a, s') → writes (mkLS l ∅ ∅) f s') →
  db_ok l' ∧ lview l' = f (lview l).
Proof.
  intros Hok. unfold BatchUpdate.
  destruct (fn (mkLS l ∅ ∅)) as [[a'|e|] s'] eqn:E; cbn; [|done..].
  destruct (Cache.BatchUpdate _ _ _) as [lc|] eqn:Eb; cbn; [|done].
  intros [= -> <-] Hf. destruct (Hf _ eq_refl) as ([Hc Hs] & _ & Hv). cbn [ls_led] in *.
  unfold db_ok in *. rewrite Hc in Eb.
  destruct (BatchUpdate_ok tick (l_cache l) (ls_bat s') lc (l_store l) Hok Eb) as [Hok' Hv'].
  split; [done|]. unfold lview; cbn [l_cache l_store set_cache]. rewrite Hs, Hv'.
  unfold sview in Hv. rewrite (lview_same_db l (ls_led s')) in Hv by done.
  cbn [ls_bat ls_led] in Hv. by rewrite overlay_empty in Hv.
Qed.
End facts.

#[export] Hint Resolve writes_id : qlc.
