(* ===== verification/Trie.v ===== *)
(** * The contract trie: [trie/node.go], [trie/trie.go]

    The storage a contract call writes is collected in a Patricia trie whose root
    hash goes into the block ([Extra]).  This file models the nodes, lookup,
    insertion and hashing, and shows
    - insertion terminates, keeps the trie canonical and acts on lookups as the
      update of a finite map;
    - a canonical trie is determined by its lookups, so the root and its hash do
      not depend on the order of insertion (the source inserts in the order a Go
      map is iterated in, which is random).
    The iterator is in [TrieIter.v], saving and loading in [TrieStore.v].

    A [*TrieNode] is a [TrieNode] with [NilNode] for the nil pointer, and the map
    [children] is the list of its entries by increasing key.  Nodes are never
    changed once they are linked into a trie (insertion clones), so the memoised
    field [hash] of a node always holds what [Hash] computes from the rest; it is
    kept only for [UnknownNode], the stub of a child not loaded yet, which consists
    of nothing else. *)

From S2P Require Import Prelude Types.

#[local] Set Warnings "-register-all".

Inductive TrieNode : Type :=
| NilNode
| UnknownNode (hash : Hash)
| FullNode (children : list (Z * TrieNode)) (child : TrieNode)
| ShortNode (key : list Z) (child : TrieNode)
| ValueNode (value : list Z)
| HashNode (value : list Z).

Definition isNil (t : TrieNode) : bool := match t with NilNode => true | _ => false end.

Definition IsLeafNode (t : TrieNode) : bool :=
  match t with ValueNode _ | HashNode _ => true | _ => false end.

Definition IsFullNode (t : TrieNode) : bool :=
  match t with FullNode _ _ => true | _ => false end.

(** Read and write an entry of [children]; a missing entry reads as nil. *)
Fixpoint child_at (cs : list (Z * TrieNode)) (k : Z) : TrieNode :=
  match cs with
  | [] => NilNode
  | (b, x) :: cs' => if b =? k then x else child_at cs' k
  end.

Fixpoint set_child (cs : list (Z * TrieNode)) (k : Z) (x : TrieNode) : list (Z * TrieNode) :=
  match cs with
  | [] => [(k, x)]
  | (b, y) :: cs' =>
      if k <? b then (k, x) :: cs
      else if b =? k then (k, x) :: cs'
      else (b, y) :: set_child cs' k x
  end.

(** The values longer than a hash that are not saved yet. *)
Abbreviation Unsaved := (gmap Hash (list Z)) (only parsing).

Record Trie := mkTrie {
  tr_Root : TrieNode;
  unSavedRefValueMap : Unsaved;
}.

Definition BytesToHash (data : list Z) : res Hash :=
  if Nat.eqb (length data) HashSize then Ok (be_combine data) else Err (Errorf "invalid Hash size").

(** [NewTrie(nil, nil, pool)]. *)
Definition emptyTrie : Trie := mkTrie NilNode ∅.

Definition deleteUnSavedRefValueMap (node : TrieNode) : M Unsaved unit :=
  match node with
  | HashNode value =>
      match BytesToHash value with
      | Ok valueHash => modifyS (delete valueHash)
      | _ => mret tt
      end
  | _ => mret tt
  end.

(** The loop over [index]: the length of the longest common prefix. *)
Fixpoint commonLen (key nodeKey : list Z) : nat :=
  match key, nodeKey with
  | char :: key', c :: nodeKey' => if c =? char then S (commonLen key' nodeKey') else O
  | _, _ => O
  end.

(** The case of a short node whose [fullNode] was chosen: add the new leaf to it and
    put the common prefix back. *)
Definition addToFull (setValue : TrieNode → list Z → TrieNode → M Unsaved TrieNode)
    (index : nat) (key : list Z) (leafNode : TrieNode) (children : list (Z * TrieNode))
    (child : TrieNode) : M Unsaved TrieNode :=
  fullNode ← match drop index key with
             | keyChar :: restKey =>
                 x ← setValue (child_at children keyChar) restKey leafNode;
                 mret (FullNode (set_child children keyChar x) child)
             | [] => mret (FullNode children leafNode)
             end;
  mret (if (0 <? index)%nat then ShortNode (take index key) fullNode else fullNode).

Fixpoint setValue (fuel : nat) (node : TrieNode) (key : list Z) (leafNode : TrieNode)
    : M Unsaved TrieNode :=
  match fuel with
  | O => failS OutOfFuel
  | S fuel =>
      match node with
      | NilNode =>
          mret (match key with [] => leafNode | _ => ShortNode key leafNode end)
      | FullNode children child =>
          match key with
          | firstChar :: rest =>
              x ← setValue fuel (child_at children firstChar) rest leafNode;
              mret (FullNode (set_child children firstChar x) child)
          | [] => deleteUnSavedRefValueMap child;; mret (FullNode children leafNode)
          end
      | ShortNode nodeKey nodeChild =>
          let index := commonLen key nodeKey in
          let add := addToFull (setValue fuel) index key leafNode in
          match drop index nodeKey with
          | [] =>
              match nodeChild with
              | NilNode => liftR Panic
              | ValueNode _ | HashNode _ =>
                  match drop index key with
                  | [] => deleteUnSavedRefValueMap nodeChild;; mret (ShortNode nodeKey leafNode)
                  | _ => add [] nodeChild
                  end
              | FullNode children child => add children child
              | _ => add [] nodeChild
              end
          | nodeChar :: nodeRestKey =>
              x ← setValue fuel (child_at [] nodeChar) nodeRestKey nodeChild;
              add (set_child [] nodeChar x) NilNode
          end
      | _ =>
          match key with
          | firstChar :: rest =>
              x ← setValue fuel NilNode rest leafNode;
              mret (FullNode (set_child [] firstChar x) node)
          | [] => deleteUnSavedRefValueMap node;; mret leafNode
          end
      end
  end.

(** Every call below the first has a shorter key, or key and node of a fresh child. *)
Definition setFuel (key : list Z) : nat := S (S (length key)).

(** Apply [f] to an entry of [children]. *)
Definition on_child {A} (d : A) (f : TrieNode → A) (k : Z) : list (Z * TrieNode) → A :=
  fix go cs :=
    match cs with
    | [] => d
    | (b, x) :: cs' => if b =? k then f x else go cs'
    end.

Fixpoint getLeafNode (node : TrieNode) (key : list Z) : TrieNode :=
  match key with
  | [] =>
      match node with
      | HashNode _ | ValueNode _ => node
      | FullNode _ child => child
      | _ => NilNode
      end
  | c :: key' =>
      match node with
      | FullNode children _ => on_child NilNode (λ x, getLeafNode x key') c children
      | ShortNode nodeKey child =>
          if has_prefix key nodeKey then getLeafNode child (drop (length nodeKey) key)
          else NilNode
      | _ => NilNode
      end
  end.

Section crypto.
Context `{Crypto}.

(** The bytes of the children of a full node in its hash. *)
Definition childBytes (Hash : TrieNode → res Z) : list (Z * TrieNode) → res (list Z) :=
  fix go cs :=
    match cs with
    | [] => Ok []
    | (key, x) :: cs' =>
        h ← Hash x;
        rest ← go cs';
        Ok (key :: hash_bytes h ++ rest)
    end.

(** In the source the type byte of a leaf is overwritten by its value. *)
Fixpoint TrieNode_Hash (t : TrieNode) : res Hash :=
  match t with
  | NilNode => Panic
  | UnknownNode hash => Ok hash
  | FullNode children child =>
      own ← match child with
            | NilNode => Ok []
            | _ => h ← TrieNode_Hash child; Ok (hash_bytes h)
            end;
      rest ← childBytes TrieNode_Hash children;
      Ok (HashData (1 :: own ++ rest))
  | ShortNode key child =>
      h ← TrieNode_Hash child;
      Ok (HashData (2 :: key ++ hash_bytes h))
  | HashNode value | ValueNode value => Ok (HashData value)
  end.

(** [Trie.Hash], nil for an empty trie. *)
Definition Trie_Hash (t : Trie) : res (option Hash) :=
  match tr_Root t with
  | NilNode => Ok None
  | root => h ← TrieNode_Hash root; Ok (Some h)
  end.

(** A value longer than 32 bytes is kept beside the trie, under its hash. *)
Definition isLong (value : list Z) : bool := (HashSize <? length value)%nat.

Definition newLeaf (value : list Z) : TrieNode :=
  if isLong value then HashNode (hash_bytes (HashData value)) else ValueNode value.

Definition SetValue (t : Trie) (key value : list Z) : res Trie :=
  match setValue (setFuel key) (tr_Root t) key (newLeaf value) (unSavedRefValueMap t) with
  | (Ok root, u) =>
      Ok (mkTrie root (if isLong value then <[HashData value:=value]> u else u))
  | (Err e, _) => Err e
  | (Panic, _) => Panic
  end.

(** [for key, value := range m { trie.SetValue(key, value) }]. *)
Fixpoint SetValues (t : Trie) (kvs : list (list Z * list Z)) : res Trie :=
  match kvs with
  | [] => Ok t
  | (k, v) :: kvs' => t' ← SetValue t k v; SetValues t' kvs'
  end.

Section db.
(** The store the trie was opened on: [None] for the nil store, else what
    [trie.get] gives under the key of a hash. *)
Context (db : option (Hash → res (list Z))).

(** [getRefValue], with a nil result as the empty value. *)
Definition getRefValue (t : Trie) (key : list Z) : res (list Z) :=
  hashKey ← BytesToHash key;
  match unSavedRefValueMap t !! hashKey with
  | Some value => Ok value
  | None =>
      match db with
      | None => Ok []
      | Some get => get hashKey
      end
  end.

(** A nil slice and an empty one are alike to every caller. *)
Definition LeafNodeValue (t : Trie) (leafNode : TrieNode) : res (list Z) :=
  match leafNode with
  | ValueNode value => Ok value
  | HashNode value => match getRefValue t value with Err _ => Ok [] | r => r end
  | _ => Ok []
  end.

Definition GetValue (t : Trie) (key : list Z) : res (list Z) :=
  LeafNodeValue t (getLeafNode (tr_Root t) key).
End db.
End crypto.

(** ** Canonical tries

    A full node branches (two entries at least, its own value included), a short
    node has a key and stands above a leaf or a full node, and no entry is nil. *)
Fixpoint keys_sorted (cs : list (Z * TrieNode)) : bool :=
  match cs with
  | (a, _) :: (((b, _) :: _) as cs') => (a <? b) && keys_sorted cs'
  | _ => true
  end.

Fixpoint canonical (t : TrieNode) : bool :=
  match t with
  | NilNode | UnknownNode _ => false
  | FullNode children child =>
      keys_sorted children &&
      (fix all cs := match cs with [] => true | (_, x) :: cs' => canonical x && all cs' end) children &&
      (isNil child || IsLeafNode child) &&
      (2 <=? length children + (if isNil child then 0 else 1))%nat
  | ShortNode key child =>
      negb (Nat.eqb (length key) 0) && (IsLeafNode child || IsFullNode child) && canonical child
  | ValueNode _ | HashNode _ => true
  end.

(** The root of a trie may be nil. *)
Definition canonicalRoot (t : TrieNode) : bool := isNil t || canonical t.

(** Induction over the entries of a full node. *)
Lemma TrieNode_nested_ind (P : TrieNode → Prop) :
  P NilNode → (∀ h, P (UnknownNode h)) →
  (∀ cs c, Forall (λ e, P e.2) cs → P c → P (FullNode cs c)) →
  (∀ k c, P c → P (ShortNode k c)) → (∀ v, P (ValueNode v)) → (∀ v, P (HashNode v)) →
  ∀ t, P t.
Proof.
  intros HN HU HF HS HV HH. fix IH 1. intros [|h|cs c|k c|v|v];
    [exact HN|apply HU| |apply HS, IH|apply HV|apply HH].
  apply HF; [|apply IH]. induction cs as [|[b x] cs IHcs]; constructor; [apply IH|exact IHcs].
Qed.

Lemma canonical_full cs c :
  canonical (FullNode cs c) = true ↔
  keys_sorted cs = true ∧ Forall (λ e, canonical e.2 = true) cs ∧ (c = NilNode ∨ IsLeafNode c = true) ∧
  (2 ≤ length cs + (if isNil c then 0 else 1))%nat.
Proof.
  cbn [canonical]. rewrite !andb_true_iff, orb_true_iff, Nat.leb_le.
  assert (Hall : (fix all cs := match cs with [] => true | (_, x) :: cs' => canonical x && all cs' end) cs
                   = true ↔ Forall (λ e, canonical e.2 = true) cs).
  { induction cs as [|[b x] cs IH]; [split; [constructor|done]|].
    rewrite andb_true_iff, Forall_cons_iff, IH. done. }
  rewrite Hall. assert (isNil c = true ↔ c = NilNode) as -> by (destruct c; done). tauto.
Qed.

Lemma canonical_short k c :
  canonical (ShortNode k c) = true ↔
  k ≠ [] ∧ (IsLeafNode c = true ∨ IsFullNode c = true) ∧ canonical c = true.
Proof.
  cbn [canonical]. rewrite !andb_true_iff, orb_true_iff. destruct k; cbn; naive_solver.
Qed.

Lemma leaf_canonical t : IsLeafNode t = true → canonical t = true.
Proof. by destruct t. Qed.

(** *** Entries of a full node *)
Lemma on_child_at {A} (d : A) f k cs : f NilNode = d → on_child d f k cs = f (child_at cs k).
Proof. intros Hd. induction cs as [|[b x] cs IH]; cbn; [done|]. by case_match. Qed.

Lemma keys_sorted_tail e cs : keys_sorted (e :: cs) = true → keys_sorted cs = true.
Proof. destruct e as [a x], cs as [|[b y] cs]; [done|]. cbn. rewrite andb_true_iff. tauto. Qed.

Lemma keys_sorted_cons a x cs :
  keys_sorted ((a, x) :: cs) = true ↔ keys_sorted cs = true ∧ Forall (λ e, a < e.1) cs.
Proof.
  revert a x. induction cs as [|[b y] cs IH]; intros a x.
  - split; [intros _; split; [done|constructor]|done].
  - change (keys_sorted ((a, x) :: (b, y) :: cs)) with ((a <? b) && keys_sorted ((b, y) :: cs)).
    rewrite andb_true_iff, Z.ltb_lt, Forall_cons_iff. cbn [fst]. split.
    + intros [Hab Hs]. split; [done|]. split; [done|]. apply IH in Hs as [_ Hs].
      eapply list.Forall_impl; [exact Hs|]. cbn. lia.
    + tauto.
Qed.

Lemma child_at_lt a cs : Forall (λ e, a < e.1) cs → child_at cs a = NilNode.
Proof.
  induction 1 as [|[b x] cs Hb _ IH]; [done|]. cbn in *. by destruct (Z.eqb_spec b a); [lia|].
Qed.

Lemma child_at_set cs k x k' :
  keys_sorted cs = true → child_at (set_child cs k x) k' = if k =? k' then x else child_at cs k'.
Proof.
  induction cs as [|[b y] cs IH]; intros Hs; [done|].
  cbn [set_child]. destruct (Z.ltb_spec k b) as [Hkb|Hkb]; [done|].
  destruct (Z.eqb_spec b k) as [->|Hne].
  - cbn. by destruct (Z.eqb_spec k k').
  - cbn [child_at]. rewrite IH by (by eapply keys_sorted_tail).
    destruct (Z.eqb_spec b k'), (Z.eqb_spec k k'); try done. lia.
Qed.

Lemma set_child_keys (P : Z → Prop) cs k x :
  P k → Forall (λ e, P e.1) cs → Forall (λ e, P e.1) (set_child cs k x).
Proof.
  intros Hk. induction 1 as [|[b y] cs Hb Hcs IH]; cbn; [by repeat constructor|].
  repeat case_match; by repeat constructor.
Qed.

Lemma set_child_sorted cs k x : keys_sorted cs = true → keys_sorted (set_child cs k x) = true.
Proof.
  induction cs as [|[b y] cs IH]; intros Hs; [done|]. cbn [set_child].
  destruct (Z.ltb_spec k b) as [Hkb|Hkb].
  - change (keys_sorted ((k, x) :: (b, y) :: cs)) with ((k <? b) && keys_sorted ((b, y) :: cs)).
    rewrite Hs. by destruct (Z.ltb_spec k b); [|lia].
  - apply keys_sorted_cons in Hs as [Hs Hlt]. destruct (Z.eqb_spec b k) as [->|Hne].
    + by apply keys_sorted_cons.
    + apply keys_sorted_cons. split; [by apply IH|]. apply set_child_keys; [lia|done].
Qed.

Lemma set_child_Forall (P : TrieNode → Prop) cs k x :
  P x → Forall (λ e, P e.2) cs → Forall (λ e, P e.2) (set_child cs k x).
Proof.
  intros Hx. induction 1 as [|[b y] cs Hb Hcs IH]; cbn; [by repeat constructor|].
  repeat case_match; by repeat constructor.
Qed.

Lemma set_child_length cs k x :
  (length cs ≤ length (set_child cs k x))%nat ∧ (1 ≤ length (set_child cs k x))%nat.
Proof. induction cs as [|[b y] cs IH]; cbn; [lia|]. repeat case_match; cbn; lia. Qed.

Lemma child_at_elem cs k : child_at cs k ≠ NilNode → (k, child_at cs k) ∈ cs.
Proof.
  induction cs as [|[b x] cs IH]; cbn; [done|]. destruct (Z.eqb_spec b k) as [->|]; [left|].
  intros ?. right. auto.
Qed.

Lemma child_at_Forall (P : TrieNode → Prop) cs k :
  Forall (λ e, P e.2) cs → child_at cs k = NilNode ∨ P (child_at cs k).
Proof.
  induction 1 as [|[b x] cs Hx _ IH]; [by left|]. cbn. case_match; [by right|done].
Qed.

Lemma elem_child_at cs k x : keys_sorted cs = true → (k, x) ∈ cs → child_at cs k = x.
Proof.
  induction cs as [|[b y] cs IH]; intros Hs Hin; [by apply elem_of_nil in Hin|].
  apply keys_sorted_cons in Hs as [Hs Hlt]. apply elem_of_cons in Hin as [[= -> ->]|Hin]; cbn.
  - by rewrite Z.eqb_refl.
  - rewrite list.Forall_forall in Hlt. specialize (Hlt _ Hin); cbn in Hlt.
    destruct (Z.eqb_spec b k); [lia|]. auto.
Qed.

(** *** Lookups as functions of the key *)
Definition pre (p : list Z) (f : list Z → TrieNode) : list Z → TrieNode := λ k,
  if has_prefix k p then f (drop (length p) k) else NilNode.

Definition upd (key : list Z) (l : TrieNode) (f : list Z → TrieNode) : list Z → TrieNode := λ k,
  if decide (k = key) then l else f k.

Lemma has_prefix_app p q k : has_prefix k (p ++ q) = has_prefix k p && has_prefix (drop (length p) k) q.
Proof.
  revert k. induction p as [|x p IH]; intros [|y k]; cbn; try done. rewrite IH. by rewrite andb_assoc.
Qed.

Lemma has_prefix_true k p : has_prefix k p = true ↔ k = p ++ drop (length p) k.
Proof.
  revert k. induction p as [|x p IH]; intros [|y k]; cbn; try done.
  rewrite andb_true_iff, IH, Z.eqb_eq. split; [intros [-> Heq]; by f_equal|].
  intros Heq. injection Heq as -> Heq. by split.
Qed.

Lemma has_prefix_self p k : has_prefix (p ++ k) p = true.
Proof. induction p as [|x p IH]; [by destruct k|]. cbn. by rewrite Z.eqb_refl. Qed.

Lemma pre_app p q f k : pre (p ++ q) f k = pre p (pre q f) k.
Proof.
  unfold pre. rewrite has_prefix_app, length_app. destruct (has_prefix k p); [|done].
  cbn. by rewrite drop_drop.
Qed.

Lemma pre_self p f k : pre p f (p ++ k) = f k.
Proof. unfold pre. by rewrite has_prefix_self, drop_app_length. Qed.

Lemma pre_ext p f g k : (∀ k', f k' = g k') → pre p f k = pre p g k.
Proof. intros Hfg. unfold pre. case_match; [apply Hfg|done]. Qed.

Lemma pre_upd p key l f k : pre p (upd key l f) k = upd (p ++ key) l (pre p f) k.
Proof.
  unfold pre, upd. destruct (has_prefix k p) eqn:Hp.
  - assert (∃ r, k = p ++ r) as [r ->] by (eexists; by apply has_prefix_true).
    rewrite drop_app_length. destruct (decide (r = key)) as [->|Hne].
    + by rewrite decide_True.
    + rewrite decide_False; [done|]. intros ?. by simplify_list_eq.
  - rewrite decide_False; [done|]. intros ->. by rewrite has_prefix_self in Hp.
Qed.

Lemma get_nil k : getLeafNode NilNode k = NilNode.
Proof. by destruct k. Qed.

Lemma get_leaf l k : IsLeafNode l = true → getLeafNode l k = upd [] l (λ _, NilNode) k.
Proof. by destruct l, k. Qed.

Lemma get_full cs c k :
  getLeafNode (FullNode cs c) k =
  match k with [] => c | b :: k' => getLeafNode (child_at cs b) k' end.
Proof. destruct k as [|b k]; [done|]. cbn [getLeafNode]. apply on_child_at, get_nil. Qed.

Lemma get_short p c k : p ≠ [] → getLeafNode (ShortNode p c) k = pre p (getLeafNode c) k.
Proof. by destruct p as [|b p], k as [|b' k]. Qed.

(** Put a key above a node: the nil case of [setValue]. *)
Definition above (key : list Z) (t : TrieNode) : TrieNode :=
  match key with [] => t | _ => ShortNode key t end.

Lemma get_above p c k : getLeafNode (above p c) k = pre p (getLeafNode c) k.
Proof. destruct p as [|b p]; [by destruct k|]. by apply get_short. Qed.

Lemma canonical_above p c :
  IsLeafNode c = true ∨ IsFullNode c = true → canonical c = true → canonical (above p c) = true.
Proof. intros. destruct p; [done|]. by apply canonical_short. Qed.

Lemma get_set_full cs c b rest l x k :
  keys_sorted cs = true →
  (∀ k, getLeafNode x k = upd rest l (getLeafNode (child_at cs b)) k) →
  getLeafNode (FullNode (set_child cs b x) c) k = upd (b :: rest) l (getLeafNode (FullNode cs c)) k.
Proof.
  intros Hs Hx. unfold upd. rewrite !get_full. destruct k as [|b' k]; [done|].
  rewrite child_at_set by done. destruct (Z.eqb_spec b b') as [<-|Hne].
  - rewrite Hx. unfold upd. repeat case_decide; naive_solver.
  - rewrite decide_False; [done|naive_solver].
Qed.

Lemma get_own_full cs c l k :
  getLeafNode (FullNode cs l) k = upd [] l (getLeafNode (FullNode cs c)) k.
Proof. unfold upd. rewrite !get_full. by destruct k. Qed.

Lemma commonLen_spec key nodeKey :
  ∃ p ks ns, key = p ++ ks ∧ nodeKey = p ++ ns ∧ commonLen key nodeKey = length p ∧
    (∀ a b ks' ns', ks = a :: ks' → ns = b :: ns' → a ≠ b).
Proof.
  revert nodeKey. induction key as [|a key IH]; intros [|b nodeKey].
  - by exists [], [], [].
  - by exists [], [], (b :: nodeKey).
  - by exists [], (a :: key), [].
  - cbn. destruct (Z.eqb_spec b a) as [->|Hne].
    + destruct (IH nodeKey) as (p & ks & ns & -> & -> & -> & Hd). by exists (a :: p), ks, ns.
    + exists [], (a :: key), (b :: nodeKey). split_and!; [done..|]. naive_solver.
Qed.

(** *** Insertion *)

(** What insertion does to the values not saved yet: at most the reference of the
    leaf it replaces is dropped. *)
Definition released (old : TrieNode) (u u' : Unsaved) : Prop :=
  u' = u ∨ ∃ w h, old = HashNode w ∧ BytesToHash w = Ok h ∧ u' = delete h u.

Definition inserted (node : TrieNode) (key : list Z) (l : TrieNode) (u : Unsaved)
    (r : res TrieNode * Unsaved) : Prop :=
  ∃ t u', r = (Ok t, u') ∧ canonical t = true ∧
    (∀ k, getLeafNode t k = upd key l (getLeafNode node) k) ∧ released (getLeafNode node key) u u'.

Lemma deleteUnSaved_spec t u :
  ∃ u', deleteUnSavedRefValueMap t u = (Ok tt, u') ∧ released t u u'.
Proof.
  unfold released. destruct t; cbn; eauto. destruct (BytesToHash value) eqn:E; cbn; eauto.
  eexists. split; [done|]. right. eauto.
Qed.

Lemma addToFull_spec (set : TrieNode → list Z → TrieNode → M Unsaved TrieNode) p ks l cs c u :
  IsLeafNode l = true → keys_sorted cs = true → Forall (λ e, canonical e.2 = true) cs →
  c = NilNode ∨ IsLeafNode c = true →
  match ks with
  | [] => cs ≠ []
  | b :: rest =>
      inserted (child_at cs b) rest l u (set (child_at cs b) rest l u) ∧
      ∀ x, (2 ≤ length (set_child cs b x) + (if isNil c then 0 else 1))%nat
  end →
  ∃ t u', addToFull set (length p) (p ++ ks) l cs c u = (Ok t, u') ∧ canonical t = true ∧
    (∀ k, getLeafNode t k = upd (p ++ ks) l (pre p (getLeafNode (FullNode cs c))) k) ∧
    released (getLeafNode (FullNode cs c) ks) u u'.
Proof.
  intros Hl Hs Hall Hc Hks.
  assert (Hfull : ∃ cs' c' u', canonical (FullNode cs' c') = true ∧
    (∀ k, getLeafNode (FullNode cs' c') k = upd ks l (getLeafNode (FullNode cs c)) k) ∧
    released (getLeafNode (FullNode cs c) ks) u u' ∧
    addToFull set (length p) (p ++ ks) l cs c u = (Ok (above p (FullNode cs' c')), u')).
  { unfold addToFull. rewrite drop_app_length, take_app_length.
    destruct ks as [|b rest].
    - exists cs, l, u. split_and!; [|by apply get_own_full|by left|by destruct p].
      apply canonical_full. split_and!; [done..|by right|]. destruct cs; [done|].
      destruct l; cbn in *; try done; lia.
    - destruct Hks as [(x & u' & Hrun & Hx & Hget & Hrel) Hcount].
      exists (set_child cs b x), c, u'. split_and!.
      + apply canonical_full. split_and!; [by apply set_child_sorted| |done|done].
        by apply (set_child_Forall (λ t, canonical t = true)).
      + intros k. by apply get_set_full.
      + rewrite get_full. done.
      + unfold mbind, M_bind. rewrite Hrun. by destruct p. }
  destruct Hfull as (cs' & c' & u' & Hcan & Hget & Hrel & ->).
  eexists _, _. split; [done|]. split; [apply canonical_above; auto|]. split; [|done].
  intros k. rewrite get_above, <- pre_upd. by apply pre_ext.
Qed.

Lemma get_above_leaf key l k :
  IsLeafNode l = true → getLeafNode (above key l) k = upd key l (getLeafNode NilNode) k.
Proof.
  intros Hl. rewrite get_above. rewrite (pre_ext _ _ (upd [] l (λ _, NilNode))) by (intros; by apply get_leaf).
  rewrite pre_upd, app_nil_r. unfold upd, pre. rewrite get_nil. by repeat case_match.
Qed.

Lemma setValue_nil fuel key t u : setValue (S fuel) NilNode key t u = (Ok (above key t), u).
Proof. by destruct key. Qed.

Lemma setValue_on_leaf fuel t l u :
  IsLeafNode t = true → setValue (S fuel) t [] l u = (deleteUnSavedRefValueMap t;; mret l) u.
Proof. by destruct t. Qed.

(** The two entries of a full node made for a short node that is split. *)
Lemma set_child_two a b x y : a ≠ b → length (set_child (set_child [] a x) b y) = 2%nat.
Proof. intros. cbn. destruct (Z.ltb_spec b a), (Z.eqb_spec a b); cbn; lia. Qed.

Section step.
Context (fuel : nat) (l : TrieNode) (Hl : IsLeafNode l = true).
Context (IH : ∀ node key u, canonicalRoot node = true → (length key + 2 ≤ fuel)%nat →
  inserted node key l u (setValue fuel node key l u)).

Lemma child_at_root cs b : Forall (λ e, canonical e.2 = true) cs → canonicalRoot (child_at cs b) = true.
Proof.
  intros Hall. unfold canonicalRoot.
  destruct (child_at_Forall (λ t, canonical t = true) cs b Hall) as [-> | ->]; [done|]. by rewrite orb_true_r.
Qed.

Lemma setValue_full_step cs c key u :
  canonical (FullNode cs c) = true → (length key + 2 ≤ S fuel)%nat →
  inserted (FullNode cs c) key l u (setValue (S fuel) (FullNode cs c) key l u).
Proof.
  intros Hcan Hf. apply canonical_full in Hcan as (Hs & Hall & Hc & Hn). destruct key as [|b rest].
  - destruct (deleteUnSaved_spec c u) as (u' & Hd & Hrel). exists (FullNode cs l), u'. split_and!.
    + cbn. unfold mbind, M_bind. by rewrite Hd.
    + apply canonical_full. split_and!; [done..|by right|]. destruct l; cbn in *; try done; case_match; lia.
    + intros k. apply get_own_full.
    + by rewrite get_full.
  - destruct (IH (child_at cs b) rest u) as (x & u' & Hrun & Hx & Hget & Hrel);
      [by apply child_at_root|cbn in Hf; lia|].
    exists (FullNode (set_child cs b x) c), u'. split_and!.
    + cbn. unfold mbind, M_bind. by rewrite Hrun.
    + apply canonical_full. split_and!; [by apply set_child_sorted| |done|].
      * by apply (set_child_Forall (λ t, canonical t = true)).
      * pose proof (set_child_length cs b x). lia.
    + intros k. by apply get_set_full.
    + by rewrite get_full.
Qed.

(** A leaf where a longer key is inserted becomes the value of a full node. *)
Lemma setValue_leaf_step t key u :
  IsLeafNode t = true → (length key + 2 ≤ S fuel)%nat →
  inserted t key l u (setValue (S fuel) t key l u).
Proof.
  intros Ht Hf. destruct key as [|b rest].
  - destruct (deleteUnSaved_spec t u) as (u' & Hd & Hrel). exists l, u'. split_and!.
    + rewrite setValue_on_leaf by done. unfold mbind, M_bind. by rewrite Hd.
    + by apply leaf_canonical.
    + intros k. unfold upd. rewrite !get_leaf by done. unfold upd. by repeat case_decide.
    + by rewrite get_leaf.
  - destruct fuel as [|fuel']; [cbn in Hf; lia|]. exists (FullNode [(b, above rest l)] t), u. split_and!.
    + destruct t; try done; cbn [setValue]; unfold mbind, M_bind; by rewrite setValue_nil.
    + apply canonical_full. split_and!; [done| |by right|destruct t; cbn in *; try done; lia].
      constructor; [|constructor]. by apply canonical_above; [left|apply leaf_canonical].
    + intros k. change [(b, above rest l)] with (set_child [] b (above rest l)).
      rewrite (get_set_full [] t b rest l) by (done || (intros; by apply get_above_leaf)).
      unfold upd. case_decide; [done|]. rewrite get_full, get_leaf by done.
      destruct k as [|b' [|]]; done.
    + by left.
Qed.

Lemma get_full_empty c k : IsLeafNode c = true → getLeafNode (FullNode [] c) k = getLeafNode c k.
Proof. intros. rewrite get_full, get_leaf by done. by destruct k as [|? []]. Qed.

Lemma replace_short nk c u :
  nk ≠ [] → IsLeafNode c = true →
  inserted (ShortNode nk c) nk l u ((deleteUnSavedRefValueMap c;; mret (ShortNode nk l)) u).
Proof.
  intros Hnk Hc. destruct (deleteUnSaved_spec c u) as (u' & Hd & Hrel). exists (ShortNode nk l), u'.
  split_and!.
  - unfold mbind, M_bind. by rewrite Hd.
  - apply canonical_short. split_and!; [done|by left|by apply leaf_canonical].
  - intros k. replace (ShortNode nk l) with (above nk l) by (by destruct nk).
    rewrite get_above_leaf by done. unfold upd. case_decide; [done|].
    rewrite get_nil, get_short by done. unfold pre. case_match eqn:Hp; [|done].
    apply has_prefix_true in Hp. rewrite get_leaf by done. unfold upd. rewrite decide_False; [done|].
    intros Hdrop. rewrite Hdrop, app_nil_r in Hp. done.
  - rewrite get_short by done. rewrite <- (app_nil_r nk) at 2. rewrite pre_self, get_leaf by done. done.
Qed.

(** The short node [p ++ ns] is replaced by [p] above a full node. *)
Lemma add_inserted p ks ns cs c' c u :
  p ++ ns ≠ [] → keys_sorted cs = true → Forall (λ e, canonical e.2 = true) cs →
  c' = NilNode ∨ IsLeafNode c' = true → (length ks + 2 ≤ S fuel)%nat →
  (∀ k, getLeafNode (FullNode cs c') k = pre ns (getLeafNode c) k) →
  match ks with
  | [] => cs ≠ []
  | b :: _ => ∀ x, (2 ≤ length (set_child cs b x) + (if isNil c' then 0 else 1))%nat
  end →
  inserted (ShortNode (p ++ ns) c) (p ++ ks) l u
    (addToFull (setValue fuel) (length p) (p ++ ks) l cs c' u).
Proof.
  intros Hne Hs Hall Hc' Hf Hget Hcount.
  destruct (addToFull_spec (setValue fuel) p ks l cs c' u) as (t & u' & Hrun & Hcan & Hg & Hrel); try done.
  { destruct ks as [|b rest]; [done|]. split; [|done].
    apply IH; [by apply child_at_root|cbn in Hf; lia]. }
  exists t, u'. split_and!; [done..| |].
  - intros k. rewrite Hg. unfold upd. case_decide; [done|].
    rewrite get_short, pre_app by done. by apply pre_ext.
  - by rewrite get_short, pre_app, pre_self, <- Hget.
Qed.

Lemma setValue_short_step nk c key u :
  canonical (ShortNode nk c) = true → (length key + 2 ≤ S fuel)%nat →
  inserted (ShortNode nk c) key l u (setValue (S fuel) (ShortNode nk c) key l u).
Proof.
  intros Hcan Hf. apply canonical_short in Hcan as (Hnk & Hshape & Hc).
  destruct (commonLen_spec key nk) as (p & ks & ns & -> & -> & Hidx & Hd).
  rewrite length_app in Hf. cbn [setValue]. rewrite Hidx, !drop_app_length.
  destruct ns as [|nc nr].
  - assert (Hpre : ∀ k, getLeafNode c k = pre [] (getLeafNode c) k) by (by intros []).
    destruct c as [| |cs c'| |v|v]; try (by destruct Hshape).
    + apply canonical_full in Hc as (Hs & Hall & Hc' & Hn).
      apply add_inserted; [done..|lia|done|]. destruct ks as [|b rest].
      * intros ->. cbn in Hn. case_match; lia.
      * intros x. pose proof (set_child_length cs b x). lia.
    + destruct ks as [|b rest]; [by apply replace_short|].
      apply add_inserted; [done|done|constructor|by right|lia| |done].
      intros k. by rewrite get_full_empty.
    + destruct ks as [|b rest]; [by apply replace_short|].
      apply add_inserted; [done|done|constructor|by right|lia| |done].
      intros k. by rewrite get_full_empty.
  - assert (Hnil : ∀ key t u, setValue fuel NilNode key t u = (Ok (above key t), u)).
    { destruct fuel; [lia|]. intros. apply setValue_nil. }
    unfold mbind at 1, M_bind at 1. cbn [child_at]. rewrite Hnil. apply add_inserted; [done|done| | | | |].
    + constructor; [|constructor]. by apply canonical_above.
    + by left.
    + lia.
    + intros k. cbn [set_child]. rewrite get_full. destruct k as [|b k]; [done|]. cbn [child_at].
      change (nc :: nr) with ([nc] ++ nr). rewrite pre_app. unfold pre at 1. cbn.
      destruct (Z.eqb_spec nc b); [|by rewrite get_nil]. rewrite get_above. by destruct k.
    + destruct ks as [|b rest]; [done|]. intros x. rewrite set_child_two; [lia|].
      intros ->. by eapply Hd.
Qed.
End step.

Lemma setValue_inserted fuel node key l u :
  IsLeafNode l = true → canonicalRoot node = true → (length key + 2 ≤ fuel)%nat →
  inserted node key l u (setValue fuel node key l u).
Proof.
  intros Hl. revert node key u. induction fuel as [|fuel IH]; intros node key u Hn Hf; [lia|].
  destruct node as [|h|cs c|nk c|v|v]; try done.
  - exists (above key l), u. split_and!; [by rewrite setValue_nil| | |by left].
    + apply canonical_above; [by left|by apply leaf_canonical].
    + intros k. by apply get_above_leaf.
  - by apply setValue_full_step.
  - by apply setValue_short_step.
  - by apply setValue_leaf_step.
  - by apply setValue_leaf_step.
Qed.

(** *** Uniqueness *)

(** A full node has two keys that part at once. *)
Lemma canonical_inhabited t : canonical t = true → ∃ k, getLeafNode t k ≠ NilNode.
Proof.
  induction t as [|h|cs c Hcs IHc|k c IHc|v|v] using TrieNode_nested_ind; try done.
  - intros (Hs & Hall & Hc & Hn)%canonical_full. destruct cs as [|[b x] cs].
    + exists []. rewrite get_full. destruct c; cbn in Hn; (done || lia).
    + apply Forall_cons_iff in Hcs as [IHx _]. apply Forall_cons_iff in Hall as [Hx _].
      destruct (IHx Hx) as [k Hk]. exists (b :: k). rewrite get_full. cbn. by rewrite Z.eqb_refl.
  - intros (Hk & Hshape & Hc)%canonical_short. destruct (IHc Hc) as [k' Hk']. exists (k ++ k').
    by rewrite get_short, pre_self.
  - by exists [].
  - by exists [].
Qed.

Lemma full_branches cs c :
  canonical (FullNode cs c) = true →
  getLeafNode (FullNode cs c) [] ≠ NilNode ∨
  ∃ a b k k', a ≠ b ∧ getLeafNode (FullNode cs c) (a :: k) ≠ NilNode ∧
    getLeafNode (FullNode cs c) (b :: k') ≠ NilNode.
Proof.
  intros (Hs & Hall & Hc & Hn)%canonical_full. destruct (isNil c) eqn:Enil.
  - right. destruct cs as [|[a x] [|[b y] cs]]; cbn in Hn; try lia.
    apply keys_sorted_cons in Hs as [_ Hlt]. apply Forall_cons_iff in Hlt as [Hlt _]. cbn in Hlt.
    apply Forall_cons_iff in Hall as [Hx Hall]. apply Forall_cons_iff in Hall as [Hy _]. cbn in Hx, Hy.
    destruct (canonical_inhabited x Hx) as [k Hk], (canonical_inhabited y Hy) as [k' Hk'].
    exists a, b, k, k'. rewrite !get_full. cbn. rewrite !Z.eqb_refl.
    destruct (Z.eqb_spec a b); [lia|]. split_and!; [lia|done..].
  - left. rewrite get_full. by intros ->.
Qed.

Lemma full_not_short cs c p t :
  canonical (FullNode cs c) = true → p ≠ [] →
  (∀ k, getLeafNode (FullNode cs c) k = pre p (getLeafNode t) k) → False.
Proof.
  intros Hcan Hp Heq. destruct p as [|x p]; [done|].
  destruct (full_branches cs c Hcan) as [H|(a & b & k & k' & Hab & Ha & Hb)].
  - by rewrite Heq in H.
  - rewrite Heq in Ha, Hb. unfold pre in Ha, Hb. cbn in Ha, Hb.
    destruct (Z.eqb_spec x a), (Z.eqb_spec x b); try done. lia.
Qed.

Lemma short_keys_eq p q t t' :
  canonical (ShortNode p t) = true → canonical (ShortNode q t') = true →
  (∀ k, pre p (getLeafNode t) k = pre q (getLeafNode t') k) → p = q.
Proof.
  assert (Hone : ∀ p d t t', canonical (ShortNode p t) = true →
    (∀ k, pre p (getLeafNode t) k = pre (p ++ d) (getLeafNode t') k) → d = []).
  { intros p' d s s' (_ & Hshape & Hs)%canonical_short Heq. destruct d as [|x d]; [done|exfalso].
    assert (Heq' : ∀ k, getLeafNode s k = pre (x :: d) (getLeafNode s') k).
    { intros k. specialize (Heq (p' ++ k)). by rewrite pre_app, !pre_self in Heq. }
    destruct s as [| |cs c| |v|v]; try (by destruct Hshape).
    - by apply (full_not_short cs c (x :: d) s').
    - discriminate (Heq' []).
    - discriminate (Heq' []). }
  intros Hp Hq Heq. destruct (canonical_inhabited (ShortNode p t) Hp) as [k Hk].
  pose proof (proj1 (canonical_short _ _) Hp) as (Hp0 & _ & _). rewrite get_short in Hk by done.
  pose proof Hk as Hk'. rewrite Heq in Hk'. unfold pre in Hk, Hk'.
  destruct (has_prefix k p) eqn:E1; [|done]. destruct (has_prefix k q) eqn:E2; [|done].
  apply has_prefix_true in E1, E2. clear Hk Hk'. rewrite E1 in E2.
  apply app_eq_inv in E2 as [(d & -> & _)|(d & -> & _)].
  - rewrite (Hone q d t' t Hq) by (intros; by rewrite <- Heq). by rewrite app_nil_r.
  - rewrite (Hone p d t t' Hp) by done. by rewrite app_nil_r.
Qed.

Lemma children_unique cs cs' :
  keys_sorted cs = true → keys_sorted cs' = true →
  Forall (λ e, e.2 ≠ NilNode) cs → Forall (λ e, e.2 ≠ NilNode) cs' →
  (∀ b, child_at cs b = child_at cs' b) → cs = cs'.
Proof.
  revert cs'. induction cs as [|[a x] cs IH]; intros [|[b y] cs'] Hs Hs' Hn Hn' Heq; [done|..].
  - apply Forall_cons_iff in Hn' as [Hy _]. specialize (Heq b). cbn in Heq. rewrite Z.eqb_refl in Heq. done.
  - apply Forall_cons_iff in Hn as [Hx _]. specialize (Heq a). cbn in Heq. rewrite Z.eqb_refl in Heq. done.
  - apply keys_sorted_cons in Hs as [Hs Hlt]. apply keys_sorted_cons in Hs' as [Hs' Hlt'].
    apply Forall_cons_iff in Hn as [Hx Hn]. apply Forall_cons_iff in Hn' as [Hy Hn']. cbn in Hx, Hy.
    assert (Hless : ∀ c d zs, c < d → Forall (λ e, d < e.1) zs → child_at zs c = NilNode).
    { intros c d zs Hcd Hz. apply child_at_lt. eapply list.Forall_impl; [exact Hz|]. cbn. lia. }
    assert (a = b) as ->.
    { destruct (Ztrichotomy a b) as [Hab|[?|Hab]]; [|done|].
      - specialize (Heq a). cbn in Heq. rewrite Z.eqb_refl in Heq. destruct (Z.eqb_spec b a); [lia|].
        by rewrite (Hless a b) in Heq by done.
      - specialize (Heq b). cbn in Heq. rewrite Z.eqb_refl in Heq. destruct (Z.eqb_spec a b); [lia|].
        rewrite (Hless b a) in Heq by (done || lia). by subst. }
    assert (Hxy : x = y) by (specialize (Heq b); cbn in Heq; by rewrite Z.eqb_refl in Heq).
    subst y. f_equal. apply IH; try done. intros c.
    destruct (decide (c = b)) as [->|Hne]; [by rewrite !child_at_lt|].
    specialize (Heq c). cbn in Heq. destruct (Z.eqb_spec b c); [congruence|done].
Qed.

(** Entries with the same lookups are equal when the entries of one side are
    determined by theirs. *)
Definition determined (t : TrieNode) : Prop := ∀ t',
  canonical t = true → canonical t' = true → (∀ k, getLeafNode t k = getLeafNode t' k) → t = t'.

Lemma child_unique cs cs' b :
  Forall (λ e, determined e.2) cs →
  Forall (λ e, canonical e.2 = true) cs → Forall (λ e, canonical e.2 = true) cs' →
  (∀ k, getLeafNode (child_at cs b) k = getLeafNode (child_at cs' b) k) →
  child_at cs b = child_at cs' b.
Proof.
  intros IH Hall Hall' Heq.
  assert (Hnil : ∀ t, canonical t = true → (∀ k, getLeafNode t k = NilNode) → t = NilNode).
  { intros t Ht Hk. by destruct (canonical_inhabited t Ht) as [k []]. }
  destruct (child_at_Forall (λ t, canonical t = true) cs b Hall) as [E|Hc];
    destruct (child_at_Forall (λ t, canonical t = true) cs' b Hall') as [E'|Hc'].
  - congruence.
  - rewrite E in *. symmetry. apply Hnil; [done|]. intros k. by rewrite <- Heq, get_nil.
  - rewrite E' in *. apply Hnil; [done|]. intros k. by rewrite Heq, get_nil.
  - destruct (child_at_Forall determined cs b IH) as [E|IHb]; [by rewrite E in Hc|]. by apply IHb.
Qed.

Lemma leaf_determined l : IsLeafNode l = true → determined l.
Proof.
  intros Hl t1 _ Ht1 Heq. pose proof (Heq []) as H0. rewrite get_leaf in H0 by done.
  unfold upd in H0. rewrite decide_True in H0 by done.
  destruct t1 as [|h|cs c|p c|v|v]; try done; try (cbn in H0; by subst l). exfalso.
  pose proof (full_branches cs c Ht1) as [Hb|(a & b & k & _ & _ & Ha & _)].
  - apply canonical_full in Ht1 as (_ & Hall & _ & Hn). destruct cs as [|[b x] cs].
    + cbn in Hn. case_match; lia.
    + apply Forall_cons_iff in Hall as [Hx _]. destruct (canonical_inhabited x Hx) as [k Hk].
      specialize (Heq (b :: k)). rewrite get_leaf, get_full in Heq by done. cbn in Heq.
      rewrite Z.eqb_refl in Heq. by subst.
  - rewrite <- Heq, get_leaf in Ha by done. done.
Qed.

Lemma canonical_unique t : determined t.
Proof.
  induction t as [|h|cs c Hcs IHc|p c IHc|v|v] using TrieNode_nested_ind;
    intros t' Ht Ht' Heq; try done; [| |by apply leaf_determined..].
  - destruct t' as [|h'|cs' c'|p' c'|v'|v']; try done.
    + assert (c = c') as -> by (specialize (Heq []); by rewrite !get_full in Heq). f_equal.
      apply canonical_full in Ht as (Hs & Hall & _ & _), Ht' as (Hs' & Hall' & _ & _).
      assert (Hnn : ∀ l, Forall (λ e : Z * TrieNode, canonical e.2 = true) l → Forall (λ e, e.2 ≠ NilNode) l).
      { intros l Hl. eapply list.Forall_impl; [exact Hl|]. by intros [? []]. }
      apply children_unique; [done|done|by apply Hnn|by apply Hnn|]. intros b.
      apply child_unique; [done..|]. intros k. specialize (Heq (b :: k)). by rewrite !get_full in Heq.
    + exfalso. apply canonical_short in Ht' as (Hp & _ & _). eapply full_not_short; [done|exact Hp|].
      intros k. by rewrite Heq, get_short.
    + symmetry. by apply leaf_determined.
    + symmetry. by apply leaf_determined.
  - pose proof (proj1 (canonical_short _ _) Ht) as (Hp & _ & Hc).
    destruct t' as [|h'|cs' c'|p' c'|v'|v']; try done.
    + exfalso. eapply full_not_short; [done|exact Hp|]. intros k. by rewrite <- Heq, get_short.
    + pose proof (proj1 (canonical_short _ _) Ht') as (Hp' & _ & Hc').
      assert (p = p') as <-.
      { eapply short_keys_eq; [done..|]. intros k. rewrite <- !get_short by done. apply Heq. }
      f_equal. apply IHc; [done..|]. intros k. specialize (Heq (p ++ k)).
      by rewrite !get_short, !pre_self in Heq.
    + symmetry. by apply leaf_determined.
    + symmetry. by apply leaf_determined.
Qed.

(** ** Insertion terminates on every trie *)
Definition agree (r r' : res TrieNode * Unsaved) : Prop := r = r' ∧ r.1 ≠ Err OutOfFuel.

Lemma agree_bind (m m' : M Unsaved TrieNode) (f : TrieNode → M Unsaved TrieNode) u :
  agree (m u) (m' u) → (∀ a u, (f a u).1 ≠ Err OutOfFuel) → agree ((m ≫= f) u) ((m' ≫= f) u).
Proof.
  intros [Heq Hne] Hf. unfold agree, mbind, M_bind. rewrite <- Heq.
  destruct (m u) as [[a|e|] u1]; split; try done; apply Hf.
Qed.

Lemma agree_delete t (x : TrieNode) u :
  agree ((deleteUnSavedRefValueMap t;; mret x) u) ((deleteUnSavedRefValueMap t;; mret x) u).
Proof.
  destruct (deleteUnSaved_spec t u) as (u' & Hd & _). split; [done|].
  unfold mbind, M_bind. by rewrite Hd.
Qed.

Lemma agree_addToFull set set' n key l cs c u :
  (∀ t k u, (length k < length key)%nat → agree (set t k l u) (set' t k l u)) →
  agree (addToFull set n key l cs c u) (addToFull set' n key l cs c u).
Proof.
  intros Hset. unfold addToFull. apply agree_bind; [|done].
  destruct (drop n key) as [|b rest] eqn:E; [done|]. apply agree_bind; [|done]. apply Hset.
  apply (f_equal length) in E. rewrite length_drop in E. cbn in E. lia.
Qed.

Lemma agree_nil fuel fuel' key t u :
  (1 ≤ fuel)%nat → (1 ≤ fuel')%nat → agree (setValue fuel NilNode key t u) (setValue fuel' NilNode key t u).
Proof. intros. destruct fuel, fuel'; try lia. by rewrite !setValue_nil. Qed.

Lemma setValue_agree fuel fuel' node key l u :
  (length key + 2 ≤ fuel)%nat → (length key + 2 ≤ fuel')%nat →
  agree (setValue fuel node key l u) (setValue fuel' node key l u).
Proof.
  revert fuel' node key l u. induction fuel as [|fuel IH]; intros [|fuel'] node key l u Hf Hf'; try lia.
  assert (Hset : ∀ t k u, (length k < length key)%nat →
    agree (setValue fuel t k l u) (setValue fuel' t k l u)) by (intros; apply IH; lia).
  assert (Hadd : ∀ n cs c u, agree (addToFull (setValue fuel) n key l cs c u)
    (addToFull (setValue fuel') n key l cs c u)) by (intros; by apply agree_addToFull).
  destruct node as [|h|cs c|nk c|v|v]; cbn [setValue].
  - done.
  - destruct key; [apply agree_delete|]. apply agree_bind; [apply agree_nil; lia|done].
  - destruct key; [apply agree_delete|]. apply agree_bind; [apply Hset; cbn; lia|done].
  - destruct (drop _ nk) as [|nc nr].
    + destruct c; try done; try apply Hadd; destruct (drop _ key); apply agree_delete || apply Hadd.
    + destruct (agree_nil fuel fuel' nr c u) as [Heq _]; [lia..|]. cbn [child_at].
      unfold mbind, M_bind. rewrite <- Heq. destruct fuel; [lia|]. rewrite setValue_nil. apply Hadd.
  - destruct key; [apply agree_delete|]. apply agree_bind; [apply agree_nil; lia|done].
  - destruct key; [apply agree_delete|]. apply agree_bind; [apply agree_nil; lia|done].
Qed.

(** Insertion terminates on every node, also one with children that are not
    loaded: with two calls more than the length of the key the recursion is never cut
    off, and more fuel changes nothing. *)
Theorem setValue_terminates fuel node key l u :
  (setFuel key ≤ fuel)%nat →
  setValue fuel node key l u = setValue (setFuel key) node key l u ∧
  (setValue (setFuel key) node key l u).1 ≠ Err OutOfFuel.
Proof.
  intros Hf. destruct (setValue_agree (setFuel key) fuel node key l u) as [Heq Hne]; unfold setFuel in *; try lia.
  by split.
Qed.

Lemma setValue_terminates_witness :
  setValue 9 (ShortNode [1; 2; 3] (ValueNode [7])) [1; 5] (ValueNode [8]) ∅
  = setValue 4 (ShortNode [1; 2; 3] (ValueNode [7])) [1; 5] (ValueNode [8]) ∅ ∧
  (setValue 4 (ShortNode [1; 2; 3] (ValueNode [7])) [1; 5] (ValueNode [8]) ∅).1 ≠ Err OutOfFuel.
Proof. apply (setValue_terminates 9); unfold setFuel; cbn; lia. Defined.

(** ** A trie as a finite map *)
Section contents.
Context `{Crypto}.

(** What a sequence of insertions does to a map. *)
Definition mapSet (m : gmap (list Z) (list Z)) (kvs : list (list Z * list Z)) : gmap (list Z) (list Z) :=
  foldl (λ m kv, <[kv.1:=kv.2]> m) m kvs.

Definition leafOf (o : option (list Z)) : TrieNode :=
  match o with Some v => newLeaf v | None => NilNode end.

(** The trie holds the map [m], each value as its leaf. *)
Definition represents (t : Trie) (m : gmap (list Z) (list Z)) : Prop :=
  canonicalRoot (tr_Root t) = true ∧ ∀ k, getLeafNode (tr_Root t) k = leafOf (m !! k).

Lemma newLeaf_leaf v : IsLeafNode (newLeaf v) = true.
Proof. unfold newLeaf. by case_match. Qed.

Lemma represents_empty : represents emptyTrie ∅.
Proof. split; [done|]. intros k. rewrite lookup_empty. apply get_nil. Qed.

Lemma SetValue_spec t m key v :
  represents t m → ∃ t' u', SetValue t key v = Ok t' ∧ represents t' (<[key:=v]> m) ∧
    released (leafOf (m !! key)) (unSavedRefValueMap t) u' ∧
    unSavedRefValueMap t' = if isLong v then <[HashData v:=v]> u' else u'.
Proof.
  intros [Hcan Hget].
  destruct (setValue_inserted (setFuel key) (tr_Root t) key (newLeaf v) (unSavedRefValueMap t))
    as (r & u' & Hrun & Hr & Hg & Hrel); [apply newLeaf_leaf|done|unfold setFuel; lia|].
  unfold SetValue. rewrite Hrun. eexists _, u'. split; [done|]. split; [split|split].
  - unfold canonicalRoot; cbn. by rewrite Hr, orb_true_r.
  - intros k. cbn. rewrite Hg. unfold upd. case_decide as Hk.
    + by rewrite Hk, lookup_insert_eq.
    + by rewrite lookup_insert_ne, Hget by done.
  - by rewrite <- Hget.
  - done.
Qed.

Lemma SetValues_spec t m kvs :
  represents t m → ∃ t', SetValues t kvs = Ok t' ∧ represents t' (mapSet m kvs).
Proof.
  revert t m. induction kvs as [|[k v] kvs IH]; intros t m Hrep; [by exists t|].
  destruct (SetValue_spec t m k v Hrep) as (t1 & u' & Hrun & Hrep1 & _).
  destruct (IH t1 _ Hrep1) as (t' & Hrun' & Hrep'). exists t'. split; [|done].
  cbn. unfold mbind, res_bind. by rewrite Hrun.
Qed.

Lemma represents_root t t' m : represents t m → represents t' m → tr_Root t = tr_Root t'.
Proof.
  intros [Hc Hg] [Hc' Hg']. assert (Heq : ∀ k, getLeafNode (tr_Root t) k = getLeafNode (tr_Root t') k).
  { intros k. by rewrite Hg, Hg'. }
  unfold canonicalRoot in *. destruct (tr_Root t) eqn:E, (tr_Root t') eqn:E'; try done;
    try (by apply canonical_unique).
  all: exfalso; match goal with
       | Hx : isNil ?x || canonical ?x = true, Hy : isNil NilNode || _ = true |- _ =>
           destruct (canonical_inhabited x) as [k Hk]; [exact Hx|]; apply Hk;
           first [rewrite Heq | rewrite <- Heq]; apply get_nil
       end.
Qed.

Lemma mapSet_list_to_map m kvs :
  NoDup kvs.*1 → mapSet m kvs = list_to_map kvs ∪ m.
Proof.
  revert m. induction kvs as [|[k v] kvs IH]; intros m Hnd; cbn; [by rewrite map_empty_union|].
  apply list.NoDup_cons in Hnd as [Hk Hnd]. unfold mapSet in IH. rewrite IH by done.
  rewrite <- insert_union_r, <- insert_union_l; [done|]. by apply not_elem_of_list_to_map_1.
Qed.

(** C22: from the empty trie, every sequence of insertions succeeds and gives a
    canonical trie that holds exactly the finite map the same insertions give: the
    leaf of the last value under each key, nothing elsewhere. *)
Theorem SetValues_refines_map kvs :
  ∃ t, SetValues emptyTrie kvs = Ok t ∧ canonicalRoot (tr_Root t) = true ∧
    ∀ k, getLeafNode (tr_Root t) k = leafOf (mapSet ∅ kvs !! k).
Proof. destruct (SetValues_spec emptyTrie ∅ kvs represents_empty) as (t & ? & ? & ?). eauto. Qed.

(** The root, and with it the trie hash that a block carries, do not depend on
    the order in which the pairs of a map are inserted. *)
Theorem insertion_order_irrelevant kvs kvs' :
  NoDup kvs.*1 → kvs ≡ₚ kvs' →
  ∃ t t', SetValues emptyTrie kvs = Ok t ∧ SetValues emptyTrie kvs' = Ok t' ∧
    tr_Root t = tr_Root t' ∧ Trie_Hash t = Trie_Hash t'.
Proof.
  intros Hnd Hperm.
  destruct (SetValues_spec emptyTrie ∅ kvs represents_empty) as (t & Hrun & Hrep).
  destruct (SetValues_spec emptyTrie ∅ kvs' represents_empty) as (t' & Hrun' & Hrep').
  rewrite mapSet_list_to_map in Hrep by done.
  rewrite mapSet_list_to_map in Hrep' by (by rewrite <- Hperm).
  rewrite <- (list_to_map_proper kvs kvs') in Hrep' by done.
  assert (Hroot : tr_Root t = tr_Root t') by (by eapply represents_root).
  exists t, t'. split_and!; [done..|]. unfold Trie_Hash. by rewrite Hroot.
Qed.

(** *** Values read back *)

(** Every long value of the map is kept beside the trie. *)
Definition refsKept (t : Trie) (m : gmap (list Z) (list Z)) : Prop :=
  ∀ k v, m !! k = Some v → isLong v = true → unSavedRefValueMap t !! HashData v = Some v.

Context (Hdigest : ∀ d, wf_hash (HashData d)).

Lemma BytesToHash_hash h : wf_hash h → BytesToHash (hash_bytes h) = Ok h.
Proof.
  intros Hh. unfold BytesToHash, hash_bytes. rewrite length_be_bytes, Nat.eqb_refl.
  rewrite be_combine_be_bytes, Z.mod_small; [done|]. unfold wf_hash in Hh. exact Hh.
Qed.

Lemma represents_GetValue db t m k :
  represents t m → refsKept t m → GetValue db t k = Ok (default [] (m !! k)).
Proof.
  intros [_ Hget] Hrefs. unfold GetValue. rewrite Hget. destruct (m !! k) as [v|] eqn:E; [|done].
  cbn [leafOf]. unfold newLeaf. destruct (isLong v) eqn:El; [|done]. cbn [LeafNodeValue].
  unfold getRefValue. rewrite BytesToHash_hash by done. cbn [mbind res_bind]. by rewrite (Hrefs k v).
Qed.

Lemma SetValue_fresh t m key v :
  represents t m → refsKept t m → m !! key = None →
  (∀ k v', m !! k = Some v' → isLong v' = true → isLong v = true → HashData v' = HashData v → v' = v) →
  ∃ t', SetValue t key v = Ok t' ∧ represents t' (<[key:=v]> m) ∧ refsKept t' (<[key:=v]> m).
Proof.
  intros Hrep Hrefs Hnew Hcol. destruct (SetValue_spec t m key v Hrep) as (t' & u' & Hrun & Hrep' & Hrel & Hu).
  exists t'. split; [done|]. split; [done|].
  assert (u' = unSavedRefValueMap t) as ->.
  { rewrite Hnew in Hrel. by destruct Hrel as [|(w & h & ? & _)]. }
  intros k v' Hk Hl. rewrite Hu. destruct (decide (k = key)) as [->|Hne].
  - rewrite lookup_insert_eq in Hk. injection Hk as <-. by rewrite Hl, lookup_insert_eq.
  - rewrite lookup_insert_ne in Hk by done. destruct (isLong v) eqn:El; [|by eapply Hrefs].
    destruct (decide (HashData v' = HashData v)) as [Heq|Hneq].
    + rewrite (Hcol k v') by done. by rewrite lookup_insert_eq.
    + rewrite lookup_insert_ne by congruence. by eapply Hrefs.
Qed.

(** No two different long values of the list have the same hash. *)
Definition noCollision (vs : list (list Z)) : Prop :=
  ∀ v v', v ∈ vs → v' ∈ vs → isLong v = true → isLong v' = true → HashData v = HashData v' → v = v'.

Lemma SetValues_fresh vs t m kvs :
  noCollision vs → (∀ k v, m !! k = Some v → v ∈ vs) → (∀ v, v ∈ kvs.*2 → v ∈ vs) →
  NoDup kvs.*1 → (∀ k, k ∈ kvs.*1 → m !! k = None) → represents t m → refsKept t m →
  ∃ t', SetValues t kvs = Ok t' ∧ represents t' (mapSet m kvs) ∧ refsKept t' (mapSet m kvs).
Proof.
  intros Hcol. revert t m. induction kvs as [|[k v] kvs IH]; intros t m Hm Hvs Hnd Hnew Hrep Hrefs; [by exists t|].
  apply list.NoDup_cons in Hnd as [Hk Hnd]. cbn in Hvs, Hnew, Hk.
  assert (Hv : v ∈ vs) by (apply Hvs; left).
  destruct (SetValue_fresh t m k v) as (t1 & Hrun & Hrep1 & Hrefs1); [done|done|apply Hnew; left| |].
  { intros k' v' Hk' ? ? ?. apply Hcol; try done. by eapply Hm. }
  destruct (IH t1 (<[k:=v]> m)) as (t' & Hrun' & Hrep' & Hrefs'); try done.
  - intros k' v'. destruct (decide (k' = k)) as [->|].
    + rewrite lookup_insert_eq. by intros [= <-].
    + rewrite lookup_insert_ne by done. apply Hm.
  - intros v' Hv'. apply Hvs. by right.
  - intros k' Hk'. rewrite lookup_insert_ne by (by intros ->). apply Hnew. by right.
  - exists t'. cbn. unfold mbind, res_bind. by rewrite Hrun.
Qed.

(** The pairs of a map are read back from the trie built from them, long values
    included, and a key that was not set reads as the empty value. *)
Theorem GetValue_SetValues db kvs :
  NoDup kvs.*1 → noCollision kvs.*2 →
  ∃ t, SetValues emptyTrie kvs = Ok t ∧
    ∀ k, GetValue db t k = Ok (default [] ((list_to_map kvs : gmap (list Z) (list Z)) !! k)).
Proof.
  intros Hnd Hcol.
  destruct (SetValues_fresh kvs.*2 emptyTrie ∅ kvs) as (t & Hrun & Hrep & Hrefs); try done.
  - apply represents_empty.
  - exists t. split; [done|]. intros k. rewrite (represents_GetValue db t _ k Hrep Hrefs).
    by rewrite mapSet_list_to_map, map_union_empty by done.
Qed.

(** Overwriting a long value forgets it for every other key that holds the same
    value, when the trie has not been saved yet: the reference is shared and not
    counted.  Here two keys hold [v] and the second is overwritten; reading the
    first then gives the empty value. *)
Theorem overwrite_loses_shared_value v v2 :
  isLong v = true → isLong v2 = false →
  ∃ t, SetValues emptyTrie [([1], v); ([2], v); ([2], v2)] = Ok t ∧
    mapSet ∅ [([1], v); ([2], v); ([2], v2)] !! [1] = Some v ∧ GetValue None t [1] = Ok [].
Proof.
  intros Hv Hv2. remember (HashNode (hash_bytes (HashData v))) as w eqn:Hw.
  assert (Hleaf : newLeaf v = w) by (unfold newLeaf; by rewrite Hv, Hw).
  assert (Hleaf2 : newLeaf v2 = ValueNode v2) by (unfold newLeaf; by rewrite Hv2).
  assert (Hdel : ∀ u, deleteUnSavedRefValueMap w u = (Ok tt, delete (HashData v) u)).
  { intros u. rewrite Hw. unfold deleteUnSavedRefValueMap. by rewrite BytesToHash_hash. }
  assert (H1 : SetValue emptyTrie [1] v = Ok (mkTrie (ShortNode [1] w) {[HashData v := v]})).
  { unfold SetValue. by rewrite Hleaf, Hv. }
  assert (H2 : SetValue (mkTrie (ShortNode [1] w) {[HashData v := v]}) [2] v
    = Ok (mkTrie (FullNode [(1, w); (2, w)] NilNode) {[HashData v := v]})).
  { unfold SetValue. rewrite Hleaf, Hv. cbn. do 2 f_equal. apply (insert_insert_eq ∅). }
  exists (mkTrie (FullNode [(1, w); (2, ValueNode v2)] NilNode) (delete (HashData v) {[HashData v := v]})).
  split_and!; [|done|].
  - cbn [SetValues]. unfold mbind, res_bind. rewrite H1, H2. unfold SetValue. rewrite Hleaf2, Hv2.
    cbn [tr_Root unSavedRefValueMap]. change (setValue (setFuel [2]) (FullNode [(1, w); (2, w)] NilNode) [2] (ValueNode v2))
      with (setValue 2 w [] (ValueNode v2) ≫= λ x, mret (FullNode (set_child [(1, w); (2, w)] 2 x) NilNode)).
    unfold mbind, M_bind. rewrite setValue_on_leaf by (by rewrite Hw).
    unfold mbind, M_bind. by rewrite Hdel.
  - unfold GetValue. rewrite Hw. cbn -[HashData hash_bytes BytesToHash]. unfold getRefValue.
    rewrite BytesToHash_hash by done. cbn -[HashData]. by rewrite lookup_delete_eq.
Qed.

(** The trie hash does not tell a long value from the 32-byte value that is its
    hash, because the type byte of a leaf does not enter its hash: two tries with
    different contents have the same root hash. *)
Theorem leaf_hash_ambiguous k v :
  isLong v = true →
  ∃ t t', SetValue emptyTrie k v = Ok t ∧ SetValue emptyTrie k (hash_bytes (HashData v)) = Ok t' ∧
    Trie_Hash t = Trie_Hash t' ∧ GetValue None t k = Ok v ∧
    GetValue None t' k = Ok (hash_bytes (HashData v)).
Proof.
  intros Hv. set (v' := hash_bytes (HashData v)).
  assert (Hv' : isLong v' = false) by (unfold isLong, v', hash_bytes; by rewrite length_be_bytes).
  destruct (SetValue_spec emptyTrie ∅ k v represents_empty) as (t & u & Hrun & Hrep & Hrel & Hu).
  destruct (SetValue_spec emptyTrie ∅ k v' represents_empty) as (t' & u' & Hrun' & Hrep' & Hrel' & Hu').
  exists t, t'. split_and!; [done|done| | |].
  - unfold SetValue in Hrun, Hrun'. unfold newLeaf in *. rewrite Hv in Hrun. rewrite Hv' in Hrun'.
    unfold setFuel in *. cbn [emptyTrie tr_Root] in *. rewrite setValue_nil in Hrun, Hrun'.
    injection Hrun as <-. injection Hrun' as <-. by destruct k.
  - apply (represents_GetValue None t _ k) in Hrep; [by rewrite lookup_insert_eq in Hrep|].
    intros k1 v1 [[-> ->]|[? ?]]%lookup_insert_Some Hl; [|done]. by rewrite Hu, Hv, lookup_insert_eq.
  - apply (represents_GetValue None t' _ k) in Hrep'; [by rewrite lookup_insert_eq in Hrep'|].
    intros k1 v1 [[-> <-]|[? ?]]%lookup_insert_Some Hl; [|done]. congruence.
Qed.
End contents.
