(* ===== verification/TrieIter.v ===== *)
(** * Iterating over a trie: [trie/trie_iterator.go]

    The iterator walks the trie breadth first with a queue of inner nodes and a
    queue of leaves found, and prunes the nodes no key below which can have the
    prefix asked for.  Every walk ends, and over a canonical trie it gives each key
    with the prefix once, with its leaf, and nothing else.  (The entries of a full
    node come in the order of a Go map, which is random; the model takes them by
    increasing key, and the theorems speak of the set of results.) *)

From S2P Require Import Prelude Types Trie.

Record Iterator := mkIterator {
  it_prefix : list Z;
  it_trie : Trie;
  it_middleNodes : list (list Z * TrieNode);
  it_leafNodes : list (list Z * TrieNode);
}.

Definition NewIterator (trie : Trie) (prefix : list Z) : Iterator :=
  mkIterator prefix trie [([], tr_Root trie)] [].

(** The slices [keys] and [children] of one round. *)
Definition successors (node : TrieNode) : list (list Z * TrieNode) :=
  match node with
  | FullNode children child =>
      (if isNil child then [] else [([], child)]) ++ ((λ e, ([e.1], e.2)) <$> children)
  | ShortNode key child => [(key, child)]
  | _ => [([], node)]
  end.

(** The body of the loop over [keys]. *)
Definition enqueue (it : Iterator) (newKey : list Z) (child : TrieNode) : res Iterator :=
  match child with
  | NilNode => Panic
  | FullNode _ _ | ShortNode _ _ =>
      if negb (has_prefix newKey (it_prefix it)) && negb (has_prefix (it_prefix it) newKey)
      then Ok it
      else Ok (mkIterator (it_prefix it) (it_trie it)
                 (it_middleNodes it ++ [(newKey, child)]) (it_leafNodes it))
  | _ =>
      if negb (has_prefix newKey (it_prefix it)) then Ok it
      else Ok (mkIterator (it_prefix it) (it_trie it)
                 (it_middleNodes it) (it_leafNodes it ++ [(newKey, child)]))
  end.

Fixpoint enqueueAll (it : Iterator) (key : list Z) (succ : list (list Z * TrieNode)) : res Iterator :=
  match succ with
  | [] => Ok it
  | (k, child) :: succ' => it' ← enqueue it (key ++ k) child; enqueueAll it' key succ'
  end.

Section next.
Context `{Crypto} (db : option (Hash → res (list Z))).

(** [Next], with the iterator it leaves; [None] when [ok] is false. *)
Fixpoint Next (fuel : nat) (it : Iterator) : res (option (list Z * list Z) * Iterator) :=
  match fuel with
  | O => Err OutOfFuel
  | S fuel =>
      match it_leafNodes it with
      | (key, leafNode) :: leafNodes =>
          value ← LeafNodeValue db (it_trie it) leafNode;
          Ok (Some (key, value),
              mkIterator (it_prefix it) (it_trie it) (it_middleNodes it) leafNodes)
      | [] =>
          match it_middleNodes it with
          | [] => Ok (None, it)
          | (_, NilNode) :: _ => Ok (None, it)
          | (key, node) :: middleNodes =>
              it' ← enqueueAll (mkIterator (it_prefix it) (it_trie it) middleNodes (it_leafNodes it))
                      key (successors node);
              Next fuel it'
          end
      end
  end.

(** The nodes of a trie: each round takes one off the queue for good. *)
Fixpoint nodeCount (t : TrieNode) : nat :=
  match t with
  | FullNode children child =>
      S (nodeCount child +
         (fix sum cs := match cs with [] => O | (_, x) :: cs' => (nodeCount x + sum cs')%nat end) children)
  | ShortNode _ child => S (nodeCount child)
  | _ => 1%nat
  end.

Definition queued (it : Iterator) : nat := sum_list ((λ e, nodeCount e.2) <$> it_middleNodes it).

Definition nextFuel (it : Iterator) : nat := S (queued it).

(** [for { key, value, ok := iterator.Next(); if !ok { break } ... }]: the pairs the
    loop body sees. *)
Fixpoint drain (fuel : nat) (it : Iterator) : res (list (list Z * list Z)) :=
  match fuel with
  | O => Err OutOfFuel
  | S fuel =>
      r ← Next (nextFuel it) it;
      match r with
      | (None, _) => Ok []
      | (Some kv, it') => kvs ← drain fuel it'; Ok (kv :: kvs)
      end
  end.

Definition drainFuel (it : Iterator) : nat := S (length (it_leafNodes it) + queued it).

(** All pairs of a trie whose key has the prefix. *)
Definition iterate (trie : Trie) (prefix : list Z) : res (list (list Z * list Z)) :=
  drain (drainFuel (NewIterator trie prefix)) (NewIterator trie prefix).
End next.

(** ** The entries of a trie *)
Definition under (k : list Z) (es : list (list Z * TrieNode)) : list (list Z * TrieNode) :=
  (λ e, (k ++ e.1, e.2)) <$> es.

Fixpoint entries (t : TrieNode) : list (list Z * TrieNode) :=
  match t with
  | NilNode => []
  | FullNode children child =>
      entries child ++
      (fix go cs := match cs with [] => [] | (b, x) :: cs' => under [b] (entries x) ++ go cs' end) children
  | ShortNode key child => under key (entries child)
  | _ => [([], t)]
  end.

Definition childEntries (cs : list (Z * TrieNode)) : list (list Z * TrieNode) :=
  cs ≫= λ e, under [e.1] (entries e.2).

Lemma entries_full cs c : entries (FullNode cs c) = entries c ++ childEntries cs.
Proof. cbn. f_equal. induction cs as [|[b x] cs IH]; [done|]. cbn. by rewrite IH. Qed.

Lemma under_nil es : under [] es = es.
Proof. rewrite <- (list_fmap_id es) at 2. apply list_fmap_ext. by intros ? []. Qed.

Lemma under_app k k' es : under k (under k' es) = under (k ++ k') es.
Proof.
  unfold under. rewrite <- list_fmap_compose. apply list_fmap_ext. intros ? [] _. cbn. by rewrite app_assoc.
Qed.

Lemma under_union k es es' : under k (es ++ es') = under k es ++ under k es'.
Proof. apply fmap_app. Qed.

Lemma elem_under k l p es : (k, l) ∈ under p es ↔ ∃ k', k = p ++ k' ∧ (k', l) ∈ es.
Proof.
  unfold under. rewrite list_elem_of_fmap. split.
  - intros ([k' l'] & [= -> ->] & Hin). eauto.
  - intros (k' & -> & Hin). by exists (k', l).
Qed.

Lemma elem_childEntries k l cs :
  (k, l) ∈ childEntries cs ↔ ∃ b x k', (b, x) ∈ cs ∧ k = b :: k' ∧ (k', l) ∈ entries x.
Proof.
  unfold childEntries. rewrite list_elem_of_bind. split.
  - intros ([b x] & (k' & -> & Hin)%elem_under & Hbx). eauto 10.
  - intros (b & x & k' & Hbx & -> & Hin). exists (b, x). split; [|done]. apply elem_under. by exists k'.
Qed.

(** The keys below the entries of a full node. *)
Definition entriesOf (t : TrieNode) : Prop := ∀ k l,
  canonicalRoot t = true → (k, l) ∈ entries t ↔ l ≠ NilNode ∧ getLeafNode t k = l.

Lemma canonical_root t : canonical t = true → canonicalRoot t = true.
Proof. intros Ht. unfold canonicalRoot. by rewrite Ht, orb_true_r. Qed.

Lemma childEntries_spec cs b k l :
  keys_sorted cs = true → Forall (λ e, canonical e.2 = true) cs → Forall (λ e, entriesOf e.2) cs →
  (b :: k, l) ∈ childEntries cs ↔ l ≠ NilNode ∧ getLeafNode (child_at cs b) k = l.
Proof.
  intros Hs Hall Hcs. rewrite list.Forall_forall in Hcs, Hall. rewrite elem_childEntries. split.
  - intros (b' & x & k' & Hin & [= <- <-] & He). rewrite (elem_child_at cs b x) by done.
    apply (Hcs _ Hin) in He; [done|]. by apply canonical_root, (Hall _ Hin).
  - intros [Hl Hg]. exists b, (child_at cs b), k.
    assert (Hx : child_at cs b ≠ NilNode) by (intros Hx; rewrite Hx, get_nil in Hg; by subst).
    apply child_at_elem in Hx. split_and!; [done..|].
    apply (Hcs _ Hx); [|done]. by apply canonical_root, (Hall _ Hx).
Qed.

Lemma entries_leaf l : IsLeafNode l = true → entries l = [([], l)].
Proof. by destruct l. Qed.

Lemma leaf_entries_spec l : IsLeafNode l = true → entriesOf l.
Proof.
  intros Hl k l' _. rewrite entries_leaf, list_elem_of_singleton, get_leaf by done. unfold upd.
  assert (l ≠ NilNode) by (by intros ->). case_decide; naive_solver.
Qed.

Lemma entries_spec t : entriesOf t.
Proof.
  induction t as [|h|cs c Hcs IHc|p c IHc|v|v] using TrieNode_nested_ind;
    intros k l Ht; try done; try (by apply leaf_entries_spec).
  - rewrite get_nil. split; [by intros ?%elem_of_nil|]. naive_solver.
  - apply canonical_full in Ht as (Hs & Hall & Hc & _). rewrite entries_full, elem_of_app, get_full.
    assert (Hroot : canonicalRoot c = true) by (destruct Hc as [-> |Hc]; [done|by apply canonical_root, leaf_canonical]).
    assert (Hcg : ∀ k, getLeafNode c k = match k with [] => c | _ => NilNode end).
    { intros k'. destruct Hc as [-> |Hc]; [by destruct k'|]. rewrite get_leaf by done. by destruct k'. }
    rewrite (IHc k l Hroot), Hcg. destruct k as [|b k].
    + rewrite elem_childEntries. naive_solver.
    + rewrite childEntries_spec by done. naive_solver.
  - apply canonical_short in Ht as (Hp & _ & Hc). cbn [entries]. rewrite elem_under, get_short by done.
    apply canonical_root in Hc. split.
    + intros (k' & -> & He). rewrite pre_self. by apply IHc in He.
    + intros [Hl Hg]. unfold pre in Hg. destruct (has_prefix k p) eqn:E; [|by subst].
      exists (drop (length p) k). split; [by apply has_prefix_true|]. by apply IHc.
Qed.

Lemma under_keys p es : (under p es).*1 = (app p) <$> es.*1.
Proof. unfold under. by rewrite <- !list_fmap_compose. Qed.

Lemma NoDup_under p es : NoDup es.*1 → NoDup (under p es).*1.
Proof. intros. rewrite under_keys. apply NoDup_fmap_2; [|done]. intros ? ?. apply app_inv_head. Qed.

Lemma NoDup_childEntries cs :
  keys_sorted cs = true → Forall (λ e, NoDup (entries e.2).*1) cs → NoDup (childEntries cs).*1.
Proof.
  induction cs as [|[b x] cs IH]; intros Hs Hnd; [constructor|].
  apply keys_sorted_cons in Hs as [Hs Hlt]. apply Forall_cons_iff in Hnd as [Hx Hnd].
  change (childEntries ((b, x) :: cs)) with (under [b] (entries x) ++ childEntries cs).
  rewrite fmap_app. apply list.NoDup_app. split_and!; [by apply NoDup_under| |by apply IH].
  intros k Hk Hk'. rewrite under_keys in Hk. apply list_elem_of_fmap in Hk as (k1 & -> & _).
  apply list_elem_of_fmap in Hk' as ([k2 l] & Heq & Hin). cbn in Heq. subst k2.
  apply elem_childEntries in Hin as (b' & y & k' & Hin & [= -> ->] & _).
  rewrite list.Forall_forall in Hlt. specialize (Hlt _ Hin). cbn in Hlt. lia.
Qed.

Lemma NoDup_entries t : canonicalRoot t = true → NoDup (entries t).*1.
Proof.
  induction t as [|h|cs c Hcs IHc|p c IHc|v|v] using TrieNode_nested_ind; intros Ht; try done;
    try (cbn; apply NoDup_singleton); [constructor| |].
  - apply canonical_full in Ht as (Hs & Hall & Hc & _). rewrite entries_full, fmap_app.
    assert (Hce : NoDup (childEntries cs).*1).
    { apply NoDup_childEntries; [done|]. rewrite list.Forall_forall in Hcs, Hall |- *.
      intros e He. by apply (Hcs e He), canonical_root, Hall. }
    destruct Hc as [-> |Hc]; [done|]. rewrite entries_leaf by done. apply list.NoDup_cons.
    split; [|done]. intros ([k l] & Heq & Hin)%list_elem_of_fmap. cbn in Heq. subst k.
    by apply elem_childEntries in Hin as (? & ? & ? & _ & ? & _).
  - apply canonical_short in Ht as (_ & _ & Hc). cbn [entries]. by apply NoDup_under, IHc, canonical_root.
Qed.

(** ** What an iterator still has to give *)
Definition select (prefix : list Z) (es : list (list Z * TrieNode)) : list (list Z * TrieNode) :=
  filter (λ e, has_prefix e.1 prefix = true) es.

Definition ahead (prefix : list Z) (e : list Z * TrieNode) : list (list Z * TrieNode) :=
  select prefix (under e.1 (entries e.2)).

Definition pending (it : Iterator) : list (list Z * TrieNode) :=
  it_leafNodes it ++ (it_middleNodes it ≫= ahead (it_prefix it)).

(** Every queued node is canonical, and the leaves found are leaves. *)
Definition wfIterator (it : Iterator) : Prop :=
  Forall (λ e, canonical e.2 = true) (it_middleNodes it).

Lemma select_app prefix es es' : select prefix (es ++ es') = select prefix es ++ select prefix es'.
Proof. apply list.filter_app. Qed.

(** A node is pruned only when nothing below it has the prefix. *)
Lemma has_prefix_incomparable k k' prefix :
  has_prefix k prefix = false → has_prefix prefix k = false → has_prefix (k ++ k') prefix = false.
Proof.
  revert prefix. induction k as [|x k IH]; intros [|y prefix]; cbn; try done.
  destruct (Z.eqb_spec y x) as [->|Hne]; [|done]. rewrite Z.eqb_refl. apply IH.
Qed.

Lemma ahead_pruned prefix k t :
  has_prefix k prefix = false → has_prefix prefix k = false → ahead prefix (k, t) = [].
Proof.
  intros H1 H2. unfold ahead, select. cbn [fst snd]. induction (entries t) as [|[k' l] es IH]; [done|].
  change (under k ((k', l) :: es)) with ((k ++ k', l) :: under k es).
  rewrite list.filter_cons, decide_False; [done|]. cbn [fst]. by rewrite has_prefix_incomparable.
Qed.

Lemma ahead_leaf prefix k l :
  IsLeafNode l = true → ahead prefix (k, l) = if has_prefix k prefix then [(k, l)] else [].
Proof.
  intros Hl. unfold ahead, select. cbn [fst snd]. rewrite entries_leaf by done.
  change (under k [([], l)]) with [(k ++ [], l)]. rewrite list.filter_cons, app_nil_r. cbn [fst].
  by destruct (has_prefix k prefix).
Qed.

(** What one round may use: the budget of a queue. *)
Definition budget (it : Iterator) : nat := length (it_leafNodes it) + queued it.

Lemma nodeCount_pos t : (1 ≤ nodeCount t)%nat.
Proof. destruct t; cbn; lia. Qed.

Lemma queued_app p tr mid mid' ls :
  queued (mkIterator p tr (mid ++ mid') ls) =
  (queued (mkIterator p tr mid ls) + sum_list ((λ e, nodeCount e.2) <$> mid'))%nat.
Proof. unfold queued; cbn. rewrite fmap_app. by induction mid; cbn; lia. Qed.

Lemma enqueue_spec it k t :
  wfIterator it → canonical t = true →
  ∃ it', enqueue it k t = Ok it' ∧ wfIterator it' ∧ it_prefix it' = it_prefix it ∧ it_trie it' = it_trie it ∧
    pending it' ≡ₚ pending it ++ ahead (it_prefix it) (k, t) ∧
    (queued it' ≤ queued it + (if IsLeafNode t then 0 else nodeCount t))%nat ∧
    (budget it' ≤ budget it + nodeCount t)%nat.
Proof.
  intros Hit Ht. unfold wfIterator, pending, budget in *. destruct it as [p tr mid ls]; cbn -[ahead queued nodeCount] in *.
  pose proof (nodeCount_pos t) as Hpos.
  destruct (IsLeafNode t) eqn:El.
  - rewrite (ahead_leaf p k t El). unfold enqueue; cbn -[ahead nodeCount queued].
    destruct t; try done; destruct (has_prefix k p) eqn:E; cbn -[ahead nodeCount queued];
      eexists; (split; [done|]); cbn -[ahead nodeCount queued]; rewrite ?length_app; cbn -[ahead nodeCount queued];
      (split_and!; [done..| |unfold queued; cbn; lia|unfold queued; cbn; lia]); rewrite ?app_nil_r; try done;
      rewrite <- !app_assoc; f_equiv; apply Permutation_app_comm.
  - assert (Henq : enqueue (mkIterator p tr mid ls) k t =
      if negb (has_prefix k p) && negb (has_prefix p k) then Ok (mkIterator p tr mid ls)
      else Ok (mkIterator p tr (mid ++ [(k, t)]) ls)) by (by destruct t).
    rewrite Henq. destruct (negb (has_prefix k p) && negb (has_prefix p k)) eqn:E.
    + apply andb_true_iff in E as [E1%negb_true_iff E2%negb_true_iff].
      rewrite ahead_pruned by done. eexists; split; [done|]; cbn -[ahead queued].
      rewrite app_nil_r. split_and!; [done..|lia|lia].
    + eexists; split; [done|]. cbn -[ahead nodeCount queued]. rewrite queued_app. cbn -[ahead nodeCount queued].
      split_and!; [|done|done| |lia|lia].
      * apply Forall_app. split; [done|]. by constructor.
      * rewrite bind_app. cbn -[ahead]. by rewrite app_nil_r, app_assoc.
Qed.

Lemma sum_list_cons x l : sum_list (x :: l) = (x + sum_list l)%nat.
Proof. done. Qed.

Definition innerCount (t : TrieNode) : nat := if IsLeafNode t then 0 else nodeCount t.

Lemma enqueueAll_spec it key succ :
  wfIterator it → Forall (λ e, canonical e.2 = true) succ →
  ∃ it', enqueueAll it key succ = Ok it' ∧ wfIterator it' ∧ it_prefix it' = it_prefix it ∧
    it_trie it' = it_trie it ∧
    pending it' ≡ₚ pending it ++ (succ ≫= λ e, ahead (it_prefix it) (key ++ e.1, e.2)) ∧
    (queued it' ≤ queued it + sum_list ((λ e, innerCount e.2) <$> succ))%nat ∧
    (budget it' ≤ budget it + sum_list ((λ e, nodeCount e.2) <$> succ))%nat.
Proof.
  revert it. induction succ as [|[k t] succ IH]; intros it Hit Hsucc.
  - exists it. cbn. rewrite app_nil_r. split_and!; [done..|lia|lia].
  - apply Forall_cons_iff in Hsucc as [Ht Hsucc].
    destruct (enqueue_spec it (key ++ k) t Hit Ht) as (it1 & Hrun & Hit1 & Hp1 & Ht1 & Hpend & Hq1 & Hb1).
    destruct (IH it1 Hit1 Hsucc) as (it2 & Hrun2 & Hit2 & Hp2 & Ht2 & Hpend2 & Hq2 & Hb2).
    exists it2. rewrite bind_cons, !fmap_cons, !sum_list_cons. cbn [fst snd].
    unfold innerCount at 1. split_and!; [|done|congruence|congruence| |lia|lia].
    + cbn [enqueueAll]. by rewrite Hrun.
    + by rewrite Hpend2, Hpend, Hp1, app_assoc.
Qed.

Lemma children_counts cs :
  sum_list ((λ e : list Z * TrieNode, nodeCount e.2) <$> ((λ e : Z * TrieNode, ([e.1], e.2)) <$> cs)) =
  (fix sum cs := match cs with [] => O | (_, x) :: cs' => (nodeCount x + sum cs')%nat end) cs.
Proof. induction cs as [|[b x] cs IH]; [done|]. cbn -[nodeCount]. by rewrite IH. Qed.

Lemma innerCount_le (es : list (list Z * TrieNode)) :
  (sum_list ((λ e, innerCount e.2) <$> es) ≤ sum_list ((λ e, nodeCount e.2) <$> es))%nat.
Proof.
  induction es as [|[k t] es IH]; [done|]. rewrite !fmap_cons, !sum_list_cons. cbn [snd].
  unfold innerCount at 1. case_match; lia.
Qed.

Lemma children_ahead prefix key cs :
  (((λ e : Z * TrieNode, ([e.1], e.2)) <$> cs) ≫= λ e, ahead prefix (key ++ e.1, e.2)) =
  select prefix (under key (childEntries cs)).
Proof.
  induction cs as [|[b x] cs IH]; [done|].
  change (childEntries ((b, x) :: cs)) with (under [b] (entries x) ++ childEntries cs).
  rewrite under_union, select_app, under_app, <- IH. done.
Qed.

Lemma successors_spec prefix key t :
  canonical t = true →
  Forall (λ e, canonical e.2 = true) (successors t) ∧
  (successors t ≫= λ e, ahead prefix (key ++ e.1, e.2)) = ahead prefix (key, t) ∧
  (sum_list ((λ e, innerCount e.2) <$> successors t) < nodeCount t)%nat ∧
  (sum_list ((λ e, nodeCount e.2) <$> successors t) ≤ nodeCount t)%nat.
Proof.
  intros Ht. destruct t as [|h|cs c|p c|v|v]; try done.
  - apply canonical_full in Ht as (_ & Hall & Hc & _).
    assert (Hsum : (sum_list ((λ e, nodeCount e.2) <$> successors (FullNode cs c)) < nodeCount (FullNode cs c))%nat).
    { cbn [successors nodeCount]. rewrite fmap_app. destruct (isNil c);
        rewrite ?fmap_cons, fmap_nil; cbn [app]; rewrite ?sum_list_cons, children_counts; cbn [snd]; lia. }
    pose proof (innerCount_le (successors (FullNode cs c))). split_and!; [| |lia|lia].
    + cbn [successors]. apply Forall_app. split.
      * destruct Hc as [-> |Hc]; cbn; [constructor|]. destruct c; try done; by repeat constructor.
      * rewrite list.Forall_fmap. eapply list.Forall_impl; [exact Hall|done].
    + unfold ahead at 2. cbn [fst snd successors]. rewrite entries_full, under_union, select_app, bind_app.
      rewrite children_ahead. f_equal. destruct Hc as [-> |Hc]; [done|].
      assert (isNil c = false) as -> by (by destruct c). cbn -[ahead]. by rewrite !app_nil_r.
  - apply canonical_short in Ht as (_ & _ & Hc). cbn [successors].
    pose proof (innerCount_le [(p, c)]). cbn -[ahead nodeCount] in *. rewrite app_nil_r.
    split_and!; [by repeat constructor| |cbn; lia|cbn; lia].
    unfold ahead; cbn [fst snd entries]. by rewrite under_app.
  - cbn -[ahead]. rewrite !app_nil_r. split_and!; [by repeat constructor|done|lia|lia].
  - cbn -[ahead]. rewrite !app_nil_r. split_and!; [by repeat constructor|done|lia|lia].
Qed.

Section iterate.
Context `{Crypto} (db : option (Hash → res (list Z))) (tr : Trie) (val : TrieNode → list Z).
Context (Hval : ∀ l, LeafNodeValue db tr l = Ok (val l)).

Lemma Next_spec fuel it :
  wfIterator it → it_trie it = tr → (queued it < fuel)%nat →
  (pending it = [] ∧ ∃ it', Next db fuel it = Ok (None, it')) ∨
  ∃ k l it', Next db fuel it = Ok (Some (k, val l), it') ∧ pending it ≡ₚ (k, l) :: pending it' ∧
    wfIterator it' ∧ it_trie it' = tr ∧ (budget it' < budget it)%nat.
Proof.
  revert it. induction fuel as [|fuel IH]; intros [p t mid ls] Hit Htr Hf; [lia|]. cbn in Htr. subst t.
  destruct ls as [|[k l] ls].
  - destruct mid as [|[key t] mid]; [left; by eauto|].
    apply Forall_cons_iff in Hit as [Ht Hit]. cbn in Ht.
    destruct (successors_spec p key t Ht) as (Hsucc & Hahead & Hinner & Hcount).
    set (it0 := mkIterator p tr mid []).
    destruct (enqueueAll_spec it0 key (successors t)) as (it1 & Hrun & Hit1 & Hp1 & Ht1 & Hpend & Hq1 & Hb1); [done..|].
    assert (Hnext : Next db (S fuel) (mkIterator p tr ((key, t) :: mid) []) = Next db fuel it1).
    { cbn. fold it0. unfold mbind, res_bind. destruct t; try done; by rewrite Hrun. }
    assert (Hq : queued (mkIterator p tr ((key, t) :: mid) []) = (nodeCount t + queued it0)%nat) by done.
    assert (Hperm : pending (mkIterator p tr ((key, t) :: mid) []) ≡ₚ pending it1).
    { rewrite Hpend. cbn [it_prefix it0]. rewrite Hahead. unfold pending; cbn -[ahead]. apply Permutation_app_comm. }
    rewrite Hnext. destruct (IH it1) as [[Hnil Hn]|(k & l & it' & Hn & Hp & Hw & Htr & Hb)]; [done|done|lia| |].
    + left. split; [|done]. rewrite Hnil in Hperm. by apply Permutation_nil_r.
    + right. exists k, l, it'. split_and!; [done|by rewrite Hperm|done|done|].
      unfold budget in *. cbn [it_leafNodes length it0] in *. lia.
  - right. exists k, l, (mkIterator p tr mid ls). cbn. unfold mbind, res_bind. rewrite Hval.
    split_and!; [done|done|done|done|]. unfold budget; cbn. lia.
Qed.

Lemma drain_spec fuel it :
  wfIterator it → it_trie it = tr → (budget it < fuel)%nat →
  ∃ kvs, drain db fuel it = Ok kvs ∧ kvs ≡ₚ (λ e, (e.1, val e.2)) <$> pending it.
Proof.
  revert it. induction fuel as [|fuel IH]; intros it Hit Htr Hf; [lia|]. cbn [drain].
  destruct (Next_spec (nextFuel it) it) as [[Hnil [it' Hn]]|(k & l & it' & Hn & Hp & Hw & Htr' & Hb)];
    [done|done|unfold nextFuel; lia| |]; rewrite Hn; cbn [mbind res_bind].
  - exists []. by rewrite Hnil.
  - destruct (IH it') as (kvs & Hd & Hperm); [done|done|lia|]. exists ((k, val l) :: kvs).
    rewrite Hd. split; [done|]. by rewrite Hp, fmap_cons, Hperm.
Qed.
End iterate.

Lemma LeafNodeValue_total `{Crypto} db t l :
  (∀ get, db = Some get → ∀ h, get h ≠ Panic) → ∃ v, LeafNodeValue db t l = Ok v.
Proof.
  intros Hdb. destruct l; cbn; eauto. unfold getRefValue, BytesToHash.
  destruct (Nat.eqb (length value) HashSize); cbn; [|eauto].
  destruct (unSavedRefValueMap t !! be_combine value); [by eauto|]. destruct db as [get|]; [|eauto]. specialize (Hdb get eq_refl (be_combine value)).
  destruct (get _); eauto. done.
Qed.

(** C36: iterating over a canonical trie ends and gives every key with the prefix
    exactly once, with the value [GetValue] reads, and no other key. *)
Theorem iterate_complete `{Crypto} db t prefix :
  canonicalRoot (tr_Root t) = true → (∀ get, db = Some get → ∀ h, get h ≠ Panic) →
  ∃ kvs, iterate db t prefix = Ok kvs ∧ NoDup kvs.*1 ∧
    ∀ k v, (k, v) ∈ kvs ↔
      has_prefix k prefix = true ∧ getLeafNode (tr_Root t) k ≠ NilNode ∧ GetValue db t k = Ok v.
Proof.
  intros Hroot Hdb. destruct (isNil (tr_Root t)) eqn:Enil.
  { exists []. destruct t as [[] u]; try done. split; [done|]. split; [constructor|]. intros k v.
    cbn [tr_Root]. rewrite get_nil, elem_of_nil. naive_solver. }
  set (val l := match LeafNodeValue db t l with Ok v => v | _ => [] end).
  assert (Hval : ∀ l, LeafNodeValue db t l = Ok (val l)).
  { intros l. unfold val. by destruct (LeafNodeValue_total db t l Hdb) as [v ->]. }
  assert (Hcan : canonical (tr_Root t) = true) by (unfold canonicalRoot in Hroot; by rewrite Enil in Hroot).
  destruct (drain_spec db t val Hval (drainFuel (NewIterator t prefix)) (NewIterator t prefix))
    as (kvs & Hrun & Hperm); [by constructor|done|unfold budget, drainFuel; lia|].
  assert (Hpend : pending (NewIterator t prefix) = select prefix (entries (tr_Root t))).
  { unfold pending, ahead. cbn -[select entries]. by rewrite under_nil, app_nil_r. }
  rewrite Hpend in Hperm. exists kvs. split_and!; [done| |].
  - rewrite Hperm, <- list_fmap_compose. unfold select. eapply sublist_NoDup; [by apply NoDup_entries|].
    apply fmap_sublist, sublist_filter.
  - intros k v. rewrite Hperm, list_elem_of_fmap. unfold GetValue, select. rewrite Hval. split.
    + intros ([k' l] & [= -> ->] & [Hp [Hl Hg]%entries_spec]%list_elem_of_filter); [|done]. by rewrite Hg.
    + intros (Hp & Hl & [= <-]). exists (k, getLeafNode (tr_Root t) k). split; [done|].
      apply list_elem_of_filter. split; [done|]. by apply entries_spec.
Qed.
