(* ===== verification/Merkle.v ===== *)
(** * Merkle trees: [common/merkle/merkle.go]

    The proof-of-value chain commits to the transactions of a block by the root of a
    Merkle tree.  The verifier builds the whole tree as an array; a miner that changes
    only the coinbase recomputes the root from a branch.  Both give the same root.
    [crypto/sha256] is written out, so that roots can be computed. *)

From S2P Require Import Prelude Types.

(** ** SHA-256 ([crypto/sha256]) and [Sha256DHashData] of [common/types/hash.go] *)
Module Sha256.
Definition rotr (x n : Z) : Z := Z.lor (Z.shiftr x n) (u32 (Z.shiftl x (32 - n))).

(** The constants of the standard: the first 32 bits of the fractional parts of the cube
    roots of the first 64 primes, and of the square roots of the first eight. *)
Definition primes : list Z :=
  List.filter (λ p, forallb (λ d, negb (p mod d =? 0)) (seqZ 2 (p - 2))) (seqZ 2 310).

(** The integer [e]-th root of [v], from its bit number [bits - 1] down. *)
Fixpoint root (bits : nat) (e v acc : Z) : Z :=
  match bits with
  | O => acc
  | S b =>
      let t := acc + 2 ^ Z.of_nat b in
      root b e v (if t ^ e <=? v then t else acc)
  end.

Definition fraction (e p : Z) : Z := u32 (root 40 e (p * 2 ^ (32 * e)) 0).

Definition K : list Z := Eval vm_compute in fraction 3 <$> primes.
Definition H0 : list Z := Eval vm_compute in fraction 2 <$> take 8 primes.

(** The message schedule: [w] holds the words so far, latest first. *)
Fixpoint schedule (n : nat) (w : list Z) : list Z :=
  match n with
  | O => w
  | S n' =>
      let at_ i := nth i w 0 in
      let s0 := Z.lxor (Z.lxor (rotr (at_ 14%nat) 7) (rotr (at_ 14%nat) 18)) (Z.shiftr (at_ 14%nat) 3) in
      let s1 := Z.lxor (Z.lxor (rotr (at_ 1%nat) 17) (rotr (at_ 1%nat) 19)) (Z.shiftr (at_ 1%nat) 10) in
      schedule n' (u32 (at_ 15%nat + s0 + at_ 6%nat + s1) :: w)
  end.

Definition round (st : list Z) (kw : Z * Z) : list Z :=
  match st with
  | [a; b; c; d; e; f; g; h] =>
      let s1 := Z.lxor (Z.lxor (rotr e 6) (rotr e 11)) (rotr e 25) in
      let ch := Z.lxor (Z.land e f) (Z.land (Z.lxor e (2 ^ 32 - 1)) g) in
      let t1 := h + s1 + ch + kw.1 + kw.2 in
      let s0 := Z.lxor (Z.lxor (rotr a 2) (rotr a 13)) (rotr a 22) in
      let maj := Z.lxor (Z.lxor (Z.land a b) (Z.land a c)) (Z.land b c) in
      [u32 (t1 + s0 + maj); a; b; c; u32 (d + t1); e; f; g]
  | _ => st
  end.

Fixpoint words (bs : list Z) : list Z :=
  match bs with
  | a :: b :: c :: d :: bs' => be_combine [a; b; c; d] :: words bs'
  | _ => []
  end.

Definition block (st : list Z) (chunk : list Z) : list Z :=
  let w := reverse (schedule 48 (reverse (words chunk))) in
  zip_with (λ x y, u32 (x + y)) st (foldl round st (zip K w)).

Fixpoint blocks (n : nat) (st msg : list Z) : list Z :=
  match n with
  | O => st
  | S n' => blocks n' (block st (take 64 msg)) (drop 64 msg)
  end.

Definition pad (msg : list Z) : list Z :=
  let len := Z.of_nat (length msg) in
  msg ++ [128] ++ replicate (Z.to_nat ((55 - len) mod 64)) 0 ++ be_bytes 8 (8 * len).

Definition Sum (msg : list Z) : list Z :=
  let m := pad msg in
  concat (be_bytes 4 <$> blocks (length m / 64) H0 m).

(** The digest of "abc" from the standard. *)
Example Sum_abc :
  be_combine (Sum [97; 98; 99]) = 0xba7816bf8f01cfea414140de5dae2223b00361a396177a9cb410ff61f20015ad.
Proof. vm_compute. reflexivity. Qed.
End Sha256.

Definition Sha256DHashData (data : list Z) : Hash := be_combine (Sha256.Sum (Sha256.Sum data)).

(** ** The tree *)

(** [uint(math.Log2(float64(n)))] is the integer logarithm for every slice that fits in
    memory. *)
Definition nextPowerOfTwo (n : Z) : Z :=
  if Z.land n (n - 1) =? 0 then n else Z.shiftl 1 (Z.log2 n + 1).

Definition HashMerkleBranches (left right : Hash) : Hash :=
  Sha256DHashData (hash_bytes left ++ hash_bytes right).

(** The parent of two entries of the array; [None] is a nil pointer. *)
Definition parent (l r : option Hash) : option Hash :=
  match l, r with
  | None, _ => None
  | Some l, None => Some (HashMerkleBranches l l)
  | Some l, Some r => Some (HashMerkleBranches l r)
  end.

(** [n] rounds of the loop that reads at [i], [i+1] and writes at [offset]. *)
Fixpoint fillParents (n i offset : nat) (merkles : list (option Hash)) : list (option Hash) :=
  match n with
  | O => merkles
  | S n' =>
      fillParents n' (i + 2) (offset + 1)
        (<[offset := parent (merkles !!! i) (merkles !!! S i)]> merkles)
  end.

Definition BuildMerkleTreeStore (txHashs : list Hash) : list (option Hash) :=
  match txHashs with
  | [] => [Some 0]
  | _ =>
      let nextPoT := Z.to_nat (nextPowerOfTwo (Z.of_nat (length txHashs))) in
      let arraySize := (nextPoT * 2 - 1)%nat in
      let merkles := (Some <$> txHashs) ++ replicate (arraySize - length txHashs) None in
      fillParents ((arraySize - 1) / 2) 0 nextPoT merkles
  end.

(** [merkles] is never empty; a nil root would be dereferenced. *)
Definition CalcMerkleTreeRootHash (txHashs : list Hash) : res Hash :=
  match txHashs with
  | [] => Ok 0
  | _ => match list.last (BuildMerkleTreeStore txHashs) with Some (Some h) => Ok h | _ => Panic end
  end.

(** ** The coinbase branch *)

(** The inner loop, on the elements after the first. *)
Fixpoint mergePairs (merkles : list Hash) : list Hash :=
  match merkles with
  | l :: r :: merkles' => HashMerkleBranches l r :: mergePairs merkles'
  | _ => []
  end.

(** One round of the outer loop: the first element, and the elements of the next
    round. *)
Definition branchStep (first : Hash) (rest : list Hash) : list Hash :=
  let merkles := first :: rest in
  let merkles := if Nat.even (length merkles) then merkles ++ [default first (list.last merkles)] else merkles in
  mergePairs (tail merkles).

Fixpoint branchLoop (fuel : nat) (merkles : list Hash) : list Hash :=
  match fuel, merkles with
  | S fuel', first :: (_ :: _) as rest => first :: branchLoop fuel' (branchStep first rest)
  | _, _ => merkles
  end.

Definition BuildCoinbaseMerkleBranch (txHashes : list Hash) : list Hash :=
  branchLoop (length txHashes) txHashes.

Definition CalcCoinbaseMerkleRoot (coinbaseHash : Hash) (merkleBranch : list Hash) : Hash :=
  foldl HashMerkleBranches coinbaseHash merkleBranch.

(** [index] is an [int]: the shift keeps its sign. *)
Fixpoint CalcMerkleRootBranch (hash : Hash) (merkleBranch : list Hash) (index : Z) : Hash :=
  match merkleBranch with
  | [] => hash
  | it :: branch' =>
      CalcMerkleRootBranch
        (Sha256DHashData (if Z.land index 1 =? 1 then hash_bytes it ++ hash_bytes hash
                          else hash_bytes hash ++ hash_bytes it))
        branch' (Z.shiftr index 1)
  end.

Definition CalcMerkleRootByIndex (hash : Hash) (merkleBranch : list Hash) (index : Z) : Hash :=
  if index =? -1 then 0 else CalcMerkleRootBranch hash merkleBranch index.

(** The shift of an [uint32] by 32 or more is zero, and the remainder by zero panics. *)
Definition CalcAuxPowExpectedIndex (nonce chainID h : Z) : res Z :=
  let rand := u32 (nonce * 1103515245 + 12345) in
  let rand := u32 (rand + u32 chainID) in
  let rand := u32 (rand * 1103515245 + 12345) in
  let m := u32 (Z.shiftl 1 (u32 h)) in
  if m =? 0 then Panic else Ok (rand mod m).

(** ** Levels of the tree *)
#[local] Opaque HashMerkleBranches Sha256DHashData.

(** The next level of a tree whose last node is doubled when it has no sibling. *)
Fixpoint up (l : list Hash) : list Hash :=
  match l with
  | [] => []
  | [x] => [HashMerkleBranches x x]
  | x :: y :: l' => HashMerkleBranches x y :: up l'
  end.

(** The same on the array, nil entries included. *)
Fixpoint parents (l : list (option Hash)) : list (option Hash) :=
  match l with x :: y :: l' => parent x y :: parents l' | _ => [] end.

Fixpoint climb (k : nat) (l : list (option Hash)) : option Hash :=
  match k with O => default None (head l) | S k' => climb k' (parents l) end.

(** Induction two elements at a time. *)
Lemma list_ind2 {A} (P : list A → Prop) :
  P [] → (∀ x, P [x]) → (∀ x y l, P l → P (x :: y :: l)) → ∀ l, P l.
Proof.
  intros H0 H1 H2 l. enough (P l ∧ ∀ x, P (x :: l)) by tauto.
  induction l as [|x l [IH1 IH2]]; [auto|]. split; [auto|]. intros y. by apply H2.
Qed.

Lemma length_up l : length (up l) = ((length l + 1) / 2)%nat.
Proof.
  induction l as [|x|x y l IH] using list_ind2; [done|done|]. cbn [up length]. rewrite IH.
  replace (S (S (length l)) + 1)%nat with (1 * 2 + (length l + 1))%nat by lia.
  rewrite Nat.div_add_l by lia. lia.
Qed.

Lemma length_parents m l : length l = (2 * m)%nat → length (parents l) = m.
Proof.
  revert m. induction l as [|x|x y l IH] using list_ind2; intros m Hl; cbn [length parents] in *; [lia|lia|].
  destruct m as [|m]; [lia|]. cbn [parents length]. rewrite (IH m); lia.
Qed.

(** ** The array holds the levels one after the other *)
Lemma lookup_total_mid (pre : list (option Hash)) x l : (pre ++ x :: l) !!! length pre = x.
Proof. by rewrite lookup_total_app_r, Nat.sub_diag by lia. Qed.

Lemma insert_mid (pre : list (option Hash)) x y l : <[length pre := x]> (pre ++ y :: l) = pre ++ x :: l.
Proof. rewrite <- (Nat.add_0_r (length pre)). by rewrite insert_app_r. Qed.

Lemma fill_level rest : ∀ todo done acc tail m n,
  length todo = (2 * m)%nat → length tail = m →
  fillParents (m + n) (length done) (length (done ++ todo ++ acc)) (done ++ todo ++ acc ++ tail ++ rest) =
  fillParents n (length (done ++ todo)) (length (done ++ todo ++ acc ++ parents todo))
    (done ++ todo ++ acc ++ parents todo ++ rest).
Proof.
  induction todo as [|x|x y todo IH] using list_ind2; intros dn acc tl m n Hm Ht; cbn [length] in Hm.
  - assert (m = 0%nat) as -> by lia. destruct tl; [|done]. cbn. by rewrite !app_nil_r.
  - lia.
  - destruct m as [|m]; [lia|]. destruct tl as [|z tl]; [done|]. cbn [Nat.add fillParents parents].
    assert (Hx : (dn ++ (x :: y :: todo) ++ acc ++ (z :: tl) ++ rest) !!! length dn = x)
      by apply lookup_total_mid.
    assert (Hy : (dn ++ (x :: y :: todo) ++ acc ++ (z :: tl) ++ rest) !!! S (length dn) = y).
    { replace (dn ++ (x :: y :: todo) ++ acc ++ (z :: tl) ++ rest)
        with ((dn ++ [x]) ++ y :: todo ++ acc ++ (z :: tl) ++ rest) by (by rewrite <- app_assoc).
      replace (S (length dn)) with (length (dn ++ [x])) by (rewrite length_app; cbn; lia).
      apply lookup_total_mid. }
    rewrite Hx, Hy. replace (length dn + 2)%nat with (length (dn ++ [x; y])) by (rewrite length_app; cbn; lia).
    assert (Hins : <[length (dn ++ (x :: y :: todo) ++ acc) := parent x y]>
        (dn ++ (x :: y :: todo) ++ acc ++ (z :: tl) ++ rest) =
      (dn ++ [x; y]) ++ todo ++ (acc ++ [parent x y]) ++ tl ++ rest).
    { replace (dn ++ (x :: y :: todo) ++ acc ++ (z :: tl) ++ rest)
        with ((dn ++ (x :: y :: todo) ++ acc) ++ z :: tl ++ rest) by (by rewrite <- !app_assoc).
      rewrite insert_mid. by rewrite <- !app_assoc. }
    rewrite Hins. replace (length (dn ++ (x :: y :: todo) ++ acc) + 1)%nat
      with (length ((dn ++ [x; y]) ++ todo ++ acc ++ [parent x y])) by (rewrite !length_app; cbn; lia).
    rewrite IH by (cbn in Ht; lia). by rewrite <- !app_assoc.
Qed.

Lemma fill_tree k : ∀ done lvl,
  length lvl = (2 ^ k)%nat →
  list.last (fillParents (2 ^ k - 1) (length done) (length (done ++ lvl)) (done ++ lvl ++ replicate (2 ^ k - 1) None)) =
  Some (climb k lvl).
Proof.
  induction k as [|k IH]; intros dn lvl Hl.
  - destruct lvl as [|x [|]]; try done. cbn. by rewrite list.last_snoc.
  - cbn [Nat.pow] in *. pose proof (Nat.pow_nonzero 2 k ltac:(lia)).
    replace (2 * 2 ^ k - 1)%nat with (2 ^ k + (2 ^ k - 1))%nat by lia.
    rewrite replicate_add, app_assoc with (l := lvl).
    pose proof (fill_level (replicate (2 ^ k - 1) None) lvl dn [] (replicate (2 ^ k) None) (2 ^ k) (2 ^ k - 1) Hl
      (length_replicate _ _)) as Hf.
    rewrite !app_nil_r in Hf. cbn [app] in Hf. rewrite <- app_assoc, Hf.
    rewrite !(app_assoc dn). cbn [climb]. apply IH. by apply length_parents.
Qed.

(** ** Roots of padded levels *)
Definition padded (l : list Hash) (m : nat) : list (option Hash) := (Some <$> l) ++ replicate m None.

Lemma parents_none h : parents (replicate (2 * h) None) = replicate h None.
Proof. induction h as [|h IH]; [done|]. replace (2 * S h)%nat with (S (S (2 * h))) by lia. cbn in *. by rewrite IH. Qed.

Lemma parents_padded l : ∀ m h,
  (length l + m = 2 * h)%nat → parents (padded l m) = padded (up l) (h - length (up l)).
Proof.
  unfold padded. induction l as [|x|x y l IH] using list_ind2; intros m h Hm; cbn [length] in Hm.
  - cbn [fmap list_fmap app up length]. replace m with (2 * h)%nat by lia. by rewrite parents_none, Nat.sub_0_r.
  - destruct m as [|m]; [lia|]. destruct h as [|h]; [lia|]. replace m with (2 * h)%nat by lia.
    cbn -[Nat.mul]. by rewrite parents_none, Nat.sub_0_r.
  - destruct h as [|h]; [lia|]. cbn. f_equal. apply IH. lia.
Qed.

Fixpoint rootOf (k : nat) (l : list Hash) : Hash :=
  match k with O => default 0 (head l) | S k' => rootOf k' (up l) end.

Lemma climb_padded k : ∀ l m,
  l ≠ [] → (length l + m = 2 ^ k)%nat → climb k (padded l m) = Some (rootOf k l).
Proof.
  induction k as [|k IH]; intros l m Hl Hm.
  - destruct l as [|x [|]]; [done| |cbn in Hm; lia]. cbn in Hm. by destruct m; [|lia].
  - cbn [climb rootOf]. rewrite (parents_padded l m (2 ^ k)) by (cbn [Nat.pow] in Hm; lia). apply IH.
    + destruct l as [|x [|]]; done.
    + cbn [Nat.pow] in Hm. rewrite length_up.
      pose proof (Nat.div_mod (length l + 1) 2). pose proof (Nat.mod_upper_bound (length l + 1) 2). lia.
Qed.

Lemma land_pred_pow n : 0 < n → Z.land n (n - 1) = 0 → n = 2 ^ Z.log2 n.
Proof.
  intros Hn Hl. pose proof (Z.log2_spec n Hn) as [Hlo Hhi]. pose proof (Z.log2_nonneg n).
  destruct (decide (n = 2 ^ Z.log2 n)) as [|Hne]; [done|]. exfalso.
  assert (Hp : Z.log2 (n - 1) = Z.log2 n) by (apply Z.log2_unique; lia).
  assert (Hb : Z.testbit (Z.land n (n - 1)) (Z.log2 n) = true).
  { rewrite Z.land_spec, Z.bit_log2 by lia. rewrite <- Hp. apply Z.bit_log2.
    pose proof (Z.pow_pos_nonneg 2 (Z.log2 n)). lia. }
  by rewrite Hl, Z.testbit_0_l in Hb.
Qed.

Lemma land_pow_pred j : 0 ≤ j → Z.land (2 ^ j) (2 ^ j - 1) = 0.
Proof.
  intros Hj. replace (2 ^ j - 1) with (Z.ones j) by (rewrite Z.ones_equiv; lia).
  rewrite Z.land_ones by done. apply Z_mod_same_full.
Qed.

(** The least power of two that is large enough. *)
Lemma nextPowerOfTwo_spec (n : nat) :
  (0 < n)%nat → ∃ k, Z.to_nat (nextPowerOfTwo (Z.of_nat n)) = (2 ^ k)%nat ∧ (n ≤ 2 ^ k)%nat ∧ (2 ^ k < 2 * n)%nat.
Proof.
  intros Hn. unfold nextPowerOfTwo. pose proof (Z.log2_nonneg (Z.of_nat n)).
  assert (Hpow : ∀ j, 0 ≤ j → Z.of_nat (2 ^ Z.to_nat j) = 2 ^ j).
  { intros j Hj. rewrite Nat2Z.inj_pow, Z2Nat.id by lia. done. }
  destruct (Z.eqb_spec (Z.land (Z.of_nat n) (Z.of_nat n - 1)) 0) as [Hl|Hl].
  - exists (Z.to_nat (Z.log2 (Z.of_nat n))). apply land_pred_pow in Hl; [|lia].
    specialize (Hpow (Z.log2 (Z.of_nat n))). lia.
  - exists (Z.to_nat (Z.log2 (Z.of_nat n) + 1)). rewrite Z.shiftl_1_l.
    pose proof (Z.log2_spec (Z.of_nat n) ltac:(lia)) as [Hlo Hhi].
    specialize (Hpow (Z.log2 (Z.of_nat n) + 1) ltac:(lia)). unfold Z.succ in Hhi.
    assert (E : 2 ^ (Z.log2 (Z.of_nat n) + 1) = 2 * 2 ^ Z.log2 (Z.of_nat n)) by (rewrite Z.pow_add_r by lia; lia).
    assert (Hne : Z.of_nat n ≠ 2 ^ Z.log2 (Z.of_nat n)) by (intros En; rewrite En in Hl; by rewrite land_pow_pred in Hl by lia).
    lia.
Qed.

Lemma CalcMerkleTreeRootHash_root l :
  l ≠ [] → ∃ k, (length l ≤ 2 ^ k)%nat ∧ (2 ^ k < 2 * length l)%nat ∧ CalcMerkleTreeRootHash l = Ok (rootOf k l).
Proof.
  intros Hl. destruct (nextPowerOfTwo_spec (length l)) as (k & Hk & Hle & Hlt); [destruct l; [done|cbn; lia]|].
  exists k. split; [done|]. split; [done|]. unfold CalcMerkleTreeRootHash, BuildMerkleTreeStore.
  destruct l as [|x l']; [done|]. set (l := x :: l') in *. rewrite Hk. pose proof (Nat.pow_nonzero 2 k ltac:(lia)).
  replace ((2 ^ k * 2 - 1 - 1) / 2)%nat with (2 ^ k - 1)%nat.
  2:{ apply Nat.div_unique with 0%nat; lia. }
  replace (2 ^ k * 2 - 1 - length l)%nat with ((2 ^ k - length l) + (2 ^ k - 1))%nat by lia.
  rewrite replicate_add, app_assoc. fold (padded l (2 ^ k - length l)).
  pose proof (fill_tree k [] (padded l (2 ^ k - length l))) as Hf.
  assert (Hlen : length (padded l (2 ^ k - length l)) = (2 ^ k)%nat).
  { unfold padded. rewrite length_app, length_fmap, length_replicate. lia. }
  cbn [app length] in Hf. rewrite Hlen in Hf. rewrite Hf, climb_padded by (done || lia). done.
Qed.

(** ** The branch *)
Lemma mergePairs_even l : Nat.even (length l) = true → mergePairs l = up l.
Proof. induction l as [|x|x y l IH] using list_ind2; [done|done|]. cbn. intros Hl. by rewrite IH. Qed.

Lemma mergePairs_odd d l : Nat.even (length l) = false → mergePairs (l ++ [default d (list.last l)]) = up l.
Proof.
  induction l as [|x|x y l IH] using list_ind2; [done|done|]. intros Hl. cbn in Hl. cbn [app mergePairs up].
  rewrite <- IH by done. f_equal. destruct l; [done|]. done.
Qed.

Lemma branchStep_up t ts : ts ≠ [] → branchStep t ts = up ts.
Proof.
  intros Hts. unfold branchStep. cbn [length]. rewrite Nat.even_succ, <- Nat.negb_even.
  destruct (Nat.even (length ts)) eqn:E; cbn [negb tail]; [by apply mergePairs_even|].
  cbn [app tail]. rewrite <- (mergePairs_odd t ts E). do 2 f_equal. by destruct ts.
Qed.

Lemma branchLoop_cons fuel t ts :
  (length ts < fuel)%nat → branchLoop fuel (t :: ts) = t :: branchLoop (pred fuel) (up ts).
Proof.
  intros Hf. destruct fuel as [|fuel]; [lia|]. destruct ts as [|t' ts]; [by destruct fuel|].
  cbn [branchLoop pred]. f_equal. f_equal. by apply branchStep_up.
Qed.

Lemma rootOf_branch k : ∀ c ts fuel,
  (length (c :: ts) ≤ 2 ^ k)%nat → (2 ^ k < 2 * length (c :: ts))%nat → (length ts ≤ fuel)%nat →
  rootOf k (c :: ts) = CalcCoinbaseMerkleRoot c (branchLoop fuel ts).
Proof.
  induction k as [|k IH]; intros c ts fuel Hle Hlt Hf.
  - destruct ts; [by destruct fuel|cbn in Hle; lia].
  - cbn [Nat.pow] in *. pose proof (Nat.pow_nonzero 2 k ltac:(lia)).
    destruct ts as [|t ts]; [cbn in Hlt; lia|]. cbn [length] in *. rewrite branchLoop_cons by lia.
    cbn [rootOf up]. pose proof (Nat.div_mod (length ts + 1) 2). pose proof (Nat.mod_upper_bound (length ts + 1) 2).
    rewrite (IH _ _ (pred fuel)); cbn [length]; rewrite ?length_up; [done|lia..].
Qed.

(** C30: a miner and a verifier agree on the Merkle root.  The root computed from the
    coinbase and its branch is the root of the whole tree, for any number of
    transactions, and the tree never yields a nil root. *)
Theorem coinbase_branch_root c ts :
  CalcMerkleTreeRootHash (c :: ts) = Ok (CalcCoinbaseMerkleRoot c (BuildCoinbaseMerkleBranch ts)).
Proof.
  destruct (CalcMerkleTreeRootHash_root (c :: ts) ltac:(done)) as (k & Hle & Hlt & ->).
  f_equal. by apply rootOf_branch.
Qed.

(** The index of the coinbase is zero: the general check of a branch is the same fold. *)
Lemma CalcMerkleRootBranch_coinbase branch : ∀ c,
  CalcMerkleRootBranch c branch 0 = CalcCoinbaseMerkleRoot c branch.
Proof. induction branch as [|b branch IH]; intros c; [done|]. apply IH. Qed.

(** Repeating the last transaction does not change the root.  A list of odd length
    greater than one has the same root as the list with its last element twice. *)
Theorem repeated_last_same_root l x :
  l ≠ [] → Nat.even (length l) = true →
  CalcMerkleTreeRootHash (l ++ [x]) = CalcMerkleTreeRootHash (l ++ [x; x]).
Proof.
  intros Hl He.
  assert (Hup : up (l ++ [x]) = up (l ++ [x; x])).
  { clear Hl. revert He. induction l as [|a|a b l IH] using list_ind2; [done|done|]. cbn. intros He.
    by rewrite IH. }
  apply Nat.even_spec in He as [j Hj].
  destruct (CalcMerkleTreeRootHash_root (l ++ [x])) as (k & Hle & Hlt & ->); [by destruct l|].
  destruct (CalcMerkleTreeRootHash_root (l ++ [x; x])) as (k' & Hle' & Hlt' & ->); [by destruct l|].
  rewrite !length_app in *. cbn [length] in *. destruct k as [|k]; [exfalso; cbn [Nat.pow] in Hle; destruct l; [by apply Hl|cbn [length] in *; lia]|].
  assert (k' = S k) as ->; [|f_equal; cbn [rootOf]; by rewrite Hup].
  cbn [Nat.pow] in *. destruct k' as [|k']; [exfalso; cbn [Nat.pow] in Hle'; lia|]. cbn [Nat.pow] in *. f_equal.
  destruct (Nat.lt_trichotomy k' k) as [Hk|[Hk|Hk]]; [exfalso|done|exfalso].
  - pose proof (Nat.pow_le_mono_r 2 (S k') k). cbn [Nat.pow] in *. lia.
  - pose proof (Nat.pow_le_mono_r 2 (S k) k'). cbn [Nat.pow] in *. lia.
Qed.
