(* ===== verification/Target.v ===== *)
(** * Difficulty targets: [common/types/target.go] and the target of [pov_pow.go]

    A target is kept in a block header in a compact form of 32 bits, like a floating
    point number in base 256.  Decoding loses less than one part in [2^15], and a target
    that was decoded is encoded as it was. *)

From S2P Require Import Prelude Types Merkle.

(** ** Targets as hashes *)
Definition HashToBig (hash : Hash) : Z := be_combine (reverse (hash_bytes hash)).

Definition BigToHash (num : Z) : option Hash :=
  let numBuf := big_bytes num in
  if (HashSize <? length numBuf)%nat then None
  else Some (be_combine (reverse (replicate (HashSize - length numBuf) 0 ++ numBuf))).

(** ** The compact form *)
Definition CompactToBig (compact : Z) : Z :=
  if compact =? 0 then 0
  else
    let mantissa := Z.land compact 0x007fffff in
    let isNegative := negb (Z.land compact 0x00800000 =? 0) in
    let exponent := Z.shiftr compact 24 in
    let bn := if exponent <=? 3 then Z.shiftr mantissa (8 * (3 - exponent))
              else Z.shiftl mantissa (8 * (exponent - 3)) in
    if isNegative then - bn else bn.

(** [n.Bits()[0]] is the low word of the absolute value. *)
Definition BigToCompact (n : Z) : Z :=
  if n =? 0 then 0
  else
    let exponent := Z.of_nat (byte_len n) in
    let mantissa :=
      if exponent <=? 3 then u32 (Z.shiftl (u32 (Z.abs n)) (8 * (3 - exponent)))
      else u32 (Z.abs (Z.shiftr n (8 * (exponent - 3)))) in
    let '(mantissa, exponent) :=
      if negb (Z.land mantissa 0x00800000 =? 0) then (Z.shiftr mantissa 8, exponent + 1)
      else (mantissa, exponent) in
    let compact := Z.lor (u32 (Z.shiftl exponent 24)) mantissa in
    if n <? 0 then Z.lor compact 0x00800000 else compact.

(** ** Work *)
Definition CalcWorkIntToBigInt (diffNum : Z) : Z :=
  if diffNum <=? 0 then 0 else 2 ^ 256 / (diffNum + 1).

Definition CalcWorkBitsToBigInt (bits : Z) : Z := CalcWorkIntToBigInt (CompactToBig bits).

(** ** Bits *)
Lemma land_pow2 t k : 0 ≤ k → Z.land t (2 ^ k) = if Z.testbit t k then 2 ^ k else 0.
Proof.
  intros Hk. apply Z.bits_inj'. intros i Hi. rewrite Z.land_spec, Z.pow2_bits_eqb by done.
  destruct (Z.eqb_spec k i) as [<-|Hne].
  - rewrite andb_true_r. destruct (Z.testbit t k) eqn:E; [by rewrite Z.pow2_bits_true|by rewrite Z.testbit_0_l].
  - rewrite andb_false_r. destruct (Z.testbit t k); [by rewrite Z.pow2_bits_false|by rewrite Z.testbit_0_l].
Qed.

Lemma sign_bit t : 0 ≤ t < 2 ^ 24 → (Z.land t 0x00800000 =? 0) = (t <? 2 ^ 23).
Proof.
  intros Ht. change 0x00800000 with (2 ^ 23). rewrite land_pow2 by lia.
  rewrite Z.testbit_odd, Z.shiftr_div_pow2 by lia.
  destruct (Z.ltb_spec t (2 ^ 23)).
  - by rewrite Z.div_small by lia.
  - rewrite <- (Z.div_unique t (2 ^ 23) 1 (t - 2 ^ 23)) by lia. done.
Qed.

(** ** Packed exponent and mantissa *)
Definition pack (e m : Z) : Z := e * 2 ^ 24 + m.

(** The number that an exponent and a mantissa stand for. *)
Definition value (e m : Z) : Z := if e <=? 3 then m / 256 ^ (3 - e) else m * 256 ^ (e - 3).

Lemma pow256 k : 0 ≤ k → 2 ^ (8 * k) = 256 ^ k.
Proof. intros. rewrite Z.pow_mul_r by lia. done. Qed.

Lemma CompactToBig_pack e m : 0 ≤ e < 256 → 0 ≤ m < 2 ^ 23 → CompactToBig (pack e m) = value e m.
Proof.
  intros He Hm. unfold CompactToBig, value, pack. destruct (Z.eqb_spec (e * 2 ^ 24 + m) 0) as [E|_].
  { assert (e = 0) as -> by lia. assert (m = 0) as -> by lia. done. }
  change 0x007fffff with (Z.ones 23). rewrite Z.land_ones by lia.
  assert (Hmod : (e * 2 ^ 24 + m) mod 2 ^ 23 = m).
  { replace (e * 2 ^ 24 + m) with (m + (e * 2) * 2 ^ 23) by lia. rewrite Z.mod_add by lia. by apply Z.mod_small. }
  rewrite Hmod, Z.shiftr_div_pow2 by lia.
  rewrite Z.div_add_l, (Z.div_small m (2 ^ 24)), Z.add_0_r by lia.
  assert (Hs : Z.land (e * 2 ^ 24 + m) 0x00800000 = 0).
  { change 0x00800000 with (2 ^ 23). rewrite land_pow2 by lia. rewrite Z.testbit_odd, Z.shiftr_div_pow2 by lia.
    replace (e * 2 ^ 24 + m) with ((e * 2) * 2 ^ 23 + m) by lia. rewrite Z.div_add_l, (Z.div_small m) by lia.
    by rewrite Z.add_0_r, Z.odd_mul, andb_false_r. }
  rewrite Hs. cbn [negb Z.eqb]. destruct (Z.leb_spec e 3).
  - rewrite Z.shiftr_div_pow2, pow256 by lia. done.
  - rewrite Z.shiftl_mul_pow2, pow256 by lia. done.
Qed.

Lemma lor_pack e m : 0 ≤ m < 2 ^ 24 → Z.lor (Z.shiftl e 24) m = pack e m.
Proof.
  intros Hm. unfold pack. rewrite <- Z.add_nocarry_lor; [by rewrite Z.shiftl_mul_pow2 by lia|].
  apply Z.bits_inj'. intros i Hi. rewrite Z.land_spec, Z.testbit_0_l.
  destruct (Z.ltb_spec i 24); [by rewrite Z.shiftl_spec_low|].
  rewrite (Z.bits_above_log2 m i), andb_false_r; [done|lia|].
  destruct (decide (m = 0)) as [->|]; [change (Z.log2 0) with 0; lia|].
  apply Z.log2_lt_pow2; [lia|]. pose proof (Z.pow_le_mono_r 2 24 i). lia.
Qed.

(** ** The leading digits *)
Lemma byte_len_lower n : 0 < n → 256 ^ (Z.of_nat (byte_len n) - 1) ≤ n ∧ (1 ≤ byte_len n)%nat.
Proof.
  intros Hn. unfold byte_len. rewrite Z.abs_eq by lia. destruct n as [|p|p]; [lia| |lia].
  pose proof (Z.log2_nonneg (Z.pos p)). pose proof (Z.div_pos (Z.log2 (Z.pos p)) 8).
  split; [|lia]. rewrite Z2Nat.id, Z.add_simpl_r, <- pow256 by lia.
  pose proof (Z.log2_spec (Z.pos p)) as [Hlo _]; [lia|].
  etransitivity; [|exact Hlo]. apply Z.pow_le_mono_r; [lia|].
  pose proof (Z.mod_pos_bound (Z.log2 (Z.pos p)) 8). pose proof (Z.div_mod (Z.log2 (Z.pos p)) 8). lia.
Qed.

Lemma byte_len_unique n k : 1 ≤ k → 256 ^ (k - 1) ≤ n < 256 ^ k → Z.of_nat (byte_len n) = k.
Proof.
  intros Hk [Hlo Hhi]. pose proof (Z.pow_pos_nonneg 256 (k - 1)).
  destruct (byte_len_lower n) as [Hlo' Hl]; [lia|]. pose proof (byte_len_bound n) as Hhi'.
  rewrite Z.abs_eq in Hhi' by lia. set (j := Z.of_nat (byte_len n)) in *.
  destruct (Z.lt_trichotomy j k) as [|[|]]; [exfalso|done|exfalso].
  - pose proof (Z.pow_le_mono_r 256 j (k - 1)). lia.
  - pose proof (Z.pow_le_mono_r 256 k (j - 1)). lia.
Qed.

(** The three leading bytes of [n], of [k] bytes. *)
Definition lead (n k : Z) : Z := if k <=? 3 then n * 256 ^ (3 - k) else n / 256 ^ (k - 3).

Lemma lead_range n k : 1 ≤ k → 256 ^ (k - 1) ≤ n < 256 ^ k → 2 ^ 16 ≤ lead n k < 2 ^ 24.
Proof.
  intros Hk [Hlo Hhi]. unfold lead. destruct (Z.leb_spec k 3).
  - change (2 ^ 16) with (256 ^ 2). change (2 ^ 24) with (256 ^ 3).
    replace (256 ^ 2) with (256 ^ (k - 1) * 256 ^ (3 - k)) by (rewrite <- Z.pow_add_r by lia; f_equal; lia).
    replace (256 ^ 3) with (256 ^ k * 256 ^ (3 - k)) by (rewrite <- Z.pow_add_r by lia; f_equal; lia).
    pose proof (Z.pow_pos_nonneg 256 (3 - k)). nia.
  - pose proof (Z.pow_pos_nonneg 256 (k - 3)). split.
    + apply Z.div_le_lower_bound; [lia|]. change (2 ^ 16) with (256 ^ 2).
      rewrite <- Z.pow_add_r by lia. by replace (k - 3 + 2) with (k - 1) by lia.
    + apply Z.div_lt_upper_bound; [lia|]. change (2 ^ 24) with (256 ^ 3).
      rewrite <- Z.pow_add_r by lia. by replace (k - 3 + 3) with k by lia.
Qed.

(** What [BigToCompact] packs. *)
Lemma BigToCompact_pack n k :
  1 ≤ k ≤ 254 → 256 ^ (k - 1) ≤ n < 256 ^ k →
  BigToCompact n = if lead n k <? 2 ^ 23 then pack k (lead n k) else pack (k + 1) (lead n k / 256).
Proof.
  intros Hk Hn. pose proof (lead_range n k ltac:(lia) Hn) as Hl. pose proof (Z.pow_pos_nonneg 256 (k - 1)).
  unfold BigToCompact. destruct (Z.eqb_spec n 0); [lia|]. rewrite (byte_len_unique n k) by (done || lia).
  assert (Hm : (if k <=? 3 then u32 (Z.shiftl (u32 (Z.abs n)) (8 * (3 - k)))
                else u32 (Z.abs (Z.shiftr n (8 * (k - 3))))) = lead n k).
  { unfold lead, u32 in *. rewrite (Z.abs_eq n) by lia. destruct (Z.leb_spec k 3).
    - pose proof (Z.pow_pos_nonneg 256 (3 - k)). rewrite (Z.mod_small n) by nia.
      rewrite Z.shiftl_mul_pow2, pow256 by lia. apply Z.mod_small. lia.
    - rewrite Z.shiftr_div_pow2, pow256 by lia. rewrite Z.abs_eq by lia. apply Z.mod_small. lia. }
  rewrite Hm, sign_bit by lia. destruct (Z.ltb_spec n 0); [lia|].
  assert (Hu : ∀ e, 0 ≤ e < 256 → u32 (Z.shiftl e 24) = Z.shiftl e 24).
  { intros e He. unfold u32. rewrite Z.shiftl_mul_pow2 by lia. apply Z.mod_small. lia. }
  destruct (Z.ltb_spec (lead n k) (2 ^ 23)); cbn [negb].
  - rewrite Hu, lor_pack by lia. done.
  - rewrite Hu, Z.shiftr_div_pow2 by lia. change (2 ^ 8) with 256. rewrite lor_pack; [done|].
    split; [apply Z.div_pos; lia|apply Z.div_lt_upper_bound; lia].
Qed.

(** ** Precision *)

(** Rounding down to a multiple of a unit that [n] has many of. *)
Lemma rounded n U :
  0 ≤ n → 0 < U → U = 1 ∨ 2 ^ 15 ≤ n / U → n / U * U ≤ n ∧ (n - n / U * U) * 2 ^ 15 ≤ n / U * U.
Proof.
  intros Hn HU Hor. pose proof (Z.div_mod n U ltac:(lia)) as Hd. pose proof (Z.mod_pos_bound n U HU).
  destruct Hor as [->|Hor]; [rewrite Z.div_1_r in *; lia|]. nia.
Qed.

Lemma div_256 n u : 0 < u → n / (256 * u) = n / u / 256.
Proof. intros. rewrite Z.div_div by lia. by rewrite (Z.mul_comm u). Qed.

(** Encoding and decoding rounds down to a unit, and rounding once is enough. *)
Lemma compact_unit n k :
  1 ≤ k ≤ 254 → 256 ^ (k - 1) ≤ n < 256 ^ k →
  ∃ U, 0 < U ∧ CompactToBig (BigToCompact n) = n / U * U ∧ (U = 1 ∨ 2 ^ 15 ≤ n / U) ∧
    256 ^ (k - 1) ≤ n / U * U ∧ lead (n / U * U) k / 256 = lead n k / 256 ∧
    (lead n k < 2 ^ 23 → lead (n / U * U) k = lead n k).
Proof.
  intros Hk Hn. pose proof (lead_range n k ltac:(lia) Hn) as Hl. pose proof (Z.pow_pos_nonneg 256 (k - 1)).
  rewrite (BigToCompact_pack n k) by done.
  assert (Hm : 0 ≤ lead n k / 256 < 2 ^ 23) by (split; [apply Z.div_pos|apply Z.div_lt_upper_bound]; lia).
  destruct (Z.leb_spec k 3) as [Hk3|Hk3].
  - assert (H3 : lead n k = n * 256 ^ (3 - k)) by (unfold lead; by destruct (Z.leb_spec k 3); [|lia]).
    pose proof (Z.pow_pos_nonneg 256 (3 - k)).
    destruct (Z.ltb_spec (lead n k) (2 ^ 23)) as [Hs|Hs].
    + exists 1. rewrite CompactToBig_pack, Z.div_1_r, Z.mul_1_r by lia. split_and!; try (done || lia || by left).
      unfold value. destruct (Z.leb_spec k 3); [|lia]. rewrite H3. by apply Z.div_mul; lia.
    + rewrite CompactToBig_pack by lia.
      destruct (decide (k = 3)) as [->|Hne].
      * change (256 ^ (3 - 3)) with 1 in H3. rewrite Z.mul_1_r in H3. exists 256. rewrite H3 in Hl, Hs, Hm |- *.
        assert (Hq : 2 ^ 15 ≤ n / 256) by (apply Z.div_le_lower_bound; lia).
        assert (Hle : lead (n / 256 * 256) 3 = n / 256 * 256) by (unfold lead; cbn; lia).
        rewrite Hle, Z.div_mul by lia. change (256 ^ (3 - 1)) with (2 ^ 16).
        split_and!; try (done || lia || by right).
      * exists 1. rewrite Z.div_1_r, Z.mul_1_r. split_and!; try (done || lia || by left).
        unfold value. destruct (Z.leb_spec (k + 1) 3); [|lia]. rewrite H3.
        replace (256 ^ (3 - k)) with (256 ^ (3 - (k + 1)) * 256)
          by (replace (3 - k) with (3 - (k + 1) + 1) by lia; by rewrite Z.pow_add_r by lia).
        rewrite Z.mul_assoc, Z.div_mul, Z.div_mul by (try lia; pose proof (Z.pow_pos_nonneg 256 (3 - (k + 1))); lia).
        done.
  - set (u := 256 ^ (k - 3)). assert (Hu : 0 < u) by (apply Z.pow_pos_nonneg; lia).
    assert (Hlead : ∀ x, lead x k = x / u) by (intros; unfold lead; by destruct (Z.leb_spec k 3); [lia|]).
    assert (Hk1 : 256 ^ (k - 1) = 2 ^ 16 * u)
      by (unfold u; change (2 ^ 16) with (256 ^ 2); rewrite <- Z.pow_add_r by lia; f_equal; lia).
    rewrite Hlead in *. destruct (Z.ltb_spec (n / u) (2 ^ 23)) as [Hs|Hs].
    + exists u. rewrite CompactToBig_pack by lia. rewrite !Hlead, Z.div_mul by lia.
      split_and!; try (done || lia || (right; lia)); [|nia].
      unfold value. by destruct (Z.leb_spec k 3); [lia|].
    + exists (256 * u). rewrite CompactToBig_pack by lia.
      rewrite !Hlead, div_256 by lia. assert (Hq : 2 ^ 15 ≤ n / u / 256) by (apply Z.div_le_lower_bound; lia).
      replace (n / u / 256 * (256 * u)) with (n / u / 256 * 256 * u) by lia. rewrite Z.div_mul, Z.div_mul by lia.
      split_and!; try (done || lia || (right; lia)); [|nia].
      unfold value. destruct (Z.leb_spec (k + 1) 3); [lia|]. unfold u.
      replace (k + 1 - 3) with (k - 3 + 1) by lia. rewrite Z.pow_add_r by lia. lia.
Qed.

(** The bytes of a positive number. *)
Lemma byte_len_pos n :
  0 < n < 256 ^ 254 → ∃ k, 1 ≤ k ≤ 254 ∧ 256 ^ (k - 1) ≤ n < 256 ^ k.
Proof.
  intros Hn. destruct (byte_len_lower n) as [Hlo Hl]; [lia|]. pose proof (byte_len_bound n) as Hhi.
  rewrite Z.abs_eq in Hhi by lia. exists (Z.of_nat (byte_len n)).
  split; [|split; done]. split; [lia|]. destruct (Z.leb_spec (Z.of_nat (byte_len n)) 254); [done|].
  pose proof (Z.pow_le_mono_r 256 254 (Z.of_nat (byte_len n) - 1)). lia.
Qed.

Lemma compact_precision n :
  0 < n < 256 ^ 254 →
  let m := CompactToBig (BigToCompact n) in m ≤ n ∧ (n - m) * 2 ^ 15 ≤ m ∧ 0 < m.
Proof.
  intros Hn. destruct (byte_len_pos n Hn) as (k & Hk & Hb). cbn zeta.
  destruct (compact_unit n k Hk Hb) as (U & HU & -> & Hor & Hlo & _).
  destruct (rounded n U) as [Hle Hp]; [lia..|done|]. pose proof (Z.pow_pos_nonneg 256 (k - 1)). lia.
Qed.

(** The compact form of a target keeps fifteen bits.  A target that is encoded and
    decoded is never above the original, and below it by less than one part in [2^15];
    encoding it again gives the same bits. *)
Theorem compact_roundtrip n :
  0 < n < 256 ^ 254 →
  let m := CompactToBig (BigToCompact n) in
  m ≤ n ∧ (n - m) * 2 ^ 15 ≤ m ∧ 0 < m ∧ BigToCompact m = BigToCompact n.
Proof.
  intros Hn. destruct (byte_len_pos n Hn) as (k & Hk & Hb). cbn zeta.
  destruct (compact_unit n k Hk Hb) as (U & HU & -> & Hor & Hlo & Hl1 & Hl2).
  destruct (rounded n U) as [Hle Hp]; [lia..|done|]. pose proof (Z.pow_pos_nonneg 256 (k - 1)).
  split; [done|]. split; [done|]. split; [lia|].
  rewrite (BigToCompact_pack n k), (BigToCompact_pack (n / U * U) k) by (done || lia).
  destruct (Z.ltb_spec (lead n k) (2 ^ 23)) as [Hs|Hs].
  - rewrite (Hl2 Hs). destruct (Z.ltb_spec (lead n k) (2 ^ 23)); [done|lia].
  - destruct (Z.ltb_spec (lead (n / U * U) k) (2 ^ 23)) as [Hs'|]; [|by rewrite Hl1].
    exfalso. assert (lead (n / U * U) k / 256 < 2 ^ 15) by (apply Z.div_lt_upper_bound; lia).
    assert (2 ^ 15 ≤ lead n k / 256) by (apply Z.div_le_lower_bound; lia). lia.
Qed.

Lemma compact_roundtrip_witness :
  CompactToBig (BigToCompact (2 ^ 224 - 1)) = 0xffff * 2 ^ 208 ∧ BigToCompact (0xffff * 2 ^ 208) = 0x1d00ffff.
Proof.
  destruct (compact_roundtrip (2 ^ 224 - 1)) as (_ & _ & _ & H); [vm_compute; split; reflexivity|].
  split; [vm_compute; reflexivity|]. change (0xffff * 2 ^ 208) with (CompactToBig (BigToCompact (2 ^ 224 - 1))).
  rewrite H. vm_compute. reflexivity.
Defined.

