(* ===== verification/Contract.v ===== *)
(** * Chain contracts as the ledger sees them: [vm/contract/contract.go],
    [vm/vmstore]

    A chain contract is a Go interface: its description and the functions the
    ledger calls when it checks, processes and rolls back contract blocks.  The
    file models the interface, the registry that selects a contract by address and
    method, and the VM context through which a contract reads the ledger and
    collects its writes.  The contracts themselves are instances of the
    interface. *)

From S2P Require Import Prelude Types Cache Storage Ledger Trie TrieIter TrieStore.

(** ** Descriptions *)
Record Describe := mkDescribe {
  specVer : Z;
  signature : bool;
  pending : bool;
  povState : bool;
  work : bool;
}.

Definition SpecVer1 : Z := 1.
Definition SpecVer2 : Z := 2.

Inductive ContractGapType :=
| ContractNoGap | ContractRewardGapPov | ContractDPKIGapPublish
| ContractPermGapAdmin | ContractDoDOrderState.

(** ** The VM context: [vm_store.go], [vm_cache.go]

    [ctx_storage] is the cache of a context; objects are kept as the bytes they
    are converted to. *)
Record VMContext := mkVMContext {
  ctx_contractAddr : option Address;
  ctx_poVHeight : Z;
  ctx_storage : gmap (list Z) (list Z);
}.

Definition getStorageKey (prefix key : list Z) : list Z := prefix ++ key.

(** The raw key without its table prefix: contract address, prefix, key. *)
Definition getRawStorageKey (v : VMContext) (prefix key : list Z) : Key :=
  KVMStorage (match ctx_contractAddr v with Some a => hash_bytes a | None => [] end
              ++ prefix ++ key).

Definition SetStorage (v : VMContext) (prefix key value : list Z) : VMContext :=
  mkVMContext (ctx_contractAddr v) (ctx_poVHeight v)
    (<[getStorageKey prefix key := value]> (ctx_storage v)).

Definition GetStorage (l : Ledger) (v : VMContext) (prefix key : list Z) : res (list Z) :=
  let storageKey := getStorageKey prefix key in
  match ctx_storage v !! storageKey with
  | Some s => Ok s
  | None =>
      match l_Get l None (getRawStorageKey v storageKey []) with
      | Ok val => Ok val
      | Err KeyNotFound => Err ErrStorageNotFound
      | Err e => Err e
      | Panic => Panic
      end
  end.

(** [ToCache]: the writes of a context under their raw keys. *)
Definition ToCache (v : VMContext) : list (Key * Value) :=
  (λ kv, (getRawStorageKey v kv.1 [], VBytes kv.2)) <$> map_to_list (ctx_storage v).

(** What a gap is about: a proof-of-value height, or the hash of a block or an order. *)
Inductive GapInfo := GapNone | GapHeight (height : Z) | GapHash (h : Hash).

(** ** The interface *)
Record ContractBlock := mkContractBlock {
  cb_VMContext : option VMContext;
  cb_Block : StateBlock;
  cb_ToAddress : Address;
  cb_BlockType : BlockType;
  cb_Amount : Balance;
  cb_Token : Hash;
  cb_Data : list Z;
}.

(** The functions may write to the context and to the block they are given; the
    new versions are returned with the result. *)
Record Contract := mkContract {
  GetDescribe : Describe;
  DoPending : StateBlock → res (option (PendingKey * PendingInfo));
  DoSend : Ledger → VMContext → StateBlock → res unit * VMContext * StateBlock;
  ProcessSend : Ledger → VMContext → StateBlock →
    res (option (PendingKey * PendingInfo)) * VMContext * StateBlock;
  DoReceive : Ledger → VMContext → StateBlock → StateBlock → res (list ContractBlock);
  DoGap : Ledger → VMContext → StateBlock → res (ContractGapType * GapInfo) * VMContext * StateBlock;
  GetTargetReceiver : Ledger → VMContext → StateBlock → res Address;
}.

(** [BaseContract], which concrete contracts embed and override. *)
Definition BaseContract (d : Describe) : Contract :=
  {| GetDescribe := d;
     DoPending := λ _, Ok None;
     DoSend := λ _ v b, (Err (Errorf "not implemented"), v, b);
     ProcessSend := λ _ v b, (Err (Errorf "not implemented"), v, b);
     DoReceive := λ _ _ _ _, Err (Errorf "not implemented");
     DoGap := λ _ v b, (Ok (ContractNoGap, GapNone), v, b);
     GetTargetReceiver := λ _ _ _, Ok 0 |}.

(** ** The registry *)
Record qlcChainContract := mkChainContract {
  MethodById : list Z → option string;    (* abi.MethodById *)
  cc_m : gmap string Contract;
}.

(** A registered object type: its identity, and decoding, which gives the bytes the
    object serializes to.  The source decodes into the one registered instance. *)
Record structInfo := mkStructInfo {
  identityID : list Z;
  si_Deserialize : list Z → res (list Z);
}.

(** What block processing needs from the other parts of the node: the contracts
    registered at start-up, the encoding of trie records, and the proof-of-value
    chain. *)
Class Node := {
  node_codec :: TrieCodec;
  (* Whether [ledger.DefaultStore()] is the ledger: it is nil unless the ledger was
     opened in the default directory. *)
  defaultStore : bool;
  qlcAllChainContracts : gmap Address qlcChainContract;
  MintageAddress : Address;
  rewardContracts : list Address;
  (* The object types registered at start-up; the source registers none. *)
  relationMap : list structInfo;
  (* Whether [MintageABI.UnpackMethod(param, MethodNameMintage, data)] succeeds. *)
  mintageUnpack : list Z → bool;
  (* Heights of the latest header and of the header at a height. *)
  GetLatestPovHeader : res Z;
  GetPovHeaderByHeight : Z → res Z;
}.

Section node.
Context `{Crypto} `{Config} `{Node}.

Definition RegisterContracts (m : gmap Address qlcChainContract) (addr : Address)
    (c : qlcChainContract) : gmap Address qlcChainContract :=
  match m !! addr with Some _ => m | None => <[addr:=c]> m end.

(** [(Contract, ok, err)] with [ok && err == nil] as [Some]. *)
Definition GetChainContract (addr : Address) (methodSelector : list Z) : option Contract :=
  p ← qlcAllChainContracts !! addr;
  name ← MethodById p methodSelector;
  cc_m p !! name.

Definition IsChainContract (addr : Address) : bool :=
  match qlcAllChainContracts !! addr with Some _ => true | None => false end.

(** [None] is the nil context of the source. *)
Definition NewVMContextWithBlock (l : Ledger) (block : StateBlock) : option VMContext :=
  match GetLatestPovHeader with
  | Ok latest =>
      let povHeight := if latest <? sb_PoVHeight block then latest else sb_PoVHeight block in
      match GetPovHeaderByHeight povHeight with
      | Ok height =>
          match ContractAddress l block with
          | Ok contractAddr => Some (mkVMContext (Some contractAddr) height ∅)
          | _ => None
          end
      | _ => None
      end
  | _ => None
  end.

(** [SaveStorage(val, c)] with a temporary cache. *)
Definition SaveStorage (val : list (Key * Value)) : M LS unit :=
  modifyS (λ s, set_bat s (foldl (λ c kv, Cache_Put c kv.1 kv.2) (ls_bat s) val)).

(** [vmstore.Trie(ctx)]: the context's writes under their raw keys, in a trie with no
    store behind it. *)
Definition ctxTrie (v : VMContext) : res Trie :=
  SetValues emptyTrie ((λ kv, (encode_key (getRawStorageKey v kv.1 []), kv.2))
                         <$> map_to_list (ctx_storage v)).

Definition saveTrie (v : VMContext) : M LS unit :=
  t ← liftR (ctxTrie v);
  r ← liftR (Save None t);
  modifyS (λ s, set_bat s (foldl (λ c p, Cache_Put c (KTrie p.1) (VBytes p.2)) (ls_bat s) r.1)).

(** [trie.get] of a trie opened on the ledger's store: through the default ledger,
    its write cache included, or from the store alone. *)
Definition trieGet (l : Ledger) (h : Hash) : res (list Z) :=
  if defaultStore then l_Get l None (KTrie h)
  else match l_store l !! KTrie h with
       | Some (VBytes bs) => Ok bs
       | Some _ => deserializeError
       | None => Err KeyNotFound
       end.

(** A chain of records that leads from hash to hash without a cycle is no longer
    than the number of records. *)
Definition trieFuel (l : Ledger) : nat := S (size (lview l)).

(** [trie.NewTrie(lv.l.DBStore(), &extra, pool)]. *)
Definition openTrie (l : Ledger) (extra : Hash) : res Trie :=
  NewTrie (Some (trieGet l)) (trieFuel l) (Some extra).
End node.
