(* ===== verification/Unchecked.v ===== *)
(** * Blocks that wait: [ledger/ledger_uncheck.go], [ledger/ledger_sync.go]

    A block whose predecessor, source, token or proof-of-value height is not known yet
    is parked in the store under what it waits for, and taken out when that arrives or
    is given up.  These tables are written to the store directly, without the write
    cache. *)

From stdpp Require Import sorting.
From S2P Require Import Prelude Types Cache Storage Ledger LedgerFacts Contract GoBytes.

Inductive UncheckedKind :=
| UncheckedKindPrevious | UncheckedKindLink | UncheckedKindTokenInfo | UncheckedKindPublish.

#[global] Instance UncheckedKind_eq_dec : EqDecision UncheckedKind.
Proof. solve_decision. Defined.

Definition uncheckedKey (kind : UncheckedKind) (h : Hash) : Key :=
  match kind with
  | UncheckedKindPrevious => KUncheckedPrevious h
  | UncheckedKindLink => KUncheckedLink h
  | UncheckedKindTokenInfo => KUncheckedTokenInfo h
  | UncheckedKindPublish => KUncheckedPublish h
  end.

Definition uncheckedKindToPrefix (kind : UncheckedKind) : Z := key_prefix (uncheckedKey kind 0).

(** [l.store.Put] of a serialized value, [l.store.Delete], [l.store.Count]. *)
Definition store_Put (k : Key) (v : Value) : M Ledger unit :=
  modifyS (λ l, set_store l (<[k:=normValue v]> (l_store l))).
Definition store_Delete (k : Key) : M Ledger unit :=
  modifyS (λ l, set_store l (delete k (l_store l))).
Definition store_Count (l : Ledger) (prefix : list Z) : Z := Z.of_nat (length (store_Iterator l prefix)).

Section unchecked.
Context `{Crypto}.

(** [Add...Block] of the tables that refuse a second record. *)
Definition addOnce (k : Key) (blk : StateBlock) (sync : SynchronizedKind) : M Ledger unit :=
  λ l, if store_Has l k then (Err ErrUncheckedBlockExists, l) else store_Put k (VUnchecked blk sync) l.

Definition AddUncheckedBlock (key : Hash) (blk : StateBlock) (kind : UncheckedKind)
    (sync : SynchronizedKind) : M Ledger unit :=
  addOnce (uncheckedKey kind key) blk sync.

(** The private payload of a block read back is kept in a table of its own. *)
Definition withPayload (l : Ledger) (hash : Hash) (b : StateBlock) : StateBlock :=
  if SB.IsPrivate b then
    match GetBlockPrivatePayload l hash with
    | Ok pl => SB.SetPrivatePayload b pl
    | _ => b
    end
  else b.

Definition GetUncheckedBlock (l : Ledger) (hash : Hash) (kind : UncheckedKind)
    : res (StateBlock * SynchronizedKind) :=
  match l_store l !! uncheckedKey kind hash with
  | None => Err ErrUncheckedBlockNotFound
  | Some (VUnchecked b sync) => Ok (withPayload l (SB.GetHash b) b, sync)
  | Some _ => Err (Errorf "uncheck deserialize error: %s")
  end.

Definition DeleteUncheckedBlock (key : Hash) (kind : UncheckedKind) : M Ledger unit :=
  store_Delete (uncheckedKey kind key).

Definition HasUncheckedBlock (l : Ledger) (hash : Hash) (kind : UncheckedKind) : bool :=
  store_Has l (uncheckedKey kind hash).

(** [store.Iterator(prefix, nil, fn)]: the records as they are when the iteration
    begins; an error of the callback ends it. *)
Definition walk (fn : Key → Value → M Ledger unit) : list (Key * Value) → M Ledger unit :=
  fix go kvs := match kvs with [] => mret tt | (k, v) :: kvs' => fn k v;; go kvs' end.

Definition iterate (prefix : list Z) (fn : Key → Value → M Ledger unit) : M Ledger unit := λ l,
  walk fn (store_Iterator l prefix) l.

(** The block of an unchecked record, as the iterations decode it. *)
Definition decodeUnchecked (v : Value) : M Ledger (StateBlock * SynchronizedKind) :=
  match v with
  | VUnchecked b sync => λ l, (Ok (withPayload l (SB.GetHash b) b, sync), l)
  | _ => failS (Errorf "uncheck deserialize err: %s")
  end.

Definition visitUnchecked (kind : UncheckedKind)
    (visit : StateBlock → Hash → UncheckedKind → SynchronizedKind → M Ledger unit)
    (k : Key) (v : Value) : M Ledger unit :=
  u ← decodeUnchecked v;
  let suffix := drop 1 (encode_key k) in
  if Nat.eqb (length suffix) HashSize
  then wrapM "visit unchecked error %s" (visit u.1 (be_combine suffix) kind u.2)
  else failS (Errorf "uncheck kind err: %s").

Definition getUncheckedBlocks (kind : UncheckedKind)
    (visit : StateBlock → Hash → UncheckedKind → SynchronizedKind → M Ledger unit) : M Ledger unit :=
  iterate (GetKeyOfParts (uncheckedKindToPrefix kind) []) (visitUnchecked kind visit).

Definition GetUncheckedBlocks
    (visit : StateBlock → Hash → UncheckedKind → SynchronizedKind → M Ledger unit) : M Ledger unit :=
  getUncheckedBlocks UncheckedKindPrevious visit;;
  getUncheckedBlocks UncheckedKindLink visit;;
  getUncheckedBlocks UncheckedKindTokenInfo visit;;
  getUncheckedBlocks UncheckedKindPublish visit.

Definition CountUncheckedBlocks (l : Ledger) : Z :=
  u64 (store_Count l [KeyPrefixUncheckedBlockLink] + store_Count l [KeyPrefixUncheckedBlockPrevious] +
       store_Count l [KeyPrefixUncheckedPovHeight] + store_Count l [KeyPrefixGapPublish] +
       store_Count l [KeyPrefixGapDoDSettleState]).

(** ** Blocks that wait for a proof-of-value height *)
Definition PovHeightAddGap (height : Z) : M Ledger unit := store_Put (KGapPovHeight height) (VBytes []).
Definition PovHeightHasGap (l : Ledger) (height : Z) : bool := store_Has l (KGapPovHeight height).
Definition PovHeightDeleteGap (height : Z) : M Ledger unit := store_Delete (KGapPovHeight height).

Definition AddGapPovBlock (height : Z) (blk : StateBlock) (sync : SynchronizedKind) : M Ledger unit :=
  store_Put (KUncheckedPovHeight height (SB.GetHash blk)) (VUnchecked blk sync).
Definition DeleteGapPovBlock (height : Z) (hash : Hash) : M Ledger unit :=
  store_Delete (KUncheckedPovHeight height hash).

Definition WalkGapPovBlocksWithHeight (height : Z)
    (visit : StateBlock → Z → SynchronizedKind → M Ledger unit) : M Ledger unit :=
  iterate (KeyPrefixUncheckedPovHeight :: be_bytes 8 height) (λ _ v,
    u ← decodeUnchecked v; visit u.1 height u.2).

Definition WalkGapPovBlocks (visit : StateBlock → Z → SynchronizedKind → M Ledger unit) : M Ledger unit :=
  iterate (GetKeyOfParts KeyPrefixUncheckedPovHeight []) (λ k v,
    u ← decodeUnchecked v;
    visit u.1 (be_combine (take 8 (drop 1 (encode_key k)))) u.2).

(** ** Blocks that wait for a publication or an order state *)
Definition AddGapPublishBlock (key : Hash) (blk : StateBlock) (sync : SynchronizedKind) : M Ledger unit :=
  addOnce (KGapPublish key (SB.GetHash blk)) blk sync.
Definition DeleteGapPublishBlock (key blkHash : Hash) : M Ledger unit :=
  store_Delete (KGapPublish key blkHash).

(** The errors of the callback are collected, joined and returned at the end. *)
Definition visitAll (prefix : list Z) (visit : StateBlock → SynchronizedKind → M Ledger unit)
    : M Ledger unit := λ l,
  (fix go kvs (failed : bool) : M Ledger unit :=
     match kvs with
     | [] => if failed then failS (Errorf "joined errors") else mret tt
     | (_, v) :: kvs' =>
         u ← decodeUnchecked v;
         r ← tryS (visit u.1 u.2);
         go kvs' (failed || negb (isOk r))
     end) (store_Iterator l prefix) false l.

Definition GetGapPublishBlock (key : Hash) (visit : StateBlock → SynchronizedKind → M Ledger unit)
    : M Ledger unit :=
  visitAll (GetKeyOfParts KeyPrefixGapPublish [PHash key]) visit.

Definition AddGapDoDSettleStateBlock (key : Hash) (blk : StateBlock) (sync : SynchronizedKind)
    : M Ledger unit :=
  addOnce (KGapDoDSettleState key (SB.GetHash blk)) blk sync.
Definition GetGapDoDSettleStateBlock (key : Hash)
    (visit : StateBlock → SynchronizedKind → M Ledger unit) : M Ledger unit :=
  visitAll (GetKeyOfParts KeyPrefixGapDoDSettleState [PHash key]) visit.
Definition DeleteGapDoDSettleStateBlock (key blkHash : Hash) : M Ledger unit :=
  store_Delete (KGapDoDSettleState key blkHash).

(** ** Blocks of a chain being synchronized: [ledger_sync.go] *)
Definition readSyncBlock (l : Ledger) (k : Key) : res StateBlock :=
  match l_store l !! k with
  | None => Err ErrBlockNotFound
  | Some (VBlock b) => Ok b
  | Some _ => deserializeError
  end.

Definition AddUncheckedSyncBlock (previous : Hash) (blk : StateBlock) : M Ledger unit :=
  store_Put (KUncheckedSync previous) (VBlock blk).
Definition GetUncheckedSyncBlock (l : Ledger) (hash : Hash) : res StateBlock :=
  blk ← readSyncBlock l (KUncheckedSync hash); Ok (withPayload l (SB.GetHash blk) blk).
Definition HasUncheckedSyncBlock (l : Ledger) (hash : Hash) : bool := store_Has l (KUncheckedSync hash).
Definition CountUncheckedSyncBlocks (l : Ledger) : Z := u64 (store_Count l [KeyPrefixUncheckedSync]).
Definition DeleteUncheckedSyncBlock (hash : Hash) : M Ledger unit := store_Delete (KUncheckedSync hash).

Definition AddUnconfirmedSyncBlock (hash : Hash) (blk : StateBlock) : M Ledger unit :=
  store_Put (KUnconfirmedSync hash) (VBlock blk).
Definition GetUnconfirmedSyncBlock (l : Ledger) (hash : Hash) : res StateBlock :=
  blk ← readSyncBlock l (KUnconfirmedSync hash); Ok (withPayload l hash blk).
Definition HasUnconfirmedSyncBlock (l : Ledger) (hash : Hash) : bool := store_Has l (KUnconfirmedSync hash).
Definition CountUnconfirmedSyncBlocks (l : Ledger) : Z := u64 (store_Count l [KeyPrefixUnconfirmedSync]).
Definition DeleteUnconfirmedSyncBlock (hash : Hash) : M Ledger unit := store_Delete (KUnconfirmedSync hash).

(** [BytesToHash(key[1:])] of a key of these tables gives its hash. *)
Definition CleanSyncCache : M Ledger unit :=
  iterate (GetKeyOfParts KeyPrefixUnconfirmedSync [])
    (λ k _, DeleteUnconfirmedSyncBlock (be_combine (drop 1 (encode_key k))));;
  iterate (GetKeyOfParts KeyPrefixUncheckedSync [])
    (λ k _, DeleteUncheckedSyncBlock (be_combine (drop 1 (encode_key k)))).
End unchecked.

(** ** Giving up: [RollbackUnchecked] of [rollback.go] *)
Section rollback.
Context `{Crypto} `{Config} `{Node}.

(** A lookup whose error is ignored. *)
Definition uncheckedBlock (l : Ledger) (hash : Hash) (kind : UncheckedKind) : option StateBlock :=
  match GetUncheckedBlock l hash kind with Ok (b, _) => Some b | _ => None end.

(** The block that waits for the token of a mintage: [Ok None] when there is none,
    an error when the source of the block is missing.  The source reads the token out
    of the parameters before it unpacks them. *)
Definition tokenGap (l : Ledger) (hash : Hash) : res (option (Hash * StateBlock)) :=
  match GetStateBlock l None hash with
  | Panic => Panic
  | Err _ => Ok None
  | Ok blk =>
      if bool_decide (sb_Type blk = ContractReward) then
        input ← GetStateBlock l None (sb_Link blk);
        if sb_Link input =? MintageAddress then
          let tokenId := ZeroHash in
          if mintageUnpack (SB.GetPayload input)
          then Ok ((λ b, (tokenId, b)) <$> uncheckedBlock l tokenId UncheckedKindTokenInfo)
          else Ok None
        else Ok None
      else Ok None
  end.

Fixpoint RollbackUnchecked (fuel : nat) (hash : Hash) : M Ledger unit :=
  match fuel with
  | O => failS OutOfFuel
  | S fuel => λ l,
      let blkLink := uncheckedBlock l hash UncheckedKindLink in
      let blkPrevious := uncheckedBlock l hash UncheckedKindPrevious in
      let dropGap kind key o :=
        match o with
        | Some b => DeleteUncheckedBlock key kind;; RollbackUnchecked fuel (SB.GetHash b)
        | None => mret tt
        end in
      match tokenGap l hash with
      | Panic => (Panic, l)
      | Err _ => (Ok tt, l)
      | Ok blkToken =>
          (dropGap UncheckedKindLink hash blkLink;;
           dropGap UncheckedKindPrevious hash blkPrevious;;
           match blkToken with
           | Some (tokenId, b) => dropGap UncheckedKindTokenInfo tokenId (Some b)
           | None => mret tt
           end) l
      end
  end.

(** Every level of the recursion has deleted a record. *)
Definition uncheckedFuel (l : Ledger) : nat := S (size (l_store l)).

(** A run that is not cut off and only removes records. *)
Definition shrinks (m : M Ledger unit) (l : Ledger) : Prop :=
  (m l).1 ≠ Err OutOfFuel ∧ l_store (m l).2 ⊆ l_store l.

Lemma uncheckedBlock_has l hash kind b :
  uncheckedBlock l hash kind = Some b → is_Some (l_store l !! uncheckedKey kind hash).
Proof. unfold uncheckedBlock, GetUncheckedBlock. destruct (l_store l !! _); by eauto. Qed.

Lemma tokenGap_some l hash tokenId b :
  tokenGap l hash = Ok (Some (tokenId, b)) → uncheckedBlock l tokenId UncheckedKindTokenInfo = Some b.
Proof.
  unfold tokenGap. destruct (GetStateBlock l None hash) as [blk|e|]; [|done..]. case_match; [|done].
  intros (input & _ & Hi)%res_bind_Ok. repeat case_match; try done.
  destruct (uncheckedBlock l ZeroHash _) eqn:E; cbn in Hi; [|done]. by simplify_eq.
Qed.

Lemma shrinks_bind m f l :
  shrinks m l → (∀ l', l_store l' ⊆ l_store l → shrinks (f tt) l') → shrinks (m ≫= f) l.
Proof.
  unfold shrinks, mbind, M_bind. intros [Hne Hsub] Hf. destruct (m l) as [[[]|e|] l1]; cbn in *; [|done..].
  destruct (Hf l1 Hsub) as [? ?]. split; [done|]. by transitivity (l_store l1).
Qed.

Lemma shrinks_delete kind key (m : M Ledger unit) l :
  (∀ l', l_store l' = delete (uncheckedKey kind key) (l_store l) → shrinks m l') →
  shrinks (DeleteUncheckedBlock key kind;; m) l.
Proof.
  intros Hm. unfold shrinks, mbind, M_bind, DeleteUncheckedBlock, store_Delete, modifyS. cbn.
  destruct (Hm (set_store l (delete (uncheckedKey kind key) (l_store l)))) as [Hne Hsub]; [done|].
  split; [done|]. etransitivity; [exact Hsub|]. apply delete_subseteq.
Qed.

Lemma size_delete_some (k : Key) (m : gmap Key Value) :
  is_Some (m !! k) → (size (delete k m) < size m)%nat.
Proof.
  intros [v Hv]. rewrite <- (insert_delete_id m k v) at 2 by done.
  rewrite map_size_insert_None by apply lookup_delete_eq. lia.
Qed.

Lemma RollbackUnchecked_shrinks fuel hash l :
  (size (l_store l) < fuel)%nat → shrinks (RollbackUnchecked fuel hash) l.
Proof.
  revert hash l. induction fuel as [|fuel IH]; intros hash l Hf; [lia|].
  assert (Hdrop : ∀ kind key b l', l_store l' ⊆ l_store l →
    is_Some (l_store l !! uncheckedKey kind key) →
    shrinks (DeleteUncheckedBlock key kind;; RollbackUnchecked fuel (SB.GetHash b)) l').
  { intros kind key b l' Hsub Hin. apply shrinks_delete. intros l1 Hl1. apply IH. rewrite Hl1.
    pose proof (size_delete_some _ _ Hin) as Hlt.
    assert (size (delete (uncheckedKey kind key) (l_store l')) ≤
            size (delete (uncheckedKey kind key) (l_store l)))%nat; [|lia].
    by apply map_subseteq_size, delete_mono. }
  assert (Hret : ∀ l', l_store l' ⊆ l_store l → shrinks (mret tt) l') by done.
  unfold shrinks. cbn [RollbackUnchecked]. destruct (tokenGap l hash) as [blkToken|e|] eqn:Et; [|done..].
  change (shrinks (match uncheckedBlock l hash UncheckedKindLink with
    | Some b => DeleteUncheckedBlock hash UncheckedKindLink;; RollbackUnchecked fuel (SB.GetHash b)
    | None => mret tt end;;
    match uncheckedBlock l hash UncheckedKindPrevious with
    | Some b => DeleteUncheckedBlock hash UncheckedKindPrevious;; RollbackUnchecked fuel (SB.GetHash b)
    | None => mret tt end;;
    match blkToken with
    | Some (tokenId, b) => DeleteUncheckedBlock tokenId UncheckedKindTokenInfo;; RollbackUnchecked fuel (SB.GetHash b)
    | None => mret tt end) l).
  apply shrinks_bind; [|intros l1 Hl1; apply shrinks_bind; [|intros l2 Hl2]].
  - destruct (uncheckedBlock l hash _) eqn:E; [|by apply Hret]. by apply Hdrop; [|eapply uncheckedBlock_has].
  - destruct (uncheckedBlock l hash _) eqn:E; [|by apply Hret]. by apply Hdrop; [|eapply uncheckedBlock_has].
  - destruct blkToken as [[tokenId b]|]; [|apply Hret; by transitivity (l_store l1)].
    apply Hdrop; [by transitivity (l_store l1)|]. apply tokenGap_some in Et. by eapply uncheckedBlock_has.
Qed.
(** Giving up on a block terminates, whatever the unchecked tables hold: a level of
    the recursion is entered only after a record was deleted, so as many levels as
    there are records are enough.  No record is added or changed. *)
Theorem RollbackUnchecked_terminates hash l :
  (RollbackUnchecked (uncheckedFuel l) hash l).1 ≠ Err OutOfFuel ∧
  l_store (RollbackUnchecked (uncheckedFuel l) hash l).2 ⊆ l_store l.
Proof. apply RollbackUnchecked_shrinks. unfold uncheckedFuel. lia. Qed.
End rollback.

(** ** What the tables promise *)
Section facts.
Context `{Crypto}.

Lemma elem_store_Iterator l prefix k v :
  (k, v) ∈ store_Iterator l prefix ↔ l_store l !! k = Some v ∧ has_prefix (encode_key k) prefix = true.
Proof.
  unfold store_Iterator. rewrite merge_sort_Permutation, list_elem_of_filter, elem_of_map_to_list.
  cbn. rewrite Is_true_true. tauto.
Qed.

Lemma uncheckedKey_inj kind kind' h h' :
  uncheckedKey kind h = uncheckedKey kind' h' → kind = kind' ∧ h = h'.
Proof. destruct kind, kind'; cbn; intros; by simplify_eq. Qed.

(** An unchecked table keeps the first block parked under a hash: parking a block
    under a free hash succeeds and reading it back gives the block as it is
    serialized and where it came from; every other record is untouched; a second
    block for the same hash is refused; deleting frees the hash again. *)
Theorem unchecked_first_block_kept l key b b2 kind sync sync2 :
  HasUncheckedBlock l key kind = false →
  let '(r, l') := AddUncheckedBlock key b kind sync l in
  r = Ok tt ∧
  GetUncheckedBlock l' key kind = Ok (withPayload l' (SB.GetHash (SB.wire b)) (SB.wire b), sync) ∧
  (∀ k, k ≠ uncheckedKey kind key → l_store l' !! k = l_store l !! k) ∧
  AddUncheckedBlock key b2 kind sync2 l' = (Err ErrUncheckedBlockExists, l') ∧
  l_store (DeleteUncheckedBlock key kind l').2 = l_store l.
Proof.
  intros Hfree. unfold HasUncheckedBlock, store_Has in Hfree.
  destruct (l_store l !! uncheckedKey kind key) eqn:E; [done|].
  unfold AddUncheckedBlock, addOnce, store_Has. rewrite E. unfold store_Put, modifyS. cbn [normValue].
  set (l' := set_store l _). split; [done|].
  assert (Hl : l_store l' !! uncheckedKey kind key = Some (VUnchecked (SB.wire b) sync))
    by apply lookup_insert_eq.
  split_and!.
  - unfold GetUncheckedBlock. by rewrite Hl.
  - intros k Hk. by apply lookup_insert_ne.
  - by rewrite Hl.
  - cbn. by apply delete_insert_id.
Qed.

Lemma walk_stops l kvs (fn : Key → Value → M Ledger unit) k v :
  (∀ k v, (fn k v l).2 = l) → (k, v) ∈ kvs → (fn k v l).1 ≠ Ok tt → (walk fn kvs l).1 ≠ Ok tt.
Proof.
  intros Hpure Hin Hbad. induction kvs as [|[k' v'] kvs IH]; [by apply elem_of_nil in Hin|].
  cbn [walk]. unfold mbind, M_bind. pose proof (Hpure k' v') as Hp.
  destruct (fn k' v' l) as [[[]|e|] l1] eqn:E; cbn in *; [|done..].
  subst l1. apply IH. apply elem_of_cons in Hin as [[= -> ->]|Hin]; [|done]. by rewrite E in Hbad.
Qed.

Lemma walk_pure l kvs (fn : Key → Value → M Ledger unit) :
  (∀ k v, (fn k v l).2 = l) → (walk fn kvs l).2 = l.
Proof.
  intros Hpure. induction kvs as [|[k' v'] kvs IH]; [done|]. cbn [walk]. unfold mbind, M_bind.
  pose proof (Hpure k' v') as Hp. destruct (fn k' v' l) as [[[]|e|] l1]; cbn in *; subst; done.
Qed.

(** A failure at the end of a sequence of calls that leave the ledger alone. *)
Lemma seq_fails (m m' : M Ledger unit) l :
  (m l).2 = l → (m' l).1 ≠ Ok tt → ((m;; m') l).1 ≠ Ok tt.
Proof. unfold mbind, M_bind. intros Hm Hm'. destruct (m l) as [[[]|e|] l1]; cbn in *; by subst. Qed.

(** Listing the unchecked blocks fails as soon as a block waits for a publication:
    the table shares its prefix with records whose keys hold two hashes, and the
    listing rejects a key that is not one hash. *)
Theorem listing_fails_on_gap_publish l key blk v visit :
  (∀ b h k s l', (visit b h k s l').2 = l') → l_store l !! KGapPublish key blk = Some v →
  (GetUncheckedBlocks visit l).1 ≠ Ok tt.
Proof.
  intros Hvisit Hv.
  assert (Hfn : ∀ kind k v, (visitUnchecked kind visit k v l).2 = l).
  { intros kind k [b|am|tm|p|b|h|bs|bs|bs|b sync]; try done.
    unfold visitUnchecked, decodeUnchecked, mbind, M_bind. cbv beta iota zeta. case_match; [|done].
    unfold wrapM. match goal with |- context [visit ?a ?b ?c ?d l] =>
      pose proof (Hvisit a b c d l); destruct (visit a b c d l) as [[]] end; by subst. }
  assert (Hpure : ∀ kind, (getUncheckedBlocks kind visit l).2 = l) by (intros kind; apply walk_pure, Hfn).
  unfold GetUncheckedBlocks. do 3 (apply seq_fails; [apply Hpure|]).
  eapply walk_stops; [apply Hfn|by apply elem_store_Iterator; split; [exact Hv|]|]. by destruct v.
Qed.
End facts.
