(* ===== verification/Check.v ===== *)
(** * Block checks: [ledger/process/ledger_check.go], [verifier.go] and the check
    part of [ledger_processor.go] and [cache_processor.go]

    A block received from the network or from a wallet is checked against the
    ledger before it is processed.  Each kind of block composes the same small
    checks: base information (existence, work, signature), fork, balance, pending,
    source and contract data.  The confirmed variants read confirmed data, the
    cache variants also the data of blocks whose consensus is not complete. *)

From S2P Require Import Prelude Types Cache Storage Ledger Contract GoBytes.

(** ** Results *)
Inductive ProcessResult :=
| Progress | BadWork | BadSignature | BadHash | BadMerkleRoot | BadTarget
| BadStateHash | BadCoinbase | Old | Fork | GapPrevious | GapSource
| GapSmartContract | GapTransaction | GapTokenInfo | GapPovHeight | GapPublish
| GapDoDSettleState | BalanceMismatch | UnReceivable | InvalidData | InvalidTime
| InvalidTxNum | InvalidHeight | InvalidTxOrder | BadConsensus | ReceiveRepeated
| BadAuxHeader | Other.

#[global] Instance ProcessResult_eq_dec : EqDecision ProcessResult.
Proof. solve_decision. Defined.

(** A check returns [(ProcessResult, error)], or panics on a nil amount. *)
Inductive verdict :=
| Verdict (r : ProcessResult) (err : option error)
| CheckPanic.

#[global] Instance verdict_eq_dec : EqDecision verdict.
Proof. solve_decision. Defined.

Definition pass : verdict := Verdict Progress None.

(** [if r, err := first(); r != Progress || err != nil { return r, err }]. *)
Definition andThen (first : verdict) (next : verdict) : verdict :=
  match first with
  | Verdict Progress None => next
  | v => v
  end.

(** A step that cannot fail with an error but can panic. *)
Definition withR {A} (r : res A) (k : A → verdict) : verdict :=
  match r with Ok a => k a | _ => CheckPanic end.

Definition errorP (result : ProcessResult) (detail : option error) : verdict :=
  match result with
  | Other => Verdict Other (Some (Errorf "%s[%s],%s"))
  | GapPrevious => Verdict GapPrevious (Some (Errorf "%s[%s]: gap previous: %s"))
  | GapSource => Verdict GapSource (Some (Errorf "%s[%s]: gap source: %s"))
  | _ =>
      match detail with
      | None => Verdict result (Some (Errorf "%s[%s]:%s"))
      | Some _ => Verdict result (Some (Errorf "%s[%s]:%s, %s"))
      end
  end.

Definition invalidBlockType : error := Errorf "invalid process block type, %s".

(** [a.Compare(b) != BalanceCompEqual]. *)
Definition compareNe (a b : Balance) : res bool :=
  c ← Bal.Compare a b; Ok (negb (bool_decide (c = BalanceCompEqual))).

(** [a || b] with calls that may panic. *)
Definition orElse (a b : res bool) : res bool :=
  match a with Ok false => b | _ => a end.

Definition weightsDiffer (previous block : StateBlock) : res bool :=
  orElse (compareNe (SB.GetVote previous) (SB.GetVote block))
  (orElse (compareNe (SB.GetNetwork previous) (SB.GetNetwork block))
  (orElse (compareNe (SB.GetStorage previous) (SB.GetStorage block))
          (compareNe (SB.GetOracle previous) (SB.GetOracle block)))).

Definition checkWeights (previous block : StateBlock) : verdict :=
  withR (weightsDiffer previous block) (λ d : bool,
    if d then errorP BalanceMismatch (Some (Errorf "weight not equal")) else pass).

(** A private block whose payload this node did not receive. *)
Definition notRecipient (b : StateBlock) : bool := SB.IsPrivate b && negb (SB.IsRecipient b).

Section check.
Context `{Crypto} `{Config} `{Node} `{Unicode}.

(** ** Base information *)
Definition checkWorkSign (block : StateBlock) (checkWork checkSign : bool) : verdict :=
  if checkWork && negb (SB.IsValid block) then errorP BadWork None
  else if checkSign &&
          negb (ed25519_Verify (sb_Address block) (hash_bytes (SB.GetHash block)) (sb_Signature block))
  then errorP BadSignature None
  else pass.

Definition describeOf (addr : Address) (payload : list Z) : bool * bool :=
  match GetChainContract addr payload with
  | Some c => (work (GetDescribe c), signature (GetDescribe c))
  | None => (true, true)
  end.

Definition blockBaseInfoCheck (l : Ledger) (block : StateBlock) : verdict :=
  if HasStateBlockConfirmed l (SB.GetHash block) then errorP Old None
  else match sb_Type block with
  | ContractSend =>
      if notRecipient block then pass
      else let '(w, s) := describeOf (sb_Link block) (SB.GetPayload block) in
           checkWorkSign block w s
  | ContractReward =>
      if notRecipient block then pass
      else match GetStateBlockConfirmed l None (sb_Link block) with
           | Err _ => errorP GapSource None
           | Panic => CheckPanic
           | Ok linkBlk =>
               let '(w, s) := describeOf (sb_Link linkBlk) (SB.GetPayload linkBlk) in
               checkWorkSign block w s
           end
  | _ => checkWorkSign block true true
  end.

(** [repeatedFound] is a nil error, so the iteration goes over all cached blocks. *)
Definition checkReceiveBlockRepeat (l : Ledger) (block : StateBlock) : ProcessResult :=
  if SB.IsReceiveBlock block &&
     existsb (λ b, (sb_Link block =? sb_Link b) && negb (SB.GetHash block =? SB.GetHash b))
       (GetBlockCaches l)
  then ReceiveRepeated else Progress.

Definition cacheBlockBaseInfoCheck (l : Ledger) (block : StateBlock) : verdict :=
  match checkReceiveBlockRepeat l block with
  | Progress =>
      if HasStateBlock l (SB.GetHash block) then errorP Old None
      else match sb_Type block with
      | ContractSend =>
          if notRecipient block then pass
          else let '(w, s) := describeOf (sb_Link block) (SB.GetPayload block) in
               checkWorkSign block w s
      | ContractReward =>
          if notRecipient block then pass
          else match GetStateBlock l None (sb_Link block) with
               | Err _ => errorP GapSource None
               | Panic => CheckPanic
               | Ok linkBlk =>
                   if notRecipient linkBlk then pass
                   else let '(w, s) := describeOf (sb_Link linkBlk) (SB.GetPayload linkBlk) in
                        checkWorkSign block w s
               end
      | _ => checkWorkSign block true true
      end
  | pr => errorP pr None
  end.

(** ** Forks

    The confirmed and the cache check differ in the readers they use. *)
Definition forkPrevious (getBlock : Hash → res StateBlock) (getToken : Address → Hash → res TokenMeta)
    (block : StateBlock) : verdict :=
  match getBlock (sb_Previous block) with
  | Panic => CheckPanic
  | Err _ => errorP GapPrevious None
  | Ok previous =>
      match getToken (sb_Address block) (sb_Token block) with
      | Ok tm =>
          if negb (SB.GetHash previous =? tm_Header tm)
          then errorP Fork (Some (Errorf "previous is %s, but token header is %s"))
          else pass
      | Err _ => pass
      | Panic => CheckPanic
      end
  end.

Definition forkOpen (getToken : Address → Hash → res TokenMeta) (block : StateBlock) : verdict :=
  match getToken (sb_Address block) (sb_Token block) with
  | Ok _ => errorP Fork (Some (Errorf "open block, but token already exist"))
  | Err _ => pass
  | Panic => CheckPanic
  end.

Definition forkWith (getBlock : Hash → res StateBlock) (getToken : Address → Hash → res TokenMeta)
    (block : StateBlock) : verdict :=
  match sb_Type block with
  | Send | Receive | Change | Online | ContractSend => forkPrevious getBlock getToken block
  | Open => forkOpen getToken block
  | ContractReward =>
      if negb (SB.IsOpen block) then forkPrevious getBlock getToken block
      else forkOpen getToken block
  | _ => errorP Other (Some invalidBlockType)
  end.

Definition blockForkCheck (l : Ledger) (block : StateBlock) : verdict :=
  forkWith (GetStateBlockConfirmed l None) (GetTokenMetaConfirmed l) block.

Definition cacheBlockForkCheck (l : Ledger) (block : StateBlock) : verdict :=
  forkWith (GetStateBlock l None) (GetTokenMeta l) block.

(** ** Balances *)
Definition balanceWith (getBlock : Hash → res StateBlock) (block : StateBlock) : verdict :=
  let withPrevious (k : StateBlock → verdict) :=
    match getBlock (sb_Previous block) with
    | Panic => CheckPanic
    | Err _ => errorP GapPrevious None
    | Ok previous => k previous
    end in
  match sb_Type block with
  | Send => withPrevious (λ previous,
      withR (Bal.Compare (sb_Balance previous) (sb_Balance block)) (λ c,
        if bool_decide (c ≠ BalanceCompBigger)
        then errorP BalanceMismatch (Some (Errorf "previous: %s, block: %s"))
        else checkWeights previous block))
  | ContractSend => withPrevious (λ previous,
      withR (SB.TotalBalance previous) (λ p,
      withR (SB.TotalBalance block) (λ b,
      withR (Bal.Compare p b) (λ c,
        if bool_decide (c = BalanceCompSmaller)
        then errorP BalanceMismatch (Some (Errorf "previous: %s, block: %s"))
        else pass))))
  | Change | Online => withPrevious (λ previous,
      withR (compareNe (sb_Balance block) (sb_Balance previous)) (λ d : bool,
        if d then errorP BalanceMismatch (Some (Errorf "previous: %s, block: %s"))
        else checkWeights previous block))
  | _ => errorP Other (Some invalidBlockType)
  end.

Definition blockBalanceCheck (l : Ledger) (block : StateBlock) : verdict :=
  balanceWith (GetStateBlockConfirmed l None) block.

Definition cacheBlockBalanceCheck (l : Ledger) (block : StateBlock) : verdict :=
  balanceWith (GetStateBlock l None) block.

(** ** Pending transfers *)
Definition checkContractPending (l : Ledger) (block : StateBlock) : verdict :=
  match GetStateBlockConfirmed l None (sb_Link block) with
  | Panic => CheckPanic
  | Err _ => errorP GapSource None
  | Ok input =>
      if notRecipient input then pass
      else match GetChainContract (sb_Link input) (SB.GetPayload input) with
      | Some c =>
          if pending (GetDescribe c) then
            match GetPending l (mkPendingKey (sb_Address block) (sb_Link block)) with
            | Ok _ => pass
            | Err ErrPendingNotFound => errorP UnReceivable (Some (Errorf "pending key is: %s"))
            | Err _ => errorP Other (Some (Errorf "get contract pending: %s"))
            | Panic => CheckPanic
            end
          else pass
      | None => errorP Other (Some (Errorf "can not find chain contract: %s"))
      end
  end.

(** The part of the [Receive] case behind the lookup of the previous block. *)
Definition pendingReceive (l : Ledger) (getToken : Address → Hash → res TokenMeta)
    (block previous : StateBlock) : verdict :=
  match GetPending l (mkPendingKey (sb_Address block) (sb_Link block)) with
  | Panic => CheckPanic
  | Ok p =>
      match getToken (sb_Address block) (sb_Token block) with
      | Panic => CheckPanic
      | Err e => errorP Other (Some e)
      | Ok tm =>
          withR (Bal.Sub (SB.GetBalance block) (tm_Balance tm)) (λ transferAmount,
            if negb (Bal.Equal (pi_Amount p) transferAmount) || negb (pi_Type p =? sb_Token block)
            then errorP BalanceMismatch (Some (Errorf "pending: %s, transfer: %s"))
            else checkWeights previous block)
      end
  | Err ErrPendingNotFound => errorP UnReceivable (Some (Errorf "pending key: %s"))
  | Err e => errorP Other (Some e)
  end.

Definition pendingOpen (l : Ledger) (block : StateBlock) : verdict :=
  match GetPending l (mkPendingKey (sb_Address block) (sb_Link block)) with
  | Panic => CheckPanic
  | Ok p =>
      if negb (Bal.Equal (pi_Amount p) (sb_Balance block)) || negb (pi_Type p =? sb_Token block)
      then errorP BalanceMismatch (Some (Errorf "pending: %s, block: %s"))
      else if negb (Bal.IsZero (SB.GetVote block)) || negb (Bal.IsZero (SB.GetNetwork block)) ||
              negb (Bal.IsZero (SB.GetStorage block)) || negb (Bal.IsZero (SB.GetOracle block))
      then errorP BalanceMismatch (Some (Errorf "weight is not zero"))
      else pass
  | Err ErrPendingNotFound => errorP UnReceivable (Some (Errorf "pending key: %s"))
  | Err e => errorP Other (Some e)
  end.

Definition blockPendingCheck (l : Ledger) (block : StateBlock) : verdict :=
  match sb_Type block with
  | Receive =>
      match GetStateBlockConfirmed l None (sb_Previous block) with
      | Panic => CheckPanic
      | Err _ => errorP GapPrevious None
      | Ok previous => pendingReceive l (GetTokenMetaConfirmed l) block previous
      end
  | Open => pendingOpen l block
  | ContractReward => checkContractPending l block
  | _ => errorP Other (Some invalidBlockType)
  end.

(** Here a missing previous block is reported without an error. *)
Definition cacheBlockPendingCheck (l : Ledger) (block : StateBlock) : verdict :=
  match sb_Type block with
  | Receive =>
      match GetStateBlock l None (sb_Previous block) with
      | Panic => CheckPanic
      | Err _ => Verdict GapPrevious None
      | Ok previous => pendingReceive l (GetTokenMeta l) block previous
      end
  | Open => pendingOpen l block
  | ContractReward => checkContractPending l block
  | _ => errorP Other (Some invalidBlockType)
  end.

(** ** Sources *)
Definition sourceWith (has : Hash → bool) (block : StateBlock) : verdict :=
  match sb_Type block with
  | Receive | Open => if negb (has (sb_Link block)) then errorP GapSource None else pass
  | ContractReward => pass
  | _ => errorP Other (Some invalidBlockType)
  end.

Definition blockSourceCheck (l : Ledger) (block : StateBlock) : verdict :=
  sourceWith (HasStateBlockConfirmed l) block.

Definition cacheBlockSourceCheck (l : Ledger) (block : StateBlock) : verdict :=
  sourceWith (HasStateBlock l) block.

(** ** Contract data *)
Definition checkContractSendBlock (l : Ledger) (block : StateBlock) : verdict :=
  let address := sb_Link block in
  if negb (IsChainContract address) && negb (HasSmartContractBlock l address)
  then errorP GapSmartContract None
  else if notRecipient block then pass
  else match GetChainContract address (SB.GetPayload block) with
  | None => errorP Other (Some (Errorf "can not find chain contract %s"))
  | Some c =>
      let clone := SB.Clone block in
      match NewVMContextWithBlock l block with
      | None => errorP Other (Some (Errorf "can not get vm context"))
      | Some vmCtx =>
          let dataEqual (clone' : StateBlock) :=
            if EqualFold (sb_Data block) (sb_Data clone') then pass
            else errorP InvalidData (Some (Errorf "data not equal: %s, %s")) in
          if specVer (GetDescribe c) =? SpecVer1 then
            match DoSend c l vmCtx clone with
            | (Ok _, _, clone') => dataEqual clone'
            | (Err _, _, _) => errorP Other (Some (Errorf "v1 ProcessSend error, err: %s"))
            | (Panic, _, _) => CheckPanic
            end
          else if specVer (GetDescribe c) =? SpecVer2 then
            match DoGap c l vmCtx clone with
            | (Panic, _, _) => CheckPanic
            | (Err _, _, _) => errorP Other (Some (Errorf "do gap error: %s"))
            | (Ok (ContractRewardGapPov, _), _, _) => errorP GapPovHeight None
            | (Ok (ContractDPKIGapPublish, _), _, _) => errorP GapPublish None
            | (Ok (ContractDoDOrderState, _), _, _) => errorP GapDoDSettleState None
            | (Ok _, vmCtx', clone') =>
                match ProcessSend c l vmCtx' clone' with
                | (Ok _, _, clone'') => dataEqual clone''
                | (Err _, _, _) => errorP Other (Some (Errorf "v2 ProcessSend error,  err: %s"))
                | (Panic, _, _) => CheckPanic
                end
            end
          else errorP Other (Some (Errorf "unsupported chain contract version %d"))
      end
  end.

(** The data of a reward block against what the contract generates. *)
Definition checkContractReceiveBlock (l : Ledger) (block input : StateBlock) : verdict :=
  let address := sb_Link input in
  match GetChainContract address (SB.GetPayload input) with
  | None => errorP Other (Some (Errorf "can not find chain contract %s"))
  | Some c =>
      match NewVMContextWithBlock l block with
      | None => errorP Other (Some (Errorf "check contract: can not get vm context"))
      | Some vmCtx =>
          match DoReceive c l vmCtx (SB.Clone block) input with
          | Panic => CheckPanic
          | Err e =>
              if (address =? MintageAddress) && bool_decide (e = ErrStorageNotFound)
              then errorP GapTokenInfo None
              else errorP Other (Some (Errorf "DoReceive err: %s "))
          | Ok [] => errorP Other (Some (Errorf "can not generate receive block"))
          | Ok (g :: _) =>
              match CalculateAmount l block with
              | Panic => CheckPanic
              | Err _ => errorP Other (Some (Errorf "calculate amount error: %s"))
              | Ok amount =>
                  let invalid := errorP InvalidData (Some (Errorf "data from contract, ...")) in
                  if EqualFold (sb_Data (cb_Block g)) (sb_Data block) && (cb_Token g =? sb_Token block)
                  then withR (compareNe (cb_Amount g) amount) (λ d : bool,
                         if negb d && (cb_ToAddress g =? sb_Address block) then pass else invalid)
                  else invalid
              end
          end
      end
  end.

Definition contractWith (getBlock : Hash → res StateBlock) (l : Ledger) (block : StateBlock) : verdict :=
  if notRecipient block then pass
  else match sb_Type block with
  | ContractSend => checkContractSendBlock l block
  | ContractReward =>
      match getBlock (sb_Link block) with
      | Panic => CheckPanic
      | Err _ => errorP GapSource None
      | Ok input =>
          if notRecipient input then pass else checkContractReceiveBlock l block input
      end
  | _ => errorP Other (Some invalidBlockType)
  end.

Definition blockContractCheck (l : Ledger) (block : StateBlock) : verdict :=
  contractWith (GetStateBlockConfirmed l None) l block.

Definition cacheBlockContractCheck (l : Ledger) (block : StateBlock) : verdict :=
  contractWith (GetStateBlock l None) l block.

(** ** Checks per block type: [ledger_processor.go] *)
Definition sendBlockCheck (l : Ledger) (block : StateBlock) : verdict :=
  andThen (blockBaseInfoCheck l block)
  (andThen (blockForkCheck l block) (blockBalanceCheck l block)).

Definition contractSendBlockCheck (l : Ledger) (block : StateBlock) : verdict :=
  if IsGenesisBlock block then pass
  else andThen (blockBaseInfoCheck l block)
       (andThen (blockForkCheck l block)
       (andThen (blockBalanceCheck l block) (blockContractCheck l block))).

Definition receiveBlockCheck (l : Ledger) (block : StateBlock) : verdict :=
  andThen (blockBaseInfoCheck l block)
  (andThen (blockForkCheck l block)
  (andThen (blockSourceCheck l block) (blockPendingCheck l block))).

Definition contractReceiveBlockCheck (l : Ledger) (block : StateBlock) : verdict :=
  if IsGenesisBlock block then pass
  else andThen (blockBaseInfoCheck l block)
       (andThen (blockForkCheck l block)
       (andThen (blockPendingCheck l block)
       (andThen (blockSourceCheck l block) (blockContractCheck l block)))).

Definition openBlockCheck (l : Ledger) (block : StateBlock) : verdict :=
  if negb (hash_IsZero (sb_Previous block))
  then Verdict Other (Some (Errorf "open block previous is not zero"))
  else andThen (blockBaseInfoCheck l block)
       (andThen (blockSourceCheck l block)
       (andThen (blockForkCheck l block) (blockPendingCheck l block))).

Definition changeBlockCheck (l : Ledger) (block : StateBlock) : verdict :=
  if negb (hash_IsZero (sb_Link block)) then Verdict Other (Some (Errorf "invalid link hash"))
  else if negb (sb_Token block =? ChainToken)
  then Verdict Other (Some (Errorf "invalid token %s, common chain token is %s"))
  else andThen (blockBaseInfoCheck l block)
       (andThen (blockForkCheck l block) (blockBalanceCheck l block)).

Definition onlineBlockCheck (l : Ledger) (block : StateBlock) : verdict :=
  if negb (hash_IsZero (sb_Link block)) then Verdict Other (Some (Errorf "invalid link hash"))
  else if negb (sb_Token block =? ChainToken)
  then Verdict Other (Some (Errorf "invalid token %s, chain token is %s"))
  else andThen (blockBaseInfoCheck l block)
       (andThen (blockForkCheck l block) (blockBalanceCheck l block)).

Definition newBlockCheck (t : BlockType) : option (Ledger → StateBlock → verdict) :=
  match t with
  | Open => Some openBlockCheck
  | Send => Some sendBlockCheck
  | Receive => Some receiveBlockCheck
  | Change => Some changeBlockCheck
  | Online => Some onlineBlockCheck
  | ContractSend => Some contractSendBlockCheck
  | ContractReward => Some contractReceiveBlockCheck
  | _ => None
  end.

(** A block that cannot be received is let through when its hash is in the list of
    verified blocks shipped with the node. *)
Definition BlockCheck (l : Ledger) (block : StateBlock) : verdict :=
  match newBlockCheck (sb_Type block) with
  | Some check =>
      match check l block with
      | Verdict UnReceivable err =>
          if existsb (Z.eqb (SB.GetHash block)) (l_verifiedData l) then pass
          else Verdict UnReceivable err
      | v => v
      end
  | None => Verdict Other (Some (Errorf "unsupport block type %s"))
  end.

(** ** Checks of unconfirmed blocks: [cache_processor.go] *)
Definition cacheSendBlockCheck (l : Ledger) (block : StateBlock) : verdict :=
  andThen (cacheBlockBaseInfoCheck l block)
  (andThen (cacheBlockForkCheck l block) (cacheBlockBalanceCheck l block)).

Definition cacheContractSendBlockCheck (l : Ledger) (block : StateBlock) : verdict :=
  if IsGenesisBlock block then pass
  else andThen (cacheBlockBaseInfoCheck l block)
       (andThen (cacheBlockForkCheck l block)
       (andThen (cacheBlockBalanceCheck l block) (cacheBlockContractCheck l block))).

Definition cacheReceiveBlockCheck (l : Ledger) (block : StateBlock) : verdict :=
  andThen (cacheBlockBaseInfoCheck l block)
  (andThen (cacheBlockForkCheck l block)
  (andThen (cacheBlockSourceCheck l block) (cacheBlockPendingCheck l block))).

Definition cacheContractReceiveBlockCheck (l : Ledger) (block : StateBlock) : verdict :=
  if IsGenesisBlock block then pass
  else andThen (cacheBlockBaseInfoCheck l block)
       (andThen (cacheBlockForkCheck l block)
       (andThen (cacheBlockSourceCheck l block)
       (andThen (cacheBlockPendingCheck l block) (cacheBlockContractCheck l block)))).

Definition cacheOpenBlockCheck (l : Ledger) (block : StateBlock) : verdict :=
  if negb (hash_IsZero (sb_Previous block))
  then Verdict Other (Some (Errorf "open block previous is not zero"))
  else andThen (cacheBlockBaseInfoCheck l block)
       (andThen (cacheBlockSourceCheck l block)
       (andThen (cacheBlockForkCheck l block) (cacheBlockPendingCheck l block))).

Definition cacheChangeBlockCheck (l : Ledger) (block : StateBlock) : verdict :=
  if negb (hash_IsZero (sb_Link block)) then Verdict Other (Some (Errorf "invalid link hash"))
  else if negb (sb_Token block =? ChainToken) then Verdict Other (Some (Errorf "invalid token Id"))
  else andThen (cacheBlockBaseInfoCheck l block)
       (andThen (cacheBlockForkCheck l block) (cacheBlockBalanceCheck l block)).

Definition newCacheBlockCheck (t : BlockType) : option (Ledger → StateBlock → verdict) :=
  match t with
  | Open => Some cacheOpenBlockCheck
  | Send => Some cacheSendBlockCheck
  | Receive => Some cacheReceiveBlockCheck
  | Change => Some cacheChangeBlockCheck
  | Online => Some cacheChangeBlockCheck
  | ContractSend => Some cacheContractSendBlockCheck
  | ContractReward => Some cacheContractReceiveBlockCheck
  | _ => None
  end.

Definition BlockCacheCheck (l : Ledger) (block : StateBlock) : verdict :=
  match newCacheBlockCheck (sb_Type block) with
  | Some check => check l block
  | None => Verdict Other (Some (Errorf "unsupport block type %s"))
  end.

(** ** Lemmas *)
Lemma andThen_pass v k : andThen v k = pass ↔ v = pass ∧ k = pass.
Proof. unfold pass. destruct v as [[] [|]|]; cbn; naive_solver. Qed.

Lemma errorP_not_pass r d : r ≠ Progress → errorP r d ≠ pass.
Proof. unfold pass. destruct r, d; cbn; congruence. Qed.

Lemma withR_pass {A} (r : res A) k : withR r k = pass ↔ ∃ a, r = Ok a ∧ k a = pass.
Proof. unfold pass. destruct r; cbn; naive_solver. Qed.

(** Work and signature of the block are valid. *)
Definition authentic (block : StateBlock) : Prop :=
  SB.IsValid block = true ∧
  ed25519_Verify (sb_Address block) (hash_bytes (SB.GetHash block)) (sb_Signature block) = true.

Lemma checkWorkSign_pass block : checkWorkSign block true true = pass ↔ authentic block.
Proof.
  unfold checkWorkSign, authentic, pass. cbn [andb].
  destruct (SB.IsValid block), (ed25519_Verify _ _ _); cbn; naive_solver.
Qed.

Lemma compareNe_false a b : compareNe a b = Ok false ↔ a = b.
Proof.
  unfold compareNe. destruct a as [x|], b as [y|]; try (cbn; naive_solver).
  rewrite BalFacts.Compare_Some; cbn. destruct (Z.eqb_spec x y) as [->|]; cbn; [naive_solver|].
  destruct (_ <? _); cbn; naive_solver.
Qed.

(** Equality of the four weight fields, a nil amount counting for zero. *)
Definition sameWeights (previous block : StateBlock) : Prop :=
  SB.GetVote previous = SB.GetVote block ∧ SB.GetNetwork previous = SB.GetNetwork block ∧
  SB.GetStorage previous = SB.GetStorage block ∧ SB.GetOracle previous = SB.GetOracle block.

Lemma orElse_false a b : orElse a b = Ok false ↔ a = Ok false ∧ b = Ok false.
Proof. destruct a as [[]| |]; cbn; naive_solver. Qed.

Lemma checkWeights_pass previous block :
  checkWeights previous block = pass ↔ sameWeights previous block.
Proof.
  unfold checkWeights, sameWeights. rewrite withR_pass.
  setoid_rewrite <- compareNe_false. unfold weightsDiffer. rewrite <- !orElse_false.
  split; [|naive_solver]. intros (d & -> & Hd). by destruct d.
Qed.

Lemma blockBaseInfo_pass l block :
  sb_Type block ≠ ContractSend → sb_Type block ≠ ContractReward →
  blockBaseInfoCheck l block = pass ↔
  HasStateBlockConfirmed l (SB.GetHash block) = false ∧ authentic block.
Proof.
  intros Hs Hr. unfold blockBaseInfoCheck.
  destruct (HasStateBlockConfirmed _ _); [split; [by intros ?%errorP_not_pass|naive_solver]|].
  rewrite <- checkWorkSign_pass. destruct (sb_Type block); naive_solver.
Qed.

(** If the account has a chain for the token, the previous block is its head.  As in the
    source, nothing is asked of the previous block when the account has no chain yet. *)
Definition onHead (l : Ledger) (block previous : StateBlock) : Prop :=
  match GetTokenMetaConfirmed l (sb_Address block) (sb_Token block) with
  | Ok tm => SB.GetHash previous = tm_Header tm
  | Err _ => True
  | Panic => False
  end.

Lemma forkPrevious_pass l block :
  forkPrevious (GetStateBlockConfirmed l None) (GetTokenMetaConfirmed l) block = pass ↔
  ∃ previous, GetStateBlockConfirmed l None (sb_Previous block) = Ok previous ∧
              onHead l block previous.
Proof.
  unfold forkPrevious, onHead.
  destruct (GetStateBlockConfirmed _ _ _) as [previous| |]; [|split; [by intros ?%errorP_not_pass|naive_solver]|naive_solver].
  destruct (GetTokenMetaConfirmed _ _ _) as [tm| |]; [|naive_solver|naive_solver].
  destruct (Z.eqb_spec (SB.GetHash previous) (tm_Header tm)); cbn [negb]; [naive_solver|].
  split; [by intros ?%errorP_not_pass|naive_solver].
Qed.

(** A decrease of the balance. *)
Definition decreases (previous block : StateBlock) : Prop :=
  ∃ x y, sb_Balance previous = Some x ∧ sb_Balance block = Some y ∧ y < x.

Lemma balance_send_pass l block :
  sb_Type block = Send →
  blockBalanceCheck l block = pass ↔
  ∃ previous, GetStateBlockConfirmed l None (sb_Previous block) = Ok previous ∧
    decreases previous block ∧ sameWeights previous block.
Proof.
  intros Ht. unfold blockBalanceCheck, balanceWith. rewrite Ht.
  destruct (GetStateBlockConfirmed _ _ _) as [previous| |]; [|split; [by intros ?%errorP_not_pass|naive_solver]|naive_solver].
  rewrite withR_pass. setoid_rewrite <- checkWeights_pass. unfold decreases. split.
  - intros (c & Hc & Hk). exists previous. case_bool_decide as Hd; [by apply errorP_not_pass in Hk|].
    subst c. apply BalFacts.Compare_Bigger in Hc as (x & y & ? & ? & ?). naive_solver.
  - intros (previous' & [= <-] & (x & y & Hx & Hy & Hlt) & Hw). rewrite Hx, Hy, BalFacts.Compare_Some.
    eexists. split; [done|]. destruct (Z.eqb_spec x y); [lia|]. destruct (Z.ltb_spec y x); [done|lia].
Qed.

Lemma balance_change_pass l block :
  sb_Type block = Change ∨ sb_Type block = Online →
  blockBalanceCheck l block = pass ↔
  ∃ previous, GetStateBlockConfirmed l None (sb_Previous block) = Ok previous ∧
    sb_Balance previous = sb_Balance block ∧ sameWeights previous block.
Proof.
  intros Ht. assert (Hb : blockBalanceCheck l block =
    match GetStateBlockConfirmed l None (sb_Previous block) with
    | Panic => CheckPanic
    | Err _ => errorP GapPrevious None
    | Ok previous =>
        withR (compareNe (sb_Balance block) (sb_Balance previous)) (λ d : bool,
          if d then errorP BalanceMismatch (Some (Errorf "previous: %s, block: %s"))
          else checkWeights previous block)
    end) by (unfold blockBalanceCheck, balanceWith; destruct Ht as [-> | ->]; done).
  rewrite Hb. clear Hb Ht.
  destruct (GetStateBlockConfirmed _ _ _) as [previous| |]; [|split; [by intros ?%errorP_not_pass|naive_solver]|naive_solver].
  rewrite withR_pass. setoid_rewrite <- checkWeights_pass. split.
  - intros (d & Hd & Hk). exists previous. destruct d; [by apply errorP_not_pass in Hk|].
    apply compareNe_false in Hd. naive_solver.
  - intros (previous' & [= <-] & Hb & Hw). exists false. split; [by apply compareNe_false|done].
Qed.

(** Only the pending check reports [UnReceivable]. *)
Definition receivable (v : verdict) : Prop := ∀ e, v ≠ Verdict UnReceivable e.

Lemma receivable_andThen v k : receivable v → receivable k → receivable (andThen v k).
Proof. unfold receivable, andThen. intros Hv Hk e. destruct v as [[] [|]|]; auto. Qed.

Lemma receivable_baseInfo l block : receivable (blockBaseInfoCheck l block).
Proof. unfold receivable, blockBaseInfoCheck, checkWorkSign, pass, errorP. intros e. repeat case_match; done. Qed.

Lemma receivable_fork l block : receivable (blockForkCheck l block).
Proof.
  unfold receivable, blockForkCheck, forkWith, forkPrevious, forkOpen, pass, errorP.
  intros e. repeat case_match; done.
Qed.

Lemma receivable_balance l block : receivable (blockBalanceCheck l block).
Proof.
  unfold receivable, blockBalanceCheck, balanceWith, checkWeights, withR, pass, errorP.
  intros e. repeat case_match; done.
Qed.

#[local] Hint Resolve receivable_andThen receivable_baseInfo receivable_fork receivable_balance : qlc.

Lemma BlockCheck_receivable l block check :
  newBlockCheck (sb_Type block) = Some check → receivable (check l block) →
  BlockCheck l block = check l block.
Proof.
  intros Hc Hr. unfold BlockCheck. rewrite Hc.
  destruct (check l block) as [[] e|] eqn:E; try done. by destruct (Hr e).
Qed.

Lemma send_pass l block :
  sb_Type block = Send →
  BlockCheck l block = pass ↔
  HasStateBlockConfirmed l (SB.GetHash block) = false ∧ authentic block ∧
  ∃ previous, GetStateBlockConfirmed l None (sb_Previous block) = Ok previous ∧
    onHead l block previous ∧ decreases previous block ∧ sameWeights previous block.
Proof.
  intros Ht. rewrite (BlockCheck_receivable l block sendBlockCheck);
    [|by rewrite Ht|unfold sendBlockCheck; eauto with qlc].
  unfold sendBlockCheck. rewrite !andThen_pass, blockBaseInfo_pass, balance_send_pass by congruence.
  unfold blockForkCheck, forkWith. rewrite Ht, forkPrevious_pass, ex_Ok_and. tauto.
Qed.

(** C32: [BlockCheck] accepts a send block exactly when it is new, its work and
    signature are valid, its previous block is confirmed, the balance strictly
    decreases from that block, and the four weight fields stay as they were there; only
    if the account already has a chain for the token must the previous block be the
    head of that chain.  An account without one may name any confirmed block, which is
    the flaw of [foreign_previous_mints]. *)
Theorem send_accepted l block :
  sb_Type block = Send →
  BlockCheck l block = pass ↔
  HasStateBlockConfirmed l (SB.GetHash block) = false ∧ authentic block ∧
  ∃ previous, GetStateBlockConfirmed l None (sb_Previous block) = Ok previous ∧
    onHead l block previous ∧ decreases previous block ∧ sameWeights previous block.
Proof. apply send_pass. Qed.

Lemma change_pass l block :
  sb_Type block = Change →
  BlockCheck l block = pass ↔
  sb_Link block = ZeroHash ∧ sb_Token block = ChainToken ∧
  HasStateBlockConfirmed l (SB.GetHash block) = false ∧ authentic block ∧
  ∃ previous, GetStateBlockConfirmed l None (sb_Previous block) = Ok previous ∧
    onHead l block previous ∧ sb_Balance previous = sb_Balance block ∧ sameWeights previous block.
Proof.
  intros Ht. rewrite (BlockCheck_receivable l block changeBlockCheck); [|by rewrite Ht|].
  2: { unfold changeBlockCheck. intros e. repeat case_match; [done..|].
       revert e. change (receivable (andThen (blockBaseInfoCheck l block)
         (andThen (blockForkCheck l block) (blockBalanceCheck l block)))). eauto with qlc. }
  unfold changeBlockCheck, hash_IsZero, ZeroHash, pass.
  destruct (Z.eqb_spec (sb_Link block) 0); cbn [negb]; [|split; [discriminate|intros (? & _); done]].
  destruct (Z.eqb_spec (sb_Token block) ChainToken); cbn [negb];
    [|split; [discriminate|intros (_ & ? & _); done]].
  fold pass. rewrite !andThen_pass, blockBaseInfo_pass, balance_change_pass by (auto; congruence).
  unfold blockForkCheck, forkWith. rewrite Ht, forkPrevious_pass, ex_Ok_and. tauto.
Qed.

Lemma online_pass l block :
  sb_Type block = Online →
  BlockCheck l block = pass ↔
  sb_Link block = ZeroHash ∧ sb_Token block = ChainToken ∧
  HasStateBlockConfirmed l (SB.GetHash block) = false ∧ authentic block ∧
  ∃ previous, GetStateBlockConfirmed l None (sb_Previous block) = Ok previous ∧
    onHead l block previous ∧ sb_Balance previous = sb_Balance block ∧ sameWeights previous block.
Proof.
  intros Ht. rewrite (BlockCheck_receivable l block onlineBlockCheck); [|by rewrite Ht|].
  2: { unfold onlineBlockCheck. intros e. repeat case_match; [done..|].
       revert e. change (receivable (andThen (blockBaseInfoCheck l block)
         (andThen (blockForkCheck l block) (blockBalanceCheck l block)))). eauto with qlc. }
  unfold onlineBlockCheck, hash_IsZero, ZeroHash, pass.
  destruct (Z.eqb_spec (sb_Link block) 0); cbn [negb]; [|split; [discriminate|intros (? & _); done]].
  destruct (Z.eqb_spec (sb_Token block) ChainToken); cbn [negb];
    [|split; [discriminate|intros (_ & ? & _); done]].
  fold pass. rewrite !andThen_pass, blockBaseInfo_pass, balance_change_pass by (auto; congruence).
  unfold blockForkCheck, forkWith. rewrite Ht, forkPrevious_pass, ex_Ok_and. tauto.
Qed.

(** [BlockCheck] accepts a change block exactly when it carries no link, is on
    the chain token, is new, authentic and on the head, and changes neither the
    balance nor a weight field. *)
Theorem change_accepted l block :
  sb_Type block = Change →
  BlockCheck l block = pass ↔
  sb_Link block = ZeroHash ∧ sb_Token block = ChainToken ∧
  HasStateBlockConfirmed l (SB.GetHash block) = false ∧ authentic block ∧
  ∃ previous, GetStateBlockConfirmed l None (sb_Previous block) = Ok previous ∧
    onHead l block previous ∧ sb_Balance previous = sb_Balance block ∧ sameWeights previous block.
Proof. apply change_pass. Qed.

(** The pending transfer a receiving block consumes. *)
Definition pendingFor (l : Ledger) (block : StateBlock) (p : PendingInfo) : Prop :=
  GetPending l (mkPendingKey (sb_Address block) (sb_Link block)) = Ok p ∧ pi_Type p = sb_Token block.

Lemma mismatch_pass (a b : bool) d v :
  (if negb a || negb b then errorP BalanceMismatch d else v) = pass ↔ a = true ∧ b = true ∧ v = pass.
Proof.
  destruct a, b; cbn [negb orb]; [naive_solver|..];
    (split; [by intros ?%errorP_not_pass|intros (? & ? & _); done]).
Qed.

Lemma pendingReceive_pass l block previous :
  pendingReceive l (GetTokenMetaConfirmed l) block previous = pass ↔
  sameWeights previous block ∧
  ∃ p tm a, pendingFor l block p ∧
    GetTokenMetaConfirmed l (sb_Address block) (sb_Token block) = Ok tm ∧
    Bal.Sub (sb_Balance block) (tm_Balance tm) = Ok (Some a) ∧ pi_Amount p = Some a.
Proof.
  unfold pendingReceive, pendingFor. rewrite <- checkWeights_pass.
  destruct (GetPending _ _) as [p|e|].
  2: { split; [|intros (_ & p & _ & _ & (? & _) & _); done]. intros Hp. exfalso. revert Hp.
       destruct e; by apply errorP_not_pass. }
  2: { split; [done|intros (_ & p & _ & _ & (? & _) & _); done]. }
  destruct (GetTokenMetaConfirmed _ _ _) as [tm|e|].
  2: { split; [by intros ?%errorP_not_pass|intros (_ & ? & ? & _ & _ & ? & _); done]. }
  2: { split; [done|intros (_ & ? & ? & _ & _ & ? & _); done]. }
  rewrite withR_pass. unfold SB.GetBalance. setoid_rewrite mismatch_pass. split.
  - intros (r & Hr & He & Ht & Hw). apply BalFacts.Equal_true in He as [<- [a Ha]].
    apply Z.eqb_eq in Ht. split; [done|]. exists p, tm, a. rewrite <- Ha. done.
  - intros (Hw & p' & tm' & a & ([= <-] & Ht) & [= <-] & Ha & Hp). exists (Some a).
    rewrite Hp, Ht. cbn. rewrite !Z.eqb_refl. done.
Qed.

Lemma IsZero_pass block :
  (if negb (Bal.IsZero (SB.GetVote block)) || negb (Bal.IsZero (SB.GetNetwork block)) ||
      negb (Bal.IsZero (SB.GetStorage block)) || negb (Bal.IsZero (SB.GetOracle block))
   then errorP BalanceMismatch (Some (Errorf "weight is not zero")) else pass) = pass ↔
  SB.GetVote block = Some 0 ∧ SB.GetNetwork block = Some 0 ∧
  SB.GetStorage block = Some 0 ∧ SB.GetOracle block = Some 0.
Proof.
  assert (Hz : ∀ b, Bal.IsZero b = true ↔ b = Some 0).
  { intros [x|]; cbn; [rewrite Z.eqb_eq; naive_solver|naive_solver]. }
  rewrite <- !Hz. destruct (Bal.IsZero (SB.GetVote block)), (Bal.IsZero (SB.GetNetwork block)),
    (Bal.IsZero (SB.GetStorage block)), (Bal.IsZero (SB.GetOracle block)); cbn [negb orb];
    try (split; [by intros ?%errorP_not_pass|intros (? & ? & ? & ?); done]). naive_solver.
Qed.

Lemma receive_pass l block :
  sb_Type block = Receive →
  receiveBlockCheck l block = pass ↔
  HasStateBlockConfirmed l (SB.GetHash block) = false ∧ authentic block ∧
  HasStateBlockConfirmed l (sb_Link block) = true ∧
  ∃ previous, GetStateBlockConfirmed l None (sb_Previous block) = Ok previous ∧
    onHead l block previous ∧ sameWeights previous block ∧
    ∃ p tm a, pendingFor l block p ∧
      GetTokenMetaConfirmed l (sb_Address block) (sb_Token block) = Ok tm ∧
      Bal.Sub (sb_Balance block) (tm_Balance tm) = Ok (Some a) ∧ pi_Amount p = Some a.
Proof.
  intros Ht. unfold receiveBlockCheck.
  rewrite !andThen_pass, blockBaseInfo_pass by congruence.
  unfold blockForkCheck, forkWith, blockSourceCheck, sourceWith, blockPendingCheck.
  rewrite Ht, forkPrevious_pass.
  destruct (HasStateBlockConfirmed l (sb_Link block)); cbn [negb].
  2: { split; [|naive_solver]. intros (_ & _ & H' & _). by apply errorP_not_pass in H'. }
  destruct (GetStateBlockConfirmed _ _ _) as [previous| |].
  - rewrite pendingReceive_pass. split.
    + intros (? & (previous' & [= <-] & ?) & _ & ? & ?). split_and!; try tauto.
      exists previous. tauto.
    + intros (? & ? & _ & previous' & [= <-] & ? & ? & ?). split_and!; try tauto. eauto.
  - split; [intros (_ & (? & ? & _) & _); done|intros (_ & _ & _ & ? & ? & _); done].
  - split; [intros (_ & (? & ? & _) & _); done|intros (_ & _ & _ & ? & ? & _); done].
Qed.

(** C33: the check of a receive block accepts exactly when the block is new, its work
    and signature are valid, its previous block is confirmed and is the head of the
    account's chain for the token, its link names a confirmed block, the four weight
    fields are those of the previous block, and a pending transfer of the same token
    waits for the account under the link, whose amount is the difference of the new
    balance and the balance of the chain as [Balance.Sub] computes it: on the low 64
    bits of both, and zero instead of a negative number. *)
Theorem receive_accepted l block :
  sb_Type block = Receive →
  receiveBlockCheck l block = pass ↔
  HasStateBlockConfirmed l (SB.GetHash block) = false ∧ authentic block ∧
  HasStateBlockConfirmed l (sb_Link block) = true ∧
  ∃ previous, GetStateBlockConfirmed l None (sb_Previous block) = Ok previous ∧
    onHead l block previous ∧ sameWeights previous block ∧
    ∃ p tm a, pendingFor l block p ∧
      GetTokenMetaConfirmed l (sb_Address block) (sb_Token block) = Ok tm ∧
      Bal.Sub (sb_Balance block) (tm_Balance tm) = Ok (Some a) ∧ pi_Amount p = Some a.
Proof. apply receive_pass. Qed.

Lemma open_pass l block :
  sb_Type block = Open →
  openBlockCheck l block = pass ↔
  sb_Previous block = ZeroHash ∧
  HasStateBlockConfirmed l (SB.GetHash block) = false ∧ authentic block ∧
  HasStateBlockConfirmed l (sb_Link block) = true ∧
  (∃ e, GetTokenMetaConfirmed l (sb_Address block) (sb_Token block) = Err e) ∧
  (∃ p a, pendingFor l block p ∧ pi_Amount p = Some a ∧ sb_Balance block = Some a) ∧
  SB.GetVote block = Some 0 ∧ SB.GetNetwork block = Some 0 ∧
  SB.GetStorage block = Some 0 ∧ SB.GetOracle block = Some 0.
Proof.
  intros Ht. unfold openBlockCheck, hash_IsZero, ZeroHash.
  destruct (Z.eqb_spec (sb_Previous block) 0) as [|]; cbn [negb];
    [|split; [discriminate|intros (? & _); done]].
  rewrite !andThen_pass, blockBaseInfo_pass by congruence.
  unfold blockForkCheck, forkWith, forkOpen, blockSourceCheck, sourceWith, blockPendingCheck, pendingOpen, pendingFor.
  rewrite Ht. destruct (HasStateBlockConfirmed l (sb_Link block)); cbn [negb].
  2: { split; [|naive_solver]. intros (_ & H' & _). by apply errorP_not_pass in H'. }
  destruct (GetTokenMetaConfirmed _ _ _) as [tm|e1|].
  1: { split; [intros (_ & _ & H' & _); by apply errorP_not_pass in H'|
               intros (_ & _ & _ & _ & (e1 & ?) & _); done]. }
  2: { split; [intros (_ & _ & H' & _); done|intros (_ & _ & _ & _ & (e1 & ?) & _); done]. }
  destruct (GetPending _ _) as [p|e'|].
  2: { split; [intros (_ & _ & _ & H'); exfalso; revert H'; destruct e'; by apply errorP_not_pass|
               intros (_ & _ & _ & _ & _ & (p & a & (? & _) & _) & _); done]. }
  2: { split; [intros (_ & _ & _ & H'); done|
               intros (_ & _ & _ & _ & _ & (p & a & (? & _) & _) & _); done]. }
  rewrite mismatch_pass. setoid_rewrite IsZero_pass. split.
  - intros (? & _ & _ & He & Htk & Hz). apply BalFacts.Equal_true in He as [He [a Ha]].
    apply Z.eqb_eq in Htk. split_and!; try tauto; [eauto|]. exists p, a. split_and!; congruence.
  - intros (_ & ? & ? & _ & _ & (p' & a & ([= <-] & Htk) & Ha & Hb) & Hz).
    rewrite Ha, Hb, Htk. cbn. rewrite !Z.eqb_refl. tauto.
Qed.

(** The check of an open block accepts exactly when its previous hash is zero,
    the block is new and authentic, its link is confirmed, the account has no chain
    for the token, its balance is the amount of the pending transfer under the
    link, and its weight fields are zero. *)
Theorem open_accepted l block :
  sb_Type block = Open →
  openBlockCheck l block = pass ↔
  sb_Previous block = ZeroHash ∧
  HasStateBlockConfirmed l (SB.GetHash block) = false ∧ authentic block ∧
  HasStateBlockConfirmed l (sb_Link block) = true ∧
  (∃ e, GetTokenMetaConfirmed l (sb_Address block) (sb_Token block) = Err e) ∧
  (∃ p a, pendingFor l block p ∧ pi_Amount p = Some a ∧ sb_Balance block = Some a) ∧
  SB.GetVote block = Some 0 ∧ SB.GetNetwork block = Some 0 ∧
  SB.GetStorage block = Some 0 ∧ SB.GetOracle block = Some 0.
Proof. apply open_pass. Qed.

(** The data of a contract reward block is not compared exactly.  The check uses
    [bytes.EqualFold], so a block passes whose data differs from what the contract
    generated: any two texts of equal length made of the bytes 128 to 193 count as
    equal. *)
Theorem reward_data_folded l block input c vmCtx g gs amount :
  GetChainContract (sb_Link input) (SB.GetPayload input) = Some c →
  NewVMContextWithBlock l block = Some vmCtx →
  DoReceive c l vmCtx (SB.Clone block) input = Ok (g :: gs) →
  CalculateAmount l block = Ok amount → cb_Amount g = amount →
  cb_Token g = sb_Token block → cb_ToAddress g = sb_Address block →
  Forall (λ b, 128 ≤ b < 194) (sb_Data (cb_Block g)) → Forall (λ b, 128 ≤ b < 194) (sb_Data block) →
  length (sb_Data (cb_Block g)) = length (sb_Data block) →
  checkContractReceiveBlock l block input = pass.
Proof.
  intros Hc Hv Hr Ha Hga Htok Haddr Hg Hb Hlen. unfold checkContractReceiveBlock.
  rewrite Hc, Hv, Hr, Ha, EqualFold_invalid, Htok, Haddr, Hga, !Z.eqb_refl by done. cbn [andb].
  apply withR_pass. exists false. split; [|done]. unfold compareNe.
  destruct amount as [n|]; cbn; [|done]. by rewrite Z.compare_refl.
Qed.
End check.
