(* ===== verification/Address.v ===== *)
(** * Addresses, key pairs and accounts: [common/types/address.go], [account.go]

    An address is a public key; its text is the prefix [qlc_], 52 digits of the key in
    base 32 and eight digits of a checksum.  The file proves the round trip of the text,
    which texts the parser accepts besides the canonical one, and that the signatures of
    an account pass the signature check of its blocks. *)

From S2P Require Import Prelude Types Base32 Ed25519 GoBytes Contract Check.

Definition AddressPrefix : list Z := Eval vm_compute in str "qlc_".
Definition AddressSize : nat := PublicKeySize.
Definition addressPrefixLen : nat := length AddressPrefix.
Definition AddressLen : nat := 60%nat.
Definition hexAddressLength : nat := (addressPrefixLen + AddressLen)%nat.
Definition addressEncodingAlphabet : list Z := Eval vm_compute in str "13456789abcdefghijkmnopqrstuwxyz".

(** [util.TrimQuotes], [util.ReverseBytes] *)
Definition TrimQuotes (s : list Z) : list Z :=
  let l := length s in
  if (2 <=? l)%nat && (s !!! 0%nat =? 34) && (s !!! (l - 1)%nat =? 34) then take (l - 2) (drop 1 s) else s.

Definition ReverseBytes (bs : list Z) : list Z := foldr (λ b acc, acc ++ [b]) [] bs.

(** [encoding/hex]: the value of a digit, and the bytes decoded before the first error
    with whether there was one. *)
Definition fromHexChar (c : Z) : option Z :=
  if (48 <=? c) && (c <=? 57) then Some (c - 48)
  else if (97 <=? c) && (c <=? 102) then Some (c - 97 + 10)
  else if (65 <=? c) && (c <=? 70) then Some (c - 65 + 10)
  else None.

Fixpoint hexDecodeString (s : list Z) : list Z * bool :=
  match s with
  | [] => ([], true)
  | a :: b :: s =>
      match fromHexChar a, fromHexChar b with
      | Some a, Some b => let '(bs, ok) := hexDecodeString s in (16 * a + b :: bs, ok)
      | _, _ => ([], false)
      end
  | _ => ([], false)
  end.

(** [SetBytes] of a zero address, and [BytesToAddress], which also returns the address. *)
Definition SetBytes (b : list Z) : res Address :=
  if negb (length b =? AddressSize)%nat then Err (Errorf "error address size  %v") else Ok (be_combine b).

Definition BytesToAddress (b : list Z) : Address * bool :=
  match SetBytes b with Ok a => (a, true) | _ => (0, false) end.

Definition PubToAddress (pub : list Z) : Address := (BytesToAddress pub).1.

Section address.
(** [blake2b.New(5, nil)] *)
Context (blake2b40 : list Z → list Z).

Definition Checksum (addr : Address) : list Z := ReverseBytes (blake2b40 (hash_bytes addr)).

Definition Address_String (addr : Address) : list Z :=
  let key := [0; 0; 0] ++ hash_bytes addr in
  let encodedKey := drop 4 (EncodeToString addressEncodingAlphabet key) in
  let encodedChecksum := EncodeToString addressEncodingAlphabet (Checksum addr) in
  AddressPrefix ++ encodedKey ++ encodedChecksum.

Definition HexToAddress (hexStr : list Z) : res Address :=
  let s := TrimQuotes hexStr in
  if negb (length s =? hexAddressLength)%nat then Err (Errorf "bad address length")
  else if negb (bool_decide (take addressPrefixLen s = AddressPrefix)) then Err (Errorf "bad address prefix")
  else
    let addr := drop addressPrefixLen s in
    match DecodeString addressEncodingAlphabet (str "1111" ++ take 52 addr) with
    | None => Err (Errorf "bad address encoding")
    | Some key =>
        match DecodeString addressEncodingAlphabet (drop 52 addr) with
        | None => Err (Errorf "bad address encoding")
        | Some checksum =>
            if (length key <? 3)%nat then Panic
            else
              let address := be_combine (copyInto AddressSize (drop 3 key)) in
              if negb (bool_decide (Checksum address = checksum)) then Err (Errorf "bad address checksum")
              else Ok address
        end
    end.

Definition IsValidHexAddress (hexStr : list Z) : res bool :=
  match HexToAddress hexStr with Ok _ => Ok true | Err _ => Ok false | Panic => Panic end.

Definition Address_UnmarshalText (text : list Z) : res Address := HexToAddress text.
Definition Address_MarshalText (addr : Address) : list Z := Address_String addr.
End address.

Section keys.
(** [blake2b.New(32, nil)] and [blake2b.New512(nil)] *)
Context (blake2b256 : list Z → Hash) (blake2b512 : list Z → list Z).

Definition Address_Verify (addr : Address) (data signature : list Z) : res bool :=
  Verify blake2b512 (hash_bytes addr) data signature.

Definition GenerateAddress (rand : list Z) : res (Address * list Z) :=
  '(pub, pri) ← GenerateKey blake2b512 rand; Ok (PubToAddress pub, pri).

(** The errors of the decoder and of the generator are dropped. *)
Definition KeypairFromPrivateKey (privateKey : list Z) : list Z * list Z :=
  let '(privateBytes, _) := hexDecodeString privateKey in
  match GenerateKey blake2b512 privateBytes with Ok kp => kp | _ => ([], []) end.

Definition KeypairFromSeed (seed : list Z) (index : Z) : res (list Z * list Z) :=
  match hexDecodeString seed with
  | (_, false) => Err (Errorf "invalid seed")
  | (seedData, true) =>
      let bs := be_bytes 4 index in
      let seedBytes := hash_bytes (blake2b256 (seedData ++ bs)) in
      match GenerateKey blake2b512 seedBytes with
      | Err _ => Err (Errorf "unable to generate ed25519 key")
      | r => r
      end
  end.

Record Account := mkAccount { acc_pubKey : list Z; acc_privKey : list Z }.

Definition NewAccount (key : list Z) : res Account :=
  pub ← PrivateKey_Public key; Ok (mkAccount pub key).

Definition Account_Address (a : Account) : Address := be_combine (copyInto AddressSize (acc_pubKey a)).

Definition Account_SignData (a : Account) (data : list Z) : res (list Z) :=
  sig ← Sign blake2b512 (acc_privKey a) data; Ok (copyInto SignatureSize sig).

Definition Account_Sign (a : Account) (hash : Hash) : res (list Z) := Account_SignData a (hash_bytes hash).
End keys.

(** The digests of package [blake2b] with the signatures of the repository, as the
    interface of the ledger. *)
Definition ed25519Crypto (blake2b256 : list Z → Hash) (blake2b64 blake2b512 : list Z → list Z) : Crypto :=
  {| blake2b256 := blake2b256; blake2b64 := blake2b64;
     ed25519_Verify := λ addr data sig,
       match Address_Verify blake2b512 addr data sig with Ok b => b | _ => false end |}.

(** ** The text of an address *)
#[export] Instance address_alphabet : Alphabet addressEncodingAlphabet.
Proof. split; [done|apply (bool_decide_unpack _); vm_compute; exact I..]. Qed.

Abbreviation enc := (encodeDigit addressEncodingAlphabet).

Lemma be_combine_range bs : Forall is_byte bs → 0 ≤ be_combine bs < 256 ^ Z.of_nat (length bs).
Proof.
  induction bs as [|b bs IH] using rev_ind; [done|]. intros [H1 H2]%Forall_app. apply Forall_cons_iff in H2 as [H2 _].
  specialize (IH H1). rewrite be_combine_app, length_app, Nat2Z.inj_add, Z.pow_add_r by lia.
  change (256 ^ Z.of_nat (length [b])) with 256. change (be_combine [b]) with b. unfold is_byte in H2. lia.
Qed.

Lemma be_bytes_be_combine bs : Forall is_byte bs → be_bytes (length bs) (be_combine bs) = bs.
Proof.
  induction bs as [|b bs IH] using rev_ind; [done|]. intros [H1 H2]%Forall_app. apply Forall_cons_iff in H2 as [H2 _].
  unfold is_byte in H2. rewrite length_app, be_combine_app. change (256 ^ Z.of_nat (length [b])) with (256 ^ Z.of_nat 1).
  rewrite be_bytes_app by (change (be_combine [b]) with b; lia). rewrite IH by done. f_equal. cbn. by rewrite Z.mod_small.
Qed.

Lemma ReverseBytes_spec bs : ReverseBytes bs = reverse bs.
Proof. unfold ReverseBytes. induction bs as [|b bs IH]; [done|]. cbn [foldr]. by rewrite IH, reverse_cons. Qed.

Section text.
Context (blake2b40 : list Z → list Z).
Context (blake2b40_length : ∀ m, length (blake2b40 m) = 5%nat).
Context (blake2b40_bytes : ∀ m, Forall is_byte (blake2b40 m)).

Lemma Checksum_bytes a : length (Checksum blake2b40 a) = 5%nat ∧ Forall is_byte (Checksum blake2b40 a).
Proof.
  unfold Checksum. rewrite ReverseBytes_spec, length_reverse. split; [apply blake2b40_length|]. apply Forall_reverse, blake2b40_bytes.
Qed.

(** The digits of the text: 52 of the address and eight of the checksum. *)
Lemma Address_String_digits a : wf_hash a →
  Address_String blake2b40 a =
  AddressPrefix ++ (enc <$> digits32 52 a) ++ (enc <$> digits32 8 (be_combine (Checksum blake2b40 a))).
Proof.
  intros Ha. unfold Address_String. f_equal. unfold wf_hash in Ha. f_equal.
  - change ([0; 0; 0] ++ hash_bytes a) with (be_bytes 3 0 ++ be_bytes 32 a). rewrite <- be_bytes_app by exact Ha.
    rewrite Z.mul_0_l, Z.add_0_l, (EncodeToString_quanta _ 7). change (8 * 7)%nat with (4 + 52)%nat.
    replace a with (0 * 32 ^ Z.of_nat 52 + a) at 1 by lia. rewrite digits32_app by (change (32 ^ Z.of_nat 52) with (16 * 256 ^ 32); lia).
    by rewrite fmap_app, drop_app_length'.
  - destruct (Checksum_bytes a) as [Hl Hb]. rewrite <- (be_bytes_be_combine _ Hb) at 1. rewrite Hl. apply (EncodeToString_quanta _ 1).
Qed.

Lemma TrimQuotes_plain x s : x ≠ 34 → TrimQuotes (x :: s) = x :: s.
Proof. intros Hx. unfold TrimQuotes. cbn [lookup_total list_lookup_total]. by rewrite (proj2 (Z.eqb_neq _ _) Hx), andb_false_r. Qed.

Lemma TrimQuotes_quoted s : TrimQuotes ([34] ++ s ++ [34]) = s.
Proof.
  unfold TrimQuotes. cbn [app]. cbn [length]. rewrite length_app. cbn [length].
  replace (S (length s + 1) - 1)%nat with (S (length s)) by lia.
  change ((34 :: s ++ [34]) !!! S (length s)) with ((s ++ [34]) !!! length s).
  rewrite list_lookup_total_middle by done. rewrite (proj2 (Nat.leb_le 2 _)) by lia. cbn [lookup_total list_lookup_total Z.eqb andb].
  replace (S (length s + 1) - 2)%nat with (length s) by lia. cbn [drop]. apply take_app_length.
Qed.

Lemma drop3_key N : drop 3 (be_bytes 35 N) = be_bytes 32 (N mod 256 ^ 32).
Proof.
  pose proof (Z.div_mod N (256 ^ 32) ltac:(lia)) as HN. pose proof (Z.mod_pos_bound N (256 ^ 32) ltac:(lia)) as Hr.
  replace (be_bytes 35 N) with (be_bytes (3 + 32) (N / 256 ^ 32 * 256 ^ Z.of_nat 32 + N mod 256 ^ 32)).
  - rewrite be_bytes_app by exact Hr. by rewrite drop_app_length' by (by rewrite length_be_bytes).
  - f_equal. change (Z.of_nat 32) with 32. lia.
Qed.

(** Parsing digits: the address is the value of the 52 digits modulo [2 ^ 256]. *)
Lemma parse_digits s ds cs : TrimQuotes s = AddressPrefix ++ (enc <$> ds) ++ (enc <$> cs) →
  length ds = 52%nat → length cs = 8%nat → Forall (λ d, 0 ≤ d < 32) ds → Forall (λ d, 0 ≤ d < 32) cs →
  HexToAddress blake2b40 s =
  let a := combine32 ds mod 256 ^ 32 in
  if negb (bool_decide (Checksum blake2b40 a = be_bytes 5 (combine32 cs))) then Err (Errorf "bad address checksum") else Ok a.
Proof.
  intros Hs Ld Lc Hd Hc. unfold HexToAddress. rewrite Hs.
  rewrite !length_app, !length_fmap, Ld, Lc. change (length AddressPrefix + (52 + 8))%nat with hexAddressLength.
  rewrite Nat.eqb_refl. cbn [negb]. unfold addressPrefixLen. rewrite take_app_length, bool_decide_true by done. cbn [negb].
  rewrite drop_app_length, take_app_length', drop_app_length' by (by rewrite length_fmap).
  change (str "1111") with (enc <$> [0; 0; 0; 0]). rewrite <- fmap_app.
  rewrite (DecodeString_digits _ 7) by (try rewrite length_app, Ld; try apply Forall_app; repeat constructor; done || lia).
  rewrite (DecodeString_digits _ 1) by done. rewrite combine32_app. change (combine32 [0; 0; 0; 0]) with 0.
  rewrite Z.mul_0_l, Z.add_0_l, length_be_bytes. cbn [Nat.ltb Nat.leb Nat.mul Nat.add].
  rewrite drop3_key, copyInto_take, take_ge by (rewrite length_be_bytes; done).
  rewrite be_combine_be_bytes, Z.mod_mod by lia. done.
Qed.

Lemma Address_String_head a : wf_hash a →
  0 ≤ a / 2 ^ 255 < 2 ∧ ∃ t, digits32 52 a = a / 2 ^ 255 :: t ∧ length t = 51%nat ∧ Forall (λ d, 0 ≤ d < 32) t ∧
  a = a / 2 ^ 255 * 2 ^ 255 + combine32 t.
Proof.
  unfold wf_hash. intros Ha. assert (Hq : 0 ≤ a / 2 ^ 255 < 2) by (split; [apply Z.div_pos|apply Z.div_lt_upper_bound]; lia).
  split; [done|]. pose proof (Z.div_mod a (2 ^ 255) ltac:(lia)) as HN. pose proof (Z.mod_pos_bound a (2 ^ 255) ltac:(lia)) as Hr.
  exists (digits32 51 (a mod 2 ^ 255)). split_and!; [|apply length_digits32|apply digits32_range|].
  - pose proof (digits32_app 1 51 (a / 2 ^ 255) (a mod 2 ^ 255) Hr) as E. change (32 ^ Z.of_nat 51) with (2 ^ 255) in E.
    replace (a / 2 ^ 255 * 2 ^ 255 + a mod 2 ^ 255) with a in E by lia. etransitivity; [exact E|].
    change (digits32 1 (a / 2 ^ 255)) with [(a / 2 ^ 255) mod 32]. by rewrite Z.mod_small by lia.
  - rewrite combine32_digits32, (Z.mod_small (a mod 2 ^ 255)) by exact Hr. lia.
Qed.

(** The value of a digit and 51 more modulo [2 ^ 256] depends on the digit's parity
    only. *)
Lemma head_parity d t : 0 ≤ d < 32 → length t = 51%nat → Forall (λ d, 0 ≤ d < 32) t →
  combine32 (d :: t) mod 256 ^ 32 = d mod 2 * 2 ^ 255 + combine32 t.
Proof.
  intros Hd Hl Ht. change (d :: t) with ([d] ++ t). rewrite combine32_app, Hl. change (combine32 [d]) with d.
  change (32 ^ Z.of_nat 51) with (2 ^ 255). change (256 ^ 32) with (2 * 2 ^ 255).
  pose proof (combine32_range t Ht) as Hr. rewrite Hl in Hr. change (32 ^ Z.of_nat 51) with (2 ^ 255) in Hr.
  pose proof (Z.div_mod d 2 ltac:(lia)) as HN. pose proof (Z.mod_pos_bound d 2 ltac:(lia)) as Hm.
  replace (d * 2 ^ 255 + combine32 t) with (d mod 2 * 2 ^ 255 + combine32 t + d / 2 * (2 * 2 ^ 255)) by lia.
  rewrite Z.mod_add, Z.mod_small by lia. done.
Qed.

(** Every text with the right parity of the first digit is parsed as the address. *)
Lemma parse_alias s a d : wf_hash a → 0 ≤ d < 32 → d mod 2 = a / 2 ^ 255 →
  TrimQuotes s = AddressPrefix ++ enc d :: drop 5 (Address_String blake2b40 a) → HexToAddress blake2b40 s = Ok a.
Proof.
  intros Ha Hd Hp Hs. destruct (Address_String_head a Ha) as (Hq & t & Et & Lt & Ft & Ea).
  rewrite Address_String_digits, Et in Hs by done. cbn [fmap list_fmap AddressPrefix app drop] in Hs.
  rewrite (parse_digits s (d :: t) (digits32 8 (be_combine (Checksum blake2b40 a)))); [| |cbn; lia|apply length_digits32|by constructor|apply digits32_range].
  - cbn zeta. rewrite head_parity, Hp, <- Ea by done. destruct (Checksum_bytes a) as [Lc Bc].
    rewrite combine32_digits32, Z.mod_small by (pose proof (be_combine_range _ Bc) as H; rewrite Lc in H; exact H).
    rewrite <- Lc, be_bytes_be_combine, bool_decide_true by done. done.
  - exact Hs.
Qed.

Lemma decode_plain s bs : padChar ∉ s → 13 ∉ s → 10 ∉ s → DecodeString addressEncodingAlphabet s = Some bs →
  ∃ k ds, length ds = (8 * k)%nat ∧ Forall (λ d, 0 ≤ d < 32) ds ∧ s = enc <$> ds ∧ bs = be_bytes (5 * k) (combine32 ds).
Proof.
  intros Hp H13 H10 H. assert (E : stripNewlines s = s).
  { unfold stripNewlines. clear -H13 H10. induction s as [|c s IH]; [done|]. rewrite not_elem_of_cons in H13, H10.
    rewrite filter_cons_True, IH; naive_solver. }
  pose proof H as H'. unfold DecodeString in H. rewrite E in H. apply decodeLoop_plain in H as (k & ds & Hl & Hd & ->); [|apply _|done].
  exists k, ds. split_and!; [done..|]. rewrite (DecodeString_digits _ k) in H' by done. congruence.
Qed.

(** What a parsed text without padding and line breaks consists of. *)
Lemma parse_split s a : padChar ∉ TrimQuotes s → 13 ∉ TrimQuotes s → 10 ∉ TrimQuotes s → HexToAddress blake2b40 s = Ok a →
  ∃ ds cs, TrimQuotes s = AddressPrefix ++ (enc <$> ds) ++ (enc <$> cs) ∧ length ds = 52%nat ∧ length cs = 8%nat ∧
    Forall (λ d, 0 ≤ d < 32) ds ∧ Forall (λ d, 0 ≤ d < 32) cs.
Proof.
  intros Hp H13 H10 H. unfold HexToAddress in H. set (u := TrimQuotes s) in *.
  destruct (Nat.eqb_spec (length u) hexAddressLength) as [Hl|]; [|done].
  destruct (bool_decide_reflect (take addressPrefixLen u = AddressPrefix)) as [Hpre|]; [|done]. cbn [negb] in H.
  rewrite <- (take_drop addressPrefixLen u), Hpre, <- (take_drop 52 (drop addressPrefixLen u)) in Hp, H13, H10 |- *.
  assert (L52 : length (take 52 (drop addressPrefixLen u)) = 52%nat) by (by rewrite length_take, length_drop, Hl).
  assert (L8 : length (drop 52 (drop addressPrefixLen u)) = 8%nat) by (by rewrite !length_drop, Hl).
  set (k := take 52 (drop addressPrefixLen u)) in *. set (c := drop 52 (drop addressPrefixLen u)) in *.
  rewrite !not_elem_of_app in Hp, H13, H10. destruct Hp as (_ & Pk & Pc), H13 as (_ & Ak & Ac), H10 as (_ & Bk & Bc).
  destruct (DecodeString _ (str "1111" ++ k)) as [key|] eqn:EK; [|done]. destruct (DecodeString _ c) as [sum|] eqn:ES; [|done].
  apply decode_plain in ES as (j & cs & Lj & Fj & Ej & _); [|done..].
  apply decode_plain in EK as (n & es & Ln & Fn & En & _); [|change (str "1111") with [49; 49; 49; 49]; set_solver..].
  apply (f_equal (drop 4)) in En. rewrite drop_app_length', <- fmap_drop in En by done.
  exists (drop 4 es), cs. rewrite En, Ej. split_and!; [done| | |by apply Forall_drop|done].
  - rewrite En, length_fmap in L52. exact L52.
  - rewrite Ej, length_fmap in L8. exact L8.
Qed.

(** A text without padding and line breaks that is parsed as an address is its
    canonical text up to the first digit. *)
Lemma parse_sound s a : padChar ∉ TrimQuotes s → 13 ∉ TrimQuotes s → 10 ∉ TrimQuotes s → HexToAddress blake2b40 s = Ok a →
  wf_hash a ∧ ∃ d, 0 ≤ d < 32 ∧ d mod 2 = a / 2 ^ 255 ∧
  TrimQuotes s = AddressPrefix ++ enc d :: drop 5 (Address_String blake2b40 a).
Proof.
  intros Hp H13 H10 H. destruct (parse_split s a Hp H13 H10 H) as (ds & cs & Es & Ld & Lc & Fd & Fc).
  rewrite (parse_digits s ds cs Es Ld Lc Fd Fc) in H. cbn zeta in H. destruct (bool_decide_reflect (Checksum blake2b40 (combine32 ds mod 256 ^ 32) =
    be_bytes 5 (combine32 cs))) as [Hsum|]; [|done]. injection H as Ha. rewrite Ha in Hsum. clear Hp H13 H10.
  assert (Hw : wf_hash a) by (unfold wf_hash; rewrite <- Ha; apply Z.mod_pos_bound; lia). split; [done|].
  destruct ds as [|d t]; [done|]. apply Forall_cons_iff in Fd as [Hd Ht]. cbn in Ld. rewrite head_parity in Ha by (done || lia).
  pose proof (combine32_range t Ht) as Hr. replace (length t) with 51%nat in Hr by lia. change (32 ^ Z.of_nat 51) with (2 ^ 255) in Hr.
  assert (Hq : d mod 2 = a / 2 ^ 255) by (rewrite <- Ha, Z.div_add_l, Z.div_small by lia; lia).
  exists d. split_and!; [lia..|done|]. destruct (Address_String_head a Hw) as (_ & t' & Et' & Lt' & Ft' & Ea).
  assert (t' = t) as ->.
  { rewrite <- (digits32_combine32 t Ht), <- (digits32_combine32 t' Ft'). f_equal; lia. }
  rewrite Es, Address_String_digits, Et' by done. cbn [fmap list_fmap AddressPrefix app drop]. do 6 f_equal. rewrite Hsum.
  rewrite be_combine_be_bytes. pose proof (combine32_range cs Fc) as Hc. rewrite Lc in Hc. rewrite Z.mod_small by exact Hc.
  by rewrite <- Lc, digits32_combine32.
Qed.

(** C37: the text of an address, plain or quoted, is 64 characters long and parsed as the
    address. *)
Theorem address_text_roundtrip a : wf_hash a →
  length (Address_String blake2b40 a) = hexAddressLength ∧
  HexToAddress blake2b40 (Address_String blake2b40 a) = Ok a ∧
  HexToAddress blake2b40 ([34] ++ Address_String blake2b40 a ++ [34]) = Ok a.
Proof.
  intros Ha. destruct (Address_String_head a Ha) as (Hq & t & Et & Lt & _ & _).
  assert (E : Address_String blake2b40 a = AddressPrefix ++ enc (a / 2 ^ 255) :: drop 5 (Address_String blake2b40 a))
    by (rewrite Address_String_digits, Et by done; done).
  assert (T : TrimQuotes (Address_String blake2b40 a) = Address_String blake2b40 a) by (rewrite E; by apply TrimQuotes_plain).
  split_and!.
  - rewrite Address_String_digits by done. by rewrite !length_app, !length_fmap, !length_digits32.
  - apply (parse_alias _ _ (a / 2 ^ 255)); [done|lia|apply Z.mod_small; lia|by rewrite T].
  - apply (parse_alias _ _ (a / 2 ^ 255)); [done|lia|apply Z.mod_small; lia|by rewrite TrimQuotes_quoted].
Qed.

(** A text without padding and line breaks is accepted exactly when it is the
    canonical text with any first digit of the same parity. *)
Theorem address_texts_accepted s a :
  padChar ∉ TrimQuotes s → 13 ∉ TrimQuotes s → 10 ∉ TrimQuotes s →
  HexToAddress blake2b40 s = Ok a ↔
  wf_hash a ∧ ∃ d, 0 ≤ d < 32 ∧ d mod 2 = a / 2 ^ 255 ∧
    TrimQuotes s = AddressPrefix ++ encodeDigit addressEncodingAlphabet d :: drop 5 (Address_String blake2b40 a).
Proof.
  intros Hp H13 H10. split; [by apply parse_sound|]. intros (Ha & d & Hd & Hm & Hs). by eapply parse_alias.
Qed.
End text.

(** A text of the right length and prefix whose key decodes to two bytes. *)
Definition shortKeyText : list Z := AddressPrefix ++ replicate 4 padChar ++ replicate 48 10 ++ replicate 8 49.

(** [HexToAddress] slices the decoded key without checking its length: on this text it
    panics, and so does [IsValidHexAddress]. *)
Theorem short_key_panics blake2b40 :
  HexToAddress blake2b40 shortKeyText = Panic ∧ IsValidHexAddress blake2b40 shortKeyText = Panic.
Proof. split; vm_compute; reflexivity. Qed.

(** ** Accounts *)
Section accounts.
Context (blake2b256 : list Z → Hash) (blake2b64 blake2b512 : list Z → list Z).
Context (blake2b512_length : ∀ m, length (blake2b512 m) = 64%nat).
Context (blake2b512_bytes : ∀ m, Forall is_byte (blake2b512 m)).

Lemma hexDecode_bytes s : Forall is_byte (hexDecodeString s).1.
Proof.
  revert s. fix IH 1. intros [|a [|b s]]; [constructor..|]. cbn [hexDecodeString]. specialize (IH s).
  assert (Hd : ∀ c d, fromHexChar c = Some d → 0 ≤ d < 16).
  { intros c d. unfold fromHexChar. repeat (case_match; simplify_eq; intros; simplify_eq); try lia. }
  destruct (fromHexChar a) as [x|] eqn:Ea, (fromHexChar b) as [y|] eqn:Eb; try constructor.
  apply Hd in Ea, Eb. destruct (hexDecodeString s) as [bs ok]. constructor; [unfold is_byte; lia|exact IH].
Qed.

(** An account made from a generated key signs for the address of the public key. *)
Lemma generated_account rand pub priv : GenerateKey blake2b512 rand = Ok (pub, priv) →
  ∃ acc, NewAccount priv = Ok acc ∧ Account_Address acc = PubToAddress pub ∧
    ∀ data, ∃ sig, Account_SignData blake2b512 acc data = Ok sig ∧ length sig = SignatureSize ∧
      Address_Verify blake2b512 (Account_Address acc) data sig = Ok true.
Proof.
  intros HG. assert (Hl : (32 ≤ length rand)%nat) by (unfold GenerateKey in HG; destruct (Nat.ltb_spec (length rand) 32); [done|lia]).
  destruct (generated_pair blake2b512 blake2b512_length blake2b512_bytes rand Hl) as (pub' & priv' & HG' & HP & Lp & Bp & HS).
  rewrite HG in HG'. injection HG' as <- <-. exists (mkAccount pub priv). unfold NewAccount. rewrite HP.
  assert (EA : Account_Address (mkAccount pub priv) = PubToAddress pub).
  { unfold Account_Address, PubToAddress, BytesToAddress, SetBytes, AddressSize. cbn [acc_pubKey]. rewrite Lp. cbn [negb Nat.eqb PublicKeySize fst].
    by rewrite copyInto_take, take_ge by (rewrite Lp; done). }
  split_and!; [done|done|]. intros data. destruct (HS data) as (sig & ES & Ls & EV). exists sig.
  unfold Account_SignData. cbn [acc_privKey]. rewrite ES. cbn [mbind res_bind].
  rewrite copyInto_take, take_ge by (rewrite Ls; done). split_and!; [done..|].
  unfold Address_Verify. rewrite EA. unfold PubToAddress, BytesToAddress, SetBytes, AddressSize. rewrite Lp. cbn [negb Nat.eqb PublicKeySize fst].
  unfold hash_bytes, HashSize. replace 32%nat with (length pub) by exact Lp. by rewrite be_bytes_be_combine.
Qed.

(** A wallet seed of valid hexadecimal digits gives, for every index, an account whose
    signatures are accepted under its address. *)
Theorem seed_accounts_sign seed index : (hexDecodeString seed).2 = true →
  ∃ pub priv acc, KeypairFromSeed blake2b256 blake2b512 seed index = Ok (pub, priv) ∧ NewAccount priv = Ok acc ∧
    Account_Address acc = PubToAddress pub ∧
    ∀ hash, ∃ sig, Account_Sign blake2b512 acc hash = Ok sig ∧
      Address_Verify blake2b512 (Account_Address acc) (hash_bytes hash) sig = Ok true.
Proof.
  intros Hs. unfold KeypairFromSeed. destruct (hexDecodeString seed) as [bs ok]. cbn [snd] in Hs. subst ok.
  destruct (generated_pair blake2b512 blake2b512_length blake2b512_bytes (hash_bytes (blake2b256 (bs ++ be_bytes 4 index))))
    as (pub & priv & HG & _); [unfold hash_bytes; by rewrite length_be_bytes|]. rewrite HG.
  destruct (generated_account _ _ _ HG) as (acc & HN & HA & HS). exists pub, priv, acc. split_and!; [done..|].
  intros hash. destruct (HS (hash_bytes hash)) as (sig & H1 & _ & H2). by exists sig.
Qed.

(** C16: with the signatures of the repository as the interface of the ledger, a block that
    an account signed passes the work and signature check exactly when its work is
    valid. *)
Theorem signed_blocks_pass rand pub priv acc block :
  GenerateKey blake2b512 rand = Ok (pub, priv) → NewAccount priv = Ok acc →
  let crypto := ed25519Crypto blake2b256 blake2b64 blake2b512 in
  sb_Address block = Account_Address acc →
  Account_Sign blake2b512 acc (@SB.GetHash crypto block) = Ok (sb_Signature block) →
  @checkWorkSign crypto block true true = pass ↔ @SB.IsValid crypto block = true.
Proof.
  intros HG HN. cbn zeta. intros HA HS. destruct (generated_account _ _ _ HG) as (acc' & HN' & _ & Hsig).
  rewrite HN in HN'. injection HN' as <-. destruct (Hsig (hash_bytes (@SB.GetHash (ed25519Crypto blake2b256 blake2b64 blake2b512) block)))
    as (sig & ES & _ & EV). unfold Account_Sign in HS. rewrite HS in ES. injection ES as <-.
  rewrite (@checkWorkSign_pass (ed25519Crypto blake2b256 blake2b64 blake2b512)). unfold authentic. cbn [ed25519_Verify ed25519Crypto].
  rewrite HA, EV. tauto.
Qed.
End accounts.
