(* ===== verification/Process.v ===== *)
(** * Block processing: [ledger/process/ledger_processor.go], [cache_processor.go]

    An accepted block is written to the ledger in one [BatchUpdate]: the block
    itself with its child and link records, the pending transfer it creates or
    consumes, the frontier of its chain, the contract data, the account meta and
    the weight of its representative. *)

From S2P Require Import Prelude Types Cache Storage Ledger Contract GoBytes Check.

Section process.
Context `{Crypto} `{Config} `{Node} `{Unicode}.

(** [common.TimeNow().UTC().Unix()] at the time of processing. *)
Variable now : Z.

(** ** Pending transfers

    A contract may write to the block it is given; the block is returned. *)
Definition addPendingOpt (p : option (PendingKey * PendingInfo)) : M LS unit :=
  match p with
  | Some (key, info) => AddPending key info
  | None => mret tt
  end.

Definition updatePending (block : StateBlock) : M LS StateBlock :=
  match sb_Type block with
  | Send =>
      preBlk ← wrapM "previous block not found: %s"
                 (readS (λ s, GetStateBlockConfirmed (ls_led s) None (sb_Previous block)));
      amount ← liftR (Bal.Sub (sb_Balance preBlk) (SB.GetBalance block));
      AddPending (mkPendingKey (sb_Link block) (SB.GetHash block))
        {| pi_Source := sb_Address block; pi_Amount := amount; pi_Type := sb_Token block |};;
      mret block
  | Open | Receive | ContractReward =>
      DeletePending (mkPendingKey (sb_Address block) (sb_Link block));; mret block
  | ContractSend =>
      if notRecipient block then mret block
      else match GetChainContract (sb_Link block) (SB.GetPayload block) with
      | None => mret block
      | Some c =>
          if specVer (GetDescribe c) =? SpecVer1 then
            match DoPending c block with
            | Ok p => addPendingOpt p;; mret block
            | Err _ => mret block
            | Panic => liftR Panic
            end
          else if specVer (GetDescribe c) =? SpecVer2 then
            s ← getS;
            match NewVMContextWithBlock (ls_led s) block with
            | None => failS (Errorf "can not get vm context, %s")
            | Some vmCtx =>
                match ProcessSend c (ls_led s) vmCtx block with
                | (Ok p, _, block') => addPendingOpt p;; mret block'
                | (Err _, _, block') => mret block'
                | (Panic, _, _) => liftR Panic
                end
            end
          else failS (Errorf "unsupported chain contract version %d")
      end
  | _ => mret block
  end.

(** ** Representatives *)
Definition accountBenefit (am : AccountMeta) : res Benefit :=
  total ← AM.TotalBalance am;
  Ok {| bn_Vote := AM.GetVote am; bn_Network := AM.GetNetwork am; bn_Oracle := AM.GetOracle am;
        bn_Storage := AM.GetStorage am; bn_Balance := AM.GetBalance am; bn_Total := total |}.

Definition blockBenefit (block : StateBlock) : res Benefit :=
  total ← SB.TotalBalance block;
  Ok {| bn_Vote := SB.GetVote block; bn_Network := SB.GetNetwork block;
        bn_Oracle := SB.GetOracle block; bn_Storage := SB.GetStorage block;
        bn_Balance := SB.GetBalance block; bn_Total := total |}.

Definition updateRepresentative (block : StateBlock) (am : option AccountMeta) (tm : option TokenMeta)
  : M LS unit :=
  if sb_Token block =? ChainToken then
    match tm, am with
    | Some t, Some a =>
        if negb (hash_IsZero (tm_Representative t)) then
          oldBenefit ← liftR (accountBenefit a);
          SubRepresentation (tm_Representative t) oldBenefit
        else mret tt
    | Some t, None => if negb (hash_IsZero (tm_Representative t)) then liftR Panic else mret tt
    | None, _ => mret tt
    end;;
    newBenefit ← liftR (blockBenefit block);
    AddRepresentation (sb_Representative block) newBenefit
  else mret tt.

(** ** Frontiers *)
Definition updateFrontier (block : StateBlock) (tm : option TokenMeta) : M LS unit :=
  let hash := SB.GetHash block in
  match tm with
  | Some t =>
      frontier ← readS (λ s, GetFrontier (ls_led s) None (tm_Header t));
      DeleteFrontier (fr_HeaderBlock frontier);;
      AddFrontier (mkFrontier hash (tm_OpenBlock t))
  | None => AddFrontier (mkFrontier hash hash)
  end.

(** ** Account metas *)
Definition newTokenMeta (block : StateBlock) : TokenMeta :=
  {| tm_Type := sb_Token block; tm_Header := SB.GetHash block;
     tm_Representative := sb_Representative block; tm_OpenBlock := SB.GetHash block;
     tm_Balance := SB.GetBalance block; tm_BelongTo := sb_Address block;
     tm_Modified := now; tm_BlockCount := 1 |}.

(** The token meta of the chain after the block. *)
Definition nextTokenMeta (block : StateBlock) (tm : TokenMeta) : TokenMeta :=
  {| tm_Type := tm_Type tm; tm_Header := SB.GetHash block;
     tm_Representative := sb_Representative block; tm_OpenBlock := tm_OpenBlock tm;
     tm_Balance := SB.GetBalance block; tm_BelongTo := tm_BelongTo tm;
     tm_Modified := now; tm_BlockCount := tm_BlockCount tm + 1 |}.

(** The coin fields of the account follow the blocks of the chain token. *)
Definition withCoins (block : StateBlock) (am : AccountMeta) : AccountMeta :=
  if sb_Token block =? ChainToken then
    {| am_Address := am_Address am; am_CoinBalance := SB.GetBalance block;
       am_CoinVote := SB.GetVote block; am_CoinNetwork := SB.GetNetwork block;
       am_CoinStorage := SB.GetStorage block; am_CoinOracle := SB.GetOracle block;
       am_Tokens := am_Tokens am |}
  else am.

(** The account after the block. *)
Definition nextAccount (block : StateBlock) (am : AccountMeta) : AccountMeta :=
  let am' := withCoins block am in
  match AM.Token am (sb_Token block) with
  | Some _ => AM.with_tokens am' (AM.update_token (am_Tokens am) (sb_Token block) (nextTokenMeta block))
  | None => AM.with_tokens am' (am_Tokens am ++ [newTokenMeta block])
  end.

Definition newAccount (block : StateBlock) : AccountMeta :=
  withCoins block
    {| am_Address := sb_Address block; am_CoinBalance := None; am_CoinVote := None;
       am_CoinNetwork := None; am_CoinStorage := None; am_CoinOracle := None;
       am_Tokens := [newTokenMeta block] |}.

Definition updateAccountMeta (block : StateBlock) (am : option AccountMeta) : M LS unit :=
  match am with
  | Some a =>
      let a' := nextAccount block (AM.Clone a) in
      match AM.Token a' (sb_Token block) with
      | Some tm => AddAccountMetaHistory tm block
      | None => liftR Panic
      end;;
      UpdateAccountMeta a'
  | None =>
      AddAccountMetaHistory (newTokenMeta block) block;;
      AddAccountMeta (newAccount block)
  end.

(** ** Contract data *)
Definition updateContractData (block : StateBlock) : M LS StateBlock :=
  if IsGenesisBlock block then mret block
  else match sb_Type block with
  | ContractReward =>
      if notRecipient block then mret block
      else
        input ← wrapM "get contract reward block: %s"
                  (readS (λ s, GetStateBlockConfirmed (ls_led s) None (sb_Link block)));
        if notRecipient input then mret block
        else match GetChainContract (sb_Link input) (SB.GetPayload input) with
        | None => failS (Errorf "invaild contract %s")
        | Some c =>
            s ← getS;
            match NewVMContextWithBlock (ls_led s) block with
            | None => failS (Errorf "update contract: can not get vm context, %s")
            | Some vmCtx =>
                g ← wrapM "updateContract DoReceive error: %s "
                      (liftR (DoReceive c (ls_led s) vmCtx (SB.Clone block) input));
                match g with
                | {| cb_VMContext := Some ctx |} :: _ =>
                    wrapM "reward block save storage error: %s" (SaveStorage (ToCache ctx));;
                    wrapM "reward block save trie error: %s" (saveTrie ctx);;
                    mret block
                | _ => failS (Errorf "invalid contract data")
                end
            end
        end
  | ContractSend =>
      if notRecipient block then mret block
      else match GetChainContract (sb_Link block) (SB.GetPayload block) with
      | None => mret block
      | Some c =>
          if specVer (GetDescribe c) =? SpecVer2 then
            s ← getS;
            match NewVMContextWithBlock (ls_led s) block with
            | None => failS (Errorf "update contract data: can not get vm context, %s")
            | Some vmCtx =>
                match ProcessSend c (ls_led s) vmCtx block with
                | (Ok _, ctx, block') =>
                    wrapM "send block save storage error: %s" (SaveStorage (ToCache ctx));;
                    wrapM "send block save trie error: %s" (saveTrie ctx);;
                    mret block'
                | (Err _, _, block') => mret block'
                | (Panic, _, _) => liftR Panic
                end
            end
          else mret block
      end
  | _ => mret block
  end.

(** ** One block *)

(** [err != nil && err != ErrAccountNotFound]: the error message of the source then
    dereferences the nil account. *)
Definition readAccount (block : StateBlock) : M LS (option AccountMeta) :=
  s ← getS;
  match GetAccountMetaConfirmed (ls_led s) None (sb_Address block) with
  | Ok am => mret (Some am)
  | Err ErrAccountNotFound => mret None
  | _ => liftR Panic
  end.

Definition readToken (block : StateBlock) : M LS (option TokenMeta) :=
  s ← getS;
  match GetTokenMetaConfirmed (ls_led s) (sb_Address block) (sb_Token block) with
  | Ok tm => mret (Some tm)
  | Err ErrAccountNotFound | Err ErrTokenNotFound => mret None
  | Err _ => failS (Errorf "get token meta error: %s")
  | Panic => liftR Panic
  end.

(** One step of the model: the locks that the cache of representatives takes around each
    update are left out, and the block count of a chain (an [int64]) does not wrap. *)
Definition processStateBlock (block : StateBlock) : M LS StateBlock :=
  am ← readAccount block;
  tm ← readToken block;
  UpdateStateBlock block;;
  block ← wrapM "update pending error: %s" (updatePending block);
  wrapM "update frontier error: %s" (updateFrontier block tm);;
  block ← wrapM "update contract data error: %s" (updateContractData block);
  wrapM "update account meta error: %s" (updateAccountMeta block am);;
  wrapM "update representative error: %s" (updateRepresentative block am tm);;
  mret block.

(** [BlockProcess]; [None] while the write cache is full. *)
Definition BlockProcess (tick : bool) (block : StateBlock) (l : Ledger) : option (res unit * Ledger) :=
  match BatchUpdate tick (processStateBlock block) l with
  | Some (Ok block', l') =>
      Some (Ok tt, add_event (add_event l' (EventAddRelation block')) (BlockConfirmed block'))
  | Some (Err e, l') => Some (Err e, l')
  | Some (Panic, l') => Some (Panic, l')
  | None => None
  end.

(** [Process]: check, then process. *)
Definition Process (tick : bool) (block : StateBlock) (l : Ledger) : option (verdict * Ledger) :=
  match BlockCheck l block with
  | Verdict Progress None =>
      match BlockProcess tick block l with
      | Some (Ok _, l') => Some (pass, l')
      | Some (Err e, l') => Some (Verdict Other (Some e), l')
      | Some (Panic, l') => Some (CheckPanic, l')
      | None => None
      end
  | v => Some (v, l)
  end.

(** ** Unconfirmed blocks: [BlockCacheProcess] *)
Definition updateAccountMetaCache (block : StateBlock) (am : option AccountMeta) : M LS unit :=
  match am with
  | Some a => AddOrUpdateAccountMetaCache (nextAccount block a)
  | None => AddAccountMetaCache (newAccount block)
  end.

Definition writeBlockCache (block : StateBlock) (am : option AccountMeta) : M LS unit :=
  wrapM "update block cache error: %s" (AddBlockCache block);;
  wrapM "update account meta cache error: %s" (updateAccountMetaCache block am).

Definition BlockCacheProcess (block : StateBlock) : M Ledger unit :=
  am ← (λ l, match GetAccountMeta l None (sb_Address block) with
             | Ok am => (Ok (Some am), l)
             | Err ErrAccountNotFound => (Ok None, l)
             | Err _ => (Err (Errorf "get account meta cache error: %s"), l)
             | Panic => (Panic, l)
             end);
  BatchWrite (writeBlockCache block am);;
  modifyS (λ l, add_event (add_event (add_event l (EventAddBlockCache block))
                             (EventBroadcast block)) (EventGenerateBlock block)).
End process.
