(* ===== verification/ProcessFacts.v ===== *)
(** * What processing a plain block writes

    Plain blocks are the transfers and representative changes: [Send], [Receive],
    [Open], [Change] and [Online].  A successful run of [processStateBlock] on one
    of them is decomposed into the writes of its stages. *)

From S2P Require Import Prelude Types Cache Storage Ledger LedgerFacts Contract GoBytes Check Process.

Section facts.
Context `{Crypto} `{Config} `{Node} `{Unicode}.
Variable now : Z.

Definition plain (b : StateBlock) : bool :=
  match sb_Type b with Send | Receive | Open | Change | Online => true | _ => false end.

(** ** Reading account and token *)
Definition account_read (l : Ledger) (b : StateBlock) (am : option AccountMeta) : Prop :=
  match am with
  | Some a => GetAccountMetaConfirmed l None (sb_Address b) = Ok a
  | None => GetAccountMetaConfirmed l None (sb_Address b) = Err ErrAccountNotFound
  end.

Definition token_read (am : option AccountMeta) (b : StateBlock) (tm : option TokenMeta) : Prop :=
  match am with
  | Some a => AM.Token a (sb_Token b) = tm
  | None => tm = None
  end.

Lemma readAccount_run b s am s' :
  readAccount b s = (Ok am, s') → s' = s ∧ account_read (ls_led s) b am.
Proof.
  unfold readAccount, getS, mbind, M_bind, account_read.
  destruct (GetAccountMetaConfirmed _ _ _) as [a|[]|]; intros [= <- <-]; done.
Qed.

Lemma readToken_run b s am tm s' :
  account_read (ls_led s) b am → readToken b s = (Ok tm, s') → s' = s ∧ token_read am b tm.
Proof.
  unfold readToken, getS, mbind, M_bind, account_read, token_read, GetTokenMetaConfirmed, tokenOf.
  destruct am as [a|]; intros ->; cbn; [|by intros [= <- <-]].
  by destruct (AM.Token a (sb_Token b)); intros [= <- <-].
Qed.

(** ** Pending *)
Definition sendPending (b : StateBlock) (amount : Balance) : PendingInfo :=
  {| pi_Source := sb_Address b; pi_Amount := amount; pi_Type := sb_Token b |}.

Definition receivedKey (b : StateBlock) : PendingKey := mkPendingKey (sb_Address b) (sb_Link b).
Definition sentKey (b : StateBlock) : PendingKey := mkPendingKey (sb_Link b) (SB.GetHash b).

Definition pending_effect (l : Ledger) (b : StateBlock) (f : gmap Key Value → gmap Key Value) : Prop :=
  match sb_Type b with
  | Send => ∃ preBlk amount,
      GetStateBlockConfirmed l None (sb_Previous b) = Ok preBlk ∧
      Bal.Sub (sb_Balance preBlk) (sb_Balance b) = Ok amount ∧
      f = <[KPending (sentKey b) := VPending (sendPending b amount)]>
  | Open | Receive =>
      (∃ p, GetPending l (receivedKey b) = Ok p ∧ f = delete (KPending (receivedKey b))) ∨
      ((∃ e, GetPending l (receivedKey b) = Err e) ∧ f = id)
  | _ => f = id
  end.

Lemma updatePending_run b s b' s' :
  plain b = true → updatePending b s = (Ok b', s') →
  b' = b ∧ ∃ f, pending_effect (ls_led s) b f ∧ writes s f s'.
Proof.
  unfold plain, updatePending, pending_effect. destruct (sb_Type b); try done; intros _ Hr; inv_m.
  3, 5: by injection Hr as <- <-; split; [done|exists id].
  all: unfold mret, M_ret in *; simplify_eq; split; [done|].
  - match goal with H1 : AddPending _ _ _ = _ |- _ => apply AddPending_writes in H1 as Hw end. eauto 10.
  - match goal with H1 : DeletePending _ _ = _ |- _ =>
      apply DeletePending_writes in H1 as [(p & Hp & Hw)|(He & Hw)] end; eauto 10.
  - match goal with H1 : DeletePending _ _ = _ |- _ =>
      apply DeletePending_writes in H1 as [(p & Hp & Hw)|(He & Hw)] end; eauto 10.
Qed.

(** ** Frontier *)
Definition frontier_effect (b : StateBlock) (tm : option TokenMeta) (v : gmap Key Value)
  : gmap Key Value :=
  match tm with
  | Some t => <[KFrontier (SB.GetHash b) := VHash (tm_OpenBlock t)]> (delete (KFrontier (tm_Header t)) v)
  | None => <[KFrontier (SB.GetHash b) := VHash (SB.GetHash b)]> v
  end.

Lemma updateFrontier_run b tm s r s' :
  db_ok (ls_led s) → updateFrontier b tm s = (Ok r, s') → writes s (frontier_effect b tm) s'.
Proof.
  intros Hok. unfold updateFrontier, frontier_effect. destruct tm as [t|]; [|apply bat_Put_Ok].
  intros Hr. inv_m.
  match goal with H1 : GetFrontier _ _ _ = Ok _ |- _ => apply GetFrontier_Ok in H1 as [Hf _]; [|done] end.
  match goal with H1 : DeleteFrontier _ _ = _ |- _ => apply bat_Delete_Ok in H1 as Hw1 end.
  rewrite Hf in Hw1. apply bat_Put_Ok in Hr. exact (writes_trans _ _ _ _ _ Hw1 Hr).
Qed.

(** ** Account *)
Definition account_next (b : StateBlock) (am : option AccountMeta) : AccountMeta :=
  match am with
  | Some a => nextAccount now b (AM.Clone a)
  | None => newAccount now b
  end.

Definition history (b : StateBlock) (tm : TokenMeta) (v : gmap Key Value) : gmap Key Value :=
  <[KAccountPovHeight (tm_BelongTo tm) (sb_PoVHeight b) (tm_Type tm) := VToken (AM.tm_wire tm)]>
    (<[KAccountBlockHash (SB.GetHash b) := VToken (AM.tm_wire tm)]> v).

Definition account_effect (b : StateBlock) (am : option AccountMeta) (v : gmap Key Value)
  : gmap Key Value :=
  let a' := account_next b am in
  <[KAccount (am_Address a') := VAccount (AM.Clone a')]>
    (history b (default (newTokenMeta now b) (AM.Token a' (sb_Token b))) v).

Lemma newAccount_Token b : AM.Token (newAccount now b) (sb_Token b) = Some (newTokenMeta now b).
Proof.
  unfold newAccount, withCoins, AM.Token. case_match; cbn; by rewrite Z.eqb_refl.
Qed.

Lemma updateAccountMeta_run b am s r s' :
  updateAccountMeta now b am s = (Ok r, s') → writes s (account_effect b am) s'.
Proof.
  unfold updateAccountMeta, account_effect. destruct am as [a|]; cbn [account_next].
  - set (a' := nextAccount now b (AM.Clone a)). destruct (AM.Token a' (sb_Token b)) as [tm|]; cbn [default];
      intros Hr; inv_m.
    match goal with H1 : AddAccountMetaHistory _ _ _ = _ |- _ =>
      apply AddAccountMetaHistory_writes in H1 as Hw1 end.
    apply UpdateAccountMeta_writes in Hr. exact (writes_trans _ _ _ _ _ Hw1 Hr).
  - rewrite newAccount_Token. cbn [default]. intros Hr; inv_m.
    match goal with H1 : AddAccountMetaHistory _ _ _ = _ |- _ =>
      apply AddAccountMetaHistory_writes in H1 as Hw1 end.
    apply AddAccountMeta_writes in Hr. exact (writes_trans _ _ _ _ _ Hw1 Hr).
Qed.

(** ** Representative *)
Definition sub_stage (am : option AccountMeta) (tm : option TokenMeta) (v v1 : gmap Key Value) : Prop :=
  match tm, am with
  | Some t, Some a =>
      if negb (hash_IsZero (tm_Representative t)) then
        ∃ old b', accountBenefit a = Ok old ∧
          Benefit_map2 Bal.Sub (rep_of v (tm_Representative t)) old = Ok b' ∧
          v1 = <[KRepresentation (tm_Representative t) := VBenefit (Benefit_Clone b')]> v
      else v1 = v
  | _, _ => v1 = v
  end.

Definition add_stage (b : StateBlock) (v1 v2 : gmap Key Value) : Prop :=
  ∃ new b', blockBenefit b = Ok new ∧
    Benefit_map2 Bal.Add (rep_of v1 (sb_Representative b)) new = Ok b' ∧
    v2 = <[KRepresentation (sb_Representative b) := VBenefit (Benefit_Clone b')]> v1.

Definition rep_effect (b : StateBlock) (am : option AccountMeta) (tm : option TokenMeta)
    (v v2 : gmap Key Value) : Prop :=
  if sb_Token b =? ChainToken then ∃ v1, sub_stage am tm v v1 ∧ add_stage b v1 v2 else v2 = v.

Lemma db_ok_writes s f s' : db_ok (ls_led s) → writes s f s' → db_ok (ls_led s').
Proof. intros Hok ([Hc _] & _). unfold db_ok. by rewrite Hc. Qed.

Lemma add_stage_run b s r s' :
  db_ok (ls_led s) → reps_ok (sview s) →
  (newBenefit ← liftR (blockBenefit b); AddRepresentation (sb_Representative b) newBenefit) s = (Ok r, s') →
  same_db (ls_led s) (ls_led s') ∧ add_stage b (sview s) (sview s').
Proof.
  intros Hok Hreps Hr. inv_m. apply AddRepresentation_writes in Hr as (b' & Hb' & Hw); [|done..].
  destruct Hw as (Hdb & _ & Hv). split; [done|]. unfold add_stage. eauto 10.
Qed.

Lemma updateRepresentative_run b am tm s r s' :
  db_ok (ls_led s) → reps_ok (sview s) → updateRepresentative b am tm s = (Ok r, s') →
  same_db (ls_led s) (ls_led s') ∧ rep_effect b am tm (sview s) (sview s').
Proof.
  intros Hok Hreps. unfold updateRepresentative, rep_effect.
  destruct (sb_Token b =? ChainToken); [|by intros [= <- <-]].
  intros Hr. apply M_bind_Ok in Hr as ([] & s1 & Hsub & Hadd).
  enough (Hs1 : same_db (ls_led s) (ls_led s1) ∧ reps_ok (sview s1) ∧ sub_stage am tm (sview s) (sview s1)).
  { destruct Hs1 as (Hdb & Hreps1 & Hst). apply add_stage_run in Hadd as [Hdb' Hst']; [|by eapply db_ok_same|done].
    split; [by eapply same_db_trans|]. eauto. }
  unfold sub_stage. destruct tm as [t|], am as [a|].
  2, 3, 4: try (destruct (negb _)); unfold mret, M_ret, liftR in Hsub; simplify_eq; done.
  destruct (negb _); [|unfold mret, M_ret in Hsub; simplify_eq; done]. inv_m.
  apply SubRepresentation_writes in Hsub as (b' & Hb' & (Hdb & _ & Hv)); [|done..].
  split_and!; [done| |eauto 10]. rewrite Hv. by apply reps_ok_insert.
Qed.

Lemma rep_effect_writes b am tm v v2 : rep_effect b am tm v v2 → rep_writes v v2.
Proof.
  unfold rep_effect, sub_stage, add_stage. destruct (_ =? _); [|intros ->; constructor].
  intros (v1 & Hsub & (new & b' & _ & _ & ->)). constructor.
  destruct tm as [t|], am as [a|]; [|subst; constructor..].
  destruct (negb _); [|subst; constructor]. destruct Hsub as (? & ? & _ & _ & ->).
  repeat constructor.
Qed.
End facts.

(** Look up a key behind writes to records of other tables. *)
Ltac other_key :=
  repeat first
    [ rewrite lookup_insert_ne by discriminate
    | rewrite lookup_delete_ne by discriminate ].

Section plain.
Context `{Crypto} `{Config} `{Node} `{Unicode}.
Variable now : Z.

(** ** All stages *)
Definition chain_writes (b : StateBlock) (am : option AccountMeta) (tm : option TokenMeta)
    (f : gmap Key Value → gmap Key Value) (v : gmap Key Value) : gmap Key Value :=
  account_effect now b am (frontier_effect b tm (f (block_write b v))).

Lemma block_write_other b v k :
  (∀ h, k ≠ KBlock h) → (∀ h, k ≠ KLink h) → (∀ h, k ≠ KChild h) → block_write b v !! k = v !! k.
Proof.
  intros H1' H2' H3'. unfold block_write, link_write, child_write.
  rewrite lookup_insert_ne by (intros Heq; by destruct (H1' (SB.GetHash b))).
  assert (Hc : (if has_parent b then <[KChild (SB.Parent b):=VHash (SB.GetHash b)]> v else v) !! k = v !! k).
  { destruct (has_parent b); [|done]. rewrite lookup_insert_ne; [done|].
    intros Heq; by destruct (H3' (SB.Parent b)). }
  destruct (sb_Type b); try done;
    (rewrite lookup_insert_ne; [done|intros Heq; by destruct (H2' (sb_Link b))]).
Qed.

Lemma frontier_effect_other b tm v k :
  (∀ h, k ≠ KFrontier h) → frontier_effect b tm v !! k = v !! k.
Proof.
  intros Hk. unfold frontier_effect. destruct tm as [t|].
  - rewrite lookup_insert_ne by (intros Heq; by eapply Hk). apply lookup_delete_ne.
    intros Heq; by eapply Hk.
  - apply lookup_insert_ne. intros Heq; by eapply Hk.
Qed.

Lemma account_effect_other b am v k :
  (∀ a, k ≠ KAccount a) → (∀ h, k ≠ KAccountBlockHash h) → (∀ a h t, k ≠ KAccountPovHeight a h t) →
  account_effect now b am v !! k = v !! k.
Proof.
  intros H1' H2' H3'. unfold account_effect, history.
  rewrite !lookup_insert_ne; [done|intros Heq; by eapply H2'|intros Heq; by eapply H3'|
    intros Heq; by eapply H1'].
Qed.

Lemma pending_effect_other l b f v k :
  pending_effect l b f → (∀ pk, k ≠ KPending pk) → f v !! k = v !! k.
Proof.
  unfold pending_effect. intros Hp Hk.
  assert (Hd : ∀ pk, delete (KPending pk) v !! k = v !! k)
    by (intros; apply lookup_delete_ne; intros Heq; by eapply Hk).
  revert Hp. destruct (sb_Type b); try (by intros ->).
  - intros (preBlk & amount & _ & _ & ->). apply lookup_insert_ne. intros Heq; by eapply Hk.
  - intros [(p & _ & ->)|(_ & ->)]; [apply Hd|done].
  - intros [(p & _ & ->)|(_ & ->)]; [apply Hd|done].
Qed.

Lemma chain_writes_rep l b am tm f v a :
  pending_effect l b f → chain_writes b am tm f v !! KRepresentation a = v !! KRepresentation a.
Proof.
  intros Hp. unfold chain_writes. rewrite account_effect_other, frontier_effect_other by done.
  rewrite (pending_effect_other l b f) by done. by apply block_write_other.
Qed.

(** A successful run on a plain block, as one change of the map. *)
Definition plain_effect (l : Ledger) (b : StateBlock) (v v' : gmap Key Value) : Prop :=
  ∃ am tm f, account_read l b am ∧ token_read am b tm ∧ pending_effect l b f ∧
    rep_effect b am tm (chain_writes b am tm f v) v'.

Lemma updateContractData_plain b s :
  plain b = true → updateContractData b s = (Ok b, s).
Proof. unfold plain, updateContractData. intros Hp. destruct (IsGenesisBlock b); [done|]. by destruct (sb_Type b). Qed.

Lemma pending_effect_same l l' b f : same_db l l' → pending_effect l' b f → pending_effect l b f.
Proof.
  intros Hdb. unfold pending_effect, GetPending, GetStateBlockConfirmed, GetBlockPrivatePayload.
  destruct Hdb as [Hc Hs]. unfold fetch, getFromCache. by rewrite Hc, Hs.
Qed.

Lemma processStateBlock_plain b l b' s' :
  plain b = true → db_ok l → reps_ok (lview l) →
  processStateBlock now b (mkLS l ∅ ∅) = (Ok b', s') →
  b' = b ∧ same_db l (ls_led s') ∧ plain_effect l b (lview l) (sview s').
Proof.
  intros Hp Hok Hreps Hr. unfold processStateBlock in Hr.
  apply M_bind_Ok in Hr as (am & s0 & Ham & Hr). apply readAccount_run in Ham as [-> Ham].
  apply M_bind_Ok in Hr as (tm & s0 & Htm & Hr). eapply readToken_run in Htm as [-> Htm]; [|done].
  apply M_bind_Ok in Hr as ([] & s1 & Hb & Hr). apply UpdateStateBlock_writes in Hb as [Hw1 _]; [|done].
  apply M_bind_Ok in Hr as (b1 & s2 & Hpe & Hr). apply wrapM_Ok in Hpe.
  apply updatePending_run in Hpe as (-> & f & Hf & Hw2); [|done].
  pose proof (writes_trans _ _ _ _ _ Hw1 Hw2) as Hw. clear Hw2.
  apply M_bind_Ok in Hr as ([] & s3 & Hfr & Hr). apply wrapM_Ok in Hfr.
  apply updateFrontier_run in Hfr; [|exact (db_ok_writes (mkLS l ∅ ∅) _ _ Hok Hw)].
  pose proof (writes_trans _ _ _ _ _ Hw Hfr) as Hw3. clear Hw Hfr.
  apply M_bind_Ok in Hr as (b2 & s4 & Hcd & Hr). apply wrapM_Ok in Hcd.
  rewrite updateContractData_plain in Hcd by done. injection Hcd as <- <-.
  apply M_bind_Ok in Hr as ([] & s4 & Hac & Hr). apply wrapM_Ok in Hac.
  apply updateAccountMeta_run in Hac. pose proof (writes_trans _ _ _ _ _ Hw3 Hac) as Hw4. clear Hw3 Hac.
  apply M_bind_Ok in Hr as ([] & s5 & Hre & Hr). apply wrapM_Ok in Hre.
  unfold mret, M_ret in Hr. injection Hr as <- <-.
  apply pending_effect_same with (l := l) in Hf; [|by destruct Hw1].
  assert (Hv4 : sview s4 = chain_writes b am tm f (lview l)).
  { destruct Hw4 as (_ & _ & ->). unfold sview at 1; cbn [ls_bat ls_led]. by rewrite overlay_empty. }
  apply updateRepresentative_run in Hre as [Hdb Heff]; [|exact (db_ok_writes (mkLS l ∅ ∅) _ _ Hok Hw4)|].
  2: { intros a x. rewrite Hv4, (chain_writes_rep l) by done. apply Hreps. }
  split; [done|]. split; [exact (same_db_trans _ _ _ (writes_db (mkLS l ∅ ∅) _ _ Hw4) Hdb)|].
  exists am, tm, f. by rewrite <- Hv4.
Qed.

(** The ledger after [BlockProcess] of a plain block. *)
Lemma BlockProcess_plain tick b l l' :
  plain b = true → db_ok l → reps_ok (lview l) →
  BlockProcess now tick b l = Some (Ok tt, l') →
  db_ok l' ∧ plain_effect l b (lview l) (lview l').
Proof.
  intros Hp Hok Hreps. unfold BlockProcess.
  destruct (BatchUpdate _ _ _) as [[[b'|e|] l1]|] eqn:E; [|done..]. intros [= <-].
  unfold BatchUpdate in E.
  destruct (processStateBlock now b (mkLS l ∅ ∅)) as [[b1|e|] s'] eqn:Er; cbn in E; [|done..].
  apply processStateBlock_plain in Er as (-> & Hdb & Heff) ; [|done..].
  destruct (Cache.BatchUpdate _ _ _) as [lc|] eqn:Eb; cbn in E; [|done]. injection E as <- <-.
  destruct Hdb as [Hc Hs]. rewrite Hc in Eb.
  destruct (BatchUpdate_ok tick (l_cache l) (ls_bat s') lc (l_store l) Hok Eb) as [Hok' Hv'].
  split; [exact Hok'|].
  match goal with |- plain_effect _ _ _ (lview ?l2) => replace (lview l2) with (sview s'); [done|] end.
  unfold lview, sview; cbn [l_cache l_store set_cache add_event]. rewrite Hs, Hv'.
  by rewrite (lview_same_db l (ls_led s')).
Qed.
End plain.
