(* ===== verification/Supply.v ===== *)
(** * Conservation of tokens

    The supply of a token is what the accounts hold plus what is pending.  The file
    states the invariant of the confirmed tables ([wf_view]) and proves that every
    accepted transfer or representative change preserves the invariant and the
    supply of every token, under the conditions in which the code guarantees it. *)

From S2P Require Import Prelude Types Cache Storage Ledger LedgerFacts Contract GoBytes Check.
From S2P Require Import Process ProcessFacts.

Section supply.
Context `{Crypto} `{Config} `{Node} `{Unicode}.
Implicit Types (v w : gmap Key Value) (l : Ledger) (b : StateBlock).

(** ** The invariant *)

(** A token meta belongs to its account, and its header is a confirmed block of
    the account and token with the balance and representative of the meta. *)
Definition token_ok v (a : Address) (tm : TokenMeta) : Prop :=
  Bal.ok (tm_Balance tm) ∧ tm_BelongTo tm = a ∧
  ∃ b, v !! KBlock (tm_Header tm) = Some (VBlock b) ∧
    sb_Balance b = tm_Balance tm ∧ sb_Address b = a ∧ sb_Token b = tm_Type tm ∧
    sb_Representative b = tm_Representative tm.

Definition account_ok v (a : Address) (am : AccountMeta) : Prop :=
  am_Address am = a ∧ AM.Clone am = am ∧ NoDup (tm_Type <$> am_Tokens am) ∧
  Forall (token_ok v a) (am_Tokens am).

Record wf_view v : Prop := {
  wv_account : ∀ a x, v !! KAccount a = Some x → ∃ am, x = VAccount am ∧ account_ok v a am;
  wv_pending : ∀ pk x, v !! KPending pk = Some x → ∃ p, x = VPending p ∧
    Bal.ok (pi_Amount p) ∧ 0 < Bal.amount (pi_Amount p) ∧
    ∃ b, v !! KBlock (pk_Hash pk) = Some (VBlock b) ∧ sb_Address b = pi_Source p;
  wv_block : ∀ h x, v !! KBlock h = Some x → ∃ b, x = VBlock b ∧ SB.Clone b = b ∧ SB.GetHash b = h;
  wv_reps : reps_ok v;
}.

(** ** The supply of a token *)
Definition acct_amount (t : Hash) (am : AccountMeta) : Z :=
  match AM.Token am t with Some tm => Bal.amount (tm_Balance tm) | None => 0 end.

Definition supply_entry (t : Hash) (k : Key) (x : Value) : Z :=
  match k, x with
  | KAccount _, VAccount am => acct_amount t am
  | KPending _, VPending p => if pi_Type p =? t then Bal.amount (pi_Amount p) else 0
  | _, _ => 0
  end.

Definition supply (t : Hash) v : Z := map_sum (supply_entry t) v.

(** Tables that hold no tokens. *)
Definition neutral (k : Key) : bool :=
  match k with KAccount _ | KPending _ => false | _ => true end.

Lemma supply_neutral_insert t v k x : neutral k = true → supply t (<[k:=x]> v) = supply t v.
Proof.
  intros Hk. unfold supply. rewrite map_sum_insert. unfold entry_sum.
  destruct k; try done; cbn [supply_entry]; destruct (v !! _); lia.
Qed.

Lemma supply_neutral_delete t v k : neutral k = true → supply t (delete k v) = supply t v.
Proof.
  intros Hk. unfold supply. rewrite map_sum_delete_any. unfold entry_sum.
  destruct k; try done; cbn [supply_entry]; destruct (v !! _); lia.
Qed.

Lemma supply_block_write t b v : supply t (block_write b v) = supply t v.
Proof.
  unfold block_write, link_write, child_write. rewrite supply_neutral_insert by done.
  assert (Hc : supply t (if has_parent b then <[KChild (SB.Parent b):=VHash (SB.GetHash b)]> v else v) = supply t v)
    by (destruct (has_parent b); [by apply supply_neutral_insert|done]).
  destruct (sb_Type b); try done; by rewrite supply_neutral_insert.
Qed.

Lemma supply_frontier t b tm v : supply t (frontier_effect b tm v) = supply t v.
Proof.
  unfold frontier_effect. destruct tm; rewrite supply_neutral_insert by done; [|done].
  by apply supply_neutral_delete.
Qed.

Lemma supply_rep t v v' : rep_writes v v' → supply t v' = supply t v.
Proof.
  intros Hr. induction Hr as [|v' a b _ IH]; [done|]. by rewrite supply_neutral_insert.
Qed.

(** ** The amounts of the account that follows a block *)
Variable now : Z.

Lemma acct_amount_Clone t am : 
  (∀ tm, AM.Token am t = Some tm → Bal.wire (tm_Balance tm) = tm_Balance tm) →
  acct_amount t (AM.Clone am) = acct_amount t am.
Proof.
  intros Hok. unfold acct_amount. rewrite AMFacts.Token_Clone.
  destruct (AM.Token am t) as [tm|]; cbn -[Bal.wire]; [|done]. by rewrite Hok.
Qed.

Lemma withCoins_Tokens b am : am_Tokens (withCoins b am) = am_Tokens am.
Proof. unfold withCoins. by destruct (_ =? _). Qed.

Lemma withCoins_Address b am : am_Address (withCoins b am) = am_Address am.
Proof. unfold withCoins. by destruct (_ =? _). Qed.

(** Token metas of the next account: the block's token moves to the block. *)
Lemma Token_nextAccount b am t :
  AM.Token (nextAccount now b am) t =
  if sb_Token b =? t
  then Some (match AM.Token am t with Some tm => nextTokenMeta now b tm | None => newTokenMeta now b end)
  else AM.Token am t.
Proof.
  unfold nextAccount, AM.Token. destruct (AM.find_token (am_Tokens am) (sb_Token b)) as [tm|] eqn:E;
    cbn [AM.with_tokens am_Tokens].
  - rewrite AMFacts.find_update_token by done. destruct (Z.eqb_spec (sb_Token b) t) as [<-|]; [|done].
    by rewrite E.
  - rewrite AMFacts.find_token_app; cbn. destruct (Z.eqb_spec (sb_Token b) t) as [<-|].
    + by rewrite E.
    + by destruct (AM.find_token (am_Tokens am) t).
Qed.

Lemma acct_amount_next b am t :
  acct_amount t (nextAccount now b am) =
  if sb_Token b =? t then Bal.amount (sb_Balance b) else acct_amount t am.
Proof.
  unfold acct_amount. rewrite Token_nextAccount. destruct (_ =? _); [|done].
  by destruct (AM.Token am t).
Qed.

Lemma acct_amount_new b t :
  acct_amount t (newAccount now b) = if sb_Token b =? t then Bal.amount (sb_Balance b) else 0.
Proof.
  unfold acct_amount, AM.Token, newAccount. rewrite withCoins_Tokens. cbn.
  by destruct (_ =? _).
Qed.

(** The amount an optional account holds. *)
Definition opt_amount (t : Hash) (am : option AccountMeta) : Z :=
  match am with Some a => acct_amount t a | None => 0 end.

Lemma acct_amount_account_next b am t :
  Bal.wire (sb_Balance b) = sb_Balance b →
  (∀ a tm, am = Some a → AM.Token a t = Some tm → Bal.wire (tm_Balance tm) = tm_Balance tm) →
  acct_amount t (AM.Clone (account_next now b am)) =
  if sb_Token b =? t then Bal.amount (sb_Balance b) else opt_amount t am.
Proof.
  intros Hb Ha. rewrite acct_amount_Clone.
  - destruct am as [a|]; cbn [account_next opt_amount]; [|apply acct_amount_new].
    rewrite acct_amount_next, acct_amount_Clone; [done|eauto].
  - destruct am as [a|]; cbn [account_next].
    + intros tm. rewrite Token_nextAccount, AMFacts.Token_Clone. destruct (_ =? _).
      * intros [= <-]. by destruct (AM.Token a t).
      * destruct (AM.Token a t) as [tm'|] eqn:E; cbn; [|done]. intros [= <-].
        apply BalFacts.Bal_wire_wire.
    + intros tm. unfold AM.Token, newAccount. rewrite withCoins_Tokens. cbn.
      destruct (_ =? _); [by intros [= <-]|done].
Qed.

(** ** Reads under the invariant *)
Lemma account_read_view l b am :
  db_ok l → wf_view (lview l) → account_read l b am →
  lview l !! KAccount (sb_Address b) = VAccount <$> am ∧
  (∀ a, am = Some a → account_ok (lview l) (sb_Address b) a).
Proof.
  intros Hok Hwf. unfold account_read. destruct am as [a|].
  - intros Ha. apply GetAccountMetaConfirmed_Ok in Ha as (am0 & Hl & Ha); [|done].
    rewrite bview_None in Hl. destruct (wv_account _ Hwf _ _ Hl) as (am1 & [= <-] & Hacc).
    assert (a = am0) as -> by (destruct Ha as [->| ->]; [done|apply Hacc]).
    split; [done|]. by intros ? [= <-].
  - intros Ha. apply GetAccountMetaConfirmed_absent in Ha; [|done]. by rewrite bview_None in Ha.
Qed.

Lemma block_read_view l h b :
  db_ok l → wf_view (lview l) → GetStateBlockConfirmed l None h = Ok b →
  ∃ b0, lview l !! KBlock h = Some (VBlock b0) ∧ sb_Balance b = sb_Balance b0 ∧
    SB.GetHash b = h ∧ sb_Address b = sb_Address b0 ∧ sb_Token b = sb_Token b0.
Proof.
  intros Hok Hwf Hb. apply GetStateBlockConfirmed_Ok in Hb as (b0 & Hl & Hb); [|done].
  rewrite bview_None in Hl. destruct (wv_block _ Hwf _ _ Hl) as (b1 & [= <-] & Hc & Hh).
  exists b0. split; [done|]. destruct Hb as [->|(f & r & p & ->)]; [by rewrite Hc|]. done.
Qed.

Lemma token_balance_ok l b am a tm t :
  (∀ a, am = Some a → account_ok (lview l) (sb_Address b) a) →
  am = Some a → AM.Token a t = Some tm → token_ok (lview l) (sb_Address b) tm.
Proof.
  intros Hacc Ha Htm. destruct (Hacc _ Ha) as (_ & _ & _ & Hall).
  rewrite list.Forall_forall in Hall. apply Hall. by eapply AMFacts.find_token_elem.
Qed.

(** ** The effect of a plain block on the supply *)
Lemma supply_pending_insert t v pk p :
  v !! KPending pk = None →
  supply t (<[KPending pk := VPending p]> v) =
  supply t v + if pi_Type p =? t then Bal.amount (pi_Amount p) else 0.
Proof.
  intros Hn. unfold supply. rewrite map_sum_insert. unfold entry_sum. rewrite Hn. cbn. lia.
Qed.

Lemma supply_pending_delete t v pk p :
  v !! KPending pk = Some (VPending p) →
  supply t (delete (KPending pk) v) =
  supply t v - if pi_Type p =? t then Bal.amount (pi_Amount p) else 0.
Proof.
  intros Hn. unfold supply. rewrite map_sum_delete_any. unfold entry_sum. rewrite Hn. cbn. lia.
Qed.

Lemma account_next_Address b am :
  (∀ a, am = Some a → am_Address a = sb_Address b) →
  am_Address (account_next now b am) = sb_Address b.
Proof.
  intros Ha. destruct am as [a|]; cbn [account_next].
  - unfold nextAccount. destruct (AM.Token _ _); cbn; rewrite withCoins_Address; cbn; auto.
  - unfold newAccount. by rewrite withCoins_Address.
Qed.

Lemma supply_account_effect t b am v :
  Bal.wire (sb_Balance b) = sb_Balance b →
  (∀ a, am = Some a → am_Address a = sb_Address b) →
  (∀ a tm, am = Some a → AM.Token a t = Some tm → Bal.wire (tm_Balance tm) = tm_Balance tm) →
  v !! KAccount (sb_Address b) = VAccount <$> am →
  supply t (account_effect now b am v) =
  supply t v - opt_amount t am + if sb_Token b =? t then Bal.amount (sb_Balance b) else opt_amount t am.
Proof.
  intros Hb Haddr Hbal Hv. unfold account_effect. rewrite account_next_Address by done.
  unfold supply at 1. rewrite map_sum_insert. fold (supply t (history b
    (default (newTokenMeta now b) (AM.Token (account_next now b am) (sb_Token b))) v)).
  unfold history at 1. rewrite !supply_neutral_insert by done. unfold entry_sum, history.
  other_key. rewrite Hv. cbn [supply_entry]. rewrite acct_amount_account_next by done.
  destruct am as [a|]; cbn; lia.
Qed.

(** What the block does to the pending transfers of its token. *)
Definition pending_delta l b (t : Hash) (d : Z) : Prop :=
  ∀ f v, pending_effect l b f → wf_view v → v = lview l →
    lview l !! KBlock (SB.GetHash b) = None →
    supply t (f (block_write b v)) = supply t v + d.

Lemma supply_plain l b v' t d :
  db_ok l → wf_view (lview l) → Bal.wire (sb_Balance b) = sb_Balance b →
  lview l !! KBlock (SB.GetHash b) = None →
  plain_effect now l b (lview l) v' → pending_delta l b t d →
  ∃ am tm, account_read l b am ∧ token_read am b tm ∧
    supply t v' = supply t (lview l) + d +
      if sb_Token b =? t then Bal.amount (sb_Balance b) - opt_amount t am else 0.
Proof.
  intros Hok Hwf Hb Hfresh (am & tm & f & Ham & Htm & Hf & Hrep) Hd.
  exists am, tm. split; [done|]. split; [done|].
  destruct (account_read_view l b am Hok Hwf Ham) as [Hva Hacc].
  rewrite (supply_rep t _ v' (rep_effect_writes _ _ _ _ _ Hrep)). unfold chain_writes.
  rewrite supply_account_effect; [|done| | |].
  - rewrite supply_frontier, (Hd f (lview l)) by done. destruct (_ =? _); lia.
  - intros a Ha. by destruct (Hacc a Ha).
  - intros a tm' Ha Ht. apply BalFacts.wire_ok, (token_balance_ok l b am a tm' t Hacc Ha Ht).
  - rewrite frontier_effect_other, (pending_effect_other l b f), block_write_other by done. done.
Qed.

(** ** Accepted blocks *)

(** The conditions under which the checks guarantee conservation: a transfer or
    representative change with an amount of 64 bits, not on the list of verified
    blocks, that continues a chain of its own account or opens one. *)
Definition regular l b : Prop :=
  plain b = true ∧ Bal.ok (sb_Balance b) ∧ (SB.GetHash b ∉ l_verifiedData l) ∧
  (sb_Type b ≠ Open → ∃ tm, GetTokenMetaConfirmed l (sb_Address b) (sb_Token b) = Ok tm).

Lemma Process_pass tick b l l' :
  Process now tick b l = Some (pass, l') →
  BlockCheck l b = pass ∧ BlockProcess now tick b l = Some (Ok tt, l').
Proof.
  unfold Process, pass. destruct (BlockCheck l b) as [[] [|]|]; try done.
  destruct (BlockProcess now tick b l) as [[[[]|e|] l1]|]; try done. by intros [= <-].
Qed.

Lemma BlockCheck_pass l b check :
  newBlockCheck (sb_Type b) = Some check → SB.GetHash b ∉ l_verifiedData l →
  BlockCheck l b = pass → check l b = pass.
Proof.
  intros Hc Hv. unfold BlockCheck. rewrite Hc.
  destruct (check l b) as [[] e|]; try done.
  destruct (existsb _ _) eqn:E; [|done]. apply existsb_exists in E as (h & Hin & Heq%Z.eqb_eq).
  apply list_elem_of_In in Hin. by rewrite <- Heq in Hin.
Qed.

Lemma not_confirmed l h : db_ok l → HasStateBlockConfirmed l h = false → lview l !! KBlock h = None.
Proof.
  intros Hok. unfold HasStateBlockConfirmed. rewrite hasKey_lview by done.
  intros Hn%bool_decide_eq_false. by apply eq_None_not_Some.
Qed.

Lemma token_read_Ok l b am tm :
  account_read l b am → GetTokenMetaConfirmed l (sb_Address b) (sb_Token b) = Ok tm →
  ∃ a, am = Some a ∧ AM.Token a (sb_Token b) = Some tm.
Proof.
  unfold account_read, GetTokenMetaConfirmed, tokenOf. destruct am as [a|]; intros ->; cbn; [|done].
  destruct (AM.Token a (sb_Token b)) eqn:E; intros; simplify_eq; eauto.
Qed.

(** The previous block of a block on its own head carries the account's balance. *)
Lemma head_balance l b previous am tm :
  db_ok l → wf_view (lview l) → account_read l b am →
  GetTokenMetaConfirmed l (sb_Address b) (sb_Token b) = Ok tm →
  GetStateBlockConfirmed l None (sb_Previous b) = Ok previous → onHead l b previous →
  Bal.ok (tm_Balance tm) ∧ sb_Balance previous = tm_Balance tm ∧
  opt_amount (sb_Token b) am = Bal.amount (tm_Balance tm).
Proof.
  intros Hok Hwf Ham Htm Hprev Hhead. unfold onHead in Hhead. rewrite Htm in Hhead.
  destruct (account_read_view l b am Hok Hwf Ham) as [_ Hacc].
  destruct (token_read_Ok l b am tm Ham Htm) as (a & -> & Ht).
  destruct (token_balance_ok l b (Some a) a tm _ Hacc eq_refl Ht) as (Hbal & _ & b1 & Hb1 & Heq & _).
  destruct (block_read_view l _ previous Hok Hwf Hprev) as (b0 & Hl & Hbp & Hh & _).
  rewrite <- Hhead, Hh, Hl in Hb1. injection Hb1 as <-.
  split; [done|]. split; [congruence|]. cbn. unfold acct_amount. by rewrite Ht.
Qed.

Lemma amount_eq (r : Balance) x : r = Some x → Bal.amount r = x.
Proof. by intros ->. Qed.

Lemma send_delta l b t x y :
  db_ok l → sb_Type b = Send → Bal.ok (Some x) → Bal.ok (Some y) → y < x →
  sb_Balance b = Some y →
  (∀ previous, GetStateBlockConfirmed l None (sb_Previous b) = Ok previous → sb_Balance previous = Some x) →
  pending_delta l b t (if sb_Token b =? t then x - y else 0).
Proof.
  intros Hok Ht Hx Hy Hlt Hb Hprev f v Hf Hwf -> Hfresh. unfold pending_effect in Hf. rewrite Ht in Hf.
  destruct Hf as (pre & amount & Hpre & Hsub & ->). rewrite (Hprev _ Hpre), Hb in Hsub. cbn in Hx, Hy.
  rewrite BalFacts.Sub_no_underflow in Hsub by lia. injection Hsub as <-.
  rewrite supply_pending_insert, supply_block_write; [done|].
  rewrite block_write_other by done. destruct (lview l !! KPending (sentKey b)) as [p|] eqn:E; [|done].
  destruct (wv_pending _ Hwf _ _ E) as (? & _ & _ & _ & b0 & Hb0 & _). cbn in Hb0. congruence.
Qed.

Lemma receive_delta l b t p a :
  db_ok l → sb_Type b = Receive ∨ sb_Type b = Open → pendingFor l b p → pi_Amount p = Some a →
  pending_delta l b t (if sb_Token b =? t then - a else 0).
Proof.
  intros Hok Ht [Hp Htok] Ha f v Hf Hwf -> Hfresh. unfold pending_effect in Hf.
  assert (f = delete (KPending (receivedKey b))) as ->.
  { destruct Ht as [Ht|Ht]; rewrite Ht in Hf;
      (destruct Hf as [(p' & _ & ->)|((e & He) & _)]; [done|unfold receivedKey in He; congruence]). }
  apply GetPending_Ok in Hp; [|done]. rewrite (supply_pending_delete _ _ _ p).
  - rewrite supply_block_write, Htok, Ha. cbn. destruct (_ =? _); lia.
  - by rewrite block_write_other.
Qed.

Lemma change_delta l b t :
  sb_Type b = Change ∨ sb_Type b = Online → pending_delta l b t 0.
Proof.
  intros Ht f v Hf _ -> _. unfold pending_effect in Hf.
  assert (f = id) as -> by (destruct Ht as [Ht|Ht]; by rewrite Ht in Hf).
  cbn. rewrite supply_block_write. lia.
Qed.

(** The checks passed by an accepted regular block. *)
Lemma regular_fresh l b :
  db_ok l → regular l b → BlockCheck l b = pass → lview l !! KBlock (SB.GetHash b) = None.
Proof.
  intros Hok (Hp & _ & Hv & _) Hpass. apply not_confirmed; [done|].
  unfold plain in Hp. destruct (sb_Type b) eqn:Ht; try done.
  - by apply send_pass in Hpass as (? & _).
  - apply (BlockCheck_pass l b receiveBlockCheck) in Hpass; [|by rewrite Ht|done].
    by apply receive_pass in Hpass as (? & _).
  - by apply change_pass in Hpass as (_ & _ & ? & _).
  - apply (BlockCheck_pass l b openBlockCheck) in Hpass; [|by rewrite Ht|done].
    by apply open_pass in Hpass as (_ & ? & _).
  - by apply online_pass in Hpass as (_ & _ & ? & _).
Qed.

(** The supply does not change when the pending transfers lose what the account
    gains. *)
Lemma supply_balanced l b v' t d :
  db_ok l → wf_view (lview l) → Bal.ok (sb_Balance b) → lview l !! KBlock (SB.GetHash b) = None →
  plain_effect now l b (lview l) v' →
  pending_delta l b t (if sb_Token b =? t then d else 0) →
  (∀ am tm, account_read l b am → token_read am b tm →
     d = opt_amount (sb_Token b) am - Bal.amount (sb_Balance b)) →
  supply t v' = supply t (lview l).
Proof.
  intros Hok Hwf Hb Hfresh Heff Hd Heq.
  destruct (supply_plain l b v' t _ Hok Hwf (BalFacts.wire_ok _ Hb) Hfresh Heff Hd) as (am & tm & Ham & Htm & ->).
  destruct (Z.eqb_spec (sb_Token b) t) as [Ht|Ht]; [|lia].
  rewrite (Heq am tm Ham Htm), Ht. lia.
Qed.

Section accepted.
Context (l : Ledger) (b : StateBlock) (v' : gmap Key Value) (t : Hash).
Context (Hok : db_ok l) (Hwf : wf_view (lview l)) (Hb : Bal.ok (sb_Balance b)).
Context (Hfresh : lview l !! KBlock (SB.GetHash b) = None).
Context (Heff : plain_effect now l b (lview l) v').

Lemma send_supply tm :
  sb_Type b = Send → BlockCheck l b = pass →
  GetTokenMetaConfirmed l (sb_Address b) (sb_Token b) = Ok tm → supply t v' = supply t (lview l).
Proof.
  intros Ht Hpass Htm.
  apply send_pass in Hpass as (_ & _ & previous & Hprev & Hhead & (x & y & Hx & Hy & Hlt) & _); [|done].
  assert (Hbals : ∀ am, account_read l b am → Bal.ok (Some x) ∧ opt_amount (sb_Token b) am = x).
  { intros am Ham. destruct (head_balance l b previous am tm) as (Hok' & Heq & ->); [done..|].
    rewrite Hx in Heq. rewrite <- Heq in Hok' |- *. done. }
  assert (∃ am, account_read l b am) as [am0 Ham0] by (destruct Heff as (am & ? & ? & ? & _); eauto).
  apply (supply_balanced l b v' t (x - y)); [done..| |].
  - eapply send_delta; eauto; [apply (Hbals _ Ham0)|by rewrite <- Hy|]. intros p' Hp'. congruence.
  - intros am tm' Ham _. destruct (Hbals _ Ham) as [_ ->]. by rewrite Hy.
Qed.

Lemma receive_supply :
  sb_Type b = Receive → receiveBlockCheck l b = pass → supply t v' = supply t (lview l).
Proof using All.
  intros Ht Hpass. apply receive_pass in Hpass
    as (_ & _ & _ & previous & Hprev & Hhead & _ & p & tm & a & Hpf & Htm & Hsub & Ha); [|done].
  apply (supply_balanced l b v' t (- a)); [done..|eapply receive_delta; eauto|].
  intros am tm' Ham _. destruct (head_balance l b previous am tm) as (Hbal & _ & ->); [done..|].
  destruct Hpf as [Hget _]. apply GetPending_Ok in Hget; [|done].
  destruct (wv_pending _ Hwf _ _ Hget) as (p' & [= <-] & _ & Hpos & _). rewrite Ha in Hpos. cbn in Hpos.
  destruct (tm_Balance tm) as [z|], (sb_Balance b) as [y|]; [|done..]. cbn in Hbal, Hb |- *.
  rewrite BalFacts.Sub_ok in Hsub by lia. injection Hsub as Ha'. destruct (Z.leb_spec z y); lia.
Qed.

Lemma open_supply :
  sb_Type b = Open → openBlockCheck l b = pass → supply t v' = supply t (lview l).
Proof using All.
  intros Ht Hpass.
  apply open_pass in Hpass as (_ & _ & _ & _ & (e & He) & (p & a & Hpf & Ha & Hba) & _); [|done].
  apply (supply_balanced l b v' t (- a)); [done..|eapply receive_delta; eauto|].
  intros am tm' Ham Htm'. rewrite Hba. unfold account_read, GetTokenMetaConfirmed, tokenOf in *.
  destruct am as [am|]; cbn; [|lia]. rewrite Ham in He. cbn in He. unfold acct_amount.
  destruct (AM.Token am (sb_Token b)); [done|lia].
Qed.

Lemma change_supply tm previous :
  sb_Type b = Change ∨ sb_Type b = Online →
  GetTokenMetaConfirmed l (sb_Address b) (sb_Token b) = Ok tm →
  GetStateBlockConfirmed l None (sb_Previous b) = Ok previous → onHead l b previous →
  sb_Balance previous = sb_Balance b → supply t v' = supply t (lview l).
Proof using All.
  intros Ht Htm Hprev Hhead Hbal. apply (supply_balanced l b v' t 0); [done..| |].
  - replace (if sb_Token b =? t then 0 else 0) with 0 by (by destruct (_ =? _)). by apply change_delta.
  - intros am tm' Ham _. destruct (head_balance l b previous am tm) as (_ & Heq & ->); [done..|].
    rewrite <- Heq, Hbal. lia.
Qed.
End accepted.

Lemma regular_supply l b v' t :
  db_ok l → wf_view (lview l) → regular l b → BlockCheck l b = pass →
  plain_effect now l b (lview l) v' → supply t v' = supply t (lview l).
Proof.
  intros Hok Hwf Hreg Hpass Heff. pose proof (regular_fresh l b Hok Hreg Hpass) as Hfresh.
  destruct Hreg as (Hp & Hb & Hv & Hown). unfold plain in Hp.
  destruct (sb_Type b) eqn:Ht; try done.
  - destruct Hown as [tm Htm]; [done|]. eauto using send_supply.
  - apply (BlockCheck_pass l b receiveBlockCheck) in Hpass; [|by rewrite Ht|done].
    by apply (receive_supply l b).
  - apply change_pass in Hpass as (_ & _ & _ & _ & previous & ? & ? & ? & _); [|done].
    destruct Hown as [tm Htm]; [done|]. eapply (change_supply l b); eauto.
  - apply (BlockCheck_pass l b openBlockCheck) in Hpass; [|by rewrite Ht|done].
    by apply (open_supply l b).
  - apply online_pass in Hpass as (_ & _ & _ & _ & previous & ? & ? & ? & _); [|done].
    destruct Hown as [tm Htm]; [done|]. eapply (change_supply l b); eauto.
Qed.

(** ** The invariant is preserved *)
Lemma rep_writes_reps_ok v v' : rep_writes v v' → reps_ok v → reps_ok v'.
Proof. intros Hr Hv. induction Hr as [|v' a b _ IH]; [done|by apply reps_ok_insert]. Qed.

Lemma plain_lookup_block l b am tm f v v' h :
  pending_effect l b f → rep_effect b am tm (chain_writes now b am tm f v) v' →
  v' !! KBlock h = if decide (SB.GetHash b = h) then Some (VBlock (SB.Clone b)) else v !! KBlock h.
Proof.
  intros Hf Hr. rewrite (rep_writes_lookup _ _ _ (rep_effect_writes _ _ _ _ _ Hr)) by done.
  unfold chain_writes. rewrite account_effect_other, frontier_effect_other by done.
  rewrite (pending_effect_other l b f) by done. unfold block_write.
  destruct (decide (SB.GetHash b = h)) as [->|Hne]; [apply lookup_insert_eq|].
  rewrite lookup_insert_ne by congruence. unfold link_write, child_write.
  assert (Hc : (if has_parent b then <[KChild (SB.Parent b):=VHash (SB.GetHash b)]> v else v) !! KBlock h
               = v !! KBlock h) by (destruct (has_parent b); by other_key).
  destruct (sb_Type b); by other_key.
Qed.

Lemma plain_lookup_account l b am tm f v v' a :
  pending_effect l b f → rep_effect b am tm (chain_writes now b am tm f v) v' →
  v' !! KAccount a =
  if decide (am_Address (account_next now b am) = a)
  then Some (VAccount (AM.Clone (account_next now b am))) else v !! KAccount a.
Proof.
  intros Hf Hr. rewrite (rep_writes_lookup _ _ _ (rep_effect_writes _ _ _ _ _ Hr)) by done.
  unfold chain_writes, account_effect, history.
  destruct (decide (am_Address (account_next now b am) = a)) as [->|Hne]; [apply lookup_insert_eq|].
  rewrite lookup_insert_ne by congruence. other_key. rewrite frontier_effect_other by done.
  rewrite (pending_effect_other l b f) by done. by apply block_write_other.
Qed.

Lemma plain_lookup_pending l b am tm f v v' pk :
  pending_effect l b f → rep_effect b am tm (chain_writes now b am tm f v) v' →
  v' !! KPending pk = f (block_write b v) !! KPending pk.
Proof.
  intros Hf Hr. rewrite (rep_writes_lookup _ _ _ (rep_effect_writes _ _ _ _ _ Hr)) by done.
  unfold chain_writes. by rewrite account_effect_other, frontier_effect_other by done.
Qed.

Lemma token_ok_mono v v' a tm :
  (∀ h b, v !! KBlock h = Some (VBlock b) → v' !! KBlock h = Some (VBlock b)) →
  token_ok v a tm → token_ok v' a tm.
Proof. intros Hm (Hb & Ha & b & Hl & Hrest). split_and!; [done..|]. eauto. Qed.

Lemma token_ok_wire v a tm : token_ok v a tm → AM.tm_wire tm = tm.
Proof.
  intros (Hb & _). unfold AM.tm_wire. rewrite BalFacts.wire_ok by done. by destruct tm.
Qed.

Lemma tokens_wire v a ts : Forall (token_ok v a) ts → AM.tm_wire <$> ts = ts.
Proof.
  induction 1 as [|tm ts Htm _ IH]; [done|]. rewrite fmap_cons, IH. by rewrite (token_ok_wire v a).
Qed.

(** The token meta written for a block. *)
Lemma token_ok_head v a b tm :
  v !! KBlock (SB.GetHash b) = Some (VBlock (SB.Clone b)) → Bal.ok (sb_Balance b) →
  sb_Address b = a → tm_Header tm = SB.GetHash b → tm_Balance tm = sb_Balance b →
  tm_BelongTo tm = a → tm_Type tm = sb_Token b → tm_Representative tm = sb_Representative b →
  token_ok v a tm.
Proof.
  intros Hl Hb Ha Hh Hbal Hbel Hty Hrp. split_and!; [by rewrite Hbal|done|].
  exists (SB.Clone b). rewrite Hh, Hbal, Hty, Hrp. split_and!; [done| |done..].
  by apply BalFacts.wire_ok.
Qed.

Lemma Forall_update_token (P : TokenMeta → Prop) ts tt g :
  Forall P ts → (∀ tm, tm ∈ ts → tm_Type tm = tt → P (g tm)) → Forall P (AM.update_token ts tt g).
Proof.
  intros Hall. induction Hall as [|tm ts Htm Hall IH]; intros Hg; cbn; [constructor|].
  destruct (Z.eqb_spec (tm_Type tm) tt) as [Heq|]; constructor; auto.
  - apply Hg; [left|done].
  - apply IH. intros tm' Hin. apply Hg. by right.
Qed.

Lemma account_ok_next v v' b am :
  (∀ h x, v !! KBlock h = Some (VBlock x) → v' !! KBlock h = Some (VBlock x)) →
  v' !! KBlock (SB.GetHash b) = Some (VBlock (SB.Clone b)) → Bal.ok (sb_Balance b) →
  (∀ a, am = Some a → account_ok v (sb_Address b) a) →
  account_ok v' (sb_Address b) (AM.Clone (account_next now b am)).
Proof.
  intros Hm Hl Hb Hacc.
  assert (Hts : Forall (token_ok v' (sb_Address b)) (am_Tokens (account_next now b am)) ∧
                NoDup (tm_Type <$> am_Tokens (account_next now b am))).
  { destruct am as [a|]; cbn [account_next].
    - destruct (Hacc a eq_refl) as (_ & Hcl & Hnd & Hall). rewrite Hcl.
      assert (Hall' : Forall (token_ok v' (sb_Address b)) (am_Tokens a))
        by (eapply list.Forall_impl; [exact Hall|]; intros; by eapply token_ok_mono).
      unfold nextAccount, AM.Token. destruct (AM.find_token _ _) as [tm|] eqn:E; cbn.
      + split; [|by rewrite AMFacts.update_token_types].
        apply Forall_update_token; [done|]. intros tm' Hin Hty.
        apply (token_ok_head _ _ b); try done. rewrite list.Forall_forall in Hall'.
        by destruct (Hall' _ Hin) as (_ & ? & _).
      + split; [apply Forall_app; split; [done|]; constructor; [by apply (token_ok_head _ _ b)|constructor]|].
        rewrite fmap_app. apply list.NoDup_app. split_and!; [done| |apply NoDup_singleton].
        intros t Hin ->%list_elem_of_singleton. by apply AMFacts.find_token_None in E.
    - unfold newAccount. rewrite withCoins_Tokens. split; [|apply NoDup_singleton].
      constructor; [by apply (token_ok_head _ _ b)|constructor]. }
  destruct Hts as [Hall Hnd]. unfold account_ok. cbn [AM.Clone AM.with_tokens am_Tokens am_Address].
  rewrite (tokens_wire v' (sb_Address b)) by done. split_and!; [|apply AMFacts.AM_Clone_Clone|done|done].
  apply account_next_Address. intros a Ha. by destruct (Hacc a Ha).
Qed.

(** Pending transfers after a block: of a positive amount, from a confirmed block. *)
Lemma send_amount l b preBlk amount :
  db_ok l → wf_view (lview l) → regular l b → BlockCheck l b = pass → sb_Type b = Send →
  (∃ am, account_read l b am) →
  GetStateBlockConfirmed l None (sb_Previous b) = Ok preBlk →
  Bal.Sub (sb_Balance preBlk) (sb_Balance b) = Ok amount → 0 < Bal.amount amount.
Proof.
  intros Hok Hwf (_ & Hb & _ & Hown) Hpass Ht [am Ham] Hpre Hsub.
  apply send_pass in Hpass as (_ & _ & previous & Hprev & Hhead & (x & y & Hx & Hy & Hlt) & _); [|done].
  rewrite Hpre in Hprev. injection Hprev as <-. destruct Hown as [tm Htm]; [congruence|].
  destruct (head_balance l b preBlk am tm) as (Hbal & Heq & _); [done..|].
  rewrite <- Heq, Hx in Hbal. rewrite Hx, Hy in Hsub. rewrite Hy in Hb. cbn in Hb, Hbal.
  rewrite BalFacts.Sub_no_underflow in Hsub by lia. injection Hsub as <-. cbn. lia.
Qed.

Lemma pending_effect_wf l b f am pk x :
  db_ok l → wf_view (lview l) → regular l b → BlockCheck l b = pass → account_read l b am →
  pending_effect l b f → f (block_write b (lview l)) !! KPending pk = Some x →
  (pk = sentKey b ∧ ∃ p, x = VPending p ∧ Bal.ok (pi_Amount p) ∧ 0 < Bal.amount (pi_Amount p) ∧
     pi_Source p = sb_Address b) ∨
  lview l !! KPending pk = Some x.
Proof.
  intros Hok Hwf Hreg Hpass Ham Hf. unfold pending_effect in Hf.
  assert (Hother : block_write b (lview l) !! KPending pk = lview l !! KPending pk)
    by (by apply block_write_other).
  assert (Hdel : ∀ pk', delete (KPending pk') (block_write b (lview l)) !! KPending pk = Some x →
                  lview l !! KPending pk = Some x).
  { intros pk' [_ Hl]%lookup_delete_Some. congruence. }
  destruct (sb_Type b) eqn:Ht; try (subst f; cbn; rewrite Hother; by right).
  - destruct Hf as (pre & amount & Hpre & Hsub & ->). rewrite lookup_insert_Some, Hother.
    intros [[Hk <-]|[_ ?]]; [|by right]. left. injection Hk as <-. split; [done|].
    eexists. split; [done|]. split; [by eapply BalFacts.Sub_range|]. split; [|done].
    cbn [sendPending pi_Amount]. eapply send_amount; eauto.
  - destruct Hf as [(p & _ & ->)|(_ & ->)]; [intros; right; by eapply Hdel|cbn; rewrite Hother; by right].
  - destruct Hf as [(p & _ & ->)|(_ & ->)]; [intros; right; by eapply Hdel|cbn; rewrite Hother; by right].
Qed.

Lemma regular_wf l b v' :
  db_ok l → wf_view (lview l) → regular l b → BlockCheck l b = pass →
  plain_effect now l b (lview l) v' → wf_view v'.
Proof.
  intros Hok Hwf Hreg Hpass (am & tm & f & Ham & Htm & Hf & Hrep).
  pose proof (regular_fresh l b Hok Hreg Hpass) as Hfresh.
  destruct (account_read_view l b am Hok Hwf Ham) as [Hva Hacc].
  pose proof (λ h, plain_lookup_block l b am tm f _ v' h Hf Hrep) as Hblk.
  assert (Hm : ∀ h x, lview l !! KBlock h = Some x → v' !! KBlock h = Some x).
  { intros h x Hl. rewrite Hblk. destruct (decide (SB.GetHash b = h)) as [<-|]; congruence. }
  assert (Hhead : v' !! KBlock (SB.GetHash b) = Some (VBlock (SB.Clone b)))
    by (by rewrite Hblk, decide_True).
  split.
  - intros a x. rewrite (plain_lookup_account l b am tm f _ v' a Hf Hrep).
    rewrite account_next_Address by (intros a' Ha'; by destruct (Hacc a' Ha')).
    destruct (decide (sb_Address b = a)) as [<-|].
    + intros [= <-]. eexists. split; [done|]. apply (account_ok_next (lview l)); [by eauto|done| |done].
      by destruct Hreg as (_ & ? & _).
    + intros (am' & -> & H1' & H2' & H3' & Hall)%(wv_account _ Hwf). eexists. split; [done|].
      split_and!; [done..|]. eapply list.Forall_impl; [exact Hall|]. intros tm' Htm'. eapply token_ok_mono; [|exact Htm']. intros h b'. apply Hm.
  - intros pk x. rewrite (plain_lookup_pending l b am tm f _ v' pk Hf Hrep).
    intros [(-> & p & -> & Hp)|Hl]%(pending_effect_wf l b f am); [..|done|done|done|done|done|done].
    + exists p. destruct Hp as (? & ? & ->). split_and!; [done..|]. exists (SB.Clone b). done.
    + destruct (wv_pending _ Hwf _ _ Hl) as (p & -> & ? & ? & y & Hy & ?). exists p.
      split_and!; [done..|]. exists y. split; [by apply Hm|done].
  - intros h x. rewrite Hblk. destruct (decide (SB.GetHash b = h)) as [<-|]; [|apply (wv_block _ Hwf)].
    intros [= <-]. eexists. split; [done|]. split; [apply SBFacts.SB_Clone_Clone|apply SBFacts.GetHash_Clone].
  - eapply rep_writes_reps_ok; [by eapply rep_effect_writes|].
    intros a x. rewrite (chain_writes_rep now l) by done. apply (wv_reps _ Hwf).
Qed.
End supply.

(** ** Sequences of accepted blocks *)
Section runs.
Context `{Crypto} `{Config} `{Node} `{Unicode}.

(** A run of [Process] over blocks that are all accepted; each step has its own
    time and may rotate the write cache. *)
Inductive processed : Ledger → list StateBlock → Ledger → Prop :=
| processed_nil l : processed l [] l
| processed_cons now tick l b l1 bs l2 :
    regular l b → Process now tick b l = Some (pass, l1) → processed l1 bs l2 →
    processed l (b :: bs) l2.

Lemma Process_regular now tick b l l' t :
  db_ok l → wf_view (lview l) → regular l b → Process now tick b l = Some (pass, l') →
  db_ok l' ∧ wf_view (lview l') ∧ supply t (lview l') = supply t (lview l).
Proof.
  intros Hok Hwf Hreg Hp. apply Process_pass in Hp as [Hpass Hp].
  apply BlockProcess_plain in Hp as [Hok' Heff]; [|by destruct Hreg|done|apply Hwf].
  split; [done|]. split; [by apply (regular_wf now l b)|by apply (regular_supply now l b)].
Qed.

(** C1: no sequence of accepted [regular] blocks creates or destroys tokens: the
    supply of every token, held plus pending, is unchanged, and the invariant of the
    tables is preserved.  A block is [regular] when it is a send, receive, open, change
    or online block, its balance fits in 64 bits, its hash is not on the list of
    blocks accepted without a check, and its account already has a chain for the token
    unless the block opens one.  Accepted blocks outside of these bounds do mint:
    [foreign_previous_mints] and [oversized_receive_mints]. *)
Theorem accepted_blocks_conserve_supply l bs l' :
  db_ok l → wf_view (lview l) → processed l bs l' →
  wf_view (lview l') ∧ ∀ t, supply t (lview l') = supply t (lview l).
Proof.
  intros Hok Hwf Hrun. induction Hrun as [l|now tick l b l1 bs l2 Hreg Hp _ IH]; [done|].
  destruct (Process_regular now tick b l l1 0 Hok Hwf Hreg Hp) as (Hok1 & Hwf1 & _).
  destruct (IH Hok1 Hwf1) as [Hwf2 Hs2]. split; [done|]. intros t. rewrite Hs2.
  by destruct (Process_regular now tick b l l1 t Hok Hwf Hreg Hp) as (_ & _ & ?).
Qed.

(** C38: the fork check does not compare the previous block with the account when the
    account has no chain for the token yet.  A send block of such an account on the
    previous block of somebody else, once accepted, mints the whole balance of that
    block. *)
Theorem foreign_previous_mints now tick b l l' previous x e :
  db_ok l → wf_view (lview l) → sb_Type b = Send → Bal.ok (sb_Balance b) →
  GetTokenMetaConfirmed l (sb_Address b) (sb_Token b) = Err e →
  GetStateBlockConfirmed l None (sb_Previous b) = Ok previous →
  sb_Balance previous = Some x → x < 2 ^ 64 →
  Process now tick b l = Some (pass, l') →
  supply (sb_Token b) (lview l') = supply (sb_Token b) (lview l) + x.
Proof.
  intros Hok Hwf Ht Hb Htm Hprev Hx Hlt Hp. apply Process_pass in Hp as [Hpass Hp].
  apply BlockProcess_plain in Hp as [_ Heff]; [|by unfold plain; rewrite Ht|done|apply Hwf].
  apply send_pass in Hpass as (Hn & _ & pre & Hpre & _ & (x' & y & Hx' & Hy & Hgt) & _); [|done].
  rewrite Hprev in Hpre. injection Hpre as <-. rewrite Hx in Hx'. injection Hx' as <-.
  apply not_confirmed in Hn; [|done]. pose proof Hb as Hb'. rewrite Hy in Hb'. cbn in Hb'.
  assert (Hd : pending_delta l b (sb_Token b) (if sb_Token b =? sb_Token b then x - y else 0)).
  { eapply send_delta; eauto; [cbn; lia|]. intros p Hp. congruence. }
  destruct (supply_plain now l b _ _ _ Hok Hwf (BalFacts.wire_ok _ Hb) Hn Heff Hd) as (am & tm & Ham & _ & ->).
  rewrite Z.eqb_refl, Hy. cbn [Bal.amount]. enough (opt_amount (sb_Token b) am = 0) by lia.
  unfold account_read, GetTokenMetaConfirmed, tokenOf in *. destruct am as [a|]; [|done].
  rewrite Ham in Htm. cbn in Htm |- *. unfold acct_amount.
  by destruct (AM.Token a (sb_Token b)).
Qed.

(** The receive check works on the low 64 bits of the balance.  An accepted receive
    block whose balance is [y] above a multiple [k] of 2^64, where [y] is what the
    account may hold after the transfer, mints exactly that multiple. *)
Theorem oversized_receive_mints now tick b l l' y k :
  db_ok l → wf_view (lview l) → sb_Type b = Receive → SB.GetHash b ∉ l_verifiedData l →
  sb_Balance b = Some (y + k * 2 ^ 64) → 0 ≤ y < 2 ^ 64 → 0 ≤ k →
  Process now tick b l = Some (pass, l') →
  supply (sb_Token b) (lview l') = supply (sb_Token b) (lview l) + k * 2 ^ 64.
Proof.
  intros Hok Hwf Ht Hv Hb Hy Hk Hp. apply Process_pass in Hp as [Hpass Hp].
  apply BlockProcess_plain in Hp as [_ Heff]; [|by unfold plain; rewrite Ht|done|apply Hwf].
  apply (BlockCheck_pass l b receiveBlockCheck) in Hpass; [|by rewrite Ht|done].
  apply receive_pass in Hpass
    as (Hn & _ & _ & previous & Hprev & Hhead & _ & p & tm & a & Hpf & Htm & Hsub & Ha); [|done].
  apply not_confirmed in Hn; [|done].
  assert (Hw : Bal.wire (sb_Balance b) = sb_Balance b) by (rewrite Hb, BalFacts.wire_amount; cbn; f_equal; lia).
  destruct (supply_plain now l b _ (sb_Token b) _ Hok Hwf Hw Hn Heff
    (receive_delta l b (sb_Token b) p a Hok (or_introl Ht) Hpf Ha)) as (am & tm' & Ham & _ & ->).
  rewrite Z.eqb_refl. destruct (head_balance l b previous am tm) as (Hbal & _ & ->); [done..|].
  destruct Hpf as [Hget _]. apply GetPending_Ok in Hget; [|done].
  destruct (wv_pending _ Hwf _ _ Hget) as (p' & [= <-] & _ & Hpos & _). rewrite Ha in Hpos. cbn in Hpos.
  destruct (tm_Balance tm) as [z|]; [|done]. rewrite Hb in Hsub |- *. cbn [Bal.amount Bal.ok] in *.
  rewrite <- (Z.mod_small y (2 ^ 64)) in Hsub by done.
  assert (Hu : Bal.Uint64 (y mod 2 ^ 64 + k * 2 ^ 64) = Bal.Uint64 y).
  { unfold Bal.Uint64. rewrite Z.mod_small, !Z.abs_eq by lia. unfold u64. by rewrite Z.mod_add. }
  unfold Bal.Sub in Hsub. rewrite Hu in Hsub. change (Bal.Sub (Some y) (Some z) = Ok (Some a)) in Hsub.
  rewrite BalFacts.Sub_ok in Hsub by lia. injection Hsub as Ha'. destruct (Z.leb_spec z y); lia.
Qed.
End runs.
