(* ===== verification/Unconfirmed.v ===== *)
(** * Unconfirmed blocks

    A block is processed into the unconfirmed tables before consensus confirms it.
    The file proves what [BlockCacheProcess] records and that it leaves the confirmed
    tables alone, and how [GetAccountMeta] merges the two views of an account. *)

From S2P Require Import Prelude Types Cache Storage Ledger LedgerFacts Contract GoBytes Check.
From S2P Require Import Process ProcessFacts Supply.

Section merge.
Context `{Crypto} `{Config}.

(** The meta with more blocks; the unconfirmed one when they have equally many. *)
Definition newer (unconfirmed confirmed : option TokenMeta) : option TokenMeta :=
  match unconfirmed, confirmed with
  | Some u, Some c => if tm_BlockCount u <? tm_BlockCount c then Some c else Some u
  | Some u, None => Some u
  | None, c => c
  end.

Lemma Token_mergeToken meta am v t :
  AM.Token (mergeToken meta am v) t =
  if tm_Type v =? t then newer (AM.Token am t) (Some v) else AM.Token am t.
Proof.
  unfold mergeToken. destruct (AM.Token am (tm_Type v)) as [temp|] eqn:E.
  - destruct (_ <? _) eqn:Hlt.
    + match goal with |- AM.Token (if _ then ?x else ?y) t = _ =>
        assert (Hf : AM.Token x t = AM.Token y t) by done end.
      destruct (tm_Type temp =? ChainToken); rewrite ?Hf; clear Hf; unfold AM.Token; cbn [AM.with_tokens am_Tokens].
      all: pose proof (AMFacts.find_token_Type _ _ _ E) as Hty.
      all: rewrite (AMFacts.update_token_const _ _ _ v) by done.
      all: destruct (Z.eqb_spec (tm_Type v) t) as [<-|]; [|done]; unfold AM.Token in E; rewrite E; cbn; by rewrite Hlt.
    + destruct (Z.eqb_spec (tm_Type v) t) as [<-|]; [|done]. rewrite E. cbn. by rewrite Hlt.
  - unfold AM.Token in *; cbn [AM.with_tokens am_Tokens]. rewrite AMFacts.find_token_app. cbn [AM.find_token].
    destruct (Z.eqb_spec (tm_Type v) t) as [<-|].
    + by rewrite E.
    + by destruct (AM.find_token (am_Tokens am) t).
Qed.

Lemma Token_merged meta vs am t :
  NoDup (tm_Type <$> vs) →
  AM.Token (foldl (mergeToken meta) am vs) t = newer (AM.Token am t) (AM.find_token vs t).
Proof.
  revert am. induction vs as [|v vs IH]; intros am Hnd; cbn [foldl AM.find_token].
  - by destruct (AM.Token am t).
  - rewrite fmap_cons in Hnd; apply list.NoDup_cons in Hnd as [Hni Hnd]. rewrite IH, Token_mergeToken by done.
    destruct (Z.eqb_spec (tm_Type v) t) as [<-|Hne]; [|done].
    rewrite (proj2 (AMFacts.find_token_None vs (tm_Type v))) by done.
    by destruct (newer (AM.Token am (tm_Type v)) (Some v)).
Qed.
End merge.

Section process.
Context `{Crypto} `{Config} `{Node} `{Unicode}.
Implicit Types (l : Ledger) (b : StateBlock).

(** The merged account is the newer of the two on every chain.  When both an
    unconfirmed and a confirmed account exist, [GetTokenMeta] answers with the meta
    that has more blocks, the unconfirmed one when they have equally many. *)
Theorem merged_token_is_newer l a am meta t :
  GetAccountMeteCache l ∅ a = Ok am → GetAccountMetaConfirmed l None a = Ok meta →
  NoDup (tm_Type <$> am_Tokens meta) →
  GetTokenMeta l a t =
  match newer (AM.Token am t) (AM.Token meta t) with Some tm => Ok tm | None => Err ErrTokenNotFound end.
Proof.
  intros Hu Hc Hnd. unfold GetTokenMeta, GetAccountMeta, tokenOf. rewrite Hu, Hc. cbn [mbind res_bind].
  by rewrite Token_merged.
Qed.

(** ** Processing *)
Definition unconfirmed_key (k : Key) : bool :=
  match k with KBlockCache _ | KBlockCacheAccount _ => true | _ => false end.

(** The store after a transaction that touched unconfirmed records only. *)
Lemma lview_store (lc : MemoryCache Key Value) (st st' : gmap Key Value) k :
  ring_ok lc → st' !! k = st !! k → Cache.view lc st' !! k = Cache.view lc st !! k.
Proof.
  intros Hok Hst. rewrite <- !MC_lookup_view by done. unfold MC_lookup. by rewrite Hst.
Qed.

(** The account is stored under its own address. *)
Definition addressed l (a : Address) : Prop :=
  ∀ am, GetAccountMeta l None a = Ok am → am_Address am = a.

Definition cached_account now b (am : option AccountMeta) : AccountMeta :=
  match am with Some a => nextAccount now b a | None => newAccount now b end.

Lemma cached_account_Address now b am :
  (∀ a, am = Some a → am_Address a = sb_Address b) → am_Address (cached_account now b am) = sb_Address b.
Proof.
  intros Ha. destruct am as [a|]; cbn.
  - unfold nextAccount. destruct (AM.Token _ _); cbn; rewrite withCoins_Address; auto.
  - unfold newAccount. by rewrite withCoins_Address.
Qed.

Lemma cached_account_Token now b am :
  ∃ tm, AM.Token (cached_account now b am) (sb_Token b) = Some tm ∧ tm_Header tm = SB.GetHash b ∧
    tm_Representative tm = sb_Representative b ∧ tm_Balance tm = sb_Balance b.
Proof.
  destruct am as [a|]; cbn; [|exists (newTokenMeta now b); by rewrite newAccount_Token].
  rewrite Token_nextAccount, Z.eqb_refl. eexists. split; [done|]. by destruct (AM.Token a (sb_Token b)).
Qed.

Lemma writeBlockCache_run now b am l :
  (∀ a, am = Some a → am_Address a = sb_Address b) → l_store l !! KBlockCache (SB.GetHash b) = None →
  (am = None → l_store l !! KBlockCacheAccount (sb_Address b) = None) →
  BatchWrite (writeBlockCache now b am) l =
  (Ok tt, set_store l (<[KBlockCacheAccount (sb_Address b) := VAccount (AM.wire (cached_account now b am))]>
     (<[KBlockCache (SB.GetHash b) := VBlock (SB.wire b)]> (l_store l)))).
Proof.
  intros Ha Hnb Hna. pose proof (cached_account_Address now b am Ha) as Haddr.
  unfold BatchWrite, writeBlockCache, AddBlockCache, updateAccountMetaCache, wrapM, getS.
  unfold mbind, M_bind. cbn [ls_txn ls_led]. unfold txn_Get at 1. rewrite lookup_empty, Hnb.
  unfold txn_Put at 1, modifyS. cbn [ls_txn ls_led set_txn].
  assert (Hput : (match am with
    | Some a => AddOrUpdateAccountMetaCache (nextAccount now b a)
    | None => AddAccountMetaCache (newAccount now b) end)
      (set_txn (mkLS l ∅ ∅) (Cache_Put ∅ (KBlockCache (SB.GetHash b)) (VBlock (SB.wire b)))) =
    txn_Put (KBlockCacheAccount (sb_Address b)) (VAccount (AM.wire (cached_account now b am)))
      (set_txn (mkLS l ∅ ∅) (Cache_Put ∅ (KBlockCache (SB.GetHash b)) (VBlock (SB.wire b))))).
  { rewrite <- Haddr. destruct am as [a|]; [done|]. unfold AddAccountMetaCache, getS, mbind, M_bind.
    unfold txn_Get, Cache_Put. cbn [set_txn ls_txn ls_led cached_account] in *.
    rewrite lookup_insert_ne, lookup_empty, Haddr, Hna by done. done. }
  rewrite Hput. unfold txn_Put, PutBatch, Cache_Put, modifyS. cbn [set_txn ls_txn ls_led ls_bat].
  by rewrite !overlay_insert_Val, overlay_empty.
Qed.

(** An unconfirmed block touches the unconfirmed tables only.  For a block not yet
    recorded, [BlockCacheProcess] succeeds; afterwards the block is found among the
    unconfirmed blocks, its chain in the unconfirmed account has it as head with its
    representative and balance, and every confirmed record reads as before. *)
Theorem unconfirmed_block_recorded now b l :
  db_ok l → addressed l (sb_Address b) → HasBlockCache l (SB.GetHash b) = false →
  (∃ a, GetAccountMeta l None (sb_Address b) = Ok a) ∨
  (l_store l !! KBlockCacheAccount (sb_Address b) = None ∧ lview l !! KAccount (sb_Address b) = None) →
  ∃ l', BlockCacheProcess now b l = (Ok tt, l') ∧
    GetBlockCache l' (SB.GetHash b) = Ok (SB.wire b) ∧
    (∃ a tm, GetAccountMeteCache l' ∅ (sb_Address b) = Ok a ∧ AM.Token a (sb_Token b) = Some tm ∧
      tm_Header tm = SB.GetHash b ∧ tm_Representative tm = sb_Representative b ∧
      tm_Balance tm = Bal.wire (sb_Balance b)) ∧
    ∀ k, unconfirmed_key k = false → lview l' !! k = lview l !! k.
Proof.
  intros Hok Haddr Hnb Hacc.
  assert (Hb : l_store l !! KBlockCache (SB.GetHash b) = None).
  { unfold HasBlockCache, store_Has in Hnb. by destruct (l_store l !! _). }
  assert (Ham : ∃ am, (match GetAccountMeta l None (sb_Address b) with
      | Ok am => (Ok (Some am), l) | Err ErrAccountNotFound => (Ok None, l)
      | Err _ => (Err (Errorf "get account meta cache error: %s"), l) | Panic => (Panic, l) end
      : res (option AccountMeta) * Ledger) = (Ok am, l) ∧
    (∀ a, am = Some a → am_Address a = sb_Address b) ∧
    (am = None → l_store l !! KBlockCacheAccount (sb_Address b) = None)).
  { destruct Hacc as [[a Ha]|[Hu Hc]].
    - exists (Some a). rewrite Ha. split_and!; [done| |done]. intros ? [= <-]. by apply Haddr.
    - exists None. rewrite <- fetch_lview in Hc by done.
      unfold GetAccountMeta, GetAccountMeteCache, txn_Get, GetAccountMetaConfirmed.
      rewrite lookup_empty, Hu. by destruct (fetch l None _). }
  destruct Ham as (am & Hread & Ha & Hn). pose proof (writeBlockCache_run now b am l Ha Hb Hn) as Hw.
  eexists. split_and!.
  - unfold BlockCacheProcess. unfold mbind at 1, M_bind at 1. rewrite Hread.
    unfold mbind, M_bind. rewrite Hw. unfold modifyS. reflexivity.
  - unfold GetBlockCache. cbn [add_event set_store l_store]. by rewrite lookup_insert_ne, lookup_insert_eq by done.
  - destruct (cached_account_Token now b am) as (tm & Ht & Hh & Hr & Hbal).
    exists (AM.wire (cached_account now b am)), (AM.tm_wire tm). split_and!; [| |done..|].
    + unfold GetAccountMeteCache, txn_Get. rewrite lookup_empty. cbn [add_event set_store l_store].
      by rewrite lookup_insert_eq.
    + unfold AM.Token, AM.wire. cbn [am_Tokens]. rewrite AMFacts.find_token_fmap by done.
      unfold AM.Token in Ht. by rewrite Ht.
    + unfold AM.tm_wire. cbn -[Bal.wire]. by rewrite Hbal.
  - intros k Hk. apply (lview_store (l_cache l)); [done|]. cbn [add_event set_store l_store].
    rewrite !lookup_insert_ne; [done|by intros <-..].
Qed.
End process.
