(* ===== verification/Weights.v ===== *)
(** * Delegated weights

    A representative votes with the coins of the accounts that name it.  The
    representation table keeps six sums per representative: the coin balance, the
    four weight fields and their total.  The file proves that accepted blocks keep
    every recorded sum equal to what the accounts delegate. *)

From S2P Require Import Prelude Types Cache Storage Ledger LedgerFacts Contract GoBytes Check.
From S2P Require Import Process ProcessFacts Supply.

(** ** The fields of a weight *)
Inductive field := FBalance | FVote | FNetwork | FStorage | FOracle | FTotal.

Definition bn_field (F : field) (b : Benefit) : Balance :=
  match F with
  | FBalance => bn_Balance b | FVote => bn_Vote b | FNetwork => bn_Network b
  | FStorage => bn_Storage b | FOracle => bn_Oracle b | FTotal => bn_Total b
  end.

(** The four weight fields of an account and of a block. *)
Definition stake (am : AccountMeta) : list Balance :=
  [am_CoinVote am; am_CoinNetwork am; am_CoinStorage am; am_CoinOracle am].

Definition block_stake (b : StateBlock) : list Balance :=
  [SB.GetVote b; SB.GetNetwork b; SB.GetStorage b; SB.GetOracle b].

Definition staked (am : AccountMeta) : Z := foldr (λ x n, Bal.amount x + n) 0 (stake am).

(** What an account contributes to each field. *)
Definition am_field (F : field) (am : AccountMeta) : Z :=
  match F with
  | FBalance => Bal.amount (am_CoinBalance am) | FVote => Bal.amount (am_CoinVote am)
  | FNetwork => Bal.amount (am_CoinNetwork am) | FStorage => Bal.amount (am_CoinStorage am)
  | FOracle => Bal.amount (am_CoinOracle am)
  | FTotal => Bal.amount (am_CoinBalance am) + staked am
  end.

Section weights.
Context `{Crypto} `{Config} `{Node} `{Unicode}.
Implicit Types (v w : gmap Key Value) (l : Ledger) (b : StateBlock).

(** ** Sums over the accounts *)
Definition acct_entry (g : AccountMeta → Z) (k : Key) (x : Value) : Z :=
  match k, x with KAccount _, VAccount am => g am | _, _ => 0 end.

Definition acct_sum (g : AccountMeta → Z) v : Z := map_sum (acct_entry g) v.

Definition is_KAccount (k : Key) : bool := match k with KAccount _ => true | _ => false end.

(** The account's coins are delegated to [a]. *)
Definition delegates (a : Address) (am : AccountMeta) : bool :=
  match AM.Token am ChainToken with Some tm => tm_Representative tm =? a | None => false end.

Definition delegation (F : field) (a : Address) (am : AccountMeta) : Z :=
  if delegates a am then am_field F am else 0.

Definition delegated (F : field) (a : Address) v : Z := acct_sum (delegation F a) v.

(** Weight fields of the accounts with a chain for the coin. *)
Definition stake_entry (am : AccountMeta) : Z :=
  match AM.Token am ChainToken with Some _ => staked am | None => 0 end.

(** All coins: held, pending, and staked in the four weight fields. *)
Definition coins v : Z := supply ChainToken v + acct_sum stake_entry v.

(** ** The invariant *)
Definition coin_ok v (am : AccountMeta) : Prop :=
  ∀ tm, AM.Token am ChainToken = Some tm →
    am_CoinBalance am = tm_Balance tm ∧ Forall (λ x, ∃ n, x = Some n ∧ 0 ≤ n) (stake am) ∧
    ∃ b, v !! KBlock (tm_Header tm) = Some (VBlock b) ∧ block_stake b = stake am.

Definition coins_ok v : Prop := ∀ a am, v !! KAccount a = Some (VAccount am) → coin_ok v am.

(** Every recorded sum is the delegated one.  The zero address is left out: weight
    is added to it but never taken from it. *)
Definition weights_ok v : Prop :=
  ∀ a F, a ≠ 0 → bn_field F (rep_of v a) = Some (delegated F a v).

(** ** Sums *)
Lemma acct_sum_insert_other g v k x : is_KAccount k = false → acct_sum g (<[k:=x]> v) = acct_sum g v.
Proof.
  intros Hk. unfold acct_sum. rewrite map_sum_insert. unfold entry_sum.
  destruct k; try done; cbn [acct_entry]; destruct (v !! _); lia.
Qed.

Lemma acct_sum_delete_other g v k : is_KAccount k = false → acct_sum g (delete k v) = acct_sum g v.
Proof.
  intros Hk. unfold acct_sum. rewrite map_sum_delete_any. unfold entry_sum.
  destruct k; try done; cbn [acct_entry]; destruct (v !! _); lia.
Qed.

Lemma acct_sum_block_write g b v : acct_sum g (block_write b v) = acct_sum g v.
Proof.
  unfold block_write, link_write, child_write. rewrite acct_sum_insert_other by done.
  assert (Hc : acct_sum g (if has_parent b then <[KChild (SB.Parent b):=VHash (SB.GetHash b)]> v else v) = acct_sum g v)
    by (destruct (has_parent b); [by apply acct_sum_insert_other|done]).
  destruct (sb_Type b); try done; by rewrite acct_sum_insert_other.
Qed.

Lemma acct_sum_frontier g b tm v : acct_sum g (frontier_effect b tm v) = acct_sum g v.
Proof.
  unfold frontier_effect. destruct tm; rewrite acct_sum_insert_other by done; [|done].
  by apply acct_sum_delete_other.
Qed.

Lemma acct_sum_pending g l b f v : pending_effect l b f → acct_sum g (f v) = acct_sum g v.
Proof.
  unfold pending_effect. destruct (sb_Type b); try (by intros ->).
  - intros (? & ? & _ & _ & ->). by apply acct_sum_insert_other.
  - intros [(? & _ & ->)|(_ & ->)]; [by apply acct_sum_delete_other|done].
  - intros [(? & _ & ->)|(_ & ->)]; [by apply acct_sum_delete_other|done].
Qed.

Lemma acct_sum_rep g v v' : rep_writes v v' → acct_sum g v' = acct_sum g v.
Proof. intros Hr. induction Hr as [|v' a b _ IH]; [done|]. by rewrite acct_sum_insert_other. Qed.

Variable now : Z.

Definition opt_sum (g : AccountMeta → Z) (am : option AccountMeta) : Z :=
  match am with Some a => g a | None => 0 end.

(** A plain block replaces one account. *)
Lemma acct_sum_plain g l b am tm f v v' :
  pending_effect l b f → rep_effect b am tm (chain_writes now b am tm f v) v' →
  (∀ a, am = Some a → am_Address a = sb_Address b) →
  v !! KAccount (sb_Address b) = VAccount <$> am →
  acct_sum g v' = acct_sum g v - opt_sum g am + g (AM.Clone (account_next now b am)).
Proof.
  intros Hf Hrep Haddr Hv. rewrite (acct_sum_rep g _ v' (rep_effect_writes _ _ _ _ _ Hrep)).
  unfold chain_writes, account_effect. rewrite account_next_Address by done.
  unfold acct_sum at 1. rewrite map_sum_insert. cbn [acct_entry].
  match goal with |- map_sum _ ?w - _ + _ = _ => change (map_sum (acct_entry g) w) with (acct_sum g w) end.
  unfold history at 1. rewrite !acct_sum_insert_other by done.
  rewrite acct_sum_frontier, (acct_sum_pending g l b f), acct_sum_block_write by done.
  unfold entry_sum, history. other_key.
  rewrite frontier_effect_other, (pending_effect_other l b f), block_write_other by done.
  rewrite Hv. destruct am; cbn; lia.
Qed.

(** ** The account after a block *)
Lemma next_coin b am :
  sb_Token b = ChainToken →
  let a' := AM.Clone (account_next now b am) in
  am_CoinBalance a' = sb_Balance b ∧ stake a' = block_stake b ∧
  ∃ tm, AM.Token a' ChainToken = Some tm ∧ tm_Representative tm = sb_Representative b ∧
    tm_Header tm = SB.GetHash b ∧ tm_Balance tm = Bal.wire (sb_Balance b).
Proof.
  intros Ht a'. unfold a'. rewrite AMFacts.Token_Clone. destruct am as [a|]; cbn [account_next].
  - rewrite Token_nextAccount, Ht, Z.eqb_refl. unfold nextAccount, withCoins. rewrite Ht, Z.eqb_refl.
    split_and!; [by destruct (AM.Token (AM.Clone a) ChainToken)..|].
    eexists. split; [done|]. by destruct (AM.Token (AM.Clone a) ChainToken).
  - pose proof (newAccount_Token now b) as Hn. rewrite Ht in Hn. rewrite Hn. unfold newAccount, withCoins. rewrite Ht, Z.eqb_refl.
    split_and!; [done..|]. eexists. split; [done|]. done.
Qed.

Lemma next_other b am :
  sb_Token b ≠ ChainToken → (∀ a, am = Some a → AM.Clone a = a) →
  let a' := AM.Clone (account_next now b am) in
  AM.Token a' ChainToken = (am ≫= λ a, AM.Token a ChainToken) ∧
  (∀ a, am = Some a → am_CoinBalance a' = am_CoinBalance a ∧ stake a' = stake a).
Proof.
  intros Ht Hc a'. unfold a'. rewrite AMFacts.Token_Clone. apply Z.eqb_neq in Ht.
  destruct am as [a|]; cbn [account_next].
  - rewrite Hc, Token_nextAccount, Ht by done. cbn. rewrite <- AMFacts.Token_Clone, Hc by done.
    split; [done|]. intros ? [= <-]. unfold nextAccount, withCoins. rewrite Ht.
    by destruct (AM.Token a (sb_Token b)).
  - split; [|done]. unfold AM.Token, newAccount. rewrite withCoins_Tokens. cbn. by rewrite Ht.
Qed.

(** ** Arithmetic on benefits *)
Lemma Benefit_map2_fields f x d (p q r : field → Z) :
  (∀ F, bn_field F x = Some (p F)) → (∀ F, bn_field F d = Some (q F)) →
  (∀ F, f (Some (p F)) (Some (q F)) = Ok (Some (r F))) →
  ∃ y, Benefit_map2 f x d = Ok y ∧ ∀ F, bn_field F y = Some (r F).
Proof.
  intros Hx Hd Hf. unfold Benefit_map2.
  pose proof (Hx FBalance); pose proof (Hx FVote); pose proof (Hx FNetwork); pose proof (Hx FStorage);
    pose proof (Hx FOracle); pose proof (Hx FTotal).
  pose proof (Hd FBalance); pose proof (Hd FVote); pose proof (Hd FNetwork); pose proof (Hd FStorage);
    pose proof (Hd FOracle); pose proof (Hd FTotal).
  cbn [bn_field] in *. repeat (match goal with E : _ = Some _ |- _ => rewrite E; clear E end).
  rewrite !Hf. cbn. eexists. split; [done|]. by intros [].
Qed.

Lemma bn_field_Clone F x : bn_field F (Benefit_Clone x) = Bal.wire (bn_field F x).
Proof. by destruct F. Qed.

(** Coin fields that are set, not negative, and whose total has 64 bits. *)
Definition coin_fields (am : AccountMeta) : Prop :=
  (∃ n, am_CoinBalance am = Some n ∧ 0 ≤ n) ∧ Forall (λ x, ∃ n, x = Some n ∧ 0 ≤ n) (stake am) ∧
  am_field FTotal am < 2 ^ 64.

Lemma stake_nonneg am :
  Forall (λ x, ∃ n, x = Some n ∧ 0 ≤ n) (stake am) →
  ∃ n1 n2 n3 n4, am_CoinVote am = Some n1 ∧ am_CoinNetwork am = Some n2 ∧
    am_CoinStorage am = Some n3 ∧ am_CoinOracle am = Some n4 ∧
    0 ≤ n1 ∧ 0 ≤ n2 ∧ 0 ≤ n3 ∧ 0 ≤ n4.
Proof.
  unfold stake. rewrite !Forall_cons_iff.
  intros ((n1 & E1 & ?) & (n2 & E2 & ?) & (n3 & E3 & ?) & (n4 & E4 & ?) & _).
  exists n1, n2, n3, n4. done.
Qed.

Lemma am_field_le_total am F :
  (∃ n, am_CoinBalance am = Some n ∧ 0 ≤ n) → Forall (λ x, ∃ n, x = Some n ∧ 0 ≤ n) (stake am) →
  0 ≤ am_field F am ≤ am_field FTotal am.
Proof.
  intros (n & Hn & ?) (n1 & n2 & n3 & n4 & E1 & E2 & E3 & E4 & ?)%stake_nonneg. unfold am_field, staked in *. unfold stake in *.
  cbn [foldr]. rewrite Hn, E1, E2, E3, E4. destruct F; cbn [Bal.amount]; lia.
Qed.

Lemma addIf_small x y : 0 ≤ x → 0 ≤ y → x + y < 2 ^ 64 → SB.addIf (Some x) (Some y) = Ok (Some (x + y)).
Proof. intros. cbn [SB.addIf]. by apply BalFacts.Add_no_overflow. Qed.

Lemma accountBenefit_fields am :
  coin_fields am → ∃ y, accountBenefit am = Ok y ∧ ∀ F, bn_field F y = Some (am_field F am).
Proof.
  intros ((n & Hn & ?) & (n1 & n2 & n3 & n4 & E1 & E2 & E3 & E4 & ?)%stake_nonneg & Hb). unfold accountBenefit, AM.TotalBalance, AM.GetVote, AM.GetNetwork,
    AM.GetOracle, AM.GetStorage, AM.GetBalance. unfold am_field, staked, stake in *.
  cbn [foldr] in *. rewrite Hn, E1, E2, E3, E4 in *. cbn [Bal.amount] in *.
  unfold Bal.ZeroBalance. rewrite addIf_small by lia. cbn [mbind res_bind].
  do 4 (rewrite addIf_small by lia; cbn [mbind res_bind]).
  eexists. split; [done|]. intros []; cbn [bn_field Bal.orZero bn_Balance bn_Vote bn_Network
    bn_Storage bn_Oracle bn_Total]; try done. f_equal. lia.
Qed.

(** The benefit of a block is that of the account it leads to. *)
Lemma blockBenefit_fields b am :
  am_CoinBalance am = sb_Balance b → stake am = block_stake b → coin_fields am →
  ∃ y, blockBenefit b = Ok y ∧ ∀ F, bn_field F y = Some (am_field F am).
Proof.
  intros Hbal Hst ((n & Hn & ?) & (n1 & n2 & n3 & n4 & E1 & E2 & E3 & E4 & ?)%stake_nonneg & Hb).
  unfold am_field, staked in *. unfold stake, block_stake in *. injection Hst as V1 V2 V3 V4.
  rewrite Hbal in Hn. rewrite Hbal, Hn in *. cbn [foldr] in *.
  rewrite E1, E2, E3, E4 in *. cbn [Bal.amount] in *.
  assert (Ht : ∃ t, SB.TotalBalance b = Ok (Some t) ∧ t = n + (n1 + (n2 + (n3 + (n4 + 0))))).
  { unfold SB.TotalBalance. rewrite Hn. unfold SB.GetVote, SB.GetNetwork, SB.GetStorage, SB.GetOracle, Bal.orZero,
      Bal.ZeroBalance in *.
    assert (Hadd : ∀ x n' c, Some n' = match x with None => Some 0 | Some _ => x end →
       0 ≤ n' → 0 ≤ c → c + n' < 2 ^ 64 → SB.addIf (Some c) x = Ok (Some (c + n'))).
    { intros x n' c Hx ???. destruct x; simplify_eq; [by apply addIf_small|].
      cbn. do 2 f_equal. lia. }
    erewrite Hadd by (eauto || lia). cbn [mbind res_bind]. erewrite Hadd by (eauto || lia).
    cbn [mbind res_bind]. erewrite Hadd by (eauto || lia). cbn [mbind res_bind].
    erewrite Hadd by (eauto || lia). eexists. split; [done|]. lia. }
  destruct Ht as (t & Ht & ->). unfold blockBenefit. rewrite Ht. cbn [mbind res_bind].
  eexists. split; [done|]. unfold SB.GetBalance. rewrite Hn, <- V1, <- V2, <- V3, <- V4. by intros [].
Qed.

(** ** Coins bound every delegated sum *)
Lemma account_coins v a am :
  wf_view v → coins_ok v → v !! KAccount a = Some (VAccount am) →
  AM.Token am ChainToken = None ∨
  (∃ n, am_CoinBalance am = Some n ∧ 0 ≤ n) ∧ Forall (λ x, ∃ n, x = Some n ∧ 0 ≤ n) (stake am) ∧
  am_field FTotal am = acct_amount ChainToken am + stake_entry am.
Proof.
  intros Hwf Hc Hl. destruct (AM.Token am ChainToken) as [tm|] eqn:Et; [right|by left].
  destruct (wv_account _ Hwf _ _ Hl) as (am0 & [= <-] & (_ & _ & _ & Hall)).
  rewrite list.Forall_forall in Hall. destruct (Hall tm) as (Hb & _); [by eapply AMFacts.find_token_elem|].
  destruct (Hc _ _ Hl tm Et) as (Hbal & Hs & _). destruct (tm_Balance tm) as [n|] eqn:En; [|done].
  cbn in Hb. split; [exists n; split; [done|lia]|]. split; [done|].
  unfold acct_amount, stake_entry, am_field. by rewrite Et, Hbal, En.
Qed.

Lemma acct_sum_le_coins (g : AccountMeta → Z) v :
  wf_view v → coins_ok v →
  (∀ a am, v !! KAccount a = Some (VAccount am) → g am ≤ acct_amount ChainToken am + stake_entry am) →
  acct_sum g v ≤ coins v.
Proof.
  intros Hwf Hc Hg. unfold coins, acct_sum, supply. rewrite <- map_sum_plus. apply map_sum_le.
  intros k x Hl. unfold acct_entry, supply_entry. destruct k; try lia; destruct x; try lia.
  - by eapply Hg.
  - destruct (wv_pending _ Hwf _ _ Hl) as (p' & [= ->] & _ & ? & _). destruct (_ =? _); lia.
Qed.

Lemma delegation_bounds v a am F r :
  wf_view v → coins_ok v → v !! KAccount a = Some (VAccount am) →
  0 ≤ delegation F r am ≤ acct_amount ChainToken am + stake_entry am.
Proof.
  intros Hwf Hc Hl. unfold delegation, delegates.
  destruct (account_coins v a am Hwf Hc Hl) as [Et|(Hn & Hs & Ht)].
  - rewrite Et. unfold acct_amount, stake_entry. rewrite Et. lia.
  - rewrite <- Ht. assert (Hle : ∀ F, 0 ≤ am_field F am ≤ am_field FTotal am).
    { intros F'. by apply am_field_le_total. }
    pose proof (Hle F). pose proof (Hle FTotal). destruct (AM.Token am ChainToken) as [tm|]; [|lia].
    destruct (_ =? _); lia.
Qed.

Lemma delegated_bounds v F r : wf_view v → coins_ok v → 0 ≤ delegated F r v ≤ coins v.
Proof.
  intros Hwf Hc. split.
  - apply map_sum_nonneg. intros k x Hl. unfold acct_entry. destruct k; try lia; destruct x; try lia.
    by eapply delegation_bounds.
  - apply acct_sum_le_coins; [done..|]. intros a am Hl. by eapply delegation_bounds.
Qed.

Lemma delegation_le_delegated v a am F r :
  wf_view v → coins_ok v → v !! KAccount a = Some (VAccount am) → delegation F r am ≤ delegated F r v.
Proof.
  intros Hwf Hc Hl. apply (map_sum_le_entry (acct_entry (delegation F r)) v (KAccount a) (VAccount am)); [|done].
  intros k x Hl'. unfold acct_entry. destruct k; try lia; destruct x; try lia.
  by eapply delegation_bounds.
Qed.

(** ** Accepted blocks keep the weight fields *)
Lemma head_stake l b previous a tm :
  db_ok l → wf_view (lview l) → coins_ok (lview l) → sb_Token b = ChainToken →
  account_read l b (Some a) → AM.Token a ChainToken = Some tm →
  GetStateBlockConfirmed l None (sb_Previous b) = Ok previous → onHead l b previous →
  block_stake previous = stake a.
Proof.
  intros Hok Hwf Hc Ht Ham Htm Hprev Hhead.
  destruct (account_read_view l b (Some a) Hok Hwf Ham) as [Hva _].
  destruct (Hc _ _ Hva tm Htm) as (_ & _ & b1 & Hb1 & <-).
  unfold onHead, GetTokenMetaConfirmed, tokenOf in Hhead. cbn in Ham. rewrite Ham, Ht in Hhead.
  cbn in Hhead. rewrite Htm in Hhead.
  pose proof (block_read_view l _ previous Hok Hwf Hprev) as (b0 & Hl & _ & Hh & _).
  rewrite <- Hhead, Hh, Hl in Hb1. injection Hb1 as <-.
  apply GetStateBlockConfirmed_Ok in Hprev as (b1 & Hl' & Hp); [|done].
  rewrite bview_None, Hl in Hl'. injection Hl' as <-.
  destruct (wv_block _ Hwf _ _ Hl) as (b1 & [= <-] & Hcl & _).
  destruct Hp as [->|(f & r & p & ->)]; [by rewrite Hcl|done].
Qed.

(** The weight fields of an accepted coin block: those of its account, or zero
    when the block opens the chain. *)
Definition keeps_stake b (am : option AccountMeta) : Prop :=
  match am ≫= λ a, AM.Token a ChainToken with
  | Some _ => ∃ a, am = Some a ∧ block_stake b = stake a
  | None => block_stake b = [Some 0; Some 0; Some 0; Some 0]
  end.

Lemma sameWeights_stake previous b : sameWeights previous b → block_stake b = block_stake previous.
Proof. unfold sameWeights, block_stake. by intros (-> & -> & -> & ->). Qed.

Lemma accepted_stake l b am :
  db_ok l → wf_view (lview l) → coins_ok (lview l) → sb_Token b = ChainToken →
  regular l b → BlockCheck l b = pass → account_read l b am → keeps_stake b am.
Proof.
  intros Hok Hwf Hc Ht (Hp & _ & Hv & Hown) Hpass Ham.
  assert (Hcont : ∀ previous, sb_Type b ≠ Open →
    GetStateBlockConfirmed l None (sb_Previous b) = Ok previous → onHead l b previous →
    sameWeights previous b → keeps_stake b am).
  { intros previous Hno Hprev Hhead Hsame. destruct (Hown Hno) as [tm Htm].
    destruct (token_read_Ok l b am tm Ham Htm) as (a & -> & Ha). rewrite Ht in Ha.
    unfold keeps_stake; cbn. rewrite Ha. exists a. split; [done|].
    rewrite (sameWeights_stake previous b Hsame). by eapply head_stake. }
  unfold plain in Hp. destruct (sb_Type b) eqn:Hty; try done.
  - apply send_pass in Hpass as (_ & _ & previous & ? & ? & _ & ?); eauto.
  - apply (BlockCheck_pass l b receiveBlockCheck) in Hpass; [|by rewrite Hty|done].
    apply receive_pass in Hpass as (_ & _ & _ & previous & ? & ? & ? & _); eauto.
  - apply change_pass in Hpass as (_ & _ & _ & _ & previous & ? & ? & _ & ?); eauto.
  - apply (BlockCheck_pass l b openBlockCheck) in Hpass; [|by rewrite Hty|done].
    apply open_pass in Hpass as (_ & _ & _ & _ & (e & He) & _ & V1 & V2 & V3 & V4); [|done].
    unfold keeps_stake, block_stake. rewrite V1, V2, V3, V4.
    destruct am as [a|]; cbn; [|done]. unfold GetTokenMetaConfirmed, tokenOf in He. cbn in Ham.
    rewrite Ham, Ht in He. cbn in He. by destruct (AM.Token a ChainToken).
  - apply online_pass in Hpass as (_ & _ & _ & _ & previous & ? & ? & _ & ?); eauto.
Qed.

(** ** One accepted block *)
Section step.
Context (l : Ledger) (b : StateBlock) (v' : gmap Key Value).
Context (am : option AccountMeta) (tm : option TokenMeta) (f : gmap Key Value → gmap Key Value).
Context (Hok : db_ok l) (Hwf : wf_view (lview l)) (Hc : coins_ok (lview l)).
Context (Hreg : regular l b) (Hpass : BlockCheck l b = pass).
Context (Ham : account_read l b am) (Htm : token_read am b tm) (Hf : pending_effect l b f).
Context (Hrep : rep_effect b am tm (chain_writes now b am tm f (lview l)) v').

Definition next_account : AccountMeta := AM.Clone (account_next now b am).

Lemma step_sum g : acct_sum g v' = acct_sum g (lview l) - opt_sum g am + g next_account.
Proof.
  destruct (account_read_view l b am Hok Hwf Ham) as [Hva Hacc].
  eapply acct_sum_plain; eauto. intros a Ha. by destruct (Hacc a Ha).
Qed.

Lemma step_closed a : am = Some a → AM.Clone a = a.
Proof. destruct (account_read_view l b am Hok Hwf Ham) as [_ Hacc]. intros Ha. apply (Hacc a Ha). Qed.

(** A block of another token leaves the coins of the account alone. *)
Lemma step_other_token (g : AccountMeta → Z) :
  sb_Token b ≠ ChainToken →
  (∀ a, AM.Token a ChainToken = None → g a = 0) →
  (∀ a1 a2, AM.Token a1 ChainToken = AM.Token a2 ChainToken → am_CoinBalance a1 = am_CoinBalance a2 →
     stake a1 = stake a2 → g a1 = g a2) →
  g next_account = opt_sum g am.
Proof.
  intros Ht Hnone Heq. destruct (next_other b am Ht step_closed) as [Htok Hfields].
  change (AM.Clone (account_next now b am)) with next_account in *.
  destruct am as [a|]; cbn [opt_sum mbind option_bind] in *; [|by apply Hnone].
  destruct (Hfields a eq_refl). by apply Heq.
Qed.

Lemma step_stake : stake_entry next_account = opt_sum stake_entry am.
Proof.
  destruct (decide (sb_Token b = ChainToken)) as [Ht|Ht].
  - destruct (next_coin b am Ht) as (_ & Hst & tm' & Htok & _).
    pose proof (accepted_stake l b am Hok Hwf Hc Ht Hreg Hpass Ham) as Hk.
    unfold stake_entry at 1, next_account. rewrite Htok. unfold staked. rewrite Hst. unfold keeps_stake in Hk.
    destruct am as [a|]; cbn [opt_sum mbind option_bind] in *; [|by rewrite Hk].
    unfold stake_entry, staked. destruct (AM.Token a ChainToken); [|by rewrite Hk].
    by destruct Hk as (? & [= <-] & ->).
  - apply step_other_token; [done|intros a Ha; unfold stake_entry; by rewrite Ha|].
    intros a1 a2 H1' _ H2'. unfold stake_entry, staked. by rewrite H1', H2'.
Qed.

Lemma step_coins : coins v' = coins (lview l).
Proof.
  unfold coins. rewrite step_sum, step_stake.
  rewrite (regular_supply now l b v' ChainToken); [lia|done..|]. exists am, tm, f. done.
Qed.

Lemma step_keeps_block h x : lview l !! KBlock h = Some x → v' !! KBlock h = Some x.
Proof.
  intros Hl. rewrite (plain_lookup_block now l b am tm f _ v' h Hf Hrep).
  pose proof (regular_fresh l b Hok Hreg Hpass).
  destruct (decide (SB.GetHash b = h)) as [<-|]; congruence.
Qed.

Lemma coin_ok_mono v (a : AccountMeta) :
  (∀ h x, v !! KBlock h = Some x → v' !! KBlock h = Some x) → coin_ok v a → coin_ok v' a.
Proof.
  intros Hm Ha t Ht. destruct (Ha t Ht) as (? & ? & b0 & ? & ?). split_and!; [done..|]. eauto.
Qed.

(** The weight fields of an accepted coin block are amounts. *)
Lemma step_stake_nonneg :
  sb_Token b = ChainToken → Forall (λ x, ∃ n, x = Some n ∧ 0 ≤ n) (block_stake b).
Proof.
  intros Ht. pose proof (accepted_stake l b am Hok Hwf Hc Ht Hreg Hpass Ham) as Hk. unfold keeps_stake in Hk.
  destruct am as [a|] eqn:Ea; cbn in Hk.
  - destruct (AM.Token a ChainToken) as [t|] eqn:Et.
    + destruct Hk as (? & [= <-] & ->). destruct (account_read_view l b _ Hok Hwf Ham) as [Hva _].
      by destruct (Hc _ _ Hva t Et) as (_ & ? & _).
    + rewrite Hk. repeat constructor; by exists 0.
  - rewrite Hk. repeat constructor; by exists 0.
Qed.

Lemma block_stake_Clone :
  Forall (λ x, ∃ n, x = Some n ∧ 0 ≤ n) (block_stake b) → block_stake (SB.Clone b) = block_stake b.
Proof.
  assert (Hw : ∀ x, (∃ n, Bal.orZero x = Some n ∧ 0 ≤ n) → Bal.orZero (Bal.wire x) = Bal.orZero x).
  { intros x (n & Hn & ?). rewrite BalFacts.wire_amount. cbn. rewrite Hn. f_equal.
    rewrite <- (BalFacts.orZero_amount x), Hn. cbn. lia. }
  unfold block_stake, SB.GetVote, SB.GetNetwork, SB.GetStorage, SB.GetOracle. rewrite !Forall_cons_iff.
  intros (? & ? & ? & ? & _). cbn -[Bal.wire]. by rewrite !Hw.
Qed.

Lemma step_coins_ok : coins_ok v'.
Proof.
  pose proof step_keeps_block as Hm.
  intros a x. rewrite (plain_lookup_account now l b am tm f _ v' a Hf Hrep).
  destruct (account_read_view l b am Hok Hwf Ham) as [Hva Hacc].
  rewrite account_next_Address by (intros a0 Ha0; by destruct (Hacc a0 Ha0)).
  destruct (decide (sb_Address b = a)) as [<-|].
  2: { intros Hl. eapply coin_ok_mono; [exact Hm|]. by eapply Hc. }
  intros [= <-]. destruct (decide (sb_Token b = ChainToken)) as [Ht|Ht].
  - pose proof (step_stake_nonneg Ht) as Hnn.
    destruct (next_coin b am Ht) as (Hbal & Hst & t & Htok & _ & Hhead & Htb).
    intros t' Ht'. rewrite Htok in Ht'. injection Ht' as <-. rewrite Hbal, Htb, Hst, Hhead.
    destruct Hreg as (_ & Hb & _). split_and!; [by rewrite BalFacts.wire_ok|done|].
    exists (SB.Clone b). split; [|by apply block_stake_Clone].
    by rewrite (plain_lookup_block now l b am tm f _ v' _ Hf Hrep), decide_True.
  - destruct (next_other b am Ht step_closed) as [Htok Hfields]. intros t Htk. rewrite Htok in Htk.
    destruct am as [a0|]; [|done]. cbn in Htk. destruct (Hfields a0 eq_refl) as [-> ->].
    eapply coin_ok_mono; [exact Hm| |exact Htk]. by eapply Hc.
Qed.

Lemma step_wf : wf_view v'.
Proof. eapply regular_wf; eauto. exists am, tm, f. done. Qed.

Lemma step_account : v' !! KAccount (sb_Address b) = Some (VAccount next_account).
Proof.
  rewrite (plain_lookup_account now l b am tm f _ v' _ Hf Hrep).
  destruct (account_read_view l b am Hok Hwf Ham) as [_ Hacc].
  rewrite account_next_Address by (intros a0 Ha0; by destruct (Hacc a0 Ha0)).
  by rewrite decide_True.
Qed.

Context (Hw : weights_ok (lview l)) (Hbound : coins (lview l) < 2 ^ 64).

Lemma rep_of_insert v r x a :
  rep_of (<[KRepresentation r := VBenefit x]> v) a = if decide (r = a) then x else rep_of v a.
Proof.
  unfold rep_of. destruct (decide (r = a)) as [->|]; [by rewrite lookup_insert_eq|].
  by rewrite lookup_insert_ne by congruence.
Qed.

(** Writing a changed sum for one representative. *)
Lemma rep_field_write v r y a F (n d : Z) :
  (a ≠ 0 → bn_field F (rep_of v a) = Some n) → (r = a → bn_field F y = Some (n + d)) →
  a ≠ 0 → (r = a → 0 ≤ n + d) →
  bn_field F (rep_of (<[KRepresentation r := VBenefit (Benefit_Clone y)]> v) a) =
  Some (n + if r =? a then d else 0).
Proof.
  intros Hn Hy Ha Hpos. rewrite rep_of_insert. destruct (decide (r = a)) as [Heq|Hne].
  - specialize (Hpos Heq). rewrite bn_field_Clone, (Hy Heq), BalFacts.wire_amount, Heq, Z.eqb_refl. cbn. f_equal. lia.
  - apply Z.eqb_neq in Hne. rewrite (Hn Ha), Hne. f_equal. lia.
Qed.

(** Taking the account's coins from its representative does not underflow. *)
Lemma sub_fields a0 t x old y F :
  am = Some a0 → AM.Token a0 ChainToken = Some t →
  (∀ F, bn_field F x = Some (delegated F (tm_Representative t) (lview l))) →
  accountBenefit a0 = Ok old → Benefit_map2 Bal.Sub x old = Ok y →
  bn_field F y = Some (delegated F (tm_Representative t) (lview l) - am_field F a0) ∧
  am_field F a0 ≤ delegated F (tm_Representative t) (lview l).
Proof.
  intros Ea Htok Hx Hold Hy. set (r := tm_Representative t) in *.
  destruct (account_read_view l b am Hok Hwf Ham) as [Hva _]. rewrite Ea in Hva.
  assert (Hin : ∀ F', delegation F' r a0 = am_field F' a0).
  { intros F'. unfold delegation, delegates. rewrite Htok. subst r. by rewrite Z.eqb_refl. }
  destruct (account_coins (lview l) _ a0 Hwf Hc Hva) as [Hnone|(Hn & Hst & _)]; [congruence|].
  pose proof (λ F', delegated_bounds (lview l) F' r Hwf Hc) as Hbd.
  pose proof (λ F', delegation_le_delegated (lview l) _ a0 F' r Hwf Hc Hva) as Hle.
  setoid_rewrite Hin in Hle.
  destruct (accountBenefit_fields a0) as (old' & Hold' & Hfo).
  { split_and!; [done..|]. pose proof (Hle FTotal). pose proof (Hbd FTotal). lia. }
  rewrite Hold in Hold'. injection Hold' as <-.
  destruct (Benefit_map2_fields Bal.Sub x old (λ F', delegated F' r (lview l))
    (λ F', am_field F' a0) (λ F', delegated F' r (lview l) - am_field F' a0)) as (y' & Hy' & Hfy);
    [done|done| |].
  { intros F'. pose proof (am_field_le_total a0 F' Hn Hst). pose proof (Hle F'). pose proof (Hbd F').
    apply BalFacts.Sub_no_underflow; lia. }
  rewrite Hy in Hy'. injection Hy' as <-. done.
Qed.

Lemma sub_stage_weights v1 v2 :
  sb_Token b = ChainToken → (∀ a, rep_of v1 a = rep_of (lview l) a) → sub_stage am tm v1 v2 →
  ∀ a F, a ≠ 0 →
    bn_field F (rep_of v2 a) = Some (delegated F a (lview l) - opt_sum (delegation F a) am).
Proof.
  pose proof sub_fields as Hsf. pose proof Htm as Htr. intros Ht Hv1 Hsub a F Ha.
  unfold token_read in Htr. unfold sub_stage in Hsub. rewrite Ht in Htr.
  assert (Hd : opt_sum (delegation F a) am =
    match tm, am with
    | Some t, Some a0 => if tm_Representative t =? a then am_field F a0 else 0
    | _, _ => 0
    end).
  { destruct am as [a0|]; [|by subst]. cbn [opt_sum]. unfold delegation, delegates. rewrite Htr. by destruct tm. }
  rewrite Hd. destruct tm as [t|], am as [a0|]; [|done|subst v2; rewrite Hv1, (Hw a F Ha); f_equal; lia..].
  unfold hash_IsZero in Hsub. destruct (Z.eqb_spec (tm_Representative t) 0) as [Hz|Hnz]; cbn [negb] in Hsub.
  { subst v2. rewrite Hv1, (Hw a F Ha), Hz. destruct (Z.eqb_spec 0 a); [done|]. f_equal. lia. }
  destruct Hsub as (old & y & Hold & Hy & ->).
  destruct (Hsf a0 t (rep_of v1 (tm_Representative t)) old y F) as [Hfy Hle]; [done|done| |done|done|].
  { intros F'. rewrite Hv1. by apply Hw. }
  rewrite (rep_field_write v1 _ y a F (delegated F a (lview l)) (- am_field F a0)).
  - destruct (_ =? _); f_equal; lia.
  - intros _. rewrite Hv1. by apply Hw.
  - intros <-. by rewrite Hfy.
  - done.
  - intros <-. lia.
Qed.

(** Giving the coins of the block to its representative does not overflow. *)
Lemma add_fields v2 new y F :
  (∀ a F, a ≠ 0 →
    bn_field F (rep_of v2 a) = Some (delegated F a (lview l) - opt_sum (delegation F a) am)) →
  sb_Token b = ChainToken → sb_Representative b ≠ 0 → blockBenefit b = Ok new →
  Benefit_map2 Bal.Add (rep_of v2 (sb_Representative b)) new = Ok y →
  bn_field F y = Some (delegated F (sb_Representative b) (lview l) -
    opt_sum (delegation F (sb_Representative b)) am + am_field F next_account).
Proof.
  intros Hv2 Ht Hr0 Hnew Hy. set (r := sb_Representative b) in *.
  destruct (next_coin b am Ht) as (Hbal & Hst & t & Htok & Hrp & _).
  change (AM.Clone (account_next now b am)) with next_account in *.
  assert (Hdn : ∀ F', delegation F' r next_account = am_field F' next_account).
  { intros F'. unfold delegation, delegates. by rewrite Htok, Hrp, Z.eqb_refl. }
  destruct (account_coins v' _ next_account step_wf step_coins_ok step_account)
    as [Hnone|(Hn & Hs & _)]; [congruence|].
  assert (Hbd : ∀ F', 0 ≤ am_field F' next_account ≤ delegated F' r v' ∧ delegated F' r v' < 2 ^ 64).
  { intros F'. pose proof (delegated_bounds v' F' r step_wf step_coins_ok) as Hbd.
    rewrite step_coins in Hbd. pose proof (am_field_le_total next_account F' Hn Hs).
    pose proof (delegation_le_delegated v' _ next_account F' r step_wf step_coins_ok step_account) as Hle.
    rewrite Hdn in Hle. lia. }
  assert (Hsum : ∀ F', delegated F' r v' =
    delegated F' r (lview l) - opt_sum (delegation F' r) am + am_field F' next_account).
  { intros F'. rewrite <- Hdn. apply step_sum. }
  destruct (blockBenefit_fields b next_account Hbal Hst) as (new' & Hnew' & Hfn).
  { split_and!; [done..|]. pose proof (Hbd FTotal). lia. }
  rewrite Hnew in Hnew'. injection Hnew' as <-.
  destruct (Benefit_map2_fields Bal.Add (rep_of v2 r) new
    (λ F', delegated F' r (lview l) - opt_sum (delegation F' r) am) (λ F', am_field F' next_account)
    (λ F', delegated F' r (lview l) - opt_sum (delegation F' r) am + am_field F' next_account))
    as (y' & Hy' & Hfy); [by intros; apply Hv2|done| |].
  { intros F'. pose proof (Hbd F'). pose proof (Hsum F'). apply BalFacts.Add_no_overflow; lia. }
  rewrite Hy in Hy'. injection Hy' as <-. apply Hfy.
Qed.

Lemma step_weights : weights_ok v'.
Proof.
  assert (Hv1 : ∀ a, rep_of (chain_writes now b am tm f (lview l)) a = rep_of (lview l) a).
  { intros a. unfold rep_of. by rewrite (chain_writes_rep now l). }
  intros a F Ha. pose proof (step_sum (delegation F a)) as Hsum.
  change (acct_sum (delegation F a)) with (delegated F a) in Hsum.
  pose proof (delegated_bounds v' F a step_wf step_coins_ok) as Hbd. rewrite step_coins in Hbd.
  pose proof Hrep as Hr. unfold rep_effect in Hr.
  destruct (Z.eqb_spec (sb_Token b) ChainToken) as [Ht|Ht].
  2: { rewrite Hsum, Hr, Hv1, (Hw a F Ha). f_equal. rewrite step_other_token; [lia|done|..].
       - intros a0 Hn. unfold delegation, delegates. by rewrite Hn.
       - intros a1 a2 E1 E2 E3. unfold delegation, delegates, am_field, staked. rewrite E1, E2, E3.
         unfold stake in E3. injection E3 as -> -> -> ->. done. }
  destruct Hr as (v2 & Hsub & (new & y & Hnew & Hy & Hv')).
  pose proof (sub_stage_weights _ v2 Ht Hv1 Hsub) as Hv2.
  destruct (next_coin b am Ht) as (Hbal & Hst & t & Htok & Hrp & _).
  change (AM.Clone (account_next now b am)) with next_account in *.
  assert (Hdn : ∀ F' r, delegation F' r next_account = if sb_Representative b =? r then am_field F' next_account else 0).
  { intros F' r. unfold delegation, delegates. by rewrite Htok, Hrp. }
  rewrite Hdn in Hsum. rewrite Hsum, Hv'.
  rewrite (rep_field_write v2 _ y a F (delegated F a (lview l) - opt_sum (delegation F a) am)
    (am_field F next_account)); [done|by intros; apply Hv2| |done|].
  2: { intros <-. rewrite Z.eqb_refl in Hsum. lia. }
  intros <-. apply (add_fields v2 new y F Hv2); done.
Qed.
End step.
End weights.

(** ** Sequences of accepted blocks *)
Section runs.
Context `{Crypto} `{Config} `{Node} `{Unicode}.

(** The weight the ledger reports is the recorded total. *)
Lemma Weight_rep_of l a :
  db_ok l → reps_ok (lview l) → Weight l a = Ok (bn_Total (rep_of (lview l) a)).
Proof.
  intros Hok Hr. unfold Weight, GetRepresentation, rep_of, reps_ok in *. specialize (Hr a).
  rewrite <- fetch_lview in * by done.
  destruct (fetch l None _) as [x|x|]; cbn [fetched_value] in *; [..|done];
    destruct (Hr x eq_refl) as (b & -> & Hcl); [by rewrite Hcl|done].
Qed.

(** Everything the weight theorem needs of a ledger. *)
Record weighed l : Prop := {
  wl_db : db_ok l;
  wl_wf : wf_view (lview l);
  wl_coins : coins_ok (lview l);
  wl_weights : weights_ok (lview l);
  wl_bound : coins (lview l) < 2 ^ 64;
}.

Lemma Process_weighed now tick b l l' :
  weighed l → regular l b → Process now tick b l = Some (pass, l') → weighed l'.
Proof.
  intros [Hok Hwf Hc Hw Hbd] Hreg Hp. apply Process_pass in Hp as [Hpass Hp].
  apply BlockProcess_plain in Hp as [Hok' (am & tm & f & Ham & Htm & Hf & Hrep)];
    [|by destruct Hreg|done|apply Hwf].
  split; [done|by apply (step_wf now l b _ am tm f)|by apply (step_coins_ok now l b _ am tm f)|
    by apply (step_weights now l b _ am tm f)|].
  rewrite (step_coins now l b (lview l') am tm f); done.
Qed.

Lemma processed_weighed l bs l' :
  weighed l → processed l bs l' → weighed l' ∧ coins (lview l') = coins (lview l).
Proof.
  intros Hl Hrun. induction Hrun as [l|now tick l b l1 bs l2 Hreg Hp _ IH]; [done|].
  destruct IH as [Hw2 Hc2]; [by eapply Process_weighed|]. split; [done|]. rewrite Hc2. clear Hw2 Hc2.
  destruct Hl as [Hok Hwf Hc Hw Hbd]. apply Process_pass in Hp as [Hpass Hp].
  apply BlockProcess_plain in Hp as [Hok' (am & tm & f & Ham & Htm & Hf & Hrep)];
    [|by destruct Hreg|done|apply Hwf].
  by apply (step_coins now l b (lview l1) am tm f).
Qed.

(** C3: voting weights are exact.  From a ledger whose tables are well formed, whose
    weights are exact and whose coins together fit in 64 bits, after any sequence of
    accepted [regular] blocks (plain blocks with a balance of 64 bits, of accounts
    that have a chain for the token unless they open one, not on the list of blocks
    accepted without a check) the weight the ledger reports for a representative is the
    sum of balance, vote, network, storage and oracle coins over exactly the accounts
    whose coin chain names it.  These blocks leave the total of all coins as it was. *)
Theorem reported_weights_are_delegated l bs l' a :
  weighed l → processed l bs l' → a ≠ 0 →
  Weight l' a = Ok (Some (delegated FTotal a (lview l'))) ∧
  coins (lview l') = coins (lview l).
Proof.
  intros Hl Hrun Ha. destruct (processed_weighed l bs l' Hl Hrun) as [[Hok Hwf _ Hw _] Hc]. split; [|done].
  rewrite Weight_rep_of by (done || apply Hwf). f_equal. by apply (Hw a FTotal).
Qed.
End runs.
