(* ===== verification/Progress.v ===== *)
(** * Accepted blocks are processed

    [BlockProcess] can fail in many places: a missing parent, frontier or
    representative, an existing child, a nil amount.  On a ledger that satisfies the
    invariants none of this happens for a block the checks accepted. *)

From S2P Require Import Prelude Types Cache Storage Ledger LedgerFacts Contract GoBytes Check.
From S2P Require Import Process ProcessFacts Supply Weights Chain.

Section progress.
Context `{Crypto} `{Config} `{Node} `{Unicode}.
Implicit Types (v w : gmap Key Value) (l : Ledger) (b : StateBlock) (s : LS).

(** Coin chains name recorded representatives; the cached pending amounts are set. *)
Definition reps_present v : Prop :=
  ∀ a tm, token_of v a ChainToken tm → is_Some (v !! KRepresentation (tm_Representative tm)).

Definition rcache_ok l : Prop := ∀ h x, l_rcache l !! h = Some x → is_Some x.

Record sound l : Prop := {
  so_db : db_ok l;
  so_wf : wf_view (lview l);
  so_chain : chain_ok (lview l);
  so_reps : reps_present (lview l);
  so_rcache : rcache_ok l;
}.

(** ** The cached pending amounts stay set *)
Definition rcache_ok_s s : Prop := rcache_ok (ls_led s).

Lemma keeps_bat_Put k x : keeps rcache_ok_s (bat_Put k x).
Proof. by intros s r s' Hs [= <- <-]. Qed.

Lemma keeps_bat_Delete k : keeps rcache_ok_s (bat_Delete k).
Proof. by intros s r s' Hs [= <- <-]. Qed.

Lemma keeps_rcache key info add : keeps rcache_ok_s (rcache_UpdateAccountPending key info add).
Proof.
  intros s r s' Hs. unfold rcache_UpdateAccountPending, getS. unfold mbind at 1, M_bind at 1.
  destruct (l_rcache _ !! _) as [amount|]; [|by intros [= <- <-]].
  unfold mbind, M_bind, liftR, modifyS. destruct (if add then _ else _) as [x|e|] eqn:E; intros [= <- <-]; [|done..].
  intros h y. cbn [ls_led set_led set_rcache l_rcache]. rewrite lookup_insert_Some.
  intros [[_ <-]|[_ Hl]]; [|by eapply Hs]. assert (Hx : Bal.ok x).
  { destruct add; [by eapply BalFacts.Add_range|by eapply BalFacts.Sub_range]. }
  destruct x; [eauto|done].
Qed.

#[local] Hint Resolve keeps_bat_Put keeps_bat_Delete keeps_rcache : keeps.

(** Split a program into its binds and branches. *)
Ltac keeps_tac :=
  repeat first
    [ match goal with |- keeps _ (_ ≫= _) => apply keeps_bind; [|intros ?] end
    | match goal with |- keeps _ (wrapM _ _) => apply keeps_wrapM end
    | match goal with |- keeps _ (match ?x with _ => _ end) => destruct x end ];
  eauto with keeps.

Lemma keeps_UpdateStateBlock b : keeps rcache_ok_s (UpdateStateBlock b).
Proof. unfold UpdateStateBlock, setStateBlock, setBlockChild, setBlockLink. keeps_tac. Qed.

Lemma keeps_updatePending b : keeps rcache_ok_s (updatePending b).
Proof. unfold updatePending, addPendingOpt, AddPending, DeletePending. keeps_tac. Qed.

Variable now : Z.

Lemma keeps_updateFrontier b tm : keeps rcache_ok_s (updateFrontier b tm).
Proof. unfold updateFrontier, DeleteFrontier, AddFrontier. keeps_tac. Qed.

Lemma keeps_updateAccountMeta b am : keeps rcache_ok_s (updateAccountMeta now b am).
Proof.
  unfold updateAccountMeta, AddAccountMetaHistory, AddAccountMeta, UpdateAccountMeta. keeps_tac.
Qed.

Lemma keeps_updateRepresentative b am tm : keeps rcache_ok_s (updateRepresentative b am tm).
Proof.
  unfold updateRepresentative, SubRepresentation, AddRepresentation, setRepresentation. keeps_tac.
Qed.

#[local] Hint Resolve keeps_UpdateStateBlock keeps_updatePending keeps_updateFrontier
  keeps_updateAccountMeta keeps_updateRepresentative : keeps.

Lemma keeps_SaveStorage val : keeps rcache_ok_s (SaveStorage val).
Proof. by intros s r s' Hs [= <- <-]. Qed.

Lemma keeps_saveTrie ctx : keeps rcache_ok_s (saveTrie ctx).
Proof.
  unfold saveTrie. apply keeps_bind; [auto with keeps|]. intros t. apply keeps_bind; [auto with keeps|].
  intros r. by intros s x s' Hs [= <- <-].
Qed.

#[local] Hint Resolve keeps_SaveStorage keeps_saveTrie : keeps.

Lemma keeps_updateContractData b : keeps rcache_ok_s (updateContractData b).
Proof. unfold updateContractData. keeps_tac. Qed.

#[local] Hint Resolve keeps_updateContractData : keeps.

Lemma keeps_processStateBlock b : keeps rcache_ok_s (processStateBlock now b).
Proof. unfold processStateBlock, readAccount, readToken. keeps_tac. Qed.

Lemma BlockProcess_rcache tick b l r l' :
  rcache_ok l → BlockProcess now tick b l = Some (r, l') → rcache_ok l'.
Proof.
  intros Hl. unfold BlockProcess, BatchUpdate.
  destruct (processStateBlock now b (mkLS l ∅ ∅)) as [[b'|e|] s'] eqn:E;
    apply keeps_processStateBlock in E; try done; [|by intros [= <- <-]..].
  destruct (Cache.BatchUpdate _ _ _); cbn; [|done]. by intros [= <- <-].
Qed.

(** ** The stages succeed *)
Section stages.
Context (l : Ledger) (b : StateBlock) (Hl : sound l).

Lemma read_total :
  ∃ am tm, readAccount b (mkLS l ∅ ∅) = (Ok am, mkLS l ∅ ∅) ∧
    readToken b (mkLS l ∅ ∅) = (Ok tm, mkLS l ∅ ∅).
Proof.
  unfold readAccount, readToken, GetTokenMetaConfirmed, getS. unfold mbind, M_bind. cbn [ls_led].
  assert (Hg : (∃ a, GetAccountMetaConfirmed l None (sb_Address b) = Ok a) ∨
               GetAccountMetaConfirmed l None (sb_Address b) = Err ErrAccountNotFound).
  { pose proof (wv_account _ (so_wf l Hl) (sb_Address b)) as Hacc.
    unfold GetAccountMetaConfirmed. rewrite <- fetch_lview in Hacc by apply Hl.
    destruct (fetch l None _) as [x|x|]; cbn in Hacc; [..|by right];
      destruct (Hacc x eq_refl) as (am & -> & _); left; eauto. }
  destruct Hg as [[a ->]| ->]; cbn; [|by eauto].
  unfold tokenOf. destruct (AM.Token a (sb_Token b)); cbn; eauto.
Qed.

Lemma rcache_succeeds key info add s :
  rcache_ok_s s → is_Some (pi_Amount info) → succeeds (rcache_UpdateAccountPending key info add) s.
Proof.
  intros Hs [n Hn]. unfold succeeds, rcache_UpdateAccountPending, getS. unfold mbind at 1, M_bind at 1.
  destruct (l_rcache (ls_led s) !! _) as [x|] eqn:E; [|by eauto].
  destruct (Hs _ _ E) as [m ->]. rewrite Hn. unfold mbind, M_bind, liftR, modifyS.
  destruct add; [destruct (BalFacts.Add_total m n) as [k ->]|destruct (BalFacts.Sub_total m n) as [k ->]]; eauto.
Qed.

Context (Hreg : regular l b) (Hpass : BlockCheck l b = pass).
Context (am : option AccountMeta) (tm : option TokenMeta).
Context (Ham : account_read l b am) (Htm : token_read am b tm).

Lemma setBlockChild_succeeds : succeeds (setBlockChild b) (mkLS l ∅ ∅).
Proof.
  unfold setBlockChild. fold (has_parent b). destruct (has_parent b) eqn:Hp; [|by eapply succeeds_pure].
  destruct Hl as [Hok Hwf Hch _ _].
  destruct (parent_head l b am tm Hok Hwf Hreg Hpass Ham Htm Hp) as (t & Ht & ->).
  pose proof (old_head l b am tm Hok Hwf Ham Htm t Ht) as Htok.
  destruct (head_confirmed l b Hok Hwf Hreg Hpass _ _ t Htok) as [Hconf _].
  destruct (co_frontier _ Hch _ _ t Htok) as [_ Hnc].
  unfold getS. unfold succeeds, mbind at 1, M_bind at 1. cbn [ls_led ls_bat].
  unfold HasStateBlockConfirmed, GetBlockChild. rewrite hasKey_lview, bool_decide_true by done.
  rewrite andb_false_r. pose proof (fetch_view l (Some ∅) (KChild (tm_Header t)) Hok) as Hv.
  change (bview l (Some ∅)) with (bview l None) in Hv. rewrite bview_None, Hnc in Hv.
  destruct (fetch l (Some ∅) _); try done. eexists _, _. reflexivity.
Qed.

Lemma UpdateStateBlock_succeeds :
  SB.CheckPrivateRecvRsp b = Ok tt → succeeds (UpdateStateBlock b) (mkLS l ∅ ∅).
Proof.
  intros Hpriv. unfold UpdateStateBlock, setStateBlock. rewrite Hpriv.
  apply succeeds_bind; [by eapply succeeds_pure|intros [] s1 [= <-]].
  apply succeeds_bind; [apply succeeds_wrapM, setBlockChild_succeeds|intros [] s2 _].
  apply succeeds_bind; [apply succeeds_wrapM|intros [] s3 _; by eapply succeeds_pure].
  unfold setBlockLink. destruct (sb_Type b); by eapply succeeds_pure.
Qed.

Lemma AddPending_succeeds key info s :
  rcache_ok_s s → is_Some (pi_Amount info) → succeeds (AddPending key info) s.
Proof.
  intros Hs Hi. apply succeeds_bind; [by eapply succeeds_pure|intros [] s1 [= <-]]. by apply rcache_succeeds.
Qed.

Lemma DeletePending_succeeds key s :
  same_db l (ls_led s) → rcache_ok_s s → succeeds (DeletePending key) s.
Proof.
  intros Hdb Hs. unfold DeletePending, getS. unfold succeeds, mbind at 1, M_bind at 1.
  pose proof (wv_pending _ (so_wf l Hl) key) as Hp.
  rewrite <- (lview_same_db l (ls_led s)) in Hp by done.
  unfold GetPending. rewrite <- fetch_lview in Hp by (eapply db_ok_same; [done|apply Hl]).
  destruct (fetch (ls_led s) None _) as [x|x|]; cbn in Hp; [..|by eexists _, _];
    destruct (Hp x eq_refl) as (p & -> & Hok & _);
    (apply succeeds_bind; [by eapply succeeds_pure|intros [] s1 [= <-]]);
    (apply rcache_succeeds; [done|]; destruct (pi_Amount p); [eauto|done]).
Qed.

Lemma updatePending_succeeds s :
  same_db l (ls_led s) → rcache_ok_s s → succeeds (updatePending b) s.
Proof.
  intros Hdb Hs. destruct Hreg as (Hp & _). unfold plain in Hp. unfold updatePending.
  destruct (sb_Type b) eqn:Hty; try done.
  - apply send_pass in Hpass as (_ & _ & previous & Hprev & _ & (x & y & Hx & Hy & _) & _); [|done].
    apply succeeds_bind; [apply succeeds_wrapM|intros pre s1 Hpre].
    { exists previous, s. unfold readS. by rewrite (GetStateBlockConfirmed_same_db l), Hprev. }
    apply wrapM_Ok, readS_Ok in Hpre as [Hpre ->].
    rewrite (GetStateBlockConfirmed_same_db l), Hprev in Hpre by done. injection Hpre as <-.
    unfold SB.GetBalance. rewrite Hx, Hy.
    destruct (BalFacts.Sub_total x y) as [n ->]. apply succeeds_bind; [by eapply succeeds_pure|intros a s1 [= <- <-]].
    apply succeeds_bind; [|intros; by eapply succeeds_pure]. by apply AddPending_succeeds.
  - apply succeeds_bind; [by apply DeletePending_succeeds|intros; by eapply succeeds_pure].
  - by eapply succeeds_pure.
  - apply succeeds_bind; [by apply DeletePending_succeeds|intros; by eapply succeeds_pure].
  - by eapply succeeds_pure.
Qed.

Lemma updateFrontier_succeeds s : same_db l (ls_led s) → succeeds (updateFrontier b tm) s.
Proof.
  pose proof (old_head l b am tm (so_db l Hl) (so_wf l Hl) Ham Htm) as Hold.
  intros Hdb. unfold updateFrontier. destruct tm as [t|]; [|by eapply succeeds_pure].
  destruct (co_frontier _ (so_chain l Hl) _ _ t (Hold t eq_refl)) as [Hfr _].
  rewrite <- fetch_lview, <- (fetch_same_db l (ls_led s)) in Hfr by (done || apply Hl).
  assert (Hg : ∃ fr, GetFrontier (ls_led s) None (tm_Header t) = Ok fr).
  { unfold GetFrontier. destruct (fetch (ls_led s) None _) as [x|x|]; simplify_eq/=; eauto. }
  destruct Hg as [fr Hg]. apply succeeds_bind; [exists fr, s; unfold readS; by rewrite Hg|intros a s1 _].
  apply succeeds_bind; [by eapply succeeds_pure|intros [] s2 _; by eapply succeeds_pure].
Qed.

Lemma updateAccountMeta_succeeds s : same_db l (ls_led s) → succeeds (updateAccountMeta now b am) s.
Proof.
  intros Hdb.
  unfold updateAccountMeta. unfold account_read in Ham. destruct am as [a|].
  - rewrite Token_nextAccount, Z.eqb_refl.
    apply succeeds_bind; [|intros [] s1 _; by eapply succeeds_pure].
    apply succeeds_bind; [by eapply succeeds_pure|intros [] s1 _; by eapply succeeds_pure].
  - apply succeeds_bind.
    { apply succeeds_bind; [by eapply succeeds_pure|intros [] s1 _; by eapply succeeds_pure]. }
    intros [] s1 Hs1. unfold AddAccountMeta, getS, succeeds. unfold mbind at 1, M_bind at 1.
    assert (Hadr : am_Address (newAccount now b) = sb_Address b) by (unfold newAccount; by rewrite withCoins_Address).
    rewrite Hadr. apply AddAccountMetaHistory_writes, writes_db in Hs1.
    unfold GetAccountMetaConfirmed in Ham |- *. rewrite (fetch_same_db l (ls_led s1)) by (by eapply same_db_trans).
    rewrite Ham. eexists _, _. reflexivity.
Qed.

(** ** Representatives *)
Lemma Benefit_map2_total f x d :
  (∀ m n, ∃ k, f (Some m) (Some n) = Ok (Some k)) →
  (∀ F, is_Some (bn_field F x)) → (∀ F, is_Some (bn_field F d)) →
  ∃ y, Benefit_map2 f x d = Ok y.
Proof.
  intros Hf Hx Hd.
  destruct (Benefit_map2_fields f x d (λ F, Bal.amount (bn_field F x)) (λ F, Bal.amount (bn_field F d))
    (λ F, match f (bn_field F x) (bn_field F d) with Ok (Some k) => k | _ => 0 end)) as (y & Hy & _); eauto.
  - intros F. by destruct (Hx F) as [n ->].
  - intros F. by destruct (Hd F) as [n ->].
  - intros F. destruct (Hx F) as [n ->], (Hd F) as [m ->]. cbn. by destruct (Hf n m) as [k ->].
Qed.

Lemma Clone_fields x F : Benefit_Clone x = x → is_Some (bn_field F x).
Proof. intros <-. rewrite bn_field_Clone, BalFacts.wire_amount. eauto. Qed.

Lemma addIf_total n x : ∃ k, SB.addIf (Some n) x = Ok (Some k).
Proof. destruct x as [m|]; cbn [SB.addIf]; [apply BalFacts.Add_total|eauto]. Qed.

Lemma accountBenefit_total a : ∃ y, accountBenefit a = Ok y ∧ ∀ F, is_Some (bn_field F y).
Proof.
  unfold accountBenefit, AM.TotalBalance, Bal.ZeroBalance.
  destruct (addIf_total 0 (am_CoinBalance a)) as [k1 ->]; cbn [mbind res_bind].
  destruct (addIf_total k1 (am_CoinVote a)) as [k2 ->]; cbn [mbind res_bind].
  destruct (addIf_total k2 (am_CoinStorage a)) as [k3 ->]; cbn [mbind res_bind].
  destruct (addIf_total k3 (am_CoinNetwork a)) as [k4 ->]; cbn [mbind res_bind].
  destruct (addIf_total k4 (am_CoinOracle a)) as [k5 ->]; cbn [mbind res_bind].
  eexists. split; [done|]. intros []; cbn; eauto using BalFacts.orZero_Some.
Qed.

Lemma blockBenefit_total : ∃ y, blockBenefit b = Ok y ∧ ∀ F, is_Some (bn_field F y).
Proof using Hreg.
  destruct Hreg as (_ & Hb & _). destruct (sb_Balance b) as [n|] eqn:Hn; [|done].
  unfold blockBenefit, SB.TotalBalance. rewrite Hn.
  destruct (addIf_total n (sb_Vote b)) as [k1 ->]; cbn [mbind res_bind].
  destruct (addIf_total k1 (sb_Network b)) as [k2 ->]; cbn [mbind res_bind].
  destruct (addIf_total k2 (sb_Oracle b)) as [k3 ->]; cbn [mbind res_bind].
  destruct (addIf_total k3 (sb_Storage b)) as [k4 ->]; cbn [mbind res_bind].
  eexists. split; [done|]. unfold SB.GetBalance. rewrite Hn. intros []; cbn; eauto using BalFacts.orZero_Some.
Qed.

(** A recorded representative is found, with set amounts. *)
Lemma GetRepresentation_found s a :
  db_ok (ls_led s) → reps_ok (sview s) → is_Some (sview s !! KRepresentation a) →
  ∃ x, GetRepresentation (ls_led s) (Some (ls_bat s)) a = Ok x ∧ ∀ F, is_Some (bn_field F x).
Proof.
  intros Hok Hr [x Hx]. destruct (Hr a x Hx) as (y & -> & Hcl).
  rewrite <- bview_sview, <- fetch_view in Hx by done. unfold GetRepresentation.
  destruct (fetch (ls_led s) _ _) as [z|z|]; simplify_eq/=.
  - exists (Benefit_Clone y). split; [done|]. intros F. apply Clone_fields, Benefit_Clone_Clone.
  - exists y. split; [done|]. intros F. by apply Clone_fields.
Qed.

Lemma AddRepresentation_succeeds s a d :
  db_ok (ls_led s) → reps_ok (sview s) → (∀ F, is_Some (bn_field F d)) →
  succeeds (AddRepresentation a d) s.
Proof.
  intros Hok Hr Hd. unfold AddRepresentation, getS, succeeds. unfold mbind at 1, M_bind at 1.
  assert (Hg : (∃ x, GetRepresentation (ls_led s) (Some (ls_bat s)) a = Ok x ∧ ∀ F, is_Some (bn_field F x)) ∨
               GetRepresentation (ls_led s) (Some (ls_bat s)) a = Err ErrRepresentationNotFound).
  { destruct (sview s !! KRepresentation a) as [x|] eqn:E; [left; by apply GetRepresentation_found; eauto|right].
    unfold GetRepresentation. rewrite <- bview_sview, <- fetch_view in E by done.
    by destruct (fetch (ls_led s) _ _). }
  destruct Hg as [(x & -> & Hx)| ->].
  - destruct (Benefit_map2_total Bal.Add x d BalFacts.Add_total Hx Hd) as [y ->]. eexists _, _. reflexivity.
  - destruct (Benefit_map2_total Bal.Add (Benefit_Clone ZeroBenefit) d BalFacts.Add_total) as [y ->];
      [by intros []; eexists|done|]. eexists _, _. reflexivity.
Qed.
Lemma updateRepresentative_succeeds s :
  db_ok (ls_led s) → reps_ok (sview s) →
  (∀ t, tm = Some t → sb_Token b = ChainToken → is_Some (sview s !! KRepresentation (tm_Representative t))) →
  succeeds (updateRepresentative b am tm) s.
Proof.
  destruct blockBenefit_total as (new & Hnew & Hnf).
  intros Hok Hr Hrec. unfold updateRepresentative. destruct (Z.eqb_spec (sb_Token b) ChainToken); [|by eapply succeeds_pure].
  assert (Hadd : ∀ s, db_ok (ls_led s) → reps_ok (sview s) →
    succeeds (newBenefit ← liftR (blockBenefit b); AddRepresentation (sb_Representative b) newBenefit) s).
  { intros s1 Hok1 Hr1. rewrite Hnew. apply succeeds_bind; [by eapply succeeds_pure|intros x s2 [= <- <-]].
    by apply AddRepresentation_succeeds. }
  unfold token_read in Htm. destruct tm as [t|], am as [a|]; [|done|..].
  2, 3: apply succeeds_bind; [by eapply succeeds_pure|intros [] s1 [= <-]; by apply Hadd].
  destruct (negb _) eqn:Hz.
  2: { apply succeeds_bind; [by eapply succeeds_pure|intros [] s1 [= <-]; by apply Hadd]. }
  destruct (accountBenefit_total a) as (old & Hold & Hof). rewrite Hold.
  destruct (GetRepresentation_found s (tm_Representative t) Hok Hr) as (x & Hx & Hxf); [by apply Hrec|].
  apply succeeds_bind.
  - apply succeeds_bind; [by eapply succeeds_pure|intros y s1 [= <- <-]].
    unfold SubRepresentation, getS, succeeds. unfold mbind at 1, M_bind at 1. rewrite Hx.
    unfold wrapM, liftR. unfold mbind, M_bind.
    destruct (Benefit_map2_total Bal.Sub x old BalFacts.Sub_total Hxf Hof) as [y ->]. eexists _, _. reflexivity.
  - intros [] s1 Hs1. apply M_bind_Ok in Hs1 as (y & s2 & [= <- <-] & Hs1).
    apply SubRepresentation_writes in Hs1 as (z & _ & Hw); [|done..]. apply Hadd.
    + by eapply db_ok_writes.
    + destruct Hw as (_ & _ & ->). by apply reps_ok_insert.
Qed.
End stages.

Lemma processStateBlock_succeeds l b :
  sound l → regular l b → BlockCheck l b = pass → SB.CheckPrivateRecvRsp b = Ok tt →
  succeeds (processStateBlock now b) (mkLS l ∅ ∅).
Proof.
  intros Hl Hreg Hpass Hpriv. pose proof (so_db l Hl) as Hok. assert (Hp : plain b = true) by apply Hreg.
  destruct (read_total l b Hl) as (am & tm & Hra & Hrt).
  pose proof (readAccount_run b _ am _ Hra) as [_ Ham].
  pose proof (readToken_run b _ am tm _ Ham Hrt) as [_ Htm]. cbn [ls_led] in Ham.
  unfold processStateBlock.
  apply succeeds_bind; [by eapply succeeds_pure|rewrite Hra; intros ? ? [= <- <-]].
  apply succeeds_bind; [by eapply succeeds_pure|rewrite Hrt; intros ? ? [= <- <-]].
  apply succeeds_bind; [by apply (UpdateStateBlock_succeeds l b Hl Hreg Hpass am tm)|intros [] s1 H1'].
  pose proof (keeps_UpdateStateBlock b _ _ _ (so_rcache l Hl : rcache_ok_s (mkLS l ∅ ∅)) H1') as Hrc.
  apply UpdateStateBlock_writes in H1' as [Hw1 _]; [|done].
  apply succeeds_bind; [apply succeeds_wrapM, (updatePending_succeeds l b Hl Hreg Hpass)|intros b' s2 H2'];
    [apply (writes_db _ _ _ Hw1)|done|].
  apply wrapM_Ok, updatePending_run in H2' as (-> & f & Hf & Hw2); [|done].
  apply pending_effect_same with (l := l) in Hf; [|apply (writes_db _ _ _ Hw1)].
  pose proof (writes_trans _ _ _ _ _ Hw1 Hw2) as Hw. clear Hw1 Hw2.
  apply succeeds_bind; [apply succeeds_wrapM, (updateFrontier_succeeds l b Hl am tm Ham Htm),
    (writes_db _ _ _ Hw)|intros [] s3 H3'].
  apply wrapM_Ok, updateFrontier_run in H3'; [|exact (db_ok_writes (mkLS l ∅ ∅) _ _ Hok Hw)].
  pose proof (writes_trans _ _ _ _ _ Hw H3') as Hw3. clear Hw H3'.
  apply succeeds_bind; [apply succeeds_wrapM; by eapply succeeds_pure, updateContractData_plain|].
  intros b' s' Hcd. apply wrapM_Ok in Hcd. rewrite updateContractData_plain in Hcd by done. injection Hcd as <- <-.
  apply succeeds_bind; [apply succeeds_wrapM, (updateAccountMeta_succeeds l b am tm Ham Htm),
    (writes_db _ _ _ Hw3)|intros [] s4 H4'].
  apply wrapM_Ok, updateAccountMeta_run in H4'. pose proof (writes_trans _ _ _ _ _ Hw3 H4') as Hw4. clear Hw3 H4'.
  assert (Hv4 : ∀ a, sview s4 !! KRepresentation a = lview l !! KRepresentation a).
  { intros a. destruct Hw4 as (_ & _ & ->). change (sview (mkLS l ∅ ∅)) with (bview l None). rewrite bview_None.
    apply (chain_writes_rep now l b am tm f (lview l) a Hf). }
  apply succeeds_bind; [apply succeeds_wrapM|intros [] s5 _; by eapply succeeds_pure].
  apply (updateRepresentative_succeeds l b Hreg am tm Ham Htm).
  - exact (db_ok_writes (mkLS l ∅ ∅) _ _ Hok Hw4).
  - intros a x. rewrite Hv4. apply (wv_reps _ (so_wf l Hl)).
  - intros t Ht Htk. rewrite Hv4. apply (so_reps l Hl (sb_Address b)). rewrite <- Htk.
    apply (old_head l b am tm Hok (so_wf l Hl) Ham Htm t Ht).
Qed.

(** ** The invariant is preserved *)
Lemma rep_writes_present v v' a :
  rep_writes v v' → is_Some (v !! KRepresentation a) → is_Some (v' !! KRepresentation a).
Proof.
  intros Hr Hv. induction Hr as [|v' r x _ IH]; [done|].
  destruct (decide (r = a)) as [->|]; [rewrite lookup_insert_eq; eauto|]. by rewrite lookup_insert_ne by congruence.
Qed.

Lemma reps_present_step l b am tm f v' :
  db_ok l → wf_view (lview l) → reps_present (lview l) → account_read l b am → token_read am b tm →
  pending_effect l b f → rep_effect b am tm (chain_writes now b am tm f (lview l)) v' → reps_present v'.
Proof.
  intros Hok Hwf Hreps Ham Htm Hf Hrep a t Htok.
  apply (token_of_next now l b am tm Hok Hwf Ham Htm v' f Hf Hrep) in Htok as [(-> & Ht & Htok & _)|[_ Htok]].
  - destruct (next_coin now b am (eq_sym Ht)) as (_ & _ & t' & Ht' & Hrp & _).
    rewrite Htok in Ht'. injection Ht' as <-. rewrite Hrp.
    unfold rep_effect in Hrep. rewrite <- Ht, Z.eqb_refl in Hrep.
    destruct Hrep as (v1 & _ & (new & y & _ & _ & ->)). rewrite lookup_insert_eq. eauto.
  - eapply rep_writes_present; [by eapply rep_effect_writes|]. rewrite (chain_writes_rep now l) by done. by eapply Hreps.
Qed.

Lemma Process_sound tick b l l' :
  sound l → regular l b → Process now tick b l = Some (pass, l') → sound l'.
Proof.
  intros [Hok Hwf Hch Hreps Hrc] Hreg Hp. apply Process_pass in Hp as [Hpass Hp].
  pose proof (BlockProcess_rcache tick b l _ l' Hrc Hp) as Hrc'.
  apply BlockProcess_plain in Hp as [Hok' (am & tm & f & Ham & Htm & Hf & Hrep)];
    [|by destruct Hreg|done|apply Hwf].
  split; [done|by apply (step_wf now l b _ am tm f)|by apply (chain_ok_step now l b am tm) with f|
    by apply (reps_present_step l b am tm f)|done].
Qed.

(** C11: an accepted plain block is always processed.  On a ledger that satisfies the
    invariants, [Process] of a [regular] block (a plain block with a balance of 64
    bits, of an account that has a chain for the token unless it opens one, not on the
    list of blocks accepted without a check) that passes [BlockCheck]
    and is not a private block whose response is missing ([CheckPrivateRecvRsp]) waits when the write cache has no
    free slot and otherwise returns success, never an error, and the invariants hold
    again. *)
Theorem accepted_block_is_processed tick b l :
  sound l → regular l b → SB.CheckPrivateRecvRsp b = Ok tt → BlockCheck l b = pass →
  match GetCache tick (l_cache l) with
  | None => Process now tick b l = None
  | Some _ => ∃ l', Process now tick b l = Some (pass, l') ∧ sound l'
  end.
Proof.
  intros Hl Hreg Hpriv Hpass.
  destruct (processStateBlock_succeeds l b Hl Hreg Hpass Hpriv) as (b' & s' & Hr).
  pose proof (λ l', Process_sound tick b l l' Hl Hreg) as Hsound.
  unfold Process, BlockProcess, BatchUpdate, Cache.BatchUpdate in *. rewrite Hpass in *. cbn [pass] in *.
  rewrite Hr in *. cbn [fst snd] in *.
  apply processStateBlock_plain in Hr as (-> & [Hc Hs] & _); [|by destruct Hreg|apply Hl|apply Hl].
  cbn [pass mbind option_bind] in *. rewrite Hc in *.
  destruct (GetCache tick (l_cache l)) as [lc|]; [|done]. cbn [mbind option_bind] in *. eauto.
Qed.
End progress.

Lemma processed_sound `{Crypto} `{Config} `{Node} `{Unicode} l bs l' : sound l → processed l bs l' → sound l'.
Proof.
  intros Hl Hrun. induction Hrun as [l|now tick l b l1 bs l2 Hreg Hp _ IH]; [done|]. apply IH. by eapply Process_sound.
Qed.

(** C31: the frontier table is exact.  On a ledger that satisfies the invariants
    ([sound]), after any sequence of accepted [regular] blocks (plain blocks with a
    balance of 64 bits, of accounts that have a chain for the token unless they open
    one, not on the list of blocks accepted without a check), [GetFrontier] finds a
    hash precisely when it is the head of some account's token chain, and then returns
    the chain's open block. *)
Theorem frontiers_are_heads `{Crypto} `{Config} `{Node} `{Unicode} l bs l' h o :
  sound l → processed l bs l' →
  GetFrontier l' None h = Ok (mkFrontier h o) ↔
  ∃ a t tm, token_of (lview l') a t tm ∧ tm_Header tm = h ∧ tm_OpenBlock tm = o.
Proof.
  intros Hl Hrun. destruct (processed_sound l bs l' Hl Hrun) as [Hok _ Hch _ _]. split.
  - intros [_ Hx]%GetFrontier_Ok; [|done]. rewrite bview_None in Hx. cbn in Hx.
    destruct (co_head _ Hch h _ Hx) as (a & t & tm & Htok & Hh & [= ->]). eauto 10.
  - intros (a & t & tm & Htok & <- & <-). destruct (co_frontier _ Hch a t tm Htok) as [Hx _].
    rewrite <- fetch_lview in Hx by done. unfold GetFrontier.
    by destruct (fetch l' None _) as [x|x|]; simplify_eq/=.
Qed.
