(* ===== verification/Rollback.v ===== *)
(** * Rollback: [ledger/process/rollback.go]

    A fork decided against a confirmed block removes the block, everything after it
    on its chain, and the blocks that received what these blocks sent.  [Rollback]
    first collects the oldest block to remove of every chain concerned, then undoes
    the chains from their heads.  Loops over a chain are cut off by a fuel larger
    than the number of records: a longer walk would visit a block twice, which the
    source would do forever. *)

From stdpp Require Import sorting.
From S2P Require Import Trie TrieIter TrieStore.
From S2P Require Import Prelude Types Cache Storage Ledger Contract GoBytes Check Process.

(** [new(types.StateBlock)]. *)
Definition emptyBlock : StateBlock :=
  {| sb_Type := State; sb_Token := 0; sb_Address := 0; sb_Balance := None; sb_Vote := None;
     sb_Network := None; sb_Storage := None; sb_Oracle := None; sb_Previous := 0; sb_Link := 0;
     sb_Sender := []; sb_Receiver := []; sb_Message := 0; sb_Data := []; sb_PoVHeight := 0;
     sb_Timestamp := 0; sb_Extra := 0; sb_Representative := 0; sb_PrivateFrom := [];
     sb_PrivateFor := []; sb_PrivateGroupID := []; sb_Work := 0; sb_Signature := [];
     sb_Flag := 0; sb_PrivateRecvRsp := false; sb_PrivatePayload := [] |}.

Section rollback.
Context `{Crypto} `{Config} `{Node} `{Unicode}.
Variable now : Z.

(** ** Undoing the records of one block *)
Definition rollBackFrontier (pre cur : Hash) : M LS unit :=
  frontier ← readS (λ s, GetFrontier (ls_led s) (Some (ls_bat s)) cur);
  DeleteFrontier cur;;
  if negb (hash_IsZero pre) then AddFrontier (mkFrontier pre (fr_OpenBlock frontier)) else mret tt.

Definition previousTokenMeta (pre : StateBlock) (tm : TokenMeta) : TokenMeta :=
  {| tm_Type := tm_Type tm; tm_Header := SB.GetHash pre;
     tm_Representative := sb_Representative pre; tm_OpenBlock := tm_OpenBlock tm;
     tm_Balance := SB.GetBalance pre; tm_BelongTo := tm_BelongTo tm;
     tm_Modified := now; tm_BlockCount := tm_BlockCount tm - 1 |}.

Definition rollBackToken (token : TokenMeta) (pre : StateBlock) : M LS unit :=
  ac ← readS (λ s, GetAccountMetaConfirmed (ls_led s) (Some (ls_bat s)) (tm_BelongTo token));
  let ac' := withCoins pre ac in
  match AM.Token ac' (sb_Token pre) with
  | None => failS (Errorf "can not get token %s from account %s")
  | Some _ =>
      UpdateAccountMeta
        (AM.with_tokens ac' (AM.update_token (am_Tokens ac') (sb_Token pre) (previousTokenMeta pre)))
  end.

Definition rollBackTokenDel (tm : TokenMeta) : M LS unit :=
  DeleteTokenMetaConfirmed (tm_BelongTo tm) (tm_Type tm);;
  ac ← readS (λ s, GetAccountMetaConfirmed (ls_led s) (Some (ls_bat s)) (tm_BelongTo tm));
  match am_Tokens ac with
  | [] => DeleteAccountMeta (tm_BelongTo tm)
  | _ => mret tt
  end.

(** The fields of one block less those of another. *)
Definition diffBenefit (a b : StateBlock) : res Benefit :=
  vote ← Bal.Sub (SB.GetVote a) (SB.GetVote b);
  network ← Bal.Sub (SB.GetNetwork a) (SB.GetNetwork b);
  oracle ← Bal.Sub (SB.GetOracle a) (SB.GetOracle b);
  storage ← Bal.Sub (SB.GetStorage a) (SB.GetStorage b);
  balance ← Bal.Sub (SB.GetBalance a) (SB.GetBalance b);
  ta ← SB.TotalBalance a;
  tb ← SB.TotalBalance b;
  total ← Bal.Sub ta tb;
  Ok {| bn_Balance := balance; bn_Vote := vote; bn_Network := network; bn_Storage := storage;
        bn_Oracle := oracle; bn_Total := total |}.

(** [None] for the nil previous block of an open block. *)
Definition rollBackRep (representative : Address) (blockCur : StateBlock) (blockPre : option StateBlock)
    (isSend : bool) (token : Hash) : M LS unit :=
  if token =? ChainToken then
    if isSend then
      match blockPre with
      | Some pre => diff ← liftR (diffBenefit pre blockCur); AddRepresentation representative diff
      | None => liftR Panic
      end
    else
      diff ← liftR (match blockPre with
                    | None => blockBenefit blockCur
                    | Some pre => diffBenefit blockCur pre
                    end);
      SubRepresentation representative diff
  else mret tt.

Definition rollBackRepChange (preRepresentation curRepresentation : Address) (blockCur : StateBlock)
  : M LS unit :=
  diff ← liftR (blockBenefit blockCur);
  wrapM "add representation: %s" (AddRepresentation preRepresentation diff);;
  SubRepresentation curRepresentation diff.

Definition rollBackPendingAdd (blockCur : StateBlock) (amount : Balance) (token : Hash) : M LS unit :=
  blockLink ← wrapM "%s %s" (readS (λ s, GetStateBlockConfirmed (ls_led s) None (sb_Link blockCur)));
  if notRecipient blockLink then mret tt
  else match sb_Type blockCur with
  | ContractReward =>
      match GetChainContract (sb_Link blockLink) (SB.GetPayload blockLink) with
      | None => mret tt
      | Some c =>
          if specVer (GetDescribe c) =? SpecVer1 then
            match DoPending c blockLink with
            | Ok (Some (key, info)) => wrapM "contract ver1 add pending: %s" (AddPending key info)
            | Ok None | Err _ => mret tt
            | Panic => liftR Panic
            end
          else if specVer (GetDescribe c) =? SpecVer2 then
            s ← getS;
            match NewVMContextWithBlock (ls_led s) blockLink with
            | None => failS (Errorf "rollback: can not get vm context, %s")
            | Some vmCtx =>
                match ProcessSend c (ls_led s) vmCtx blockLink with
                | (Ok (Some (key, info)), _, _) => wrapM "contract ver2 add pending: %s" (AddPending key info)
                | (Ok None, _, _) | (Err _, _, _) => failS (Errorf "process send error, %s")
                | (Panic, _, _) => liftR Panic
                end
            end
          else failS (Errorf "unsupported chain contract version %d")
      end
  | _ =>
      wrapM "add pending : %s"
        (AddPending (mkPendingKey (sb_Address blockCur) (SB.GetHash blockLink))
           {| pi_Source := sb_Address blockLink; pi_Amount := amount; pi_Type := token |})
  end.

(** A contract may write to the block it is given; the block is returned. *)
Definition rollBackPendingDel (blockCur : StateBlock) : M LS StateBlock :=
  if notRecipient blockCur then mret blockCur
  else match sb_Type blockCur with
  | ContractSend =>
      match GetChainContract (sb_Link blockCur) (SB.GetPayload blockCur) with
      | None => mret blockCur
      | Some c =>
          if specVer (GetDescribe c) =? SpecVer1 then
            match DoPending c blockCur with
            | Ok (Some (key, _)) => DeletePending key;; mret blockCur
            | Ok None | Err _ => mret blockCur
            | Panic => liftR Panic
            end
          else if specVer (GetDescribe c) =? SpecVer2 then
            s ← getS;
            match NewVMContextWithBlock (ls_led s) blockCur with
            | None => failS (Errorf "rollback pending: can not get vm context, %s")
            | Some vmCtx =>
                match ProcessSend c (ls_led s) vmCtx blockCur with
                | (Ok (Some (key, _)), _, block') => DeletePending key;; mret block'
                | (Ok None, _, block') | (Err _, _, block') => mret block'
                | (Panic, _, _) => liftR Panic
                end
            end
          else failS (Errorf "unsupported chain contract %d")
      end
  | _ => DeletePending (mkPendingKey (sb_Link blockCur) (SB.GetHash blockCur));; mret blockCur
  end.

(** ** Contract data *)

(** Keys of a contract trie are raw storage keys: the table prefix, then the rest. *)
Definition storageKey (key : list Z) : Key := KVMStorage (tail key).

(** The last bytes of a value name its type. *)
Definition identityLength : nat := 20.

Definition getStructById (id : list Z) : option structInfo :=
  find (λ v, EqualFold (identityID v) id) relationMap.

Definition ConvertToInterface (val : list Z) : res (option (list Z)) :=
  if (identityLength <? length val)%nat then
    match getStructById (drop (length val - identityLength) val) with
    | Some m =>
        match si_Deserialize m (take (length val - identityLength) val) with
        | Ok r => Ok (Some r)
        | Err _ => Err (Errorf "call method error : %s")
        | Panic => Panic
        end
    | None => Ok None
    end
  else Ok None.

Definition RemoveStorage (key val : list Z) : M LS unit :=
  r ← wrapM "remove storage: %s" (liftR (ConvertToInterface val));
  match r with
  | Some o => modifyS (λ s, set_led s (add_deleted (ls_led s) (ObjectSchema o)))
  | None => mret tt
  end;;
  bat_Delete (storageKey key).

(** The caller only logs the error of a conversion. *)
Definition SaveStorageByConvert (key val : list Z) : M LS unit :=
  r ← wrapM "remove storage: %s" (liftR (ConvertToInterface val));
  bat_Put (storageKey key) (match r with Some o => VObject o | None => VBytes val end).

Fixpoint iterM {A} (f : A → M LS unit) (xs : list A) : M LS unit :=
  match xs with [] => mret tt | x :: xs' => f x;; iterM f xs' end.

(** [t.Remove(cache)]. *)
Definition trieRemove (t : Trie) : M LS unit :=
  r ← wrapM "trie remove: %s" (liftR (Remove t));
  iterM (λ h, bat_Delete (KTrie h)) r.1.

Definition removeContractData (t : Trie) (kv : list Z * list Z) : M LS unit :=
  contractData ← wrapM "get storage by key: %s"
                   (readS (λ s, l_Get (ls_led s) (Some (ls_bat s)) (storageKey kv.1)));
  if negb (bool_decide (contractData = kv.2))
  then failS (Errorf "contract data is invalid, act: %v, exp: %v")
  else wrapM "storage remove: %s" (RemoveStorage kv.1 contractData);; trieRemove t.

(** The fuel of a walk along a chain. *)
Definition chainFuel (l : Ledger) : nat := S (size (lview l)).

(** An error that is only logged. *)
Definition logErr (m : M LS unit) : M LS unit := λ s,
  match m s with (Err _, s') => (Ok tt, s') | r => r end.

(** Restore the storage of the contract's previous block, if there is one. *)
Fixpoint restorePrevious (fuel : nat) (block : StateBlock) (preHash : Hash) : M LS unit :=
  match fuel with
  | O => failS OutOfFuel
  | S fuel =>
      if hash_IsZero preHash then mret tt
      else
        preBlock ← wrapM "contract block previous not found (%s)"
                     (readS (λ s, GetStateBlockConfirmed (ls_led s) None preHash));
        if bool_decide (sb_Type preBlock = sb_Type block) && (sb_Link preBlock =? sb_Link block) then
          kvs ← readS (λ s, t ← openTrie (ls_led s) (sb_Extra preBlock);
                            iterate (Some (trieGet (ls_led s))) t []);
          iterM (λ kv, logErr (SaveStorageByConvert kv.1 kv.2)) kvs
        else restorePrevious fuel block (sb_Previous preBlock)
  end.

Definition IsRewardContractAddress (address : Address) : bool :=
  existsb (Z.eqb address) rewardContracts.

Definition rollBackContractData (block : StateBlock) : M LS unit :=
  let extra := sb_Extra block in
  if hash_IsZero extra then mret tt
  else
    s ← getS;
    t ← readS (λ s, openTrie (ls_led s) extra);
    kvs ← readS (λ s, iterate (Some (trieGet (ls_led s))) t []);
    iterM (removeContractData t) kvs;;
    if IsRewardContractAddress (sb_Link block)
    then restorePrevious (chainFuel (ls_led s)) block (sb_Previous block)
    else mret tt.

(** ** Unconfirmed blocks *)
Definition rollbackCacheAccount (block : StateBlock) : M LS unit :=
  s ← getS;
  match GetAccountMeteCache (ls_led s) (ls_txn s) (sb_Address block) with
  | Panic => liftR Panic
  | Err _ => mret tt
  | Ok ac =>
      match GetBlockCache (ls_led s) (sb_Previous block) with
      | Panic => liftR Panic
      | Err _ => mret tt
      | Ok preBlk =>
          let ac' := withCoins preBlk ac in
          match AM.Token ac' (sb_Token block) with
          | None => mret tt
          | Some _ =>
              UpdateAccountMeteCache
                (AM.with_tokens ac'
                   (AM.update_token (am_Tokens ac') (sb_Token block) (previousTokenMeta preBlk)))
          end
      end
  end.

Definition rollbackCacheAccountDel (address : Address) (token : Hash) : M LS unit :=
  s ← getS;
  match GetAccountMeteCache (ls_led s) (ls_txn s) address with
  | Err ErrAccountNotFound => mret tt
  | Err e => failS e
  | Panic => liftR Panic
  | Ok ac =>
      match AM.Token ac token with
      | None => mret tt
      | Some _ =>
          if (length (am_Tokens ac) =? 1)%nat then DeleteAccountMetaCache address
          else DeleteTokenMetaCache address token
      end
  end.

Definition deleteCacheBlock (block : StateBlock) : M LS unit :=
  wrapM "delete BlockCache fail(%s), hash(%s)" (DeleteBlockCache (SB.GetHash block));;
  publish (EventRollback (SB.GetHash block)).

Definition rollbackCacheBlocks (blocks : list StateBlock) (cache : bool) : M LS unit :=
  match blocks with
  | [] => mret tt
  | blk :: _ =>
      if cache then
        iterM (λ block,
          deleteCacheBlock block;;
          s ← getS;
          if HasBlockCache (ls_led s) (sb_Previous block)
          then wrapM "roll back cache account error : %s" (rollbackCacheAccount block)
          else wrapM "roll back cache account del error : %s"
                 (rollbackCacheAccountDel (sb_Address block) (sb_Token block))) (rev blocks)
      else
        iterM deleteCacheBlock blocks;;
        rollbackCacheAccountDel (sb_Address blk) (sb_Token blk)
  end.

Definition timestamp_le (b1 b2 : StateBlock) : Prop := sb_Timestamp b1 ≤ sb_Timestamp b2.
#[local] Instance timestamp_le_dec : RelDecision timestamp_le.
Proof. intros b1 b2. unfold timestamp_le. apply _. Defined.

(** Follow [Previous] forward through the unconfirmed blocks. *)
Fixpoint successors (fuel : nat) (blocks : list StateBlock) (rollBlock : StateBlock)
  : res (list StateBlock) :=
  match fuel with
  | O => Err OutOfFuel
  | S fuel =>
      match find (λ b, sb_Previous b =? SB.GetHash rollBlock) blocks with
      | None => Ok []
      | Some b => bs ← successors fuel blocks b; Ok (b :: bs)
      end
  end.

(** A receive block of the same link that is newer is rolled back instead. *)
Definition laterReceive (rollBlock : StateBlock) (blocks : list StateBlock) : StateBlock :=
  if SB.IsReceiveBlock rollBlock then
    match find (λ b, (sb_Link rollBlock =? sb_Link b) && negb (SB.GetHash rollBlock =? SB.GetHash b)) blocks with
    | Some b => if sb_Timestamp rollBlock <? sb_Timestamp b then b else rollBlock
    | None => rollBlock
    end
  else rollBlock.

Definition sameChain (block b : StateBlock) : bool :=
  (sb_Address block =? sb_Address b) && (sb_Token block =? sb_Token b).

(** [sort.Slice] may leave blocks of the same time in any order; here they keep theirs. *)
Definition rollbackCache (hash : Hash) : M LS unit :=
  s ← getS;
  block ← wrapM "get cache block (%s) err: %s" (liftR (GetBlockCache (ls_led s) hash));
  let blocks := List.filter (sameChain block) (GetBlockCaches (ls_led s)) in
  let rollBlock := laterReceive block blocks in
  let tempBlocks := merge_sort timestamp_le
                      (List.filter (λ b, sb_Timestamp rollBlock <=? sb_Timestamp b) blocks) in
  rest ← liftR (successors (S (length tempBlocks)) tempBlocks rollBlock);
  rollbackCacheBlocks (rollBlock :: rest) true.

Definition RollbackCache (hash : Hash) : M Ledger unit := λ l,
  if HasBlockCache l hash then BatchWrite (rollbackCache hash) l else (Ok tt, l).

Definition checkBlockCache (block : StateBlock) : M LS unit :=
  s ← getS;
  let rollbacks := List.filter (sameChain block) (GetBlockCaches (ls_led s)) in
  match rollbacks with
  | _ :: _ => wrapM "roll back cache blocks: %s" (rollbackCacheBlocks rollbacks false)
  | [] => wrapM "del account cache: %s" (rollbackCacheAccountDel (sb_Address block) (sb_Token block))
  end;;
  if SB.IsSendBlock block then
    iterM (λ b, if SB.GetHash block =? sb_Link b
                then wrapM "send block rollback link: %s" (rollbackCache (SB.GetHash b))
                else mret tt) (GetBlockCaches (ls_led s))
  else mret tt.

(** ** Confirmed blocks *)

(** Send blocks from [cur] back to the block [oldest]. *)
Fixpoint collectSends (fuel : nat) (l : Ledger) (oldest : Hash) (cur : StateBlock)
    (acc : gmap Hash Address) : res (gmap Hash Address) :=
  match fuel with
  | O => Err OutOfFuel
  | S fuel =>
      let acc := if SB.IsSendBlock cur then <[SB.GetHash cur := sb_Address cur]> acc else acc in
      if SB.GetHash cur =? oldest then Ok acc
      else
        cur ← wrapErr "can not get previous block %s" (GetStateBlockConfirmed l None (sb_Previous cur));
        collectSends fuel l oldest cur acc
  end.

(** The token meta and the head block of a block's chain. *)
Definition chainHead (l : Ledger) (block : StateBlock) : res (TokenMeta * StateBlock) :=
  tm ← wrapErr "get tokenmeta error: %s (%s)" (GetTokenMetaConfirmed l (sb_Address block) (sb_Token block));
  cur ← wrapErr "get block error: %s (%s)" (GetStateBlockConfirmed l None (tm_Header tm));
  Ok (tm, cur).

Definition sendBlocksInRollback (l : Ledger) (blocks : list StateBlock) : res (gmap Hash Address) :=
  foldl (λ acc oldestBlock,
    sendBlocks ← acc;
    '(_, cur) ← chainHead l oldestBlock;
    collectSends (chainFuel l) l (SB.GetHash oldestBlock) cur sendBlocks) (Ok ∅) blocks.

(** [true] when [aBlock] comes before [bBlock] on their chain.  The error of the
    token lookup is ignored and the nil meta dereferenced. *)
Fixpoint compareLoop (fuel : nat) (l : Ledger) (a b curHash : Hash) : res bool :=
  match fuel with
  | O => Err OutOfFuel
  | S fuel =>
      curBlock ← wrapErr "get block error %s" (GetStateBlockConfirmed l None curHash);
      if SB.GetHash curBlock =? a then Ok false
      else if SB.GetHash curBlock =? b then Ok true
      else if hash_IsZero (sb_Previous curBlock)
      then Err (Errorf "can not find blocks when block compare")
      else compareLoop fuel l a b (sb_Previous curBlock)
  end.

Definition blockOrderCompare (l : Ledger) (aBlock bBlock : StateBlock) : res bool :=
  if negb (sameChain aBlock bBlock) then Err (Errorf "can not compare block, %s %s")
  else match GetTokenMetaConfirmed l (sb_Address aBlock) (sb_Token aBlock) with
       | Ok tm => compareLoop (chainFuel l) l (SB.GetHash aBlock) (SB.GetHash bBlock) (tm_Header tm)
       | _ => Panic
       end.

Definition rollBackPendingUnlessSent (sendBlocks : gmap Hash Address) (blockCur : StateBlock)
    (add : M LS unit) : M LS unit :=
  match sendBlocks !! sb_Link blockCur with Some _ => mret tt | None => add end.

(** The records of one block, by type; [tm] is the token meta read before the loop. *)
Definition rollbackBlock (sendBlocks : gmap Hash Address) (tm : TokenMeta)
    (blockCur blockPre : StateBlock) : M LS StateBlock :=
  let cur := SB.GetHash blockCur in
  let toPrevious := rollBackToken tm blockPre;; rollBackFrontier (SB.GetHash blockPre) cur in
  match sb_Type blockCur with
  | Open =>
      rollBackTokenDel tm;;
      rollBackRep (sb_Representative blockCur) blockCur None false (sb_Token blockCur);;
      rollBackFrontier ZeroHash cur;;
      rollBackPendingUnlessSent sendBlocks blockCur
        (rollBackPendingAdd blockCur (tm_Balance tm) (sb_Token blockCur));;
      mret blockCur
  | Send =>
      toPrevious;;
      rollBackRep (sb_Representative blockCur) blockCur (Some blockPre) true (sb_Token blockCur);;
      rollBackPendingDel blockCur
  | Receive =>
      toPrevious;;
      rollBackRep (sb_Representative blockCur) blockCur (Some blockPre) false (sb_Token blockCur);;
      rollBackPendingUnlessSent sendBlocks blockCur
        (amount ← liftR (Bal.Sub (SB.GetBalance blockCur) (SB.GetBalance blockPre));
         rollBackPendingAdd blockCur amount (sb_Token blockCur));;
      mret blockCur
  | Change | Online =>
      toPrevious;;
      rollBackRepChange (sb_Representative blockPre) (sb_Representative blockCur) blockCur;;
      mret blockCur
  | ContractReward =>
      (if hash_IsZero (sb_Previous blockCur)
       then rollBackTokenDel tm;; rollBackFrontier ZeroHash cur else toPrevious);;
      rollBackPendingUnlessSent sendBlocks blockCur
        (rollBackPendingAdd blockCur Bal.ZeroBalance ZeroHash);;
      rollBackContractData blockCur;;
      mret blockCur
  | ContractSend =>
      toPrevious;;
      blockCur ← rollBackPendingDel blockCur;
      rollBackContractData blockCur;;
      mret blockCur
  | _ => mret blockCur
  end.

(** One chain, from the block [hashCur] down to [oldest].  The source wraps an error of
    a block's records in a message that names the stage; one message stands for all. *)
Fixpoint rollbackChain (fuel : nat) (sendBlocks : gmap Hash Address) (tm : TokenMeta) (oldest : Hash)
    (hashCur : Hash) (blockCur : StateBlock) : M LS unit :=
  match fuel with
  | O => failS OutOfFuel
  | S fuel =>
      blockPre ← (if negb (SB.IsOpen blockCur)
                  then wrapM "get previous block %s : %s"
                         (readS (λ s, GetStateBlockConfirmed (ls_led s) None (sb_Previous blockCur)))
                  else mret emptyBlock);
      blockCur ← wrapM "rollback fail(%s)" (rollbackBlock sendBlocks tm blockCur blockPre);
      wrapM "delete state block error: %s, %s" (DeleteStateBlock hashCur);;
      publish (EventRollback hashCur);;
      wrapM "roll back block cache error : %s" (checkBlockCache blockCur);;
      if hashCur =? oldest then mret tt
      else
        let hashCur := sb_Previous blockCur in
        blockCur ← wrapM "get previous block error %s, %s "
                     (readS (λ s, GetStateBlockConfirmed (ls_led s) None hashCur));
        rollbackChain fuel sendBlocks tm oldest hashCur blockCur
  end.

(** The two loops range over the same Go map, each in an order of its own. *)
Definition rollbackBlocks (order1 order2 : list StateBlock) : M LS unit :=
  sendBlocks ← readS (λ s, sendBlocksInRollback (ls_led s) order1);
  iterM (λ oldestBlock,
    '(tm, blockCur) ← readS (λ s, chainHead (ls_led s) oldestBlock);
    s ← getS;
    rollbackChain (chainFuel (ls_led s)) sendBlocks tm (SB.GetHash oldestBlock) (tm_Header tm) blockCur)
    order2.

(** *** The blocks to roll back

    The queue is a third-party one that refuses an element when it is full; the
    source ignores that answer.  [queueCap] is the number of elements it holds. *)
Variable queueCap : nat.

Definition queue_Put (q : list Hash) (h : Hash) : list Hash :=
  if (length q <? queueCap)%nat then q ++ [h] else q.

Definition chainKey (block : StateBlock) : Hash :=
  HashBytes [hash_bytes (sb_Address block); hash_bytes (sb_Token block)].

(** The oldest block to roll back of every chain. *)
Definition putRollback (l : Ledger) (m : gmap Hash StateBlock) (oldestBlock : StateBlock)
  : res (gmap Hash StateBlock) :=
  match m !! chainKey oldestBlock with
  | Some rBlock =>
      t ← blockOrderCompare l oldestBlock rBlock;
      Ok (if t : bool then <[chainKey oldestBlock := oldestBlock]> m else m)
  | None => Ok (<[chainKey oldestBlock := oldestBlock]> m)
  end.

(** The receiver of a send block, queued unless its chain is rolled back further. *)
Definition queueLink (l : Ledger) (m : gmap Hash StateBlock) (q : list Hash) (curBlock : StateBlock)
  : res (list Hash) :=
  linkHash ← match GetBlockLink l None (SB.GetHash curBlock) with
             | Ok h => Ok h
             | Err ErrLinkNotFound => Ok ZeroHash
             | Err _ => Err (Errorf "can not get link hash %s")
             | Panic => Panic
             end;
  if hash_IsZero linkHash then Ok q
  else
    linkBlock ← wrapErr "can not get link block %s" (GetStateBlockConfirmed l None linkHash);
    match m !! chainKey linkBlock with
    | Some rBlock =>
        t ← blockOrderCompare l linkBlock rBlock;
        Ok (if t : bool then queue_Put q (SB.GetHash linkBlock) else q)
    | None => Ok (queue_Put q (SB.GetHash linkBlock))
    end.

Fixpoint queueLinks (fuel : nat) (l : Ledger) (m : gmap Hash StateBlock) (oldest : Hash)
    (q : list Hash) (curBlock : StateBlock) : res (list Hash) :=
  match fuel with
  | O => Err OutOfFuel
  | S fuel =>
      q ← (if SB.IsSendBlock curBlock then queueLink l m q curBlock else Ok q);
      if SB.GetHash curBlock =? oldest then Ok q
      else
        curBlock ← wrapErr "can not get previous block %s"
                     (GetStateBlockConfirmed l None (sb_Previous curBlock));
        queueLinks fuel l m oldest q curBlock
  end.

Fixpoint gather (fuel : nat) (l : Ledger) (m : gmap Hash StateBlock) (q : list Hash)
  : res (gmap Hash StateBlock) :=
  match q with
  | [] => Ok m
  | oldestHash :: q =>
      match fuel with
      | O => Err OutOfFuel
      | S fuel =>
          oldestBlock ← wrapErr "can not get block  %s" (GetStateBlockConfirmed l None oldestHash);
          m ← putRollback l m oldestBlock;
          tm ← wrapErr "can not get account of block %s"
                 (GetTokenMetaConfirmed l (sb_Address oldestBlock) (sb_Token oldestBlock));
          headerBlock ← wrapErr "can not get header block %s" (GetStateBlockConfirmed l None (tm_Header tm));
          q ← queueLinks (chainFuel l) l m oldestHash q headerBlock;
          gather fuel l m q
      end
  end.

(** Between two blocks that lower an entry of the map no more blocks are taken
    from the queue than it can hold, and the map is lowered at most once per block. *)
Definition gatherFuel (l : Ledger) : nat := chainFuel l * S queueCap.

(** ** [Rollback]; [None] while the write cache is full *)
Variable order1 order2 : gmap Hash StateBlock → list StateBlock.

Definition Rollback (tick : bool) (hash : Hash) (l : Ledger) : option (res unit * Ledger) :=
  if HasBlockCache l hash then Some (RollbackCache hash l)
  else if negb (HasStateBlockConfirmed l hash) then Some (Ok tt, l)
  else match gather (gatherFuel l) l ∅ (queue_Put [] hash) with
       | Ok rollbackMap =>
           BatchUpdate tick
             (wrapM "rollback cache batch: %s" (rollbackBlocks (order1 rollbackMap) (order2 rollbackMap));;
              PutBatch) l
       | Err e => Some (Err e, l)
       | Panic => Some (Panic, l)
       end.
End rollback.
