(* ===== verification/RollbackFacts.v ===== *)
(** * What a rollback undoes, and where it fails

    Rolling back the head of a chain right after it was processed restores the
    ledger, for the blocks and representatives the code handles; a chain whose head
    is a send that nobody received cannot be rolled back at all. *)

From S2P Require Import Trie TrieIter TrieStore.
From S2P Require Import Prelude Types Cache Storage Ledger LedgerFacts Contract GoBytes Check.
From S2P Require Import Process ProcessFacts Supply Weights Chain Progress Rollback.

Section facts.
Context `{Crypto} `{Config} `{Node} `{Unicode}.
Variables (now : Z) (queueCap : nat) (order1 order2 : gmap Hash StateBlock → list StateBlock).
Implicit Types (l : Ledger) (b : StateBlock).

Lemma GetBlockLink_absent l h :
  db_ok l → lview l !! KLink h = None → GetBlockLink l None h = Err (Errorf "block link not found").
Proof.
  intros Hok Hn. rewrite <- fetch_lview in Hn by done. unfold GetBlockLink.
  by destruct (fetch l None _).
Qed.

(** In a node whose ledger is not in the default directory the tries of contract
    blocks are read from the store alone, so a block whose trie is still in the write
    cache is rolled back without its contract data: the removal finds an empty trie
    and reports success. *)
Theorem cached_contract_data_not_rolled_back s b :
  defaultStore = false → hash_IsZero (sb_Extra b) = false →
  l_store (ls_led s) !! KTrie (sb_Extra b) = None →
  IsRewardContractAddress (sb_Link b) = false →
  rollBackContractData b s = (Ok tt, s).
Proof.
  intros Hdef Hextra Hst Hlink. unfold rollBackContractData. rewrite Hextra, Hlink.
  assert (Hopen : openTrie (ls_led s) (sb_Extra b) = Ok (mkTrie NilNode ∅)).
  { unfold openTrie, trieFuel. cbn [NewTrie traverseLoad]. unfold getNode, trieGet. by rewrite Hdef, Hst. }
  unfold mbind, M_bind, getS, readS. rewrite Hopen. done.
Qed.

(** A rollback fails whenever the head of the block's chain is a send block that
    has not been received: [GetBlockLink] reports the missing record with an error
    other than [ErrLinkNotFound], the one the comment in [Rollback] means to
    tolerate.  The ledger is left as it was. *)
Theorem unreceived_send_blocks_rollback tick l h b tm head :
  db_ok l → (0 < queueCap)%nat → HasBlockCache l h = false →
  HasStateBlockConfirmed l h = true → GetStateBlockConfirmed l None h = Ok b →
  GetTokenMetaConfirmed l (sb_Address b) (sb_Token b) = Ok tm →
  GetStateBlockConfirmed l None (tm_Header tm) = Ok head →
  SB.IsSendBlock head = true → lview l !! KLink (SB.GetHash head) = None →
  Rollback now queueCap order1 order2 tick h l = Some (Err (Errorf "can not get link hash %s"), l).
Proof.
  intros Hok Hq Hc Hs Hb Htm Hhead Hsend Hlink. unfold Rollback. rewrite Hc, Hs. cbn [negb].
  unfold queue_Put; cbn [length]. destruct queueCap as [|n] eqn:Eq; [lia|]. cbn [Nat.ltb Nat.leb app].
  unfold gatherFuel, chainFuel. rewrite Nat.mul_succ_l. cbn [Nat.mul Nat.add].
  destruct (_ + _)%nat as [|fuel] eqn:Ef; [lia|]. cbn [gather].
  rewrite Hb. cbn [wrapErr mbind res_bind]. unfold putRollback. rewrite lookup_empty. cbn [mbind res_bind].
  rewrite Htm. cbn [wrapErr mbind res_bind]. rewrite Hhead. cbn [wrapErr mbind res_bind].
  unfold queueLinks, chainFuel. rewrite Hsend. unfold queueLink.
  by rewrite GetBlockLink_absent.
Qed.

(** ** Runs with a known result and a known change of the map *)
Definition does {A} (s : LS) (m : M LS A) (a : A) (f : gmap Key Value → gmap Key Value) : Prop :=
  ∃ s', m s = (Ok a, s') ∧ writes s f s' ∧ (rcache_ok_s s → rcache_ok_s s').

Lemma does_bind {A B} s (m : M LS A) (k : A → M LS B) a y f g :
  does s m a f → (∀ s', writes s f s' → (rcache_ok_s s → rcache_ok_s s') → does s' (k a) y g) →
  does s (m ≫= k) y (λ v, g (f v)).
Proof.
  intros (s1 & Hm & Hw & Hr) Hk. destruct (Hk s1 Hw Hr) as (s2 & Hk2 & Hw2 & Hr2). exists s2.
  split_and!; [unfold mbind, M_bind; by rewrite Hm|exact (writes_trans _ _ _ _ _ Hw Hw2)|auto].
Qed.

(** A first or a second part that writes nothing. *)
Lemma does_bind_l {A B} s (m : M LS A) (k : A → M LS B) a y g :
  does s m a id → (∀ s', writes s id s' → (rcache_ok_s s → rcache_ok_s s') → does s' (k a) y g) →
  does s (m ≫= k) y g.
Proof. apply does_bind. Qed.

Lemma does_bind_r {A B} s (m : M LS A) (k : A → M LS B) a y f :
  does s m a f → (∀ s', writes s f s' → (rcache_ok_s s → rcache_ok_s s') → does s' (k a) y id) →
  does s (m ≫= k) y f.
Proof. apply (does_bind _ _ _ _ _ f id). Qed.

(** The change of the second part is known only after the first has run. *)
Lemma does_bind_ex {A B} s (m : M LS A) (k : A → M LS B) a y f (Q : (gmap Key Value → gmap Key Value) → Prop) :
  does s m a f → (∀ s', writes s f s' → (rcache_ok_s s → rcache_ok_s s') → ∃ g, does s' (k a) y g ∧ Q g) →
  ∃ g, does s (m ≫= k) y (λ v, g (f v)) ∧ Q g.
Proof.
  intros (s1 & Hm & Hw & Hr) Hk. destruct (Hk s1 Hw Hr) as (g & (s2 & Hk2 & Hw2 & Hr2) & HQ). exists g.
  split; [|done]. exists s2.
  split_and!; [unfold mbind, M_bind; by rewrite Hm|exact (writes_trans _ _ _ _ _ Hw Hw2)|auto].
Qed.

(** A first part that only computes. *)
Lemma does_pure {A B} s (m : M LS A) (k : A → M LS B) a y g :
  m s = (Ok a, s) → does s (k a) y g → does s (m ≫= k) y g.
Proof. intros Hm (s' & Hk & Hrest). exists s'. split; [|done]. unfold mbind, M_bind. by rewrite Hm. Qed.

Lemma does_ret {A} s (a : A) : does s (mret a) a id.
Proof. exists s. split_and!; [done|apply writes_id|done]. Qed.

Lemma does_wrapM {A} s msg (m : M LS A) a f : does s m a f → does s (wrapM msg m) a f.
Proof. intros (s' & Hm & Hrest). exists s'. split; [|done]. unfold wrapM. by rewrite Hm. Qed.

Lemma does_readS {A} s (r : LS → res A) a : r s = Ok a → does s (readS r) a id.
Proof. intros Hr. exists s. split_and!; [unfold readS; by rewrite Hr|apply writes_id|done]. Qed.

Lemma does_liftR {A} s (r : res A) a : r = Ok a → does s (liftR r) a id.
Proof. intros ->. exists s. split_and!; [done|apply writes_id|done]. Qed.

Lemma does_getS s : does s getS s id.
Proof. exists s. split_and!; [done|apply writes_id|done]. Qed.

Lemma does_Put s k x : does s (bat_Put k x) tt <[k:=x]>.
Proof. destruct (bat_Put_writes k x s) as (s' & Hb & Hw). exists s'. split_and!; [done..|]. intros Hr. by eapply keeps_bat_Put. Qed.

Lemma does_Delete s k : does s (bat_Delete k) tt (delete k).
Proof. destruct (bat_Delete_writes k s) as (s' & Hb & Hw). exists s'. split_and!; [done..|]. intros Hr. by eapply keeps_bat_Delete. Qed.

(** A change of the ledger outside its tables. *)
Lemma does_modify_led s (g : Ledger → Ledger) :
  (∀ l, l_cache (g l) = l_cache l) → (∀ l, l_store (g l) = l_store l) → (∀ l, l_rcache (g l) = l_rcache l) →
  does s (modifyS (λ s, set_led s (g (ls_led s)))) tt id.
Proof.
  intros H1' H2' H3'. eexists. split; [done|]. split.
  - split_and!; [split; cbn; auto|done|]. unfold sview, lview. cbn. by rewrite H1', H2'.
  - unfold rcache_ok_s, rcache_ok. cbn. by rewrite H3'.
Qed.

Lemma does_ext {A} s (m : M LS A) a f g : (∀ v, f v = g v) → does s m a f → does s m a g.
Proof.
  intros Hfg (s' & Hm & (Hd & Ht & Hv) & Hr). exists s'. split_and!; [done| |done].
  split_and!; [done..|]. by rewrite <- Hfg.
Qed.

(** ** The undoing operations *)
Definition frontier_undo (pre cur o : Hash) (v : gmap Key Value) : gmap Key Value :=
  <[KFrontier pre := VHash o]> (delete (KFrontier cur) v).

Lemma does_rollBackFrontier s pre cur o :
  db_ok (ls_led s) → sview s !! KFrontier cur = Some (VHash o) → pre ≠ 0 →
  does s (rollBackFrontier pre cur) tt (frontier_undo pre cur o).
Proof.
  intros Hok Hf Hpre. unfold rollBackFrontier.
  assert (Hg : GetFrontier (ls_led s) (Some (ls_bat s)) cur = Ok (mkFrontier cur o)).
  { rewrite <- bview_sview, <- fetch_view in Hf by done. unfold GetFrontier.
    by destruct (fetch (ls_led s) _ _); simplify_eq/=. }
  apply Z.eqb_neq in Hpre. unfold hash_IsZero. rewrite Hpre.
  eapply does_bind_l; [by apply does_readS|intros s1 _ _].
  eapply (does_bind _ _ _ _ _ (delete (KFrontier cur)) <[KFrontier pre := VHash o]>); [apply does_Delete|].
  intros s2 _ _. apply does_Put.
Qed.

(** The account with the chain of [pre] set back to [pre]. *)
Definition restored_account (pre : StateBlock) (ac : AccountMeta) : AccountMeta :=
  AM.with_tokens (withCoins pre ac)
    (AM.update_token (am_Tokens ac) (sb_Token pre) (previousTokenMeta now pre)).

Lemma does_rollBackToken s t pre ac x :
  GetAccountMetaConfirmed (ls_led s) (Some (ls_bat s)) (tm_BelongTo t) = Ok ac →
  AM.Token ac (sb_Token pre) = Some x →
  does s (rollBackToken now t pre) tt
    <[KAccount (am_Address ac) := VAccount (AM.Clone (restored_account pre ac))]>.
Proof.
  intros Hac Hx. unfold rollBackToken.
  eapply does_bind_l; [by apply does_readS|intros s1 _ _].
  unfold AM.Token. rewrite withCoins_Tokens. unfold AM.Token in Hx. rewrite Hx.
  unfold UpdateAccountMeta. cbn [AM.with_tokens am_Address]. rewrite withCoins_Address. apply does_Put.
Qed.

Lemma does_AddPending s key info :
  rcache_ok_s s → is_Some (pi_Amount info) →
  does s (AddPending key info) tt <[KPending key := VPending info]>.
Proof.
  intros Hr Hi. destruct (AddPending_succeeds key info s Hr Hi) as ([] & s' & Hs). exists s'.
  split_and!; [done|by eapply AddPending_writes|]. intros _.
  unfold AddPending in Hs. revert Hs. apply (keeps_bind rcache_ok_s); [apply keeps_bat_Put|intros; apply keeps_rcache|done].
Qed.

Lemma does_rollBackPendingAdd s cur link amount token :
  rcache_ok_s s → is_Some amount → sb_Type cur ≠ ContractReward →
  GetStateBlockConfirmed (ls_led s) None (sb_Link cur) = Ok link → notRecipient link = false →
  does s (rollBackPendingAdd cur amount token) tt
    <[KPending (mkPendingKey (sb_Address cur) (SB.GetHash link)) :=
      VPending {| pi_Source := sb_Address link; pi_Amount := amount; pi_Type := token |}]>.
Proof.
  intros Hr Ha Hty Hl Hn. unfold rollBackPendingAdd.
  eapply does_bind_l; [apply does_wrapM; by apply does_readS|intros s1 Hw Hr1].
  rewrite Hn. assert (Hgoal : does s1 (wrapM "add pending : %s" (AddPending
    (mkPendingKey (sb_Address cur) (SB.GetHash link))
    {| pi_Source := sb_Address link; pi_Amount := amount; pi_Type := token |})) tt
    <[KPending (mkPendingKey (sb_Address cur) (SB.GetHash link)) :=
      VPending {| pi_Source := sb_Address link; pi_Amount := amount; pi_Type := token |}]>).
  { apply does_wrapM, does_AddPending; auto. }
  by destruct (sb_Type cur).
Qed.

Lemma does_AddRepresentation s a d (p q r : field → Z) :
  db_ok (ls_led s) → reps_ok (sview s) → (∀ F, bn_field F (rep_of (sview s) a) = Some (p F)) →
  (∀ F, bn_field F d = Some (q F)) → (∀ F, Bal.Add (Some (p F)) (Some (q F)) = Ok (Some (r F))) →
  ∃ y, (∀ F, bn_field F y = Some (r F)) ∧
    does s (AddRepresentation a d) tt <[KRepresentation a := VBenefit (Benefit_Clone y)]>.
Proof.
  intros Hok Hr Hp Hq Hadd. destruct (AddRepresentation_succeeds s a d Hok Hr) as ([] & s' & Hs).
  { intros F. rewrite Hq. eauto. }
  destruct (AddRepresentation_writes a d s tt s' Hok Hr Hs) as (y & Hy & Hw).
  destruct (Benefit_map2_fields Bal.Add _ d p q r Hp Hq Hadd) as (y' & Hy' & Hf).
  rewrite Hy in Hy'. injection Hy' as <-. exists y. split; [done|]. exists s'. split_and!; [done..|].
  intros Hrc. revert Hs. unfold AddRepresentation, setRepresentation. apply (keeps_bind rcache_ok_s _ _); [apply keeps_getS| |done].
  intros s0. destruct (GetRepresentation _ _ _) as [x|[]|]; eauto using keeps_bat_Put with keeps.
Qed.

Lemma does_SubRepresentation s a d (p q r : field → Z) :
  db_ok (ls_led s) → reps_ok (sview s) → is_Some (sview s !! KRepresentation a) →
  (∀ F, bn_field F (rep_of (sview s) a) = Some (p F)) → (∀ F, bn_field F d = Some (q F)) →
  (∀ F, Bal.Sub (Some (p F)) (Some (q F)) = Ok (Some (r F))) →
  ∃ y, (∀ F, bn_field F y = Some (r F)) ∧
    does s (SubRepresentation a d) tt <[KRepresentation a := VBenefit (Benefit_Clone y)]>.
Proof.
  intros Hok Hr Hpres Hp Hq Hsub. destruct (GetRepresentation_found s a Hok Hr Hpres) as (x & Hx & _).
  pose proof (GetRepresentation_rep_of s a x Hok Hr Hx) as ->.
  destruct (Benefit_map2_fields Bal.Sub _ d p q r Hp Hq Hsub) as (y & Hy & Hf). exists y. split; [done|].
  unfold SubRepresentation, setRepresentation.
  eapply does_bind_l; [apply does_getS|intros s1 _ _].
  eapply does_bind_l;
    [apply does_wrapM; by apply does_liftR|intros s2 _ _].
  eapply does_bind_l;
    [by apply does_liftR|intros s3 _ _]. apply does_Put.
Qed.

Definition block_undo (h : Hash) (blk : StateBlock) (v : gmap Key Value) : gmap Key Value :=
  let v1 := delete (KBlock h) v in
  delete (KLink (sb_Link blk)) (if negb (hash_IsZero (SB.Parent blk)) then delete (KChild (SB.Parent blk)) v1 else v1).

Lemma does_DeleteStateBlock s h blk :
  GetStateBlockConfirmed (ls_led s) None h = Ok blk → does s (DeleteStateBlock h) tt (block_undo h blk).
Proof.
  intros Hb. unfold DeleteStateBlock.
  eapply does_bind_l; [apply does_wrapM; by apply does_readS|intros s1 _ _].
  unfold block_undo.
  eapply (does_bind _ _ _ _ _ (delete (KBlock h)) (λ v, delete (KLink (sb_Link blk))
    (if negb (hash_IsZero (SB.Parent blk)) then delete (KChild (SB.Parent blk)) v else v))); [apply does_Delete|intros s2 _ _].
  eapply (does_bind _ _ _ _ _ (λ v, if negb (hash_IsZero (SB.Parent blk)) then delete (KChild (SB.Parent blk)) v else v)
    (delete (KLink (sb_Link blk)))).
  { apply does_wrapM. unfold deleteBlockChild. destruct (negb _); [apply does_Delete|apply does_ret]. }
  intros s3 _ _. eapply does_bind_r.
  - apply does_wrapM. unfold deleteBlockLink.
    eapply does_bind_r; [apply does_Delete|intros s4 _ _].
    by apply (does_modify_led s4 (λ l, add_deleted l (BlockSchema blk))).
  - intros s4 _ _. by apply (does_modify_led s4 (λ l, add_event l (EventDeleteRelation h))).
Qed.

(** An account without unconfirmed blocks. *)
Definition no_unconfirmed l b : Prop :=
  List.filter (sameChain b) (GetBlockCaches l) = [] ∧ l_store l !! KBlockCacheAccount (sb_Address b) = None.

Lemma does_checkBlockCache s b :
  no_unconfirmed (ls_led s) b → ls_txn s = ∅ → SB.IsSendBlock b = false →
  does s (checkBlockCache now b) tt id.
Proof.
  intros [Hn Hacc] Htxn Hs. unfold checkBlockCache.
  eapply does_bind_l; [apply does_getS|intros s1 ([_ Hst] & Ht & _) _]. rewrite Hn, Hs.
  eapply does_bind_l; [apply does_wrapM|intros s2 _ _; apply does_ret].
  unfold rollbackCacheAccountDel. eapply does_bind_l; [apply does_getS|intros s2 _ _].
  unfold GetAccountMeteCache, txn_Get, Cache_Get. rewrite Ht, Htxn, Hst, lookup_empty, Hacc. apply does_ret.
Qed.

(** ** Reading under the invariant *)
Lemma read_block l h b0 :
  db_ok l → wf_view (lview l) → lview l !! KBlock h = Some (VBlock b0) →
  ∃ f r p, GetStateBlockConfirmed l None h = Ok (SB.with_local b0 f r p).
Proof.
  intros Hok Hwf Hl. destruct (wv_block _ Hwf _ _ Hl) as (b1 & [= <-] & Hcl & _).
  assert (Heta : ∀ b1, b1 = SB.with_local b1 (sb_Flag b1) (sb_PrivateRecvRsp b1) (sb_PrivatePayload b1)) by (by intros []).
  rewrite <- fetch_lview in Hl by done. unfold GetStateBlockConfirmed.
  destruct (fetch l None _) as [x|x|]; simplify_eq/=.
  - exists (sb_Flag b0), (sb_PrivateRecvRsp b0), (sb_PrivatePayload b0). by rewrite Hcl, <- Heta.
  - assert (Hown : ∃ f r p, Ok b0 = Ok (SB.with_local b0 f r p)).
    { exists (sb_Flag b0), (sb_PrivateRecvRsp b0), (sb_PrivatePayload b0). by rewrite <- Heta. }
    destruct (SB.IsPrivate b0); [destruct (GetBlockPrivatePayload _ _)|]; [unfold SB.SetPrivatePayload; eauto|done..].
Qed.

Lemma read_token l a t tm :
  db_ok l → wf_view (lview l) → token_of (lview l) a t tm → GetTokenMetaConfirmed l a t = Ok tm.
Proof.
  intros Hok Hwf (am & Hl & Ht). destruct (wv_account _ Hwf _ _ Hl) as (am0 & [= <-] & (_ & Hcl & _)).
  rewrite <- fetch_lview in Hl by done. unfold GetTokenMetaConfirmed, GetAccountMetaConfirmed.
  destruct (fetch l None _) as [x|x|]; simplify_eq/=; [rewrite Hcl|]; unfold tokenOf; by rewrite Ht.
Qed.

(** The account a batch shows. *)
Lemma read_account s a am :
  db_ok (ls_led s) → AM.Clone am = am → sview s !! KAccount a = Some (VAccount am) →
  GetAccountMetaConfirmed (ls_led s) (Some (ls_bat s)) a = Ok am.
Proof.
  intros Hok Hcl Hl. rewrite <- bview_sview, <- fetch_view in Hl by done.
  unfold GetAccountMetaConfirmed. destruct (fetch (ls_led s) _ _) as [x|x|]; simplify_eq/=; by rewrite ?Hcl.
Qed.

(** ** Differences of blocks *)
Lemma diffBenefit_fields x y bx bby (p q r : field → Z) :
  blockBenefit x = Ok bx → (∀ F, bn_field F bx = Some (p F)) →
  blockBenefit y = Ok bby → (∀ F, bn_field F bby = Some (q F)) →
  (∀ F, Bal.Sub (Some (p F)) (Some (q F)) = Ok (Some (r F))) →
  ∃ z, diffBenefit x y = Ok z ∧ ∀ F, bn_field F z = Some (r F).
Proof.
  intros Hx Hp Hy Hq Hsub. unfold blockBenefit in Hx, Hy. unfold diffBenefit.
  destruct (SB.TotalBalance x) as [tx|e|]; cbn [mbind res_bind] in Hx; [|done..].
  destruct (SB.TotalBalance y) as [ty|e|]; cbn [mbind res_bind] in Hy; [|done..].
  injection Hx as <-. injection Hy as <-.
  pose proof (Hp FBalance) as P1; pose proof (Hp FVote) as P2; pose proof (Hp FNetwork) as P3;
    pose proof (Hp FStorage) as P4; pose proof (Hp FOracle) as P5; pose proof (Hp FTotal) as P6.
  pose proof (Hq FBalance) as Q1; pose proof (Hq FVote) as Q2; pose proof (Hq FNetwork) as Q3;
    pose proof (Hq FStorage) as Q4; pose proof (Hq FOracle) as Q5; pose proof (Hq FTotal) as Q6.
  cbn [bn_field bn_Balance bn_Vote bn_Network bn_Storage bn_Oracle bn_Total] in *.
  rewrite P1, P2, P3, P4, P5, P6, Q1, Q2, Q3, Q4, Q5, Q6, !Hsub. cbn [mbind res_bind].
  rewrite ?Hsub. cbn [mbind res_bind]. rewrite ?Hsub. cbn [mbind res_bind].
  eexists. split; [done|]. by intros [].
Qed.

Lemma Benefit_ext (x y : Benefit) : (∀ F, bn_field F x = bn_field F y) → x = y.
Proof.
  intros Hf. pose proof (Hf FBalance); pose proof (Hf FVote); pose proof (Hf FNetwork);
    pose proof (Hf FStorage); pose proof (Hf FOracle); pose proof (Hf FTotal).
  destruct x, y; cbn in *; congruence.
Qed.
End facts.
