(* ===== verification/Undo.v ===== *)
(** * Rolling back the head that was just processed

    [Rollback] of a receive, change or online block right after [Process] accepted
    it brings every table back to what it was: blocks, children, links, frontiers and
    pending transfers, the weights of all representatives, and the accounts up to the
    time stamp of the chain.  The conditions on the representatives are those the
    code needs: a receive block must keep the representative, since only the
    difference of the two blocks is taken back from it. *)

From S2P Require Import Prelude Types Cache Storage Ledger LedgerFacts Contract GoBytes Check.
From S2P Require Import Process ProcessFacts Supply Weights Chain Progress Rollback RollbackFacts.

(** ** Updates of one token meta *)
Lemma fmap_update_token (f g g' : TokenMeta → TokenMeta) ts tt :
  (∀ t, tm_Type (f t) = tm_Type t) → (∀ t, f (g t) = g' (f t)) →
  f <$> AM.update_token ts tt g = AM.update_token (f <$> ts) tt g'.
Proof.
  intros Hf Hg. induction ts as [|t ts IH]; cbn; [done|]. rewrite Hf.
  destruct (_ =? _); cbn; [by rewrite Hg|by rewrite IH].
Qed.

Lemma update_update_token (g h : TokenMeta → TokenMeta) ts tt :
  (∀ t, tm_Type (g t) = tm_Type t) →
  AM.update_token (AM.update_token ts tt g) tt h = AM.update_token ts tt (λ t, h (g t)).
Proof.
  intros Hg. induction ts as [|t ts IH]; cbn; [done|].
  destruct (tm_Type t =? tt) eqn:E; cbn; [by rewrite Hg, E|by rewrite E, IH].
Qed.

Lemma update_token_ext (g h : TokenMeta → TokenMeta) ts tt :
  (∀ t, AM.find_token ts tt = Some t → g t = h t) → AM.update_token ts tt g = AM.update_token ts tt h.
Proof.
  induction ts as [|t ts IH]; cbn; [done|]. destruct (_ =? _); intros Hgh; [by rewrite Hgh|].
  by rewrite IH.
Qed.

(** A meta, and an account, with a new time stamp. *)
Definition stamp (now : Z) (tm : TokenMeta) : TokenMeta :=
  {| tm_Type := tm_Type tm; tm_Header := tm_Header tm; tm_Representative := tm_Representative tm;
     tm_OpenBlock := tm_OpenBlock tm; tm_Balance := tm_Balance tm; tm_BelongTo := tm_BelongTo tm;
     tm_Modified := now; tm_BlockCount := tm_BlockCount tm |}.

Definition touch (now : Z) (t : Hash) (am : AccountMeta) : AccountMeta :=
  AM.with_tokens am (AM.update_token (am_Tokens am) t (stamp now)).

(** ** What a rollback restores *)
Definition exact_table (k : Key) : bool :=
  match k with KBlock _ | KChild _ | KLink _ | KFrontier _ | KPending _ => true | _ => false end.

Definition touched (now : Z) (b : StateBlock) (a : Address) (x : Value) : Value :=
  match x with
  | VAccount am => if decide (sb_Address b = a) then VAccount (touch now (sb_Token b) am) else x
  | _ => x
  end.

Record restored (now : Z) (b : StateBlock) (v w : gmap Key Value) : Prop := {
  rs_account : ∀ a, w !! KAccount a = touched now b a <$> v !! KAccount a;
  rs_exact : ∀ k, exact_table k = true → w !! k = v !! k;
  rs_rep : ∀ a, rep_of w a = rep_of v a;
}.

Lemma stake_fields am1 am2 :
  stake am1 = stake am2 →
  am_CoinVote am1 = am_CoinVote am2 ∧ am_CoinNetwork am1 = am_CoinNetwork am2 ∧
  am_CoinStorage am1 = am_CoinStorage am2 ∧ am_CoinOracle am1 = am_CoinOracle am2.
Proof. by intros [= -> -> -> ->]. Qed.

Section undo.
Context `{Crypto} `{Config} `{Node} `{Unicode}.
Context (now0 now : Z) (l l1 : Ledger) (b : StateBlock) (a0 : AccountMeta) (t : TokenMeta).
Context (f : gmap Key Value → gmap Key Value).
Context (Hl : sound l) (Hwl : weighed l) (Hreg : regular l b) (Hpass : BlockCheck l b = pass).
Context (Ham : account_read l b (Some a0)) (Htm : token_read (Some a0) b (Some t)).
Context (Hf : pending_effect l b f).
Context (Hrep : rep_effect b (Some a0) (Some t)
  (chain_writes now0 b (Some a0) (Some t) f (lview l)) (lview l1)).
Context (Hl1 : sound l1) (Hwl1 : weighed l1).

(** What processing the block left: the account, and the two blocks the rollback reads. *)
Definition next : AccountMeta := next_account now0 b (Some a0).

Context (cur pre : StateBlock).
Context (Hcur : GetStateBlockConfirmed l1 None (SB.GetHash b) = Ok cur).
Context (Hpre : GetStateBlockConfirmed l1 None (sb_Previous b) = Ok pre).

Lemma read_fields l' h x :
  sound l' → GetStateBlockConfirmed l' None h = Ok x →
  ∃ b0 fl r p, lview l' !! KBlock h = Some (VBlock b0) ∧ SB.GetHash b0 = h ∧ x = SB.with_local b0 fl r p.
Proof.
  intros Hs Hx. apply GetStateBlockConfirmed_Ok in Hx as (b0 & Hv & Hx); [|apply Hs].
  rewrite bview_None in Hv. destruct (wv_block _ (so_wf _ Hs) _ _ Hv) as (b1 & [= <-] & Hc & Hh).
  destruct Hx as [->|(fl & r & p & ->)]; [|by exists b0, fl, r, p].
  exists b0, (sb_Flag b0), (sb_PrivateRecvRsp b0), (sb_PrivatePayload b0). rewrite Hc.
  split_and!; [done..|]. by destruct b0.
Qed.

Lemma prev_head : sb_Previous b = tm_Header t.
Proof. exact (accepted_previous l b _ _ (so_db _ Hl) (so_wf _ Hl) Hreg Hpass Ham Htm). Qed.

Lemma old_token : token_of (lview l) (sb_Address b) (sb_Token b) t.
Proof. by apply (old_head l b (Some a0) (Some t) (so_db _ Hl) (so_wf _ Hl) Ham Htm). Qed.

Lemma old_account : lview l !! KAccount (sb_Address b) = Some (VAccount a0).
Proof. by destruct (account_read_view l b _ (so_db _ Hl) (so_wf _ Hl) Ham) as [? _]. Qed.

Lemma old_account_ok : account_ok (lview l) (sb_Address b) a0.
Proof. destruct (account_read_view l b _ (so_db _ Hl) (so_wf _ Hl) Ham) as [_ Ha]. by apply Ha. Qed.

Lemma cur_fields :
  SB.GetHash cur = SB.GetHash b ∧ sb_Type cur = sb_Type b ∧ sb_Balance cur = sb_Balance b ∧
  sb_Address cur = sb_Address b ∧ sb_Token cur = sb_Token b ∧ sb_Link cur = sb_Link b ∧
  sb_Previous cur = sb_Previous b ∧ sb_Representative cur = sb_Representative b ∧
  (sb_Token b = ChainToken → block_stake cur = block_stake b).
Proof.
  destruct (read_fields l1 _ cur Hl1 Hcur) as (b0 & fl & r & p & Hv & _ & ->).
  rewrite (plain_lookup_block now0 l b _ _ f _ _ _ Hf Hrep), decide_True in Hv by done. injection Hv as <-.
  destruct Hreg as (_ & Hb & _). split_and!; try done.
  - apply SBFacts.GetHash_Clone.
  - apply SBFacts.Clone_Type.
  - by apply BalFacts.wire_ok.
  - intros Ht. apply block_stake_Clone.
    apply (step_stake_nonneg now0 l b (lview l1) (Some a0) (Some t) f); try done; apply Hwl.
Qed.

Lemma pre_fields :
  SB.GetHash pre = sb_Previous b ∧ sb_Balance pre = tm_Balance t ∧ sb_Token pre = sb_Token b ∧
  sb_Representative pre = tm_Representative t ∧
  (sb_Token b = ChainToken → block_stake pre = stake a0 ∧ am_CoinBalance a0 = tm_Balance t).
Proof.
  destruct (read_fields l1 _ pre Hl1 Hpre) as (b0 & fl & r & p & Hv & Hh & ->).
  destruct (token_of_ok _ _ _ t (so_wf _ Hl) old_token) as [(_ & _ & b1 & Hb1 & Hbal & _ & Hty & Hrp) Ht].
  pose proof (step_keeps_block now0 l b (lview l1) _ _ f (so_db _ Hl) Hreg Hpass Hf Hrep _ _ Hb1) as Hb1'.
  rewrite prev_head, Hb1' in Hv. injection Hv as ->. split_and!; try done.
  - cbn. congruence.
  - intros Hc. pose proof (wl_coins _ Hwl _ _ old_account) as Hok. unfold token_read in Htm. rewrite Hc in Htm.
    destruct (Hok t Htm) as (? & _ & b2 & Hb2 & Hst). rewrite Hb1 in Hb2. injection Hb2 as <-. done.
Qed.
(** ** The account *)
Lemma next_tokens :
  am_Tokens next = AM.update_token (am_Tokens a0) (sb_Token b) (nextTokenMeta now0 b).
Proof.
  destruct old_account_ok as (_ & Hcl & _ & Hall). unfold next, next_account. cbn [account_next].
  rewrite Hcl. unfold nextAccount. cbn in Htm. rewrite Htm. cbn [AM.Clone AM.with_tokens am_Tokens].
  rewrite (fmap_update_token _ _ (nextTokenMeta now0 b)); [by rewrite (tokens_wire _ _ _ Hall)|done|].
  intros t'. unfold nextTokenMeta, AM.tm_wire, SB.GetBalance. cbn -[Bal.wire].
  destruct Hreg as (_ & Hb & _). by rewrite BalFacts.wire_ok.
Qed.

Lemma next_Token : AM.Token next (sb_Token b) = Some (nextTokenMeta now0 b t).
Proof.
  unfold AM.Token. rewrite next_tokens, AMFacts.find_update_token, Z.eqb_refl by done.
  cbn in Htm. unfold AM.Token in Htm. by rewrite Htm.
Qed.

Lemma next_coins_other :
  sb_Token b ≠ ChainToken → am_CoinBalance next = am_CoinBalance a0 ∧ stake next = stake a0.
Proof.
  intros Hne. destruct old_account_ok as (_ & Hcl & _).
  destruct (next_other now0 b (Some a0) Hne) as [_ Hfs]; [by intros ? [= <-]|]. by apply Hfs.
Qed.

Lemma next_Address : am_Address next = sb_Address b.
Proof.
  destruct old_account_ok as (Ha & _). apply (account_next_Address now0 b (Some a0)). by intros ? [= <-].
Qed.

Lemma account_undone : AM.Clone (restored_account now pre next) = touch now (sb_Token b) a0.
Proof.
  destruct pre_fields as (Hh & Hbal & Hty & Hrp & Hst). destruct old_account_ok as (Ha & Hcl & _ & Hall).
  assert (Htoks : AM.tm_wire <$> AM.update_token (am_Tokens next) (sb_Token pre) (previousTokenMeta now pre) =
    AM.update_token (am_Tokens a0) (sb_Token b) (stamp now)).
  { rewrite Hty, next_tokens, update_update_token by done.
    rewrite (update_token_ext _ (stamp now)).
    - rewrite (fmap_update_token _ _ (stamp now)) by done. by rewrite (tokens_wire _ _ _ Hall).
    - cbn in Htm. unfold AM.Token in Htm. rewrite Htm. intros t' [= <-].
      unfold previousTokenMeta, nextTokenMeta, stamp, SB.GetBalance. cbn. rewrite Hh, Hbal, Hrp, prev_head.
      f_equal. lia. }
  unfold restored_account, AM.Clone, touch. cbn [am_Tokens AM.with_tokens]. rewrite Htoks.
  pose proof next_Address as Hna. unfold AM.with_tokens at 1 2, withCoins. rewrite Hty.
  destruct (Z.eqb_spec (sb_Token b) ChainToken) as [Hc|Hc]; cbn [am_Address am_CoinBalance am_CoinVote
    am_CoinNetwork am_CoinStorage am_CoinOracle].
  - destruct (Hst Hc) as [Hs Hcb]. unfold block_stake, stake in Hs. injection Hs as -> -> -> ->.
    unfold SB.GetBalance, AM.with_tokens. by rewrite Hbal, Hcb, Hna, Ha.
  - destruct (next_coins_other Hc) as [Hcb (-> & -> & -> & ->)%stake_fields].
    unfold AM.with_tokens. by rewrite Hcb, Hna, Ha.
Qed.

(** ** The chain *)
Context (tm1 : TokenMeta) (Htm1 : GetTokenMetaConfirmed l1 (sb_Address b) (sb_Token b) = Ok tm1).
Context (Hnz : sb_Previous b ≠ 0).

Lemma new_account : lview l1 !! KAccount (sb_Address b) = Some (VAccount next).
Proof. exact (step_account now0 l b (lview l1) _ _ f (so_db _ Hl) (so_wf _ Hl) Ham Hf Hrep). Qed.

Lemma new_account_ok : account_ok (lview l1) (sb_Address b) next.
Proof. by destruct (wv_account _ (so_wf _ Hl1) _ _ new_account) as (am & [= <-] & Hok). Qed.

Lemma new_token :
  AM.Token next (sb_Token b) = Some tm1 ∧ tm_Header tm1 = SB.GetHash b ∧ tm_BelongTo tm1 = sb_Address b.
Proof.
  destruct new_account_ok as (_ & Hcl & _ & Hall).
  pose proof next_Token as Ht.
  assert (Hr : GetTokenMetaConfirmed l1 (sb_Address b) (sb_Token b) = Ok (nextTokenMeta now0 b t)).
  { apply read_token; [apply Hl1..|]. exists next. split; [apply new_account|done]. }
  rewrite Htm1 in Hr. injection Hr as ->. split_and!; [done..|].
  destruct old_account_ok as (_ & _ & _ & Hold). rewrite list.Forall_forall in Hold.
  destruct (Hold t) as (_ & ? & _); [|done]. by eapply AMFacts.find_token_elem.
Qed.

Definition undo_chain (w : gmap Key Value) : gmap Key Value :=
  frontier_undo (sb_Previous b) (SB.GetHash b) (tm_OpenBlock t)
    (<[KAccount (sb_Address b) := VAccount (touch now (sb_Token b) a0)]> w).

Lemma does_toPrevious s :
  same_db l1 (ls_led s) → sview s = lview l1 →
  does s (rollBackToken now tm1 pre;; rollBackFrontier (SB.GetHash pre) (SB.GetHash cur)) tt undo_chain.
Proof.
  intros Hs Hv. destruct new_token as (Ht & Hh & Hbt). destruct cur_fields as (Hch & _).
  destruct pre_fields as (Hph & _ & Hty & _). destruct new_account_ok as (Ha & Hcl & _).
  unfold undo_chain. rewrite Hch, Hph.
  eapply (does_bind _ _ _ _ _ <[KAccount (sb_Address b) := VAccount (touch now (sb_Token b) a0)]>).
  - rewrite <- account_undone, <- Ha. eapply does_rollBackToken; [|by rewrite Hty].
    rewrite Hbt. apply read_account; [by eapply db_ok_same, Hl1|done|]. rewrite Hv. apply new_account.
  - intros s1 (Hd & _ & Hv1) _. apply does_rollBackFrontier; [|rewrite Hv1, Hv; other_key|done].
    + eapply db_ok_same; [exact Hd|]. by eapply db_ok_same, Hl1.
    + by rewrite (plain_lookup_frontier now0 l b _ _ f _ _ _ Hf Hrep), decide_True.
Qed.

Lemma undo_chain_account w a :
  (∀ a, w !! KAccount a = lview l1 !! KAccount a) →
  undo_chain w !! KAccount a =
  if decide (sb_Address b = a) then Some (VAccount (touch now (sb_Token b) a0)) else lview l !! KAccount a.
Proof.
  intros Hw. unfold undo_chain, frontier_undo. other_key. destruct (decide (sb_Address b = a)) as [->|Hne].
  - apply lookup_insert_eq.
  - rewrite lookup_insert_ne by congruence. rewrite Hw, (plain_lookup_account now0 l b _ _ f _ _ _ Hf Hrep).
    rewrite account_next_Address, decide_False; [done..|]. intros ? [= <-]. apply old_account_ok.
Qed.

Lemma undo_chain_frontier w h :
  (∀ h, w !! KFrontier h = lview l1 !! KFrontier h) → undo_chain w !! KFrontier h = lview l !! KFrontier h.
Proof.
  intros Hw. destruct (co_frontier _ (so_chain _ Hl) _ _ _ old_token) as [Hfr _].
  destruct (head_confirmed l b (so_db _ Hl) (so_wf _ Hl) Hreg Hpass _ _ _ old_token) as [_ Hne].
  unfold undo_chain, frontier_undo. rewrite prev_head.
  destruct (decide (tm_Header t = h)) as [<-|Hh]; [by rewrite lookup_insert_eq|].
  rewrite lookup_insert_ne by congruence. destruct (decide (SB.GetHash b = h)) as [<-|Hb].
  - rewrite lookup_delete_eq. destruct (lview l !! KFrontier (SB.GetHash b)) as [x|] eqn:E; [|done].
    destruct (co_head _ (so_chain _ Hl) _ _ E) as (a & tk & tm' & Htok & Hd & _).
    destruct (head_confirmed l b (so_db _ Hl) (so_wf _ Hl) Hreg Hpass _ _ _ Htok) as [_ Hn]. congruence.
  - rewrite lookup_delete_ne by congruence. other_key. rewrite Hw.
    by rewrite (plain_lookup_frontier now0 l b _ _ f _ _ _ Hf Hrep), !decide_False.
Qed.

Lemma undo_chain_other w k :
  (∀ a, k ≠ KAccount a) → (∀ h, k ≠ KFrontier h) → undo_chain w !! k = w !! k.
Proof.
  intros Ha Hh. unfold undo_chain, frontier_undo.
  rewrite lookup_insert_ne by (intros Heq; by eapply Hh).
  rewrite lookup_delete_ne by (intros Heq; by eapply Hh).
  apply lookup_insert_ne. intros Heq; by eapply Ha.
Qed.

(** ** The weights *)
Context (Hbound : coins (lview l) < 2 ^ 63).
Context (Hrz : sb_Token b = ChainToken → tm_Representative t ≠ 0 ∧ sb_Representative b ≠ 0).

Lemma zero_rep : rep_of (lview l1) 0 = rep_of (lview l) 0.
Proof.
  pose proof (chain_writes_rep now0 l b (Some a0) (Some t) f (lview l) 0 Hf) as Hcw.
  pose proof Hrep as Hr. unfold rep_effect in Hr. destruct (Z.eqb_spec (sb_Token b) ChainToken) as [Hc|Hc].
  - destruct (Hrz Hc) as [H1' H2']. destruct Hr as (v2 & Hsub & (new & y & _ & _ & ->)).
    rewrite rep_of_insert, decide_False by done. unfold sub_stage in Hsub.
    destruct (negb _); [|subst; unfold rep_of; by rewrite Hcw].
    destruct Hsub as (old & z & _ & _ & ->). rewrite rep_of_insert, decide_False by done.
    unfold rep_of. by rewrite Hcw.
  - unfold rep_of. by rewrite Hr, Hcw.
Qed.

(** Sums that are back where they were. *)
Lemma weights_back w :
  rep_of w 0 = rep_of (lview l1) 0 →
  (∀ a F, a ≠ 0 → bn_field F (rep_of w a) = Some (delegated F a (lview l))) →
  ∀ a, rep_of w a = rep_of (lview l) a.
Proof.
  intros Hz Hw a. destruct (decide (a = 0)) as [->|Ha]; [by rewrite Hz, zero_rep|].
  apply Benefit_ext. intros F. by rewrite (Hw a F Ha), (wl_weights _ Hwl a F Ha).
Qed.

Lemma delegated_step F a :
  delegated F a (lview l1) = delegated F a (lview l) - delegation F a a0 + delegation F a next.
Proof. exact (step_sum now0 l b (lview l1) _ _ f (so_db _ Hl) (so_wf _ Hl) Ham Hf Hrep (delegation F a)). Qed.

Lemma coins_step : coins (lview l1) = coins (lview l).
Proof.
  exact (step_coins now0 l b (lview l1) _ _ f (so_db _ Hl) (so_wf _ Hl) (wl_coins _ Hwl) Hreg Hpass Ham Htm Hf Hrep).
Qed.

Lemma other_token_back a :
  sb_Token b ≠ ChainToken → rep_of (lview l1) a = rep_of (lview l) a.
Proof.
  intros Hc%Z.eqb_neq. pose proof Hrep as Hr. unfold rep_effect in Hr. rewrite Hc in Hr.
  unfold rep_of. by rewrite Hr, (chain_writes_rep now0 l).
Qed.

(** The bounds of the sums on both sides of the block. *)
Lemma sum_bounds F a :
  0 ≤ delegated F a (lview l) < 2 ^ 63 ∧ 0 ≤ delegated F a (lview l1) < 2 ^ 63.
Proof.
  pose proof (delegated_bounds (lview l) F a (so_wf _ Hl) (wl_coins _ Hwl)).
  pose proof (delegated_bounds (lview l1) F a (so_wf _ Hl1) (wl_coins _ Hwl1)) as Hb1.
  rewrite coins_step in Hb1. lia.
Qed.

Section coin.
Context (Hc : sb_Token b = ChainToken).

Lemma old_coin_token : AM.Token a0 ChainToken = Some t.
Proof. by rewrite <- Hc. Qed.

Lemma new_coin_token : AM.Token next ChainToken = Some tm1 ∧ tm_Representative tm1 = sb_Representative b.
Proof.
  destruct new_token as (Ht & _). rewrite Hc in Ht. split; [done|].
  destruct (next_coin now0 b (Some a0) Hc) as (_ & _ & t' & Ht' & Hr & _).
  change (AM.Clone (account_next now0 b (Some a0))) with next in Ht'. congruence.
Qed.

Lemma delegation_old F a : delegation F a a0 = if tm_Representative t =? a then am_field F a0 else 0.
Proof. unfold delegation, delegates. by rewrite old_coin_token. Qed.

Lemma delegation_new F a : delegation F a next = if sb_Representative b =? a then am_field F next else 0.
Proof. unfold delegation, delegates. destruct new_coin_token as [-> ->]. done. Qed.

(** An account with coins, on a ledger whose coins are bounded. *)
Lemma account_coin_fields v a am tm :
  wf_view v → coins_ok v → coins v < 2 ^ 63 → v !! KAccount a = Some (VAccount am) →
  AM.Token am ChainToken = Some tm → coin_fields am ∧ ∀ F, 0 ≤ am_field F am < 2 ^ 63.
Proof.
  intros Hwf Hco Hb Ha Ht. destruct (account_coins v a am Hwf Hco Ha) as [Hn|(Hn & Hs & _)]; [congruence|].
  pose proof (delegation_le_delegated v a am FTotal (tm_Representative tm) Hwf Hco Ha) as Hle.
  pose proof (delegated_bounds v FTotal (tm_Representative tm) Hwf Hco) as Hbd.
  unfold delegation, delegates in Hle. rewrite Ht, Z.eqb_refl in Hle.
  split; [split_and!; [done..|lia]|]. intros F. pose proof (am_field_le_total am F Hn Hs). lia.
Qed.

Lemma old_coin_fields : coin_fields a0 ∧ ∀ F, 0 ≤ am_field F a0 < 2 ^ 63.
Proof.
  exact (account_coin_fields (lview l) _ a0 t (so_wf _ Hl) (wl_coins _ Hwl) Hbound old_account old_coin_token).
Qed.

Lemma new_coin_fields : coin_fields next ∧ ∀ F, 0 ≤ am_field F next < 2 ^ 63.
Proof.
  refine (account_coin_fields (lview l1) _ next tm1 (so_wf _ Hl1) (wl_coins _ Hwl1) _ new_account _).
  - by rewrite coins_step.
  - apply new_coin_token.
Qed.

Lemma pre_benefit : ∃ y, blockBenefit pre = Ok y ∧ ∀ F, bn_field F y = Some (am_field F a0).
Proof.
  destruct pre_fields as (_ & Hbal & _ & _ & Hst). destruct (Hst Hc) as [Hs Hcb].
  apply blockBenefit_fields; [congruence|done|apply old_coin_fields].
Qed.

Lemma cur_benefit : ∃ y, blockBenefit cur = Ok y ∧ ∀ F, bn_field F y = Some (am_field F next).
Proof.
  destruct cur_fields as (_ & _ & Hbal & _ & _ & _ & _ & _ & Hst).
  destruct (next_coin now0 b (Some a0) Hc) as (Hcb & Hs & _).
  apply blockBenefit_fields; [by rewrite Hbal|by rewrite (Hst Hc)|apply new_coin_fields].
Qed.

(** The weight fields stay, the balance follows the block. *)
Lemma field_step F :
  am_field F next = am_field F a0 +
    match F with
    | FBalance | FTotal => Bal.amount (sb_Balance b) - Bal.amount (tm_Balance t)
    | _ => 0
    end.
Proof.
  destruct pre_fields as (_ & _ & _ & _ & Hst). destruct (Hst Hc) as [_ Hcb].
  destruct (next_coin now0 b (Some a0) Hc) as (Hnb & Hns & _).
  change (AM.Clone (account_next now0 b (Some a0))) with next in *.
  pose proof (accepted_stake l b (Some a0) (so_db _ Hl) (so_wf _ Hl) (wl_coins _ Hwl) Hc Hreg Hpass Ham) as Hk.
  unfold keeps_stake in Hk. cbn [mbind option_bind] in Hk. rewrite old_coin_token in Hk.
  destruct Hk as (? & [= <-] & Hk). rewrite Hk in Hns.
  assert (Hsd : staked next = staked a0) by (unfold staked; by rewrite Hns).
  apply stake_fields in Hns as (V1 & V2 & V3 & V4).
  destruct F; cbn [am_field]; rewrite ?Hsd, ?Hnb, ?Hcb, ?V1, ?V2, ?V3, ?V4; lia.
Qed.
End coin.

(** A change of the representation table alone, and the table as the block left it. *)
Definition rep_only (g : gmap Key Value → gmap Key Value) : Prop :=
  ∀ w k, (∀ a, k ≠ KRepresentation a) → g w !! k = w !! k.

Definition same_reps (w : gmap Key Value) : Prop :=
  ∀ a, w !! KRepresentation a = lview l1 !! KRepresentation a.

Lemma rep_only_insert a x : rep_only <[KRepresentation a := x]>.
Proof. intros w k Hk. apply lookup_insert_ne. intros Heq; by eapply Hk. Qed.

Lemma same_reps_of w a : same_reps w → rep_of w a = rep_of (lview l1) a.
Proof. intros Hw. unfold rep_of. by rewrite Hw. Qed.

Lemma same_reps_ok w : same_reps w → reps_ok w.
Proof. intros Hw a x. rewrite Hw. apply (wv_reps _ (so_wf _ Hl1)). Qed.

Lemma same_reps_fields w a F :
  same_reps w → a ≠ 0 → bn_field F (rep_of w a) = Some (delegated F a (lview l1)).
Proof. intros Hw Ha. rewrite same_reps_of by done. by apply (wl_weights _ Hwl1). Qed.

Lemma cur_rep_present w :
  same_reps w → sb_Token b = ChainToken → is_Some (w !! KRepresentation (sb_Representative b)).
Proof.
  intros Hw Hc. rewrite Hw. destruct (new_coin_token Hc) as [Ht <-].
  apply (so_reps _ Hl1 (sb_Address b)). exists next. split; [apply new_account|done].
Qed.

(** The amount a receive block takes from the pending transfer. *)
Lemma receive_facts :
  sb_Type b = Receive →
  f = delete (KPending (receivedKey b)) ∧ ∃ p,
    lview l !! KPending (receivedKey b) = Some (VPending p) ∧ pi_Type p = sb_Token b ∧
    Bal.Sub (sb_Balance b) (tm_Balance t) = Ok (pi_Amount p) ∧ is_Some (pi_Amount p) ∧
    Bal.amount (tm_Balance t) ≤ Bal.amount (sb_Balance b) ∧
    ∃ b0, lview l !! KBlock (sb_Link b) = Some (VBlock b0) ∧ sb_Address b0 = pi_Source p.
Proof.
  intros Hty. destruct Hreg as (_ & Hb & Hv & _).
  pose proof Hpass as Hp. apply (BlockCheck_pass l b receiveBlockCheck) in Hp; [|by rewrite Hty|done].
  apply receive_pass in Hp as (_ & _ & _ & _ & _ & _ & _ & p & tm & a & [Hget Hpt] & Htk & Hsub & Ha); [|done].
  destruct (token_read_Ok l b _ tm Ham Htk) as (? & [= <-] & Htk'). cbn in Htm.
  rewrite Htm in Htk'. injection Htk' as <-. split.
  { unfold pending_effect in Hf. rewrite Hty in Hf. destruct Hf as [(p' & _ & ->)|((e & He) & _)]; [done|].
    unfold receivedKey in He. congruence. }
  exists p. apply GetPending_Ok in Hget; [|apply Hl].
  destruct (wv_pending _ (so_wf _ Hl) _ _ Hget) as (p' & [= <-] & _ & Hpos & b0 & Hb0 & Hsrc).
  split_and!; [done|done|by rewrite Ha|by rewrite Ha| |by eauto].
  destruct (token_of_ok _ _ _ t (so_wf _ Hl) old_token) as [(Hbal & _) _]. rewrite Ha in Hpos. cbn in Hpos.
  destruct (tm_Balance t) as [z|], (sb_Balance b) as [y|]; [|done..]. cbn in Hbal, Hb |- *.
  rewrite BalFacts.Sub_ok in Hsub by lia. injection Hsub as Ha'. destruct (Z.leb_spec z y); lia.
Qed.

(** Writing back one sum. *)
Lemma rep_write_back w r y a F (n d : Z) :
  a ≠ 0 → bn_field F (rep_of w a) = Some n → (r = a → bn_field F y = Some (n + d)) → 0 ≤ n + d ∨ r ≠ a →
  bn_field F (rep_of (<[KRepresentation r := VBenefit (Benefit_Clone y)]> w) a) =
  Some (n + if r =? a then d else 0).
Proof. intros Ha Hn Hy Hd. apply rep_field_write; [done..|]. intros Hr. by destruct Hd. Qed.

Lemma does_receive_rep s :
  same_db l1 (ls_led s) → same_reps (sview s) → sb_Type b = Receive →
  (sb_Token b = ChainToken → sb_Representative b = tm_Representative t) →
  ∃ g, does s (rollBackRep (sb_Representative cur) cur (Some pre) false (sb_Token cur)) tt g ∧ rep_only g ∧
    ∀ w, same_reps w → ∀ a, rep_of (g w) a = rep_of (lview l) a.
Proof.
  intros Hs Hv Hty Hsame. destruct cur_fields as (_ & _ & _ & _ & -> & _ & _ & -> & _).
  unfold rollBackRep. destruct (Z.eqb_spec (sb_Token b) ChainToken) as [Hc|Hc].
  2: { exists id. split_and!; [apply does_ret|done|]. intros w Hw a. cbn. rewrite same_reps_of by done.
       by apply other_token_back. }
  specialize (Hsame Hc). destruct (Hrz Hc) as [_ Hr0]. destruct (receive_facts Hty) as (_ & p & _ & _ & _ & _ & Hle & _).
  destruct (old_coin_fields Hc) as [_ Hob]. destruct (new_coin_fields Hc) as [_ Hnb].
  pose proof (field_step Hc) as Hfs.
  assert (Hstep : ∀ F, delegated F (sb_Representative b) (lview l1) =
    delegated F (sb_Representative b) (lview l) - am_field F a0 + am_field F next).
  { intros F. by rewrite delegated_step, (delegation_old Hc), (delegation_new Hc), Hsame, Z.eqb_refl. }
  assert (Hmono : ∀ F, am_field F a0 ≤ am_field F next) by (intros F; rewrite Hfs; destruct F; lia).
  destruct (cur_benefit Hc) as (yc & Hyc & Hfc). destruct (pre_benefit Hc) as (yp & Hyp & Hfp).
  destruct (diffBenefit_fields cur pre yc yp _ _ (λ F, am_field F next - am_field F a0) Hyc Hfc Hyp Hfp)
    as (z & Hz & Hfz).
  { intros F. pose proof (Hob F); pose proof (Hnb F); pose proof (Hmono F). apply BalFacts.Sub_no_underflow; lia. }
  destruct (does_SubRepresentation s (sb_Representative b) z
    (λ F, delegated F (sb_Representative b) (lview l1)) (λ F, am_field F next - am_field F a0)
    (λ F, delegated F (sb_Representative b) (lview l))) as (y & Hy & Hd).
  { by eapply db_ok_same, Hl1. } { by apply same_reps_ok. } { by apply cur_rep_present. }
  { intros F. by apply same_reps_fields. } { done. }
  { intros F. pose proof (sum_bounds F (sb_Representative b)). pose proof (Hmono F). pose proof (Hob F).
    pose proof (Hnb F). rewrite BalFacts.Sub_no_underflow by (rewrite ?Hstep in *; lia). rewrite Hstep. do 2 f_equal. lia. }
  eexists. split_and!; [eapply does_pure; [by rewrite Hz|exact Hd]|apply rep_only_insert|].
  intros w Hw. apply weights_back.
  { by rewrite rep_of_insert, decide_False, same_reps_of by done. }
  intros a F Ha. rewrite (rep_write_back w _ y a F (delegated F a (lview l1)) (am_field F a0 - am_field F next)).
  - rewrite delegated_step, (delegation_old Hc), (delegation_new Hc), <- Hsame.
    destruct (_ =? _); f_equal; lia.
  - done.
  - by apply same_reps_fields.
  - intros <-. rewrite Hy, Hstep. f_equal. lia.
  - destruct (decide (sb_Representative b = a)) as [<-|]; [left|by right].
    pose proof (sum_bounds F (sb_Representative b)). rewrite Hstep. lia.
Qed.

(** A change block keeps the balance, so the account's contribution only moves. *)
Lemma change_facts :
  sb_Type b = Change ∨ sb_Type b = Online →
  f = id ∧ sb_Link b = 0 ∧ sb_Token b = ChainToken ∧ sb_Balance b = tm_Balance t.
Proof.
  intros Hty. assert (Hf' : f = id) by (unfold pending_effect in Hf; destruct Hty as [E|E]; by rewrite E in Hf).
  assert (Hck : sb_Link b = ZeroHash ∧ sb_Token b = ChainToken ∧ ∃ previous,
    GetStateBlockConfirmed l None (sb_Previous b) = Ok previous ∧ onHead l b previous ∧
    sb_Balance previous = sb_Balance b).
  { pose proof Hpass as Hp. destruct Hty as [E|E];
      [apply change_pass in Hp as (? & ? & _ & _ & previous & ? & ? & ? & _)|
       apply online_pass in Hp as (? & ? & _ & _ & previous & ? & ? & ? & _)]; eauto 10. }
  destruct Hck as (Hlk & Hc & previous & Hprev & Hhead & Hbal). split_and!; [done..|].
  assert (Htk : GetTokenMetaConfirmed l (sb_Address b) (sb_Token b) = Ok t)
    by (apply read_token; [apply Hl..|apply old_token]).
  destruct (head_balance l b previous _ t (so_db _ Hl) (so_wf _ Hl) Ham Htk Hprev Hhead) as (_ & Heq & _).
  congruence.
Qed.

(** The sums between the two halves of the exchange: the old representative has the
    account's weight back, the new one still has it. *)
Definition moved (w : gmap Key Value) : Prop :=
  ∀ a F, a ≠ 0 → bn_field F (rep_of w a) =
    Some (delegated F a (lview l1) + if tm_Representative t =? a then am_field F next else 0).

Section change.
Context (Hty : sb_Type b = Change ∨ sb_Type b = Online).

Lemma change_step F a :
  delegated F a (lview l) = delegated F a (lview l1) +
    (if tm_Representative t =? a then am_field F next else 0) -
    if sb_Representative b =? a then am_field F next else 0.
Proof.
  destruct (change_facts Hty) as (_ & _ & Hc & Hbal).
  assert (Hfe : am_field F next = am_field F a0) by (rewrite (field_step Hc), Hbal; destruct F; lia).
  rewrite delegated_step, (delegation_old Hc), (delegation_new Hc), Hfe.
  destruct (_ =? a), (_ =? a); lia.
Qed.

Lemma does_change_add s yc :
  same_db l1 (ls_led s) → same_reps (sview s) → (∀ F, bn_field F yc = Some (am_field F next)) →
  ∃ y, does s (AddRepresentation (tm_Representative t) yc) tt
         <[KRepresentation (tm_Representative t) := VBenefit (Benefit_Clone y)]> ∧
    ∀ w, same_reps w → moved (<[KRepresentation (tm_Representative t) := VBenefit (Benefit_Clone y)]> w).
Proof.
  intros Hs Hv Hfc. destruct (change_facts Hty) as (_ & _ & Hc & _). destruct (Hrz Hc) as [Hro _].
  destruct (new_coin_fields Hc) as [_ Hnb].
  destruct (does_AddRepresentation s (tm_Representative t) yc
    (λ F, delegated F (tm_Representative t) (lview l1)) (λ F, am_field F next)
    (λ F, delegated F (tm_Representative t) (lview l1) + am_field F next)) as (y & Hy & Hd).
  { by eapply db_ok_same, Hl1. } { by apply same_reps_ok. } { intros F. by apply same_reps_fields. } { done. }
  { intros F. pose proof (sum_bounds F (tm_Representative t)). pose proof (Hnb F). apply BalFacts.Add_no_overflow; lia. }
  exists y. split; [done|]. intros w Hw a F Ha.
  apply rep_write_back; [done|by apply same_reps_fields|by intros <-; apply Hy|].
  pose proof (sum_bounds F a). pose proof (Hnb F). left. lia.
Qed.

Lemma does_change_sub s yc :
  db_ok (ls_led s) → reps_ok (sview s) → moved (sview s) →
  is_Some (sview s !! KRepresentation (sb_Representative b)) → (∀ F, bn_field F yc = Some (am_field F next)) →
  ∃ y, does s (SubRepresentation (sb_Representative b) yc) tt
         <[KRepresentation (sb_Representative b) := VBenefit (Benefit_Clone y)]> ∧
    ∀ F, bn_field F y = Some (delegated F (sb_Representative b) (lview l)).
Proof.
  intros Hs Hr Hm Hpres Hfc. destruct (change_facts Hty) as (_ & _ & Hc & _). destruct (Hrz Hc) as [_ Hrn].
  destruct (new_coin_fields Hc) as [_ Hnb].
  destruct (does_SubRepresentation s (sb_Representative b) yc
    (λ F, delegated F (sb_Representative b) (lview l1) +
      if tm_Representative t =? sb_Representative b then am_field F next else 0) (λ F, am_field F next)
    (λ F, delegated F (sb_Representative b) (lview l))) as (y & Hy & Hd); [done..|by intros F; apply Hm|done| |by eauto].
  intros F. pose proof (change_step F (sb_Representative b)) as Hst. rewrite Z.eqb_refl in Hst.
  pose proof (sum_bounds F (sb_Representative b)). pose proof (Hnb F).
  rewrite BalFacts.Sub_no_underflow by (destruct (_ =? _); lia). do 2 f_equal. lia.
Qed.

Lemma moved_back w y :
  moved w → rep_of w 0 = rep_of (lview l1) 0 →
  (∀ F, bn_field F y = Some (delegated F (sb_Representative b) (lview l))) →
  ∀ a, rep_of (<[KRepresentation (sb_Representative b) := VBenefit (Benefit_Clone y)]> w) a = rep_of (lview l) a.
Proof.
  intros Hm Hz Hy. destruct (change_facts Hty) as (_ & _ & Hc & _). destruct (Hrz Hc) as [_ Hrn].
  apply weights_back; [by rewrite rep_of_insert, decide_False by done|]. intros a F Ha.
  rewrite (rep_write_back w _ y a F _ (- am_field F next) Ha (Hm a F Ha)).
  - rewrite (change_step F a). destruct (sb_Representative b =? a); f_equal; lia.
  - intros <-. rewrite Hy, (change_step F (sb_Representative b)), Z.eqb_refl. f_equal.
  - destruct (decide (sb_Representative b = a)) as [<-|]; [left|by right].
    pose proof (change_step F (sb_Representative b)) as Hst. rewrite Z.eqb_refl in Hst.
    pose proof (sum_bounds F (sb_Representative b)). lia.
Qed.

Lemma does_change_rep s :
  same_db l1 (ls_led s) → same_reps (sview s) →
  ∃ g, does s (rollBackRepChange (sb_Representative pre) (sb_Representative cur) cur) tt g ∧ rep_only g ∧
    ∀ w, same_reps w → ∀ a, rep_of (g w) a = rep_of (lview l) a.
Proof.
  intros Hs Hv. destruct cur_fields as (_ & _ & _ & _ & _ & _ & _ & -> & _).
  destruct pre_fields as (_ & _ & _ & -> & _). destruct (change_facts Hty) as (_ & _ & Hc & _).
  destruct (Hrz Hc) as [Hro _]. destruct (cur_benefit Hc) as (yc & Hyc & Hfc).
  destruct (does_change_add s yc Hs Hv Hfc) as (y1 & Hd1 & Hm1).
  destruct (does_bind_ex s (wrapM "add representation: %s" (AddRepresentation (tm_Representative t) yc))
    (λ _, SubRepresentation (sb_Representative b) yc) tt tt _
    (λ g, ∃ y, g = <[KRepresentation (sb_Representative b) := VBenefit (Benefit_Clone y)]> ∧
      ∀ F, bn_field F y = Some (delegated F (sb_Representative b) (lview l)))
    (does_wrapM _ _ _ _ _ Hd1)) as (g & Hd & y2 & -> & Hy2).
  { intros s1 (Hdb1 & _ & Hv1) _. destruct (does_change_sub s1 yc) as (y2 & Hd2 & Hy2); [..|done|by eauto].
    - eapply db_ok_same; [exact Hdb1|]. by eapply db_ok_same, Hl1.
    - rewrite Hv1. apply reps_ok_insert. by apply same_reps_ok.
    - rewrite Hv1. by apply Hm1.
    - rewrite Hv1, lookup_insert_is_Some. destruct (decide (tm_Representative t = sb_Representative b)) as [->|];
        [by left|right]. split; [congruence|by apply cur_rep_present]. }
  eexists. split_and!; [eapply does_pure; [by rewrite Hyc|exact Hd]|..].
  - intros w k Hk. rewrite rep_only_insert by done. by apply rep_only_insert.
  - intros w Hw. apply moved_back; [by apply Hm1| |done].
    by rewrite rep_of_insert, decide_False, same_reps_of by done.
Qed.
End change.

(** ** The records of the block *)

(** All records but the block itself, its child record and its link are back. *)
Record unwound (w : gmap Key Value) : Prop := {
  un_account : ∀ a, w !! KAccount a =
    if decide (sb_Address b = a) then Some (VAccount (touch now (sb_Token b) a0)) else lview l !! KAccount a;
  un_frontier : ∀ h, w !! KFrontier h = lview l !! KFrontier h;
  un_pending : ∀ pk, w !! KPending pk = lview l !! KPending pk;
  un_rep : ∀ a, rep_of w a = rep_of (lview l) a;
  un_block : ∀ h, w !! KBlock h = lview l1 !! KBlock h;
  un_child : ∀ h, w !! KChild h = lview l1 !! KChild h;
  un_link : ∀ h, w !! KLink h = lview l1 !! KLink h;
}.

Lemma undo_chain_reps : same_reps (undo_chain (lview l1)).
Proof. intros a. by rewrite undo_chain_other. Qed.

(** The chain, then the weights, then the pending transfer. *)
Lemma unwound_intro g1 g2 :
  rep_only g1 → (∀ w, same_reps w → ∀ a, rep_of (g1 w) a = rep_of (lview l) a) →
  (∀ w k, (∀ pk, k ≠ KPending pk) → g2 w !! k = w !! k) →
  (∀ w, (∀ pk, w !! KPending pk = lview l1 !! KPending pk) → ∀ pk, g2 w !! KPending pk = lview l !! KPending pk) →
  unwound (g2 (g1 (undo_chain (lview l1)))).
Proof.
  intros Hg1 Hrg Hg2 Hpg. split.
  - intros a. rewrite Hg2, Hg1 by done. by apply undo_chain_account.
  - intros h. rewrite Hg2, Hg1 by done. by apply undo_chain_frontier.
  - intros pk. apply Hpg. intros pk'. rewrite Hg1 by done. by apply undo_chain_other.
  - intros a. unfold rep_of. rewrite Hg2 by done. apply Hrg, undo_chain_reps.
  - intros h. rewrite Hg2, Hg1 by done. by apply undo_chain_other.
  - intros h. rewrite Hg2, Hg1 by done. by apply undo_chain_other.
  - intros h. rewrite Hg2, Hg1 by done. by apply undo_chain_other.
Qed.

Lemma does_rollback_change s :
  same_db l1 (ls_led s) → sview s = lview l1 → sb_Type b = Change ∨ sb_Type b = Online →
  ∃ g, does s (rollbackBlock now ∅ tm1 cur pre) cur g ∧ unwound (g (lview l1)).
Proof.
  intros Hs Hv Hty. destruct (change_facts Hty) as (Hfid & _).
  assert (Heq : rollbackBlock now ∅ tm1 cur pre =
    ((rollBackToken now tm1 pre;; rollBackFrontier (SB.GetHash pre) (SB.GetHash cur));;
     rollBackRepChange (sb_Representative pre) (sb_Representative cur) cur;; mret cur)).
  { destruct cur_fields as (_ & Hcty & _). unfold rollbackBlock. rewrite Hcty. by destruct Hty as [-> | ->]. }
  rewrite Heq.
  destruct (does_bind_ex s _ (λ _, rollBackRepChange (sb_Representative pre) (sb_Representative cur) cur;; mret cur)
    tt cur undo_chain (λ g, unwound (g (undo_chain (lview l1)))) (does_toPrevious s Hs Hv)) as (g & Hd & Hg); [|by eauto].
  intros s1 (Hdb & _ & Hv1) _. rewrite Hv in Hv1.
  destruct (does_change_rep Hty s1) as (g & Hd & Hon & Hrg);
    [by eapply same_db_trans|rewrite Hv1; apply undo_chain_reps|].
  exists g. split; [eapply does_bind_r; [exact Hd|intros s2 _ _; apply does_ret]|].
  apply (unwound_intro g id); [done..|]. intros w Hw pk. cbn. rewrite Hw.
  rewrite (plain_lookup_pending now0 l b _ _ f _ _ _ Hf Hrep), Hfid. by apply block_write_other.
Qed.

Definition linked (b0 : StateBlock) : Prop :=
  GetStateBlockConfirmed l1 None (sb_Link b) = Ok b0 ∧ notRecipient b0 = false.

Lemma does_receive_pending s link :
  same_db l1 (ls_led s) → rcache_ok_s s → sb_Type b = Receive → linked link →
  ∃ p, lview l !! KPending (receivedKey b) = Some (VPending p) ∧
    does s (amount ← liftR (Bal.Sub (SB.GetBalance cur) (SB.GetBalance pre));
            rollBackPendingAdd cur amount (sb_Token cur)) tt
      <[KPending (receivedKey b) := VPending p]>.
Proof.
  intros Hs Hr Hty [Hlk Hn]. destruct (receive_facts Hty) as (_ & p & Hp & Hpt & Hsub & Hsome & _ & b0 & Hb0 & Hsrc).
  destruct cur_fields as (_ & Hcty & Hbal & Haddr & Htok & Hlink & _). destruct pre_fields as (_ & Hpb & _).
  exists p. split; [done|]. unfold SB.GetBalance. rewrite Hbal, Hpb, Htok.
  eapply does_pure; [by rewrite Hsub|].
  destruct (read_fields l1 _ link Hl1 Hlk) as (b1 & fl & r & pl & Hb1 & Hh & ->).
  rewrite (step_keeps_block now0 l b (lview l1) _ _ f (so_db _ Hl) Hreg Hpass Hf Hrep _ _ Hb0) in Hb1.
  injection Hb1 as <-.
  assert (Hpi : p = {| pi_Source := sb_Address b0; pi_Amount := pi_Amount p; pi_Type := sb_Token b |})
    by (rewrite Hsrc, <- Hpt; by destruct p).
  assert (Hk : receivedKey b = mkPendingKey (sb_Address cur) (SB.GetHash (SB.with_local b0 fl r pl))).
  { unfold receivedKey. rewrite Haddr. f_equal. symmetry. exact Hh. }
  rewrite Hk. rewrite Hpi at 2.
  apply (does_rollBackPendingAdd s cur (SB.with_local b0 fl r pl)); [done..|congruence| |done].
  rewrite (GetStateBlockConfirmed_same_db l1) by done. by rewrite Hlink.
Qed.

Lemma does_rollback_receive s link :
  same_db l1 (ls_led s) → rcache_ok_s s → sview s = lview l1 → sb_Type b = Receive →
  (sb_Token b = ChainToken → sb_Representative b = tm_Representative t) → linked link →
  ∃ g, does s (rollbackBlock now ∅ tm1 cur pre) cur g ∧ unwound (g (lview l1)).
Proof.
  intros Hs Hr Hv Hty Hsame Hlink. destruct (receive_facts Hty) as (Hfid & _).
  assert (Heq : rollbackBlock now ∅ tm1 cur pre =
    ((rollBackToken now tm1 pre;; rollBackFrontier (SB.GetHash pre) (SB.GetHash cur));;
     rollBackRep (sb_Representative cur) cur (Some pre) false (sb_Token cur);;
     (amount ← liftR (Bal.Sub (SB.GetBalance cur) (SB.GetBalance pre));
      rollBackPendingAdd cur amount (sb_Token cur));; mret cur)).
  { destruct cur_fields as (_ & Hcty & _). unfold rollbackBlock, rollBackPendingUnlessSent.
    by rewrite Hcty, Hty, lookup_empty. }
  rewrite Heq.
  destruct (does_bind_ex s _ (λ _,
     rollBackRep (sb_Representative cur) cur (Some pre) false (sb_Token cur);;
     (amount ← liftR (Bal.Sub (SB.GetBalance cur) (SB.GetBalance pre));
      rollBackPendingAdd cur amount (sb_Token cur));; mret cur)
    tt cur undo_chain (λ g, unwound (g (undo_chain (lview l1)))) (does_toPrevious s Hs Hv)) as (g & Hd & Hg); [|by eauto].
  intros s1 (Hdb & _ & Hv1) Hr1. rewrite Hv in Hv1. pose proof (same_db_trans _ _ _ Hs Hdb) as Hs1.
  destruct (does_receive_rep s1) as (g & Hd & Hon & Hrg); [done|rewrite Hv1; apply undo_chain_reps|done..|].
  destruct (receive_facts Hty) as (_ & p & Hp & _).
  exists (λ w, <[KPending (receivedKey b) := VPending p]> (g w)). split.
  - eapply does_bind; [exact Hd|intros s2 (Hdb2 & _) Hr2].
    destruct (does_receive_pending s2 link) as (p' & Hp' & Hd2);
      [exact (same_db_trans _ _ _ Hs1 Hdb2)|auto|done..|].
    rewrite Hp in Hp'. injection Hp' as <-. eapply does_bind_r; [exact Hd2|intros s3 _ _; apply does_ret].
  - apply (unwound_intro g <[KPending (receivedKey b) := VPending p]>); [done..| |].
    + intros w k Hk. apply lookup_insert_ne. intros E; by eapply Hk.
    + intros w Hw pk. destruct (decide (receivedKey b = pk)) as [<-|Hne]; [by rewrite lookup_insert_eq|].
      rewrite lookup_insert_ne, Hw by congruence.
      rewrite (plain_lookup_pending now0 l b _ _ f _ _ _ Hf Hrep), Hfid, lookup_delete_ne by congruence.
      by apply block_write_other.
Qed.

(** ** The block itself *)
Context (Hcond : sb_Type b = Change ∨ sb_Type b = Online ∨
  (sb_Type b = Receive ∧ (sb_Token b = ChainToken → sb_Representative b = tm_Representative t) ∧
   ∃ link, linked link)).
Context (Hlk : lview l !! KLink (sb_Link b) = None).
Context (Hnu : no_unconfirmed l1 b).

Lemma not_send : SB.IsSendBlock cur = false.
Proof.
  destruct cur_fields as (_ & Hty & _). unfold SB.IsSendBlock. rewrite Hty.
  by destruct Hcond as [-> |[-> |[-> _]]].
Qed.

Lemma unwound_restored w : unwound w → restored now b (lview l) (block_undo (SB.GetHash b) cur w).
Proof.
  intros [Hacc Hfr Hpe Hre Hbl Hch Hli]. destruct cur_fields as (_ & _ & _ & _ & _ & Hlink & Hprev & _).
  assert (Hpar : SB.Parent cur = tm_Header t).
  { unfold SB.Parent, SB.IsOpen, hash_IsZero. rewrite Hprev. apply Z.eqb_neq in Hnz. by rewrite Hnz, prev_head. }
  assert (Hundo : block_undo (SB.GetHash b) cur w =
    delete (KLink (sb_Link b)) (delete (KChild (tm_Header t)) (delete (KBlock (SB.GetHash b)) w))).
  { unfold block_undo. rewrite Hpar, Hlink. unfold hash_IsZero. rewrite <- prev_head.
    apply Z.eqb_neq in Hnz. by rewrite Hnz. }
  destruct (co_frontier _ (so_chain _ Hl) _ _ _ old_token) as [_ Hnc]. rewrite Hundo. split.
  - intros a. other_key. rewrite Hacc. destruct (decide (sb_Address b = a)) as [<-|].
    + rewrite old_account. cbn. by rewrite decide_True.
    + destruct (lview l !! KAccount a) as [[]|]; cbn; by rewrite ?decide_False.
  - intros k Hk. destruct k; try discriminate Hk; other_key.
    + destruct (decide (SB.GetHash b = h)) as [<-|Hne].
      { rewrite lookup_delete_eq. symmetry. by apply (regular_fresh l b (so_db _ Hl)). }
      rewrite lookup_delete_ne by congruence. by rewrite Hbl, (plain_lookup_block now0 l b _ _ f _ _ _ Hf Hrep), decide_False.
    + apply Hfr.
    + apply Hpe.
    + destruct (decide (tm_Header t = h)) as [<-|Hne]; [by rewrite lookup_delete_eq, Hnc|].
      rewrite lookup_delete_ne by congruence. other_key. rewrite Hch, (plain_lookup_child now0 l b _ _ f _ _ _ Hf Hrep).
      destruct (has_parent b) eqn:Hp; [|done]. destruct (has_parent_Previous b Hp) as [-> _].
      by rewrite prev_head, bool_decide_eq_false_2.
    + destruct (decide (sb_Link b = h)) as [<-|Hne]; [by rewrite lookup_delete_eq|].
      rewrite lookup_delete_ne by congruence. other_key. rewrite Hli, (plain_lookup_link now0 l b _ _ f _ _ _ Hf Hrep).
      unfold link_write. destruct (sb_Type b); try done; by rewrite lookup_insert_ne by congruence.
  - intros a. unfold rep_of. other_key. apply Hre.
Qed.

Lemma does_rollbackChain fuel :
  ∃ g, does (mkLS l1 ∅ ∅) (rollbackChain now (S fuel) ∅ tm1 (SB.GetHash cur) (tm_Header tm1) cur) tt g ∧
    restored now b (lview l) (g (lview l1)).
Proof.
  set (s := mkLS l1 ∅ ∅). assert (Hs : same_db l1 (ls_led s)) by done.
  assert (Hv : sview s = lview l1) by apply overlay_empty.
  destruct new_token as (_ & Hh & _). destruct cur_fields as (Hch & _ & _ & Haddr & Htok & _ & Hprev & _).
  assert (Hblock : ∃ g, does s (rollbackBlock now ∅ tm1 cur pre) cur g ∧ unwound (g (lview l1))).
  { pose proof (so_rcache _ Hl1 : rcache_ok_s s) as Hrc.
    destruct Hcond as [Hty|[Hty|(Hty & Hsame & link & Hlink)]];
      [apply does_rollback_change; auto..|by apply (does_rollback_receive s link)]. }
  destruct Hblock as (g & Hd & Hun). exists (λ v, block_undo (SB.GetHash b) cur (g v)).
  split; [|by apply unwound_restored]. cbn [rollbackChain].
  assert (Hop : SB.IsOpen cur = false) by (unfold SB.IsOpen, hash_IsZero; rewrite Hprev; by apply Z.eqb_neq).
  rewrite Hop, Hh, Hch, Z.eqb_refl. cbn [negb].
  eapply does_pure; [unfold wrapM, readS; change (ls_led s) with l1; by rewrite Hprev, Hpre|].
  eapply does_bind; [apply does_wrapM; exact Hd|intros s1 (Hdb1 & Ht1 & _) _].
  eapply does_bind_r.
  { apply does_wrapM, does_DeleteStateBlock. by rewrite (GetStateBlockConfirmed_same_db l1). }
  intros s2 (Hdb2 & Ht2 & _) _. eapply does_bind_l; [by apply (does_modify_led s2 (λ l0, add_event l0 _))|].
  intros s3 (Hdb3 & Ht3 & _) _. eapply does_bind_l; [|intros s4 _ _; apply does_ret].
  apply does_wrapM, does_checkBlockCache; [|by rewrite Ht3, Ht2, Ht1|apply not_send].
  destruct Hnu as [Hn1 Hn2].
  assert (Hst : l_store (ls_led s3) = l_store l1)
    by (by destruct (same_db_trans _ _ _ (same_db_trans _ _ _ Hdb1 Hdb2) Hdb3)).
  unfold no_unconfirmed, GetBlockCaches, store_Iterator, sameChain in *. by rewrite Hst, Haddr, Htok.
Qed.

(** ** The whole rollback *)
Lemma chainHead_cur : chainHead l1 cur = Ok (tm1, cur).
Proof.
  destruct new_token as (_ & Hh & _). destruct cur_fields as (_ & _ & _ & Haddr & Htok & _).
  unfold chainHead. rewrite Haddr, Htok, Htm1. cbn [wrapErr mbind res_bind]. by rewrite Hh, Hcur.
Qed.

Lemma gather_cur queueCap :
  (0 < queueCap)%nat →
  gather queueCap (gatherFuel queueCap l1) l1 ∅ (queue_Put queueCap [] (SB.GetHash b)) =
  Ok {[chainKey cur := cur]}.
Proof.
  intros Hq. destruct new_token as (_ & Hh & _). destruct cur_fields as (Hch & _ & _ & Haddr & Htok & _).
  unfold queue_Put; cbn [length]. destruct queueCap as [|n] eqn:Eq; [lia|]. cbn [Nat.ltb Nat.leb app].
  unfold gatherFuel, chainFuel. rewrite Nat.mul_succ_l. cbn [Nat.mul Nat.add].
  destruct (_ + _)%nat as [|fuel] eqn:Ef; [lia|]. cbn [gather].
  rewrite Hcur. cbn [wrapErr mbind res_bind]. unfold putRollback. rewrite lookup_empty. cbn [mbind res_bind].
  rewrite Haddr, Htok, Htm1. cbn [wrapErr mbind res_bind]. rewrite Hh, Hcur. cbn [wrapErr mbind res_bind].
  unfold queueLinks, chainFuel. rewrite not_send. cbn [mbind res_bind]. rewrite Hch, Z.eqb_refl.
  cbn [mbind res_bind]. destruct fuel; by rewrite insert_empty.
Qed.

Lemma does_rollbackBlocks :
  ∃ g, does (mkLS l1 ∅ ∅) (rollbackBlocks now [cur] [cur]) tt g ∧ restored now b (lview l) (g (lview l1)).
Proof.
  destruct (does_rollbackChain (size (lview l1))) as (g & Hd & Hr). exists g. split; [|done].
  unfold rollbackBlocks. eapply does_pure.
  { unfold readS, sendBlocksInRollback. cbn [foldl ls_led mbind res_bind]. rewrite chainHead_cur.
    cbn [mbind res_bind]. unfold chainFuel. cbn [collectSends]. by rewrite not_send, Z.eqb_refl. }
  cbn [iterM]. eapply does_bind_r; [|intros s _ _; apply does_ret].
  eapply does_pure; [unfold readS; cbn [ls_led]; by rewrite chainHead_cur|].
  eapply does_pure; [done|]. exact Hd.
Qed.

Lemma Rollback_cur queueCap (order1 order2 : gmap Hash StateBlock → list StateBlock) tick lc :
  (0 < queueCap)%nat → order1 {[chainKey cur := cur]} = [cur] → order2 {[chainKey cur := cur]} = [cur] →
  HasBlockCache l1 (SB.GetHash b) = false → GetCache tick (l_cache l1) = Some lc →
  ∃ l2, Rollback now queueCap order1 order2 tick (SB.GetHash b) l1 = Some (Ok tt, l2) ∧
    restored now b (lview l) (lview l2).
Proof.
  intros Hq Ho1 Ho2 Hbc Hgc. destruct does_rollbackBlocks as (g & (s & Hs & (Hdb & Htxn & Hv) & _) & Hr).
  unfold Rollback. rewrite Hbc. assert (Hhas : HasStateBlockConfirmed l1 (SB.GetHash b) = true).
  { unfold HasStateBlockConfirmed. rewrite hasKey_lview by apply Hl1. apply bool_decide_eq_true.
    rewrite (plain_lookup_block now0 l b _ _ f _ _ _ Hf Hrep), decide_True by done. eauto. }
  rewrite Hhas. cbn [negb]. rewrite gather_cur, Ho1, Ho2 by done. unfold BatchUpdate.
  unfold mbind at 1, M_bind at 1, wrapM at 1. rewrite Hs. unfold PutBatch, modifyS. cbn [ls_txn] in Htxn.
  rewrite Htxn, overlay_empty. cbn [ls_led ls_bat l_cache l_store set_store].
  destruct Hdb as [Hc Hst]. cbn [ls_led] in Hc, Hst.
  destruct (Cache.BatchUpdate tick (l_cache (ls_led s)) (ls_bat s)) as [lc'|] eqn:Eb.
  2: { unfold Cache.BatchUpdate in Eb. by rewrite Hc, Hgc in Eb. }
  cbn [mbind option_bind]. eexists. split; [done|].
  destruct (BatchUpdate_ok tick _ _ lc' (l_store l1) (eq_ind_r (λ c, ring_ok c) (so_db _ Hl1) Hc) Eb) as [_ Hv'].
  unfold lview at 2. cbn [l_cache l_store set_cache set_store]. rewrite Hst, Hv', Hc.
  unfold sview in Hv at 1. rewrite (lview_same_db l1 (ls_led s)) in Hv by done.
  unfold lview in Hv at 1. rewrite Hv. unfold sview. cbn [ls_bat ls_led]. by rewrite overlay_empty.
Qed.
End undo.

Section roundtrip.
Context `{Crypto} `{Config} `{Node} `{Unicode}.
Implicit Types (l : Ledger) (b : StateBlock).

(** Go ranges over a map in some order of its values. *)
Definition ranges (order : gmap Hash StateBlock → list StateBlock) : Prop :=
  ∀ m, order m ≡ₚ (map_to_list m).*2.

Lemma ranges_singleton order h b : ranges order → order {[h := b]} = [b].
Proof.
  intros Hr. specialize (Hr {[h := b]}). rewrite map_to_list_singleton in Hr.
  by apply Permutation_singleton_r in Hr.
Qed.

(** The blocks a rollback undoes: representative changes, and receive blocks that
    keep the representative, with non-zero representatives on the coin chain. *)
Definition undoable l b : Prop :=
  (sb_Type b = Change ∨ sb_Type b = Online ∨ sb_Type b = Receive) ∧
  ∀ tm, GetTokenMetaConfirmed l (sb_Address b) (sb_Token b) = Ok tm → sb_Token b = ChainToken →
    tm_Representative tm ≠ 0 ∧ sb_Representative b ≠ 0 ∧
    (sb_Type b = Receive → sb_Representative b = tm_Representative tm).

(** The sent block is not one hidden from this node. *)
Definition link_readable l b : Prop :=
  sb_Type b = Receive →
  ∀ link, GetStateBlockConfirmed l None (sb_Link b) = Ok link → notRecipient link = false.

(** C10: a rollback undoes the last block.  When [Process] accepts a change or online
    block, or a receive block that keeps the representative, [Rollback] of that block
    succeeds and restores the ledger: the block, child, link, frontier and pending
    tables are exactly those before the block, every representative has its weight
    back, and the accounts differ at most in the time stamp of the chain.  The ledger
    satisfies the invariants with exact weights, its coins stay below 2^63, no block is
    stored under the zero hash and no link recorded under the link of the block.  The
    block is [regular]; on the chain token, old and new representative are set.  When
    the rollback starts, the account has no unconfirmed blocks, the block has no
    unconfirmed copy, the block received from can be read on this node and a write
    cache is free. *)
Theorem rollback_undoes_process now0 now queueCap order1 order2 tick0 tick l b l1 :
  sound l → weighed l → coins (lview l) < 2 ^ 63 →
  lview l !! KBlock ZeroHash = None → lview l !! KLink (sb_Link b) = None →
  regular l b → undoable l b → Process now0 tick0 b l = Some (pass, l1) →
  link_readable l1 b → no_unconfirmed l1 b → HasBlockCache l1 (SB.GetHash b) = false →
  (0 < queueCap)%nat → ranges order1 → ranges order2 → is_Some (GetCache tick (l_cache l1)) →
  ∃ l2, Rollback now queueCap order1 order2 tick (SB.GetHash b) l1 = Some (Ok tt, l2) ∧
    restored now b (lview l) (lview l2).
Proof.
  intros Hl Hwl Hb Hz Hlk Hreg [Hty Hu] Hp Hlr Hnu Hbc Hq Ho1 Ho2 [lc Hgc].
  pose proof (Process_sound now0 tick0 b l l1 Hl Hreg Hp) as Hl1.
  pose proof (Process_weighed now0 tick0 b l l1 Hwl Hreg Hp) as Hwl1.
  apply Process_pass in Hp as [Hpass Hp].
  apply BlockProcess_plain in Hp as [_ (am & tm & f & Ham & Htm & Hf & Hrep)]; [|by destruct Hreg|apply Hl|apply Hl].
  assert (Hno : sb_Type b ≠ Open) by (destruct Hty as [-> |[-> | ->]]; done).
  pose proof Hreg as (_ & _ & _ & Hown). destruct (Hown Hno) as [t Ht].
  destruct (token_read_Ok l b am t Ham Ht) as (a0 & -> & Ha). cbn in Htm. rewrite Ha in Htm. subst tm.
  change (AM.Token a0 (sb_Token b) = Some t) with (token_read (Some a0) b (Some t)) in Ha.
  pose proof (prev_head l b a0 t Hl Hreg Hpass Ham Ha) as Hprev.
  destruct (token_of_ok _ _ _ t (so_wf _ Hl) (old_token l b a0 t Hl Ham Ha)) as [(_ & _ & b0 & Hb0 & _) _].
  pose proof (step_keeps_block now0 l b (lview l1) _ _ f (so_db _ Hl) Hreg Hpass Hf Hrep) as Hkeep.
  destruct (read_block l1 (tm_Header t) b0) as (? & ? & ? & Hpre); [apply Hl1..|by apply Hkeep|].
  rewrite <- Hprev in Hpre.
  destruct (read_block l1 (SB.GetHash b) (SB.Clone b)) as (? & ? & ? & Hcur); [apply Hl1..| |].
  { by rewrite (plain_lookup_block now0 l b _ _ f _ _ _ Hf Hrep), decide_True. }
  assert (Htm1 : GetTokenMetaConfirmed l1 (sb_Address b) (sb_Token b) = Ok (nextTokenMeta now0 b t)).
  { apply read_token; [apply Hl1..|]. exists (next now0 b a0).
    split; [by apply (new_account now0 l l1 b a0 t f)|by apply (next_Token now0 l b a0 t)]. }
  eapply (Rollback_cur now0 now l l1 b a0 t f Hl Hwl Hreg Hpass Ham Ha Hf Hrep Hl1 Hwl1 _ _ Hcur Hpre);
    eauto using ranges_singleton.
  - rewrite Hprev. intros Hnz. rewrite Hnz in Hb0. unfold ZeroHash in Hz. congruence.
  - intros Hc. destruct (Hu t Ht Hc) as (? & ? & _). by split.
  - destruct Hty as [Hty|[Hty|Hty]]; [by left|by right; left|right; right]. split; [done|].
    split; [intros Hc; destruct (Hu t Ht Hc) as (_ & _ & Hs); by apply Hs|].
    destruct (receive_facts now0 l l1 b a0 t f Hl Hreg Hpass Ham Ha Hf Hrep Hty) as (_ & p & _ & _ & _ & _ & _ & bs & Hbs & _).
    destruct (read_block l1 (sb_Link b) bs) as (? & ? & ? & Hlink); [apply Hl1..|by apply Hkeep|].
    eexists. split; [exact Hlink|]. by apply Hlr.
Qed.
End roundtrip.
