(* ===== verification/Pov.v ===== *)
(** * Verification of proof-of-value blocks: [consensus/pov/pov_verifier.go], [pov_pow.go]

    The proof-of-value chain packs confirmed blocks of the ledger and rewards miners.  A
    block is verified by its hash, time, place in the chain, auxiliary header, target and
    proof of work, transactions and state.  The chain reader and the global state are
    interfaces of the verifier; here they are the class [PovChain].  Integers keep their
    width; an index out of range and a nil pointer are [Panic]. *)

From stdpp Require Import sorting.
From S2P Require Import Prelude Types Cache Storage Ledger Contract Check Merkle Target TrieStore.

(** ** Data: [common/types/block_pov.go], [block_pov_btc.go] *)
Record PovBtcHeader := mkPovBtcHeader {
  bh_Version : Z; bh_Previous : Hash; bh_MerkleRoot : Hash; bh_Timestamp : Z; bh_Bits : Z; bh_Nonce : Z }.
Record PovBtcTxIn := mkPovBtcTxIn {
  bti_Hash : Hash; bti_Index : Z; bti_SignatureScript : list Z; bti_Sequence : Z }.
Record PovBtcTxOut := mkPovBtcTxOut { bto_Value : Z; bto_PkScript : list Z }.
Record PovBtcTx := mkPovBtcTx {
  btx_Version : Z; btx_TxIn : list PovBtcTxIn; btx_TxOut : list PovBtcTxOut; btx_LockTime : Z }.

Record PovAuxHeader := mkPovAuxHeader {
  ah_AuxMerkleBranch : list Hash;
  ah_AuxMerkleIndex : Z;
  ah_ParCoinBaseTx : PovBtcTx;
  ah_ParCoinBaseMerkle : list Hash;
  ah_ParMerkleIndex : Z;
  ah_ParBlockHeader : PovBtcHeader;
}.

Record PovCoinBaseTxIn := mkPovCoinBaseTxIn {
  ti_PrevTxHash : Hash; ti_PrevTxIdx : Z; ti_Extra : list Z; ti_Sequence : Z }.
Record PovCoinBaseTxOut := mkPovCoinBaseTxOut { to_Value : Balance; to_Address : Address }.
Record PovCoinBaseTx := mkPovCoinBaseTx {
  cb_Version : Z;
  cb_TxIns : list PovCoinBaseTxIn;
  cb_TxOuts : list PovCoinBaseTxOut;
  cb_StateHash : Hash;
  cb_TxNum : Z;
}.

(** The caches of a header's targets are functions of its bits and version. *)
Record PovHeader := mkPovHeader {
  h_Version : Z;
  h_Previous : Hash;
  h_MerkleRoot : Hash;
  h_Timestamp : Z;
  h_Bits : Z;
  h_Nonce : Z;
  h_Hash : Hash;
  h_Height : Z;
  h_AuxHdr : option PovAuxHeader;
  h_CbTx : option PovCoinBaseTx;
}.

(** The body: the hashes of the transactions, the coinbase first. *)
Record PovBlock := mkPovBlock { pb_Header : PovHeader; pb_Txs : list Hash }.

(** ** Encodings *)
Definition LE_Uint32ToBytes (i : Z) : list Z := le_bytes 4 i.

Definition LE_EncodeVarInt (val : Z) : list Z :=
  if val <? 0xfd then [val]
  else if val <=? 0xffff then 0xfd :: le_bytes 2 val
  else if val <=? 0xffffffff then 0xfe :: le_bytes 4 val
  else 0xff :: le_bytes 8 val.

Definition varLen {A} (xs : list A) : list Z := LE_EncodeVarInt (Z.of_nat (length xs)).

Definition headerData (version : Z) (previous merkleRoot : Hash) (timestamp bits nonce : Z) : list Z :=
  LE_Uint32ToBytes version ++ hash_bytes previous ++ hash_bytes merkleRoot ++
  LE_Uint32ToBytes timestamp ++ LE_Uint32ToBytes bits ++ LE_Uint32ToBytes nonce.

Definition PovBtcHeader_BuildHashData (h : PovBtcHeader) : list Z :=
  headerData (bh_Version h) (bh_Previous h) (bh_MerkleRoot h) (bh_Timestamp h) (bh_Bits h) (bh_Nonce h).

Definition PovHeader_BuildHashData (h : PovHeader) : list Z :=
  headerData (h_Version h) (h_Previous h) (h_MerkleRoot h) (h_Timestamp h) (h_Bits h) (h_Nonce h).

Definition PovHeader_ComputeHash (h : PovHeader) : Hash := Sha256DHashData (PovHeader_BuildHashData h).

Definition PovBtcTxIn_BuildHashData (ti : PovBtcTxIn) : list Z :=
  hash_bytes (bti_Hash ti) ++ LE_Uint32ToBytes (bti_Index ti) ++
  varLen (bti_SignatureScript ti) ++ bti_SignatureScript ti ++ LE_Uint32ToBytes (bti_Sequence ti).

Definition PovBtcTxOut_BuildHashData (to : PovBtcTxOut) : list Z :=
  le_bytes 8 (bto_Value to) ++ varLen (bto_PkScript to) ++ bto_PkScript to.

Definition PovBtcTx_BuildHashData (tx : PovBtcTx) : list Z :=
  LE_Uint32ToBytes (btx_Version tx) ++
  varLen (btx_TxIn tx) ++ concat (PovBtcTxIn_BuildHashData <$> btx_TxIn tx) ++
  varLen (btx_TxOut tx) ++ concat (PovBtcTxOut_BuildHashData <$> btx_TxOut tx) ++
  LE_Uint32ToBytes (btx_LockTime tx).

Definition PovBtcTx_ComputeHash (tx : PovBtcTx) : Hash := Sha256DHashData (PovBtcTx_BuildHashData tx).

(** [TxIns[0]] panics without inputs. *)
Definition GetCoinBaseData1 (cbtx : PovCoinBaseTx) (ti : PovCoinBaseTxIn) : list Z :=
  LE_Uint32ToBytes (cb_Version cbtx) ++ LE_EncodeVarInt 1 ++
  hash_bytes (ti_PrevTxHash ti) ++ LE_Uint32ToBytes (ti_PrevTxIdx ti).

Definition GetCoinBaseData2 (cbtx : PovCoinBaseTx) (ti : PovCoinBaseTxIn) : list Z :=
  LE_Uint32ToBytes (ti_Sequence ti) ++ varLen (cb_TxOuts cbtx) ++
  concat ((λ to, hash_bytes (to_Address to) ++ Bal.Bytes (to_Value to)) <$> cb_TxOuts cbtx) ++
  hash_bytes (cb_StateHash cbtx) ++ LE_Uint32ToBytes (cb_TxNum cbtx).

Definition PovCoinBaseTx_BuildHashData (cbtx : PovCoinBaseTx) : res (list Z) :=
  match cb_TxIns cbtx with
  | [] => Panic
  | ti :: _ =>
      Ok (GetCoinBaseData1 cbtx ti ++ varLen (ti_Extra ti) ++ ti_Extra ti ++ GetCoinBaseData2 cbtx ti)
  end.

Definition PovCoinBaseTx_ComputeHash (cbtx : PovCoinBaseTx) : res Hash :=
  data ← PovCoinBaseTx_BuildHashData cbtx; Ok (Sha256DHashData data).

Definition ReverseByte (h : Hash) : Hash := be_combine (reverse (hash_bytes h)).

(** ** Algorithms: [pov_algo.go], [params_pov.go] *)
Definition ALGO_VERSION_MASK : Z := 255 * 2 ^ 8.
Definition ALGO_SHA256D : Z := 0.
Definition ALGO_SCRYPT : Z := 1 * 2 ^ 8.
Definition ALGO_NIST5 : Z := 2 * 2 ^ 8.
Definition ALGO_LYRA2Z : Z := 3 * 2 ^ 8.
Definition ALGO_X11 : Z := 4 * 2 ^ 8.
Definition ALGO_X16R : Z := 5 * 2 ^ 8.
Definition ALGO_HYBRID : Z := 254 * 2 ^ 8.

Definition GetAlgoType (h : PovHeader) : Z := Z.land (h_Version h) ALGO_VERSION_MASK.

Definition PovIsAlgoSupported (algoType : Z) : bool :=
  (algoType =? ALGO_SHA256D) || (algoType =? ALGO_SCRYPT) || (algoType =? ALGO_X11).

Definition GetAlgoEfficiency (h : PovHeader) : Z :=
  let algo := GetAlgoType h in
  if algo =? ALGO_SHA256D then 1
  else if algo =? ALGO_SCRYPT then 12984
  else if algo =? ALGO_NIST5 then 513
  else if algo =? ALGO_LYRA2Z then 1973648
  else if algo =? ALGO_X11 then 513
  else if algo =? ALGO_X16R then 257849
  else if algo =? ALGO_HYBRID then 1000000000
  else 1.

Definition GetAlgoTargetInt (h : PovHeader) : Z := CompactToBig (h_Bits h).

(** [big.Int.Div] rounds so that the remainder is not negative; the divisor is positive,
    so this is [Z.div]. *)
Definition GetNormTargetInt (h : PovHeader) : Z := GetAlgoTargetInt h / GetAlgoEfficiency h.

Definition PovChainTargetCycle : Z := 20.
Definition PovChainRetargetTimespan : Z := 60 * 20.
Definition PovChainMinRetargetTimespan : Z := PovChainRetargetTimespan / 4.
Definition PovChainMaxRetargetTimespan : Z := PovChainRetargetTimespan * 4.
Definition PovPowLimitInt : Z := 2 ^ 224 - 1.
Definition PovMaxAllowedFutureTimeSec : Z := 300.
Definition PovMinerVerifyHeightStart : Z := 1440.
Definition PovMinerRewardPerBlock : Z := 570776255.
Definition medianTimeBlocks : nat := 11.

(** ** What the verifier uses of the chain, the global state, and the hash functions of
    third parties *)
Class PovChain := {
  GetHeaderByHash : Hash → option PovHeader;
  tokenStateHash : Hash → Address → Hash → option Hash;   (* head of a chain in a global state *)
  repStateVote : Hash → Address → option Balance;         (* [GetRepState(addr).Vote] in a global state *)
  stateTrieExists : Hash → bool;
  TransitStateDB : Z → list StateBlock → Hash → res Hash; (* hash of the next global state *)
  MinerPledge : Balance;
  IsContractAddress : Address → bool;
  genesisPovHash : Hash;
  ScryptHashData : list Z → Hash;
  X11HashData : list Z → Hash;
}.

Section pov.
Context `{Crypto} `{Config} `{PovChain}.

(** ** The proof of work: [pov_pow.go] *)
Definition FFFFHash : Hash := 2 ^ 256 - 1.
Definition HybridHashData (data : list Z) : Hash :=
  X11HashData (hash_bytes (ScryptHashData (hash_bytes (Sha256DHashData data)))).

Definition powHashOf (algo : Z) (data : list Z) : Hash :=
  if algo =? ALGO_SHA256D then Sha256DHashData data
  else if algo =? ALGO_SCRYPT then ScryptHashData data
  else if algo =? ALGO_X11 then X11HashData data
  else if algo =? ALGO_HYBRID then HybridHashData data
  else FFFFHash.

Definition ComputePowHash (h : PovHeader) : Hash :=
  match h_AuxHdr h with
  | Some aux => powHashOf (GetAlgoType h) (PovBtcHeader_BuildHashData (ah_ParBlockHeader aux))
  | None => powHashOf (GetAlgoType h) (PovHeader_BuildHashData h)
  end.

(** [FindAncestor]: the heights on a chain decrease, so the loop ends within the height
    of the header. *)
Fixpoint findAncestor (fuel : nat) (cur : PovHeader) (height : Z) : option PovHeader :=
  match fuel with
  | O => None
  | S fuel' =>
      match GetHeaderByHash (h_Previous cur) with
      | None => None
      | Some prev =>
          if h_Height prev =? height then Some prev
          else if h_Height prev <? height then None
          else findAncestor fuel' prev height
      end
  end.

Definition FindAncestor (header : PovHeader) (height : Z) : option PovHeader :=
  if h_Height header <? height then None else findAncestor (S (Z.to_nat (h_Height header))) header height.

Definition RelativeAncestor (header : PovHeader) (distance : Z) : option PovHeader :=
  FindAncestor header (u64 (h_Height header - distance)).

(** The time the last cycle took, kept within a factor of four. *)
Definition actualTimespan (last first : PovHeader) : Z :=
  let t := if h_Timestamp first <? h_Timestamp last then h_Timestamp last - h_Timestamp first else 1 in
  if t <? PovChainMinRetargetTimespan then PovChainMinRetargetTimespan
  else if PovChainMaxRetargetTimespan <? t then PovChainMaxRetargetTimespan
  else t.

Definition nextNormTarget (oldTargetInt timespan : Z) : Z :=
  let next := oldTargetInt * timespan / PovChainRetargetTimespan in
  if PovPowLimitInt <? next then PovPowLimitInt else next.

Definition ErrPovUnknownAncestor : error := Errorf "unknown pov ancestor".

Definition calcNextRequiredTarget (lastHeader curHeader : PovHeader) : res Z :=
  if negb (u64 (h_Height lastHeader + 1) mod PovChainTargetCycle =? 0) then
    Ok (BigToCompact (GetNormTargetInt lastHeader * GetAlgoEfficiency curHeader))
  else
    match RelativeAncestor lastHeader (PovChainTargetCycle - 1) with
    | None => Err ErrPovUnknownAncestor
    | Some firstHeader =>
        let next := nextNormTarget (GetNormTargetInt lastHeader) (actualTimespan lastHeader firstHeader) in
        Ok (BigToCompact (next * GetAlgoEfficiency curHeader))
    end.

Definition verifyTarget (header : PovHeader) : res unit :=
  match GetHeaderByHash (h_Previous header) with
  | None => Err (Errorf "failed to get previous header")
  | Some prevHeader =>
      expected ← calcNextRequiredTarget prevHeader header;
      if negb (expected =? h_Bits header) then Err (Errorf "target not equal next required target")
      else if GetAlgoTargetInt header <? HashToBig (ComputePowHash header)
      then Err (Errorf "pow hash greater than target")
      else Ok tt
  end.

(** [h.CbTx.TxOuts[0].Address]. *)
Definition GetMinerAddr (h : PovHeader) : res Address :=
  match h_CbTx h with
  | Some cb => match cb_TxOuts cb with out :: _ => Ok (to_Address out) | [] => Panic end
  | None => Panic
  end.

Definition GetStateHash (h : PovHeader) : res Hash :=
  match h_CbTx h with Some cb => Ok (cb_StateHash cb) | None => Panic end.

Definition verifyProducer (header : PovHeader) : res unit :=
  pledge ← match MinerPledge with Some p => Ok p | None => Panic end;
  if pledge <=? 0 then Ok tt
  else if h_Height header <? PovMinerVerifyHeightStart then Ok tt
  else
    match GetHeaderByHash (h_Previous header) with
    | None => Err (Errorf "failed to get previous header")
    | Some prevHeader =>
        prevStateHash ← GetStateHash prevHeader;
        if negb (stateTrieExists prevStateHash) then Err (Errorf "failed to get previous state tire")
        else
          addr ← GetMinerAddr header;
          match repStateVote prevStateHash addr with
          | None => Err (Errorf "failed to get rep state")
          | Some vote =>
              c ← Bal.Compare vote MinerPledge;
              if bool_decide (c = BalanceCompSmaller) then Err (Errorf "pledge amount not enough") else Ok tt
          end
    end.

Definition VerifyHeader (header : PovHeader) : res unit := verifyTarget header;; verifyProducer header.

(** ** The verifier: [pov_verifier.go] *)
Definition reject (r : ProcessResult) (msg : string) : verdict := Verdict r (Some (Errorf msg)).

Definition fromRes {A} (r : res A) (k : A → verdict) (onErr : error → verdict) : verdict :=
  match r with Ok a => k a | Err e => onErr e | Panic => CheckPanic end.

Definition verifyDataIntegrity (block : PovBlock) : verdict :=
  let h := pb_Header block in
  if negb (PovIsAlgoSupported (GetAlgoType h)) then reject BadConsensus "unknown algo"
  else if (h_Height h =? 0) && negb (h_Hash h =? genesisPovHash) then reject BadHash "bad genesis block hash"
  else if hash_IsZero (h_Hash h) || negb (PovHeader_ComputeHash h =? h_Hash h) then reject BadHash "bad hash"
  else pass.

Definition verifyTimestamp (now : Z) (block : PovBlock) : verdict :=
  let ts := h_Timestamp (pb_Header block) in
  if ts =? 0 then reject InvalidTime "timestamp is zero"
  else if u32 (now + PovMaxAllowedFutureTimeSec) <? ts then reject InvalidTime "timestamp too far from future"
  else pass.

(** The timestamps of the last headers, the latest first. *)
Fixpoint pastTimes (n : nat) (h : PovHeader) : list Z :=
  match n with
  | O => []
  | S n' =>
      h_Timestamp h ::
      match GetHeaderByHash (h_Previous h) with Some h' => pastTimes n' h' | None => [] end
  end.

Definition CalcPastMedianTime (prevHeader : PovHeader) : Z :=
  let timestamps := merge_sort Z.le (pastTimes medianTimeBlocks prevHeader) in
  nth (length timestamps / 2) timestamps 0.

Definition verifyReferred (block : PovBlock) : verdict :=
  let h := pb_Header block in
  match GetHeaderByHash (h_Previous h) with
  | None => Verdict GapPrevious None
  | Some prev =>
      if negb (h_Height h =? u64 (h_Height prev + 1)) then reject InvalidHeight "height not continue with previous"
      else if h_Timestamp h <? CalcPastMedianTime prev
      then reject InvalidTime "timestamp not greater than median time"
      else pass
  end.

(** *** The auxiliary header *)

(** [strings.Index]; [None] is -1. *)
Fixpoint Index (s substr : list Z) : option nat :=
  if has_prefix s substr then Some O
  else match s with [] => None | _ :: s' => S <$> Index s' substr end.

(** [script[i:i+4]] read as a little-endian number.  The capacity of a decoded slice is
    taken to be its length. *)
Definition Uint32At (script : list Z) (i : nat) : res Z :=
  if (i + 4 <=? length script)%nat then Ok (le_combine (take 4 (drop i script))) else Panic.

Definition PovAuxPowHeaderMagic : list Z := [0xfa; 0xbe; 0x6d; 0x6d].
Definition PovAuxPowChainID : Z := 1688.

Definition verifyAuxHeader (block : PovBlock) : verdict :=
  match h_AuxHdr (pb_Header block) with
  | None => pass
  | Some ap =>
      let parTx := ah_ParCoinBaseTx ap in
      let calcParMR :=
        CalcMerkleRootByIndex (PovBtcTx_ComputeHash parTx) (ah_ParCoinBaseMerkle ap) (ah_ParMerkleIndex ap) in
      if negb (calcParMR =? bh_MerkleRoot (ah_ParBlockHeader ap))
      then reject BadAuxHeader "parent merkle root not equal"
      else
        let hashAuxBlock := ReverseByte (h_Hash (pb_Header block)) in
        let auxRootHash := CalcMerkleRootByIndex hashAuxBlock (ah_AuxMerkleBranch ap) (ah_AuxMerkleIndex ap) in
        match btx_TxIn parTx with
        | [] => CheckPanic
        | ti :: _ =>
            let script := bti_SignatureScript ti in
            let scriptStr := hexEncode script in
            let rootStr := hexEncode (hash_bytes (ReverseByte auxRootHash)) in
            let magicStr := hexEncode PovAuxPowHeaderMagic in
            match Index scriptStr magicStr, Index scriptStr rootStr with
            | None, _ => reject BadAuxHeader "coinbase aux magic not exist"
            | _, None => reject BadAuxHeader "coinbase aux root hash not exist"
            | Some headerIndex, Some rootHashIndex =>
                if bool_decide (is_Some (Index (drop (headerIndex + 2) scriptStr) magicStr))
                then reject BadAuxHeader "coinbase aux magic not exist"
                else if negb (headerIndex + length magicStr =? rootHashIndex)%nat
                then reject BadAuxHeader "coinbase aux root hash not exist"
                else
                  let rootHashIndex := (rootHashIndex + length rootStr)%nat in
                  if (length scriptStr - rootHashIndex <? 8)%nat
                  then reject BadAuxHeader "coinbase script size too small"
                  else
                    let merkleHeight := Z.of_nat (length (ah_AuxMerkleBranch ap)) in
                    fromRes (Uint32At script (rootHashIndex / 2)) (λ size,
                      if negb (size =? u32 (Z.shiftl 1 (u32 merkleHeight)))
                      then reject BadAuxHeader "aux merkle branch height not equal"
                      else
                        fromRes (Uint32At script (rootHashIndex / 2 + 4)) (λ nonce,
                          fromRes (CalcAuxPowExpectedIndex nonce PovAuxPowChainID merkleHeight) (λ index,
                            if negb (ah_AuxMerkleIndex ap =? index)
                            then reject BadAuxHeader "aux merkle index not equal"
                            else pass)
                          (λ e, Verdict BadAuxHeader (Some e)))
                        (λ e, Verdict BadAuxHeader (Some e)))
                    (λ e, Verdict BadAuxHeader (Some e))
            end
        end
  end.

Definition verifyConsensus (block : PovBlock) : verdict :=
  fromRes (VerifyHeader (pb_Header block)) (λ _, pass) (λ e, Verdict BadConsensus (Some e)).

(** *** Transactions *)

(** [CalcBlockReward]: the shares of the miner and of the representatives. *)
Definition CalcBlockReward : Balance * Balance :=
  (Some (PovMinerRewardPerBlock * 60 / 100), Some (PovMinerRewardPerBlock * 40 / 100)).

Definition bigger (a b : Balance) : res bool :=
  c ← Bal.Compare a b; Ok (bool_decide (c = BalanceCompBigger)).

Definition verifyCoinBaseTx (cbTx : PovCoinBaseTx) : verdict :=
  match cb_TxOuts cbTx with
  | miner :: rest =>
      if to_Address miner =? 0 then reject BadCoinbase "miner address is zero"
      else match rest with
      | rep :: _ =>
          if to_Address rep =? 0 then reject BadCoinbase "rep address is zero"
          else
            fromRes (bigger (to_Value miner) CalcBlockReward.1) (λ b,
              if (b : bool) then reject BadCoinbase "miner got bad reward"
              else
                fromRes (bigger (to_Value rep) CalcBlockReward.2) (λ b,
                  if (b : bool) then reject BadCoinbase "rep got bad reward" else pass)
                (λ e, Verdict BadCoinbase (Some e)))
            (λ e, Verdict BadCoinbase (Some e))
      | [] => CheckPanic
      end
  | [] => CheckPanic
  end.

(** The blocks of the account transactions; [None] when one is not confirmed. *)
Fixpoint txBlocks (l : Ledger) (txs : list Hash) : res (option (list StateBlock)) :=
  match txs with
  | [] => Ok (Some [])
  | tx :: txs' =>
      b ← match GetStateBlockConfirmed l None tx with
          | Ok b => Ok (Some b)
          | Err _ => Ok None
          | Panic => Panic
          end;
      bs ← txBlocks l txs';
      Ok (b ← b; bs ← bs; Some (b :: bs))
  end.

(** The order of the transactions: each continues the chain of its account and token, as
    the previous state or an earlier transaction of the block leaves it. *)
Fixpoint inOrder (stateHash : Hash) (prevHashes : gmap (Address * Hash) Hash) (txs : list StateBlock) : bool :=
  match txs with
  | [] => true
  | tx :: txs' =>
      let isCA := IsContractAddress (sb_Address tx) in
      let addrToken := (sb_Address tx, sb_Token tx) in
      let want :=
        match prevHashes !! addrToken with
        | Some h => h
        | None => if isCA then 0 else default 0 (tokenStateHash stateHash (sb_Address tx) (sb_Token tx))
        end in
      (want =? sb_Previous tx) &&
      inOrder stateHash (if isCA then prevHashes else <[addrToken := SB.GetHash tx]> prevHashes) txs'
  end.

Definition verifyTransactions (l : Ledger) (block : PovBlock) : verdict :=
  let h := pb_Header block in
  let allTxs := pb_Txs block in
  match h_CbTx h with
  | None => CheckPanic
  | Some cbTx =>
      if negb (cb_TxNum cbTx =? u32 (Z.of_nat (length allTxs))) then reject InvalidTxNum "txNum != txs"
      else match allTxs with
      | [] => reject InvalidTxNum "coinbase tx not exist"
      | coinbase :: accTxs =>
          fromRes (CalcMerkleTreeRootHash allTxs) (λ merkleRoot,
            if hash_IsZero merkleRoot then reject BadMerkleRoot "bad merkle root is zero when txs exist"
            else if negb (merkleRoot =? h_MerkleRoot h) then reject BadMerkleRoot "bad merkle root not equals"
            else
              fromRes (PovCoinBaseTx_ComputeHash cbTx) (λ cbHash,
                andThen (verifyCoinBaseTx cbTx)
                (if negb (coinbase =? cbHash) then reject BadHash "invalid coinbase tx hash"
                 else
                   fromRes (txBlocks l accTxs) (λ blocks,
                     match blocks with
                     | None => reject GapTransaction "txs in pending"
                     | Some blocks =>
                         match GetHeaderByHash (h_Previous h) with
                         | None => reject BadStateHash "failed to get state db"
                         | Some prev =>
                             fromRes (GetStateHash prev) (λ stateHash,
                               if inOrder stateHash ∅ blocks then pass
                               else reject InvalidTxOrder "tx is not in order")
                             (λ e, Verdict BadStateHash (Some e))
                         end
                     end)
                   (λ e, Verdict GapTransaction (Some e))))
              (λ e, Verdict BadMerkleRoot (Some e)))
          (λ e, Verdict BadMerkleRoot (Some e))
      end
  end.

(** [stat] holds the state of the previous header, and the blocks that
    [verifyTransactions] attached to the transactions. *)
Definition verifyState (l : Ledger) (block : PovBlock) : verdict :=
  let h := pb_Header block in
  match GetHeaderByHash (h_Previous h) with
  | None => reject GapPrevious "prev block pending"
  | Some prev =>
      fromRes (prevState ← GetStateHash prev;
               blocks ← txBlocks l (tail (pb_Txs block));
               s ← TransitStateDB (h_Height h) (default [] blocks) prevState;
               mine ← GetStateHash h;
               Ok (s, mine))
        (λ r, if r.1 =? r.2 then pass else reject BadStateHash "state hash is not equals")
        (λ e, Verdict BadStateHash (Some e))
  end.

Definition VerifyNet (now : Z) (block : PovBlock) : verdict :=
  andThen (verifyDataIntegrity block) (verifyTimestamp now block).

Definition VerifyFull (now : Z) (l : Ledger) (block : PovBlock) : verdict :=
  andThen (verifyDataIntegrity block) (andThen (verifyTimestamp now block) (andThen (verifyReferred block)
  (andThen (verifyAuxHeader block) (andThen (verifyConsensus block)
  (andThen (verifyTransactions l block) (verifyState l block)))))).
End pov.
