(* ===== verification/PovFacts.v ===== *)
(** * What the verification of proof-of-value blocks guarantees

    An accepted block has its hash, continues the chain in height and time, carries the
    required target and the work for it, commits to confirmed transactions in the order
    of their chains, and mints no more than the reward.  The target moves within bounds.
    The file ends with auxiliary headers on which the verifier panics before it looks at
    the proof of work, and with two coinbase transactions of one hash. *)

From stdpp Require Import sorting.
From S2P Require Import Prelude Types Cache Storage Ledger Contract Check Merkle Target TrieStore Pov.

#[local] Opaque Sha256DHashData CalcMerkleTreeRootHash CompactToBig BigToCompact HashToBig CalcMerkleRootByIndex.

(** ** Verdicts *)
Lemma fromRes_pass {A} (r : res A) k onErr :
  fromRes r k onErr = pass → (∀ e, onErr e ≠ pass) → ∃ a, r = Ok a ∧ k a = pass.
Proof. destruct r as [a|e|]; cbn; intros Hr He; [by exists a|by destruct (He e)|done]. Qed.

Ltac verdict_pass :=
  repeat match goal with
  | H : andThen _ _ = pass |- _ => apply andThen_pass in H as [? H]
  | H : fromRes _ _ _ = pass |- _ => apply fromRes_pass in H as (? & ? & H); [|done]
  | H : (if ?b then _ else _) = pass |- _ => destruct b eqn:?; [try done|try done]
  | H : match ?x with _ => _ end = pass |- _ => destruct x eqn:?; try done
  end.

Section facts.
Context `{Crypto} `{Config} `{PovChain}.

(** ** Order of transactions *)

(** The head of the chain of [b]'s account and token, after the blocks [pre]. *)
Definition chainHead (stateHash : Hash) (pre : list StateBlock) (b : StateBlock) : Hash :=
  match list.last (filter (λ x, (sb_Address x, sb_Token x) = (sb_Address b, sb_Token b)) pre) with
  | Some x => SB.GetHash x
  | None => default 0 (tokenStateHash stateHash (sb_Address b) (sb_Token b))
  end.

Definition tracks (m : gmap (Address * Hash) Hash) (pre : list StateBlock) : Prop :=
  ∀ at_, IsContractAddress at_.1 = false →
    m !! at_ = SB.GetHash <$> list.last (filter (λ x, (sb_Address x, sb_Token x) = at_) pre).

Lemma tracks_step m pre b :
  tracks m pre →
  tracks (if IsContractAddress (sb_Address b) then m else <[(sb_Address b, sb_Token b) := SB.GetHash b]> m)
    (pre ++ [b]).
Proof.
  intros Hm at_ Hat. rewrite list.filter_app, filter_cons, filter_nil.
  destruct (decide (((sb_Address b, sb_Token b)) = at_)) as [<-|Hne].
  - cbn in Hat. rewrite Hat, lookup_insert_eq. by rewrite list.last_snoc.
  - rewrite app_nil_r, <- (Hm at_ Hat). 
    destruct (IsContractAddress (sb_Address b)); [done|]. by apply lookup_insert_ne.
Qed.

Lemma inOrder_heads stateHash txs : ∀ m pre,
  tracks m pre → inOrder stateHash m txs = true →
  ∀ mid b post, txs = mid ++ b :: post → IsContractAddress (sb_Address b) = false →
    sb_Previous b = chainHead stateHash (pre ++ mid) b.
Proof.
  induction txs as [|x txs IH]; intros m pre Hm Hin mid b post E Hb; [by destruct mid|].
  cbn [inOrder] in Hin. apply andb_prop in Hin as [Hw Hin]. apply Z.eqb_eq in Hw.
  destruct mid as [|y mid]; injection E as <- ->.
  - rewrite app_nil_r, <- Hw. unfold chainHead. rewrite Hm, Hb by done. by destruct (list.last _).
  - rewrite cons_middle, app_assoc. eapply IH; [by apply tracks_step|done|done|done].
Qed.

(** ** Accepted blocks *)
Lemma bigger_false x y : bigger x (Some y) = Ok false → ∃ n, x = Some n ∧ n ≤ y.
Proof.
  unfold bigger. destruct x as [n|]; [|done]. rewrite BalFacts.Compare_Some. cbn [mbind res_bind].
  intros [= Hb]. exists n. split; [done|]. destruct (Z.eqb_spec n y); [lia|]. by destruct (Z.ltb_spec y n).
Qed.

Lemma txBlocks_confirmed l txs : ∀ bs,
  txBlocks l txs = Ok (Some bs) → Forall2 (λ tx b, GetStateBlockConfirmed l None tx = Ok b) txs bs.
Proof.
  induction txs as [|tx txs IH]; intros bs; cbn [txBlocks]; [by intros [= <-]|].
  destruct (GetStateBlockConfirmed l None tx) as [b|e|] eqn:E; cbn; try done;
    destruct (txBlocks l txs) as [[bs'|]|e'|]; cbn; try done. intros [= <-]. constructor; [done|by apply IH].
Qed.

(** What an accepted block satisfies. *)
Record accepted_pov (now : Z) (l : Ledger) (block : PovBlock) (prev : PovHeader) (cb : PovCoinBaseTx)
    (txs : list StateBlock) (miner rep : PovCoinBaseTxOut) (state : Hash) : Prop := {
  ap_hash : PovHeader_ComputeHash (pb_Header block) = h_Hash (pb_Header block);
  ap_prev : GetHeaderByHash (h_Previous (pb_Header block)) = Some prev;
  ap_height : h_Height (pb_Header block) = u64 (h_Height prev + 1);
  ap_time : CalcPastMedianTime prev ≤ h_Timestamp (pb_Header block) ≤ u32 (now + PovMaxAllowedFutureTimeSec);
  ap_target : calcNextRequiredTarget prev (pb_Header block) = Ok (h_Bits (pb_Header block));
  ap_work : HashToBig (ComputePowHash (pb_Header block)) ≤ CompactToBig (h_Bits (pb_Header block));
  ap_coinbase : h_CbTx (pb_Header block) = Some cb;
  ap_root : CalcMerkleTreeRootHash (pb_Txs block) = Ok (h_MerkleRoot (pb_Header block));
  ap_count : cb_TxNum cb = u32 (Z.of_nat (length (pb_Txs block)));
  ap_first : PovCoinBaseTx_ComputeHash cb = Ok (default 0 (head (pb_Txs block)));
  ap_outputs : ∃ rest, cb_TxOuts cb = miner :: rep :: rest;
  ap_reward : ∃ m r, to_Value miner = Some m ∧ to_Value rep = Some r ∧ m + r ≤ PovMinerRewardPerBlock;
  ap_confirmed : Forall2 (λ tx b, GetStateBlockConfirmed l None tx = Ok b) (tail (pb_Txs block)) txs;
  ap_state : GetStateHash prev = Ok state;
  ap_order : ∀ pre b post, txs = pre ++ b :: post → IsContractAddress (sb_Address b) = false →
    sb_Previous b = chainHead state pre b;
  ap_next : TransitStateDB (h_Height (pb_Header block)) txs state = Ok (cb_StateHash cb);
}.

Lemma verifyCoinBaseTx_pass cb :
  verifyCoinBaseTx cb = pass →
  ∃ miner rep rest m r, cb_TxOuts cb = miner :: rep :: rest ∧ to_Value miner = Some m ∧ to_Value rep = Some r ∧
    m + r ≤ PovMinerRewardPerBlock.
Proof.
  unfold verifyCoinBaseTx. intros Hv. destruct (cb_TxOuts cb) as [|miner [|rep rest]]; [done|by destruct (_ =? 0)|].
  destruct (to_Address miner =? 0); [done|]. destruct (to_Address rep =? 0); [done|].
  apply fromRes_pass in Hv as (b & Hb & Hv); [|done]. destruct b; [done|].
  apply fromRes_pass in Hv as (b & Hb' & Hv); [|done]. destruct b; [done|].
  apply bigger_false in Hb as (m & Hm & Hle). apply bigger_false in Hb' as (r & Hr & Hle').
  exists miner, rep, rest, m, r. split_and!; try done.
  change (PovMinerRewardPerBlock * 60 / 100) with 342465753 in Hle.
  change (PovMinerRewardPerBlock * 40 / 100) with 228310502 in Hle'. unfold PovMinerRewardPerBlock. lia.
Qed.

Lemma verifyConsensus_pass block :
  verifyConsensus block = pass →
  ∃ prev, GetHeaderByHash (h_Previous (pb_Header block)) = Some prev ∧
    calcNextRequiredTarget prev (pb_Header block) = Ok (h_Bits (pb_Header block)) ∧
    HashToBig (ComputePowHash (pb_Header block)) ≤ CompactToBig (h_Bits (pb_Header block)).
Proof.
  unfold verifyConsensus, VerifyHeader, verifyTarget. intros (u & Hv & _)%fromRes_pass; [|done].
  destruct (GetHeaderByHash _) as [prev|]; [|done]. exists prev. split; [done|].
  destruct (calcNextRequiredTarget prev (pb_Header block)) as [bits|e|]; [|done..].
  cbn [mbind res_bind] in Hv. destruct (Z.eqb_spec bits (h_Bits (pb_Header block))) as [E|]; [|done].
  split; [by rewrite E|]. cbn [negb] in Hv.
  destruct (Z.ltb_spec (GetAlgoTargetInt (pb_Header block)) (HashToBig (ComputePowHash (pb_Header block)))) as [|Hle];
    [done|exact Hle].
Qed.

Lemma verifyTransactions_pass l block :
  verifyTransactions l block = pass →
  ∃ cb prev state txs miner rep rest m r,
    h_CbTx (pb_Header block) = Some cb ∧
    cb_TxNum cb = u32 (Z.of_nat (length (pb_Txs block))) ∧
    CalcMerkleTreeRootHash (pb_Txs block) = Ok (h_MerkleRoot (pb_Header block)) ∧
    PovCoinBaseTx_ComputeHash cb = Ok (default 0 (head (pb_Txs block))) ∧
    cb_TxOuts cb = miner :: rep :: rest ∧ to_Value miner = Some m ∧ to_Value rep = Some r ∧
    m + r ≤ PovMinerRewardPerBlock ∧
    txBlocks l (tail (pb_Txs block)) = Ok (Some txs) ∧
    GetHeaderByHash (h_Previous (pb_Header block)) = Some prev ∧ GetStateHash prev = Ok state ∧
    inOrder state ∅ txs = true.
Proof.
  unfold verifyTransactions. intros Hv. destruct (h_CbTx _) as [cb|]; [|done].
  destruct (Z.eqb_spec (cb_TxNum cb) (u32 (Z.of_nat (length (pb_Txs block))))) as [Hnum|]; [|done].
  cbn [negb] in Hv. destruct (pb_Txs block) as [|coinbase accTxs] eqn:Etx; [done|].
  apply fromRes_pass in Hv as (root & Hroot & Hv); [|done]. destruct (hash_IsZero root); [done|].
  destruct (Z.eqb_spec root (h_MerkleRoot (pb_Header block))) as [->|]; [|done]. cbn [negb] in Hv.
  apply fromRes_pass in Hv as (cbHash & Hcb & Hv); [|done].
  apply andThen_pass in Hv as [(miner & rep & rest & m & r & Hout & Hm & Hr & Hle)%verifyCoinBaseTx_pass Hv].
  destruct (Z.eqb_spec coinbase cbHash) as [->|]; [|done]. cbn [negb] in Hv.
  apply fromRes_pass in Hv as ([txs|] & Htx & Hv); [|done|done].
  destruct (GetHeaderByHash _) as [prev|]; [|done].
  apply fromRes_pass in Hv as (state & Hst & Hv); [|done]. destruct (inOrder state ∅ txs) eqn:Ho; [|done].
  exists cb, prev, state, txs, miner, rep, rest, m, r. cbn [head default tail]. split_and!; done.
Qed.

(** C13: an accepted proof-of-value block is sound.  Its hash is right; it continues a
    known header in height and in median time; it carries the required target and a
    proof of work below it; its Merkle root commits to its transactions, the first of
    which is the coinbase, with at most the block reward in its first two outputs; the
    others are confirmed blocks of the ledger, in the order of their chains; and they
    lead from the previous global state to the one the coinbase names. *)
Theorem VerifyFull_sound now l block :
  VerifyFull now l block = pass →
  ∃ prev cb txs miner rep state, accepted_pov now l block prev cb txs miner rep state.
Proof.
  unfold VerifyFull. intros Hv. apply andThen_pass in Hv as [Hd Hv]. apply andThen_pass in Hv as [Ht Hv].
  apply andThen_pass in Hv as [Hr Hv]. apply andThen_pass in Hv as [_ Hv].
  apply andThen_pass in Hv as [(prev & Hprev & Htgt & Hwork)%verifyConsensus_pass Hv].
  apply andThen_pass in Hv as [Htx Hs].
  apply verifyTransactions_pass in Htx as
    (cb & prev' & state & txs & miner & rep & rest & m & r & Hcb & Hnum & Hroot & Hfst & Hout & Hm & Hrv & Hle &
     Hbs & Hprev' & Hst & Ho).
  rewrite Hprev in Hprev'. injection Hprev' as <-.
  exists prev, cb, txs, miner, rep, state. split; try done.
  - unfold verifyDataIntegrity in Hd. destruct (negb (PovIsAlgoSupported _)); [done|].
    destruct ((_ =? 0) && _); [done|]. destruct (hash_IsZero _); [done|]. cbn [orb] in Hd.
    by destruct (Z.eqb_spec (PovHeader_ComputeHash (pb_Header block)) (h_Hash (pb_Header block))).
  - unfold verifyReferred in Hr. rewrite Hprev in Hr.
    by destruct (Z.eqb_spec (h_Height (pb_Header block)) (u64 (h_Height prev + 1))).
  - unfold verifyReferred in Hr. rewrite Hprev in Hr. destruct (negb _); [done|].
    destruct (Z.ltb_spec (h_Timestamp (pb_Header block)) (CalcPastMedianTime prev)); [done|].
    unfold verifyTimestamp in Ht. destruct (_ =? 0); [done|].
    by destruct (Z.ltb_spec (u32 (now + PovMaxAllowedFutureTimeSec)) (h_Timestamp (pb_Header block))).
  - by exists rest.
  - by exists m, r.
  - by apply txBlocks_confirmed.
  - intros pre b post E Hb. by apply (inOrder_heads state txs ∅ [] ltac:(by intros ?) Ho pre b post).
  - unfold verifyState in Hs. rewrite Hprev, Hst, Hbs in Hs. cbn [mbind res_bind] in Hs.
    unfold GetStateHash in Hs. rewrite Hcb in Hs. cbn [default] in Hs.
    change (id txs) with txs in Hs. destruct (TransitStateDB _ txs state) as [s'|e|]; cbn in Hs; [|done|done].
    destruct (Z.eqb_spec s' (cb_StateHash cb)) as [E|]; [by rewrite E|done].
Qed.

(** ** The target *)
Lemma efficiency_range h : 1 ≤ GetAlgoEfficiency h ≤ 1000000000.
Proof. unfold GetAlgoEfficiency. repeat (destruct (_ =? _); [lia|]). lia. Qed.

Lemma actualTimespan_range last first :
  PovChainMinRetargetTimespan ≤ actualTimespan last first ≤ PovChainMaxRetargetTimespan.
Proof.
  unfold actualTimespan. cbv zeta.
  generalize (if h_Timestamp first <? h_Timestamp last then h_Timestamp last - h_Timestamp first else 1). intros t.
  change PovChainMinRetargetTimespan with 300. change PovChainMaxRetargetTimespan with 4800.
  destruct (Z.ltb_spec t 300); [lia|]. destruct (Z.ltb_spec 4800 t); lia.
Qed.

Lemma nextNormTarget_range old t :
  0 ≤ old → PovChainMinRetargetTimespan ≤ t ≤ PovChainMaxRetargetTimespan →
  Z.min (old / 4) PovPowLimitInt ≤ nextNormTarget old t ≤ Z.min (4 * old) PovPowLimitInt.
Proof.
  change PovChainMinRetargetTimespan with 300. change PovChainMaxRetargetTimespan with 4800.
  intros Hold Ht. unfold nextNormTarget. change PovChainRetargetTimespan with 1200.
  assert (Hlo : old / 4 ≤ old * t / 1200).
  { apply Z.div_le_lower_bound; [lia|]. pose proof (Z.mul_div_le old 4). nia. }
  assert (Hhi : old * t / 1200 ≤ 4 * old) by (apply Z.div_le_upper_bound; nia).
  destruct (Z.ltb_spec PovPowLimitInt (old * t / 1200)); lia.
Qed.

(** A target in the compact form of an algorithm, read back. *)
Lemma algo_target_range next eff :
  0 ≤ next ≤ 2 ^ 226 → 1 ≤ eff ≤ 1000000000 →
  let new := CompactToBig (BigToCompact (next * eff)) / eff in
  0 ≤ new ≤ next ∧ next * 2 ^ 15 ≤ (new + 1) * (2 ^ 15 + 1).
Proof.
  intros Hn He. cbn zeta. destruct (decide (next = 0)) as [->|Hne].
  { change (BigToCompact (0 * eff)) with 0. change (CompactToBig 0) with 0. rewrite Z.div_0_l by lia. lia. }
  assert (Hb : 0 < next * eff < 256 ^ 254).
  { assert (256 ^ 254 = 2 ^ 226 * 1000000000 * 3 + (256 ^ 254 - 2 ^ 226 * 1000000000 * 3)) by lia.
    assert (0 < 256 ^ 254 - 2 ^ 226 * 1000000000 * 3) by (vm_compute; reflexivity). nia. }
  destruct (compact_precision (next * eff) Hb) as (Hle & Hp & Hpos).
  set (m := CompactToBig (BigToCompact (next * eff))) in *. clearbody m.
  pose proof (Z.div_mod m eff ltac:(lia)) as Hd. pose proof (Z.mod_pos_bound m eff ltac:(lia)).
  assert (0 ≤ m / eff) by (apply Z.div_pos; lia).
  split; [split; [done|]|].
  - apply Z.div_le_upper_bound; lia.
  - apply (Zmult_le_reg_r _ _ eff); nia.
Qed.

(** C35: the difficulty moves within bounds.  The target required of the next block, read
    back and divided by the efficiency of its algorithm, is at most four times the
    previous one, and at least a quarter of it up to the precision of the compact form;
    where the cycle ends it is also below the limit of the chain, and elsewhere it never
    grows. *)
Theorem target_moves_within_bounds last cur bits :
  calcNextRequiredTarget last cur = Ok bits → 0 ≤ GetNormTargetInt last ≤ PovPowLimitInt →
  let old := GetNormTargetInt last in
  let new := CompactToBig bits / GetAlgoEfficiency cur in
  0 ≤ new ≤ Z.min (4 * old) PovPowLimitInt ∧
  old / 4 * 2 ^ 15 ≤ (new + 1) * (2 ^ 15 + 1) ∧
  (u64 (h_Height last + 1) mod PovChainTargetCycle ≠ 0 → new ≤ old).
Proof.
  intros Hc Hold. pose proof (efficiency_range cur) as He. cbn zeta.
  assert (Hlim : PovPowLimitInt ≤ 2 ^ 226) by (vm_compute; discriminate).
  unfold calcNextRequiredTarget in Hc. destruct (Z.eqb_spec (u64 (h_Height last + 1) mod PovChainTargetCycle) 0) as [E|E];
    cbn [negb] in Hc.
  - destruct (RelativeAncestor last _) as [first|]; [|done]. injection Hc as <-.
    pose proof (nextNormTarget_range (GetNormTargetInt last) _ (proj1 Hold) (actualTimespan_range last first)) as Hn.
    set (next := nextNormTarget _ _) in *. assert (0 ≤ GetNormTargetInt last / 4) by (apply Z.div_pos; lia).
    assert (GetNormTargetInt last / 4 ≤ GetNormTargetInt last) by (apply Z.div_le_upper_bound; lia).
    destruct (algo_target_range next (GetAlgoEfficiency cur)) as [Hr Hp]; [lia|done|].
    split; [lia|]. split; [lia|done].
  - injection Hc as <-. destruct (algo_target_range (GetNormTargetInt last) (GetAlgoEfficiency cur)) as [Hr Hp];
      [lia|done|].
    assert (GetNormTargetInt last / 4 ≤ GetNormTargetInt last) by (apply Z.div_le_upper_bound; lia).
    split; [lia|]. split; [lia|intros _; lia].
Qed.

(** ** Auxiliary headers on which the verifier panics *)

(** C39: an auxiliary header without inputs stops the node.  A block on top of a known
    header whose parent coinbase transaction has no inputs passes the checks before it
    and makes the verifier index an empty slice; its proof of work is never looked at. *)
Theorem aux_header_without_inputs_panics now l block ap :
  verifyDataIntegrity block = pass → verifyTimestamp now block = pass →
  verifyReferred block = pass → h_AuxHdr (pb_Header block) = Some ap → btx_TxIn (ah_ParCoinBaseTx ap) = [] →
  bh_MerkleRoot (ah_ParBlockHeader ap) =
    CalcMerkleRootByIndex (PovBtcTx_ComputeHash (ah_ParCoinBaseTx ap)) (ah_ParCoinBaseMerkle ap) (ah_ParMerkleIndex ap) →
  VerifyFull now l block = CheckPanic.
Proof.
  intros Hd Ht Hr Ha Hin Hroot. unfold VerifyFull. rewrite Hd, Ht, Hr. cbn [andThen pass].
  unfold verifyAuxHeader. rewrite Ha, Hin, <- Hroot, Z.eqb_refl. done.
Qed.
End facts.

(** ** Coinbase transactions *)

Lemma be_bytes_cons n y z :
  0 ≤ y < 256 → 0 ≤ z < 256 ^ Z.of_nat n → be_bytes (S n) (y * 256 ^ Z.of_nat n + z) = y :: be_bytes n z.
Proof.
  intros Hy. revert z. induction n as [|n IH]; intros z Hz.
  - change (256 ^ Z.of_nat 0) with 1 in *. assert (z = 0) as -> by lia. cbn [be_bytes app].
    rewrite Z.mul_1_r, Z.add_0_r, Z.mod_small by lia. done.
  - rewrite Nat2Z.inj_succ, Z.pow_succ_r in * by lia. cbn [be_bytes] in *.
    replace (y * (256 * 256 ^ Z.of_nat n) + z) with (y * 256 ^ Z.of_nat n * 256 + z) by lia.
    assert (Hm : (y * 256 ^ Z.of_nat n * 256 + z) mod 256 = z mod 256) by (rewrite Z.add_comm; by apply Z.mod_add).
    rewrite Hm, Z.div_add_l by lia. rewrite (IH (z / 256)); [done|]. split; [apply Z.div_pos; lia|apply Z.div_lt_upper_bound; lia].
Qed.

Lemma big_bytes_small y : 0 < y < 256 → big_bytes y = [y].
Proof.
  intros Hy. unfold big_bytes. pose proof (byte_len_unique y 1 ltac:(lia)) as Hb.
  change (256 ^ (1 - 1)) with 1 in Hb. assert (byte_len y = 1%nat) as -> by lia.
  cbn. rewrite Z.abs_eq, Z.mod_small by lia. done.
Qed.

(** The coinbase hash does not determine the outputs.  Amounts are written without
    their length, so a byte of the miner's amount can be read as the first byte of the
    next address. *)
Theorem coinbase_hash_ambiguous v ti extra miner x y a state num :
  0 < x → x < 256 → 0 ≤ y < 256 → 0 ≤ a < 256 ^ 32 → 0 < a mod 256 →
  PovCoinBaseTx_ComputeHash (mkPovCoinBaseTx v [mkPovCoinBaseTxIn ti 0 extra 0]
    [mkPovCoinBaseTxOut (Some (x * 256 + y)) miner; mkPovCoinBaseTxOut (Some 0) a] state num) =
  PovCoinBaseTx_ComputeHash (mkPovCoinBaseTx v [mkPovCoinBaseTxIn ti 0 extra 0]
    [mkPovCoinBaseTxOut (Some x) miner; mkPovCoinBaseTxOut (Some (a mod 256)) (y * 256 ^ 31 + a / 256)] state num).
Proof.
  intros Hx Hx' Hy Ha Ha0. unfold PovCoinBaseTx_ComputeHash, PovCoinBaseTx_BuildHashData.
  cbn [cb_TxIns mbind res_bind]. do 2 f_equal. unfold GetCoinBaseData1, GetCoinBaseData2.
  cbn [cb_Version cb_TxOuts cb_StateHash cb_TxNum ti_Extra fmap list_fmap concat to_Address to_Value Bal.Bytes].
  do 3 f_equal. unfold varLen. cbn [length]. do 2 f_equal.
  rewrite big_bytes_snoc by lia. change (big_bytes 0) with (@nil Z). rewrite !app_nil_r, <- !app_assoc. do 2 f_equal.
  assert (Hb : big_bytes (a mod 256) = [a mod 256]).
  { apply big_bytes_small. pose proof (Z.mod_pos_bound a 256). lia. }
  assert (E1 : hash_bytes (y * 256 ^ 31 + a / 256) = y :: be_bytes 31 (a / 256)).
  { apply (be_bytes_cons 31 y (a / 256)); [lia|]. split; [apply Z.div_pos; lia|].
    apply Z.div_lt_upper_bound; [lia|]. change (256 * 256 ^ Z.of_nat 31) with (256 ^ 32). lia. }
  assert (E2 : hash_bytes a = be_bytes 31 (a / 256) ++ [a mod 256]) by done.
  rewrite Hb, E1, E2, <- app_assoc. done.
Qed.
