(* ===== verification/PovStateDB.v ===== *)
(** * The global state of the proof-of-value chain: [common/statedb/pov_statedb.go]

    Every proof-of-value block commits to a global state: accounts, representatives and
    the storage of contracts, kept in a trie whose root hash stands in the coinbase
    transaction.  A [PovGlobalStateDB] is an open state: the trie it started from, the
    trie it builds, and caches of what was read or written; [CommitToTrie] moves the
    written entries into the trie, [CommitToDB] saves the trie.

    Go iterates over its maps in an unspecified order; here the entries are taken in the
    order of [map_to_list] or [elements], and a trie does not depend on the order of
    insertion ([Trie.insertion_order_irrelevant]).  The states are immutable values: the
    code that changes one ([pov_state.go]) clones it before. *)

From S2P Require Import Prelude Types Trie TrieIter TrieStore.

(** ** Data: [common/types/state_pov.go] *)
Record PovTokenState := mkPovTokenState {
  pts_Type : Hash; pts_Hash : Hash; pts_Representative : Address; pts_Balance : Balance }.

Record PovAccountState := mkPovAccountState {
  pas_Account : Address;
  pas_Balance : Balance;
  pas_Vote : Balance;
  pas_Network : Balance;
  pas_Storage : Balance;
  pas_Oracle : Balance;
  pas_TokenStates : list PovTokenState;
}.

Record PovRepState := mkPovRepState {
  prs_Account : Address;
  prs_Balance : Balance;
  prs_Vote : Balance;
  prs_Network : Balance;
  prs_Storage : Balance;
  prs_Oracle : Balance;
  prs_Total : Balance;
  prs_Status : Z;
  prs_Height : Z;
}.

Record PovContractState := mkPovContractState { pcs_StateHash : Hash; pcs_CodeHash : Hash }.

Definition NewPovAccountState : PovAccountState :=
  mkPovAccountState 0 (Some 0) (Some 0) (Some 0) (Some 0) (Some 0) [].

Definition NewPovRepState : PovRepState :=
  mkPovRepState 0 (Some 0) (Some 0) (Some 0) (Some 0) (Some 0) (Some 0) 0 0.

Definition NewPovContractState : PovContractState := mkPovContractState 0 0.

Definition GetTokenState (acc : PovAccountState) (tokenType : Hash) : option PovTokenState :=
  List.find (λ ts, pts_Type ts =? tokenType) (pas_TokenStates acc).

Definition PovAccountState_TotalBalance (acc : PovAccountState) : res Balance :=
  t ← Bal.Add (pas_Balance acc) (pas_Vote acc);
  t ← Bal.Add t (pas_Storage acc);
  t ← Bal.Add t (pas_Network acc);
  Bal.Add t (pas_Oracle acc).

Definition PovRepState_CalcTotal (rs : PovRepState) : res Balance :=
  t ← Bal.Add (prs_Balance rs) (prs_Vote rs);
  t ← Bal.Add t (prs_Network rs);
  t ← Bal.Add t (prs_Oracle rs);
  Bal.Add t (prs_Storage rs).

(** What a state becomes when it is serialized and read back. *)
Definition PovTokenState_wire (ts : PovTokenState) : PovTokenState :=
  mkPovTokenState (pts_Type ts) (pts_Hash ts) (pts_Representative ts) (Bal.wire (pts_Balance ts)).

Definition PovAccountState_wire (acc : PovAccountState) : PovAccountState :=
  mkPovAccountState (pas_Account acc) (Bal.wire (pas_Balance acc)) (Bal.wire (pas_Vote acc))
    (Bal.wire (pas_Network acc)) (Bal.wire (pas_Storage acc)) (Bal.wire (pas_Oracle acc))
    (PovTokenState_wire <$> pas_TokenStates acc).

Definition PovRepState_wire (rs : PovRepState) : PovRepState :=
  mkPovRepState (prs_Account rs) (Bal.wire (prs_Balance rs)) (Bal.wire (prs_Vote rs))
    (Bal.wire (prs_Network rs)) (Bal.wire (prs_Storage rs)) (Bal.wire (prs_Oracle rs))
    (Bal.wire (prs_Total rs)) (prs_Status rs) (prs_Height rs).

(** The MessagePack encodings of the states, generated code over a library. *)
Class StateCodec := {
  marshalAccount : PovAccountState → res (list Z);
  unmarshalAccount : list Z → res PovAccountState;
  marshalRep : PovRepState → res (list Z);
  unmarshalRep : list Z → res PovRepState;
  marshalContract : PovContractState → res (list Z);
  unmarshalContract : list Z → res PovContractState;
}.

(** ** Keys *)
Definition KeyPrefixTriePovState : Z := 102.
Definition PovGlobalStatePrefixAcc : Z := 1.
Definition PovGlobalStatePrefixRep : Z := 2.
Definition PovGlobalStatePrefixCS : Z := 201.
Definition PovStatusOnline : Z := 1.

Definition PovCreateGlobalStateKey (prefix : Z) (rawKey : list Z) : list Z :=
  KeyPrefixTriePovState :: prefix :: rawKey.

Definition PovCreateAccountStateKey (address : Address) : list Z :=
  PovCreateGlobalStateKey PovGlobalStatePrefixAcc (hash_bytes address).
Definition PovCreateRepStateKey (address : Address) : list Z :=
  PovCreateGlobalStateKey PovGlobalStatePrefixRep (hash_bytes address).
Definition PovCreateContractStateKey (address : Address) : list Z :=
  PovCreateGlobalStateKey PovGlobalStatePrefixCS (hash_bytes address).

(** ** The open states.  A cached value may be nil. *)
Record PovContractStateDB := mkCSDB {
  cs_CS : PovContractState;
  cs_dirty : bool;
  cs_prevTrie : option Trie;
  cs_curTrie : Trie;
  cs_kvCache : gmap (list Z) (option (list Z));
  cs_kvDirty : gset (list Z);
}.

Record PovGlobalStateDB := mkGSDB {
  gs_prevTrie : option Trie;
  gs_curTrie : Trie;
  gs_kvCache : gmap (list Z) (option (list Z));
  gs_kvDirty : gset (list Z);
  gs_asCache : gmap Address PovAccountState;
  gs_asDirty : gset Address;
  gs_rsCache : gmap Address PovRepState;
  gs_rsDirty : gset Address;
  gs_allCSDBs : gmap Address PovContractStateDB;
}.

Definition gs_with_tries (g : PovGlobalStateDB) (cur : Trie) (csdbs : gmap Address PovContractStateDB) :=
  mkGSDB (gs_prevTrie g) cur (gs_kvCache g) (gs_kvDirty g) (gs_asCache g) (gs_asDirty g)
    (gs_rsCache g) (gs_rsDirty g) csdbs.
Definition gs_with_kv (g : PovGlobalStateDB) cache dirty :=
  mkGSDB (gs_prevTrie g) (gs_curTrie g) cache dirty (gs_asCache g) (gs_asDirty g)
    (gs_rsCache g) (gs_rsDirty g) (gs_allCSDBs g).
Definition gs_with_as (g : PovGlobalStateDB) cache dirty :=
  mkGSDB (gs_prevTrie g) (gs_curTrie g) (gs_kvCache g) (gs_kvDirty g) cache dirty
    (gs_rsCache g) (gs_rsDirty g) (gs_allCSDBs g).
Definition gs_with_rs (g : PovGlobalStateDB) cache dirty :=
  mkGSDB (gs_prevTrie g) (gs_curTrie g) (gs_kvCache g) (gs_kvDirty g) (gs_asCache g) (gs_asDirty g)
    cache dirty (gs_allCSDBs g).

Definition ErrNotInTrie : error := Errorf "key not exist in trie".

Section statedb.
Context `{Crypto} `{TrieCodec} `{StateCodec}.
(** What the store holds under the key of a hash, and a bound on the nodes of a trie. *)
Context (db : Hash → res (list Z)) (fuel : nat).

(** [NewTrie] never returns nil, so the trie of a known hash is always the one that is
    cloned; a hash without record gives the empty trie. *)
Definition openTries (prevStateHash : Hash) : res (option Trie * Trie) :=
  if hash_IsZero prevStateHash then Ok (None, emptyTrie)
  else
    prevTrie ← NewTrie (Some db) fuel (Some prevStateHash);
    Ok (Some prevTrie, mkTrie (tr_Root prevTrie) ∅).

Definition NewPovGlobalStateDB (prevStateHash : Hash) : res PovGlobalStateDB :=
  tries ← openTries prevStateHash;
  Ok (mkGSDB tries.1 tries.2 ∅ ∅ ∅ ∅ ∅ ∅ ∅).

Definition NewPovContractStateDB (cs : PovContractState) : res PovContractStateDB :=
  tries ← openTries (pcs_StateHash cs);
  Ok (mkCSDB cs false tries.1 tries.2 ∅ ∅).

(** [GetCurHash] of both kinds of state. *)
Definition curHash (t : Trie) : res Hash := h ← Trie_Hash t; Ok (default 0 h).

Definition GetCurHash (g : PovGlobalStateDB) : res Hash := curHash (gs_curTrie g).

(** *** Raw values *)
Definition SetValue_kv (key : list Z) (val : option (list Z)) : M PovGlobalStateDB unit :=
  modifyS (λ g, gs_with_kv g (<[key := val]> (gs_kvCache g)) ({[key]} ∪ gs_kvDirty g)).

Definition GetValue_kv (key : list Z) : M PovGlobalStateDB (option (list Z)) := λ g,
  match gs_kvCache g !! key with
  | Some val => (Ok val, g)
  | None =>
      match GetValue (Some db) (gs_curTrie g) key with
      | Ok [] => (Err ErrNotInTrie, g)
      | Ok val => (Ok (Some val), gs_with_kv g (<[key := Some val]> (gs_kvCache g)) (gs_kvDirty g))
      | Err e => (Err e, g)
      | Panic => (Panic, g)
      end
  end.

(** *** Accounts and representatives *)
Definition SetAccountState (address : Address) (acc : PovAccountState) : M PovGlobalStateDB unit :=
  modifyS (λ g,
    let acc := mkPovAccountState address (pas_Balance acc) (pas_Vote acc) (pas_Network acc)
                 (pas_Storage acc) (pas_Oracle acc) (pas_TokenStates acc) in
    gs_with_as g (<[address := acc]> (gs_asCache g)) ({[address]} ∪ gs_asDirty g)).

Definition GetAccountState (address : Address) : M PovGlobalStateDB PovAccountState := λ g,
  match gs_asCache g !! address with
  | Some acc => (Ok acc, g)
  | None =>
      match GetValue (Some db) (gs_curTrie g) (PovCreateAccountStateKey address) with
      | Ok [] => (Err ErrNotInTrie, g)
      | Ok valBytes =>
          match unmarshalAccount valBytes with
          | Ok acc => (Ok acc, gs_with_as g (<[address := acc]> (gs_asCache g)) (gs_asDirty g))
          | Err _ => (Err (Errorf "deserialize account state err %s"), g)
          | Panic => (Panic, g)
          end
      | Err e => (Err e, g)
      | Panic => (Panic, g)
      end
  end.

Definition SetRepState (address : Address) (rs : PovRepState) : M PovGlobalStateDB unit :=
  modifyS (λ g,
    let rs := mkPovRepState address (prs_Balance rs) (prs_Vote rs) (prs_Network rs) (prs_Storage rs)
                (prs_Oracle rs) (prs_Total rs) (prs_Status rs) (prs_Height rs) in
    gs_with_rs g (<[address := rs]> (gs_rsCache g)) ({[address]} ∪ gs_rsDirty g)).

Definition GetRepState (address : Address) : M PovGlobalStateDB PovRepState := λ g,
  match gs_rsCache g !! address with
  | Some rs => (Ok rs, g)
  | None =>
      match GetValue (Some db) (gs_curTrie g) (PovCreateRepStateKey address) with
      | Ok [] => (Err ErrNotInTrie, g)
      | Ok valBytes =>
          match unmarshalRep valBytes with
          | Ok rs => (Ok rs, gs_with_rs g (<[address := rs]> (gs_rsCache g)) (gs_rsDirty g))
          | Err _ => (Err (Errorf "deserialize rep state err %s"), g)
          | Panic => (Panic, g)
          end
      | Err e => (Err e, g)
      | Panic => (Panic, g)
      end
  end.

(** *** Contracts *)
Definition GetContractState (address : Address) (g : PovGlobalStateDB) : res PovContractState :=
  valBytes ← GetValue (Some db) (gs_curTrie g) (PovCreateContractStateKey address);
  match valBytes with
  | [] => Err ErrNotInTrie
  | _ => wrapErr "deserialize contract state err %s" (unmarshalContract valBytes)
  end.

Definition LookupContractStateDB (address : Address) : M PovGlobalStateDB PovContractStateDB := λ g,
  match gs_allCSDBs g !! address with
  | Some csdb => (Ok csdb, g)
  | None =>
      let opened :=
        valBytes ← GetValue (Some db) (gs_curTrie g) (PovCreateContractStateKey address);
        cs ← match valBytes with
             | [] => Ok NewPovContractState
             | _ => wrapErr "deserialize contract state err %s" (unmarshalContract valBytes)
             end;
        NewPovContractStateDB cs in
      match opened with
      | Ok csdb => (Ok csdb, gs_with_tries g (gs_curTrie g) (<[address := csdb]> (gs_allCSDBs g)))
      | Err e => (Err e, g)
      | Panic => (Panic, g)
      end
  end.

(** The pointer in [allCSDBs] is the one returned: what a caller does to a contract's
    state is written back. *)
Definition putCSDB (address : Address) (csdb : PovContractStateDB) : M PovGlobalStateDB unit :=
  modifyS (λ g, gs_with_tries g (gs_curTrie g) (<[address := csdb]> (gs_allCSDBs g))).

Definition csdb_SetValue (key : list Z) (val : option (list Z)) (csdb : PovContractStateDB) : PovContractStateDB :=
  mkCSDB (cs_CS csdb) (cs_dirty csdb) (cs_prevTrie csdb) (cs_curTrie csdb)
    (<[key := val]> (cs_kvCache csdb)) ({[key]} ∪ cs_kvDirty csdb).

Definition csdb_GetValue (key : list Z) (csdb : PovContractStateDB) : res (option (list Z)) * PovContractStateDB :=
  match cs_kvCache csdb !! key with
  | Some val => (Ok val, csdb)
  | None =>
      match GetValue (Some db) (cs_curTrie csdb) key with
      | Ok [] => (Err ErrNotInTrie, csdb)
      | Ok val =>
          (Ok (Some val), mkCSDB (cs_CS csdb) (cs_dirty csdb) (cs_prevTrie csdb) (cs_curTrie csdb)
                            (<[key := Some val]> (cs_kvCache csdb)) (cs_kvDirty csdb))
      | Err e => (Err e, csdb)
      | Panic => (Panic, csdb)
      end
  end.

Definition SetContractValue (address : Address) (key : list Z) (val : option (list Z))
    : M PovGlobalStateDB unit :=
  csdb ← LookupContractStateDB address;
  putCSDB address (csdb_SetValue key val csdb).

Definition GetContractValue (address : Address) (key : list Z) : M PovGlobalStateDB (option (list Z)) :=
  csdb ← LookupContractStateDB address;
  let '(r, csdb') := csdb_GetValue key csdb in
  putCSDB address csdb';;
  liftR r.

(** *** Commit to the trie *)

(** The dirty entries of a cache of raw values; a nil value is skipped. *)
Definition dirtyValues (cache : gmap (list Z) (option (list Z))) (dirty : gset (list Z)) : list (list Z * list Z) :=
  omap (λ key, val ← mjoin (cache !! key); Some (key, val)) (elements dirty).

(** Set a key of the current trie. *)
Definition setCur (key val : list Z) : M PovGlobalStateDB unit := λ g,
  match SetValue (gs_curTrie g) key val with
  | Ok t => (Ok tt, gs_with_tries g t (gs_allCSDBs g))
  | Err e => (Err e, g)
  | Panic => (Panic, g)
  end.

Fixpoint setAllCur (kvs : list (list Z * list Z)) : M PovGlobalStateDB unit :=
  match kvs with
  | [] => mret tt
  | (key, val) :: kvs' => setCur key val;; setAllCur kvs'
  end.

(** The dirty entries of a cache of states; one that is not in the cache is skipped. *)
Definition dirtyStates {S} (cache : gmap Address S) (dirty : gset Address) : list (Address * S) :=
  omap (λ a, s ← cache !! a; Some (a, s)) (elements dirty).

Fixpoint commitStates {S} (marshal : S → res (list Z)) (failed empty : string) (mkKey : Address → list Z)
    (states : list (Address * S)) : M PovGlobalStateDB unit :=
  match states with
  | [] => mret tt
  | (address, s) :: states' =>
      valBytes ← liftR (wrapErr failed (marshal s));
      match valBytes with
      | [] => failS (Errorf empty)
      | _ => setCur (mkKey address) valBytes
      end;;
      commitStates marshal failed empty mkKey states'
  end.

(** The memoised root hash of a contract's trie is dereferenced: nil panics. *)
Definition csdb_CommitToTrie (csdb : PovContractStateDB) : res (bool * PovContractStateDB) :=
  if decide (cs_kvDirty csdb = ∅) then Ok (cs_dirty csdb, csdb)
  else
    t ← SetValues (cs_curTrie csdb) (dirtyValues (cs_kvCache csdb) (cs_kvDirty csdb));
    h ← Trie_Hash t;
    match h with
    | None => Panic
    | Some h =>
        Ok (true, mkCSDB (mkPovContractState h (pcs_CodeHash (cs_CS csdb))) true (cs_prevTrie csdb) t
                    (cs_kvCache csdb) ∅)
    end.

(** The loop over [allCSDBs]. *)
Fixpoint commitContracts (csdbs : list (Address * PovContractStateDB)) : M PovGlobalStateDB unit :=
  match csdbs with
  | [] => mret tt
  | (address, csdb) :: csdbs' =>
      '(dirty, csdb) ← (liftR (csdb_CommitToTrie csdb) : M PovGlobalStateDB _);
      putCSDB address csdb;;
      (if (dirty : bool) then
         valBytes ← liftR (wrapErr "serialize new contract state err %s" (marshalContract (cs_CS csdb)));
         match valBytes with
         | [] => failS (Errorf "serialize new contract state got empty value")
         | _ => setCur (PovCreateContractStateKey address) valBytes
         end
       else mret tt);;
      commitContracts csdbs'
  end.

Definition CommitToTrie : M PovGlobalStateDB unit :=
  g ← (getS : M PovGlobalStateDB PovGlobalStateDB);
  setAllCur (dirtyValues (gs_kvCache g) (gs_kvDirty g));;
  modifyS (λ g, gs_with_kv g (gs_kvCache g) ∅);;
  commitStates marshalAccount "serialize new account state err %s"
    "serialize new account state got empty value" PovCreateAccountStateKey
    (dirtyStates (gs_asCache g) (gs_asDirty g));;
  modifyS (λ g, gs_with_as g (gs_asCache g) ∅);;
  commitStates marshalRep "serialize new rep state err %s"
    "serialize new rep state got empty value" PovCreateRepStateKey
    (dirtyStates (gs_rsCache g) (gs_rsDirty g));;
  modifyS (λ g, gs_with_rs g (gs_rsCache g) ∅);;
  commitContracts (map_to_list (gs_allCSDBs g)).

(** *** Commit to the store *)

(** The records put into the batch, and the state once the tries are saved. *)
Fixpoint saveContracts (csdbs : list (Address * PovContractStateDB))
    : res (list (Hash * list Z) * gmap Address PovContractStateDB) :=
  match csdbs with
  | [] => Ok ([], ∅ : gmap Address PovContractStateDB)
  | (address, csdb) :: csdbs' =>
      saved ← Save (Some db) (cs_curTrie csdb);
      rest ← saveContracts csdbs';
      Ok (saved.1 ++ rest.1 : list (Hash * list Z),
          <[address := mkCSDB (cs_CS csdb) (cs_dirty csdb) (cs_prevTrie csdb) saved.2
                         (cs_kvCache csdb) (cs_kvDirty csdb)]> rest.2)
  end.

Definition CommitToDB (g : PovGlobalStateDB) : res (list (Hash * list Z) * PovGlobalStateDB) :=
  contracts ← saveContracts (map_to_list (gs_allCSDBs g));
  saved ← Save (Some db) (gs_curTrie g);
  Ok (contracts.1 ++ saved.1, gs_with_tries g saved.2 contracts.2).
End statedb.
