(* ===== verification/PovState.v ===== *)
(** * State transition of the proof-of-value chain: [consensus/pov/pov_state.go]

    Applying a transaction updates the account, the representatives and the storage of a
    contract in an open global state.  A [PovTransaction] is the confirmed state block
    with its hash.  What contracts do with their storage ([DoSendOnPov], [DoReceiveOnPov])
    is a parameter. *)

From S2P Require Import Prelude Types Cache Storage Ledger Contract Check Trie TrieIter TrieStore PovStateDB.

Class PovHooks := {
  DoSendOnPov : Contract → Ledger → VMContext → Z → StateBlock → M PovContractStateDB unit;
  DoReceiveOnPov : Contract → Ledger → VMContext → Z → StateBlock → StateBlock → M PovContractStateDB unit;
}.

Record PovTransaction := mkPovTransaction { tx_Hash : Hash; tx_Block : StateBlock }.

Definition DPosOnlinePeriod : Z := 120.
Definition DposVoteDivisor : Z := 200.

(** [Balance.Copy] of a nil amount panics. *)
Definition copied (b : Balance) : res Balance := match b with Some _ => Ok b | None => Panic end.

Definition PovRepState_Clone (rs : PovRepState) : res PovRepState :=
  balance ← copied (prs_Balance rs);
  vote ← copied (prs_Vote rs);
  network ← copied (prs_Network rs);
  storage ← copied (prs_Storage rs);
  oracle ← copied (prs_Oracle rs);
  total ← copied (prs_Total rs);
  Ok (mkPovRepState (prs_Account rs) balance vote network storage oracle total (prs_Status rs) (prs_Height rs)).

(** The first state of the token is replaced; a new token goes to the end. *)
Fixpoint putTokenState (ts : PovTokenState) (states : list PovTokenState) : list PovTokenState :=
  match states with
  | [] => [ts]
  | t :: states' => if pts_Type t =? pts_Type ts then ts :: states' else t :: putTokenState ts states'
  end.

Section state.
Context `{Crypto} `{Config} `{Node} `{StateCodec} `{PovHooks}.
Context (db : Hash → res (list Z)) (fuel : nat).
#[local] Abbreviation SDB := (M PovGlobalStateDB) (only parsing).

(** [as, _ := sdb.GetAccountState(a)]: any error gives nil. *)
Definition lookupAccount (a : Address) : SDB (option PovAccountState) :=
  r ← tryS (GetAccountState db a);
  mret (match r with Ok acc => Some acc | _ => None end).

Definition lookupRep (a : Address) : SDB (option PovRepState) :=
  r ← tryS (GetRepState db a);
  mret (match r with Ok rs => Some rs | _ => None end).

(** A copy of the state found, or a new one. *)
Definition cloneRep (rs : option PovRepState) : SDB PovRepState :=
  match rs with Some rs => liftR (PovRepState_Clone rs) | None => mret NewPovRepState end.

(** The account with the balance and the fields of a block of the chain token. *)
Definition withBlockFields (block : StateBlock) (acc : PovAccountState) : PovAccountState :=
  if sb_Token block =? ChainToken
  then mkPovAccountState (pas_Account acc) (SB.GetBalance block) (SB.GetVote block) (SB.GetNetwork block)
         (SB.GetStorage block) (SB.GetOracle block) (pas_TokenStates acc)
  else acc.

Definition newAccountState (tx : PovTransaction) (oldAs : option PovAccountState) : PovAccountState :=
  let block := tx_Block tx in
  let tsNew := mkPovTokenState (sb_Token block) (tx_Hash tx) (sb_Representative block) (SB.GetBalance block) in
  let newAs := withBlockFields block (default NewPovAccountState oldAs) in
  mkPovAccountState (pas_Account newAs) (pas_Balance newAs) (pas_Vote newAs) (pas_Network newAs)
    (pas_Storage newAs) (pas_Oracle newAs)
    (match oldAs with Some _ => putTokenState tsNew (pas_TokenStates newAs) | None => [tsNew] end).

Definition updateAccountState (tx : PovTransaction) (oldAs : option PovAccountState) : SDB PovAccountState :=
  let newAs := newAccountState tx oldAs in
  SetAccountState (sb_Address (tx_Block tx)) newAs;;
  mret newAs.

(** The last representative loses what the account had. *)
Definition leaveRep (oldAs : PovAccountState) (rep : Address) : SDB unit :=
  lastRepOldRs ← lookupRep rep;
  match lastRepOldRs with
  | None => mret tt
  | Some old =>
      rs ← liftR (PovRepState_Clone old);
      balance ← liftR (Bal.Sub (prs_Balance old) (pas_Balance oldAs));
      vote ← liftR (Bal.Sub (prs_Vote old) (pas_Vote oldAs));
      network ← liftR (Bal.Sub (prs_Network old) (pas_Network oldAs));
      oracle ← liftR (Bal.Sub (prs_Oracle old) (pas_Oracle oldAs));
      storage ← liftR (Bal.Sub (prs_Storage old) (pas_Storage oldAs));
      t ← liftR (PovAccountState_TotalBalance oldAs);
      total ← liftR (Bal.Sub (prs_Total old) t);
      SetRepState rep (mkPovRepState (prs_Account rs) balance vote network storage oracle total (prs_Status rs) (prs_Height rs))
  end.

(** The new representative gets what the block says. *)
Definition joinRep (block : StateBlock) (rep : Address) : SDB unit :=
  currRepOldRs ← lookupRep rep;
  rs ← cloneRep currRepOldRs;
  balance ← liftR (Bal.Add (prs_Balance rs) (sb_Balance block));
  vote ← liftR (Bal.Add (prs_Vote rs) (sb_Vote block));
  network ← liftR (Bal.Add (prs_Network rs) (sb_Network block));
  oracle ← liftR (Bal.Add (prs_Oracle rs) (sb_Oracle block));
  storage ← liftR (Bal.Add (prs_Storage rs) (sb_Storage block));
  t ← liftR (SB.TotalBalance block);
  total ← liftR (Bal.Add (prs_Total rs) t);
  SetRepState rep (mkPovRepState (prs_Account rs) balance vote network storage oracle total (prs_Status rs) (prs_Height rs)).

(** A representative other than the zero address. *)
Definition repOf (acc : PovAccountState) (token : Hash) : option Address :=
  ts ← GetTokenState acc token;
  if pts_Representative ts =? 0 then None else Some (pts_Representative ts).

Definition updateRepState (tx : PovTransaction) (oldAs : option PovAccountState) (newAs : PovAccountState) : SDB unit :=
  let block := tx_Block tx in
  if negb (sb_Token block =? ChainToken) then mret tt
  else
    match oldAs with
    | Some acc => match repOf acc (sb_Token block) with Some rep => leaveRep acc rep | None => mret tt end
    | None => mret tt
    end;;
    match repOf newAs (sb_Token block) with Some rep => joinRep block rep | None => mret tt end.

Definition updateRepOnline (height : Z) (tx : PovTransaction) : SDB unit :=
  let address := sb_Address (tx_Block tx) in
  oldRs ← lookupRep address;
  newRs ← cloneRep oldRs;
  SetRepState address (mkPovRepState (prs_Account newRs) (prs_Balance newRs) (prs_Vote newRs) (prs_Network newRs)
    (prs_Storage newRs) (prs_Oracle newRs) (prs_Total newRs) PovStatusOnline height).

(** *** Contracts *)
Context (l : Ledger).

(** The contract that a block calls, the method selector, and the send block of a reward
    block.  Private calls are seen by their recipients only. *)
Definition contractCall (block : StateBlock) : res (option (Address * list Z * option StateBlock)) :=
  if IsGenesisBlock block then Ok None
  else
    match sb_Type block with
    | ContractSend =>
        if notRecipient block then Ok None else Ok (Some (sb_Link block, SB.GetPayload block, None))
    | ContractReward =>
        if notRecipient block then Ok None
        else
          sendBlk ← GetStateBlockConfirmed l None (sb_Link block);
          if notRecipient sendBlk then Ok None
          else Ok (Some (sb_Link sendBlk, SB.GetPayload sendBlk, Some sendBlk))
    | _ => Ok None
    end.

Definition updateContractState (height : Z) (tx : PovTransaction) : SDB unit :=
  let txBlock := tx_Block tx in
  call ← liftR (contractCall txBlock);
  match call with
  | None => mret tt
  | Some (ca, methodSig, sendBlk) =>
      match GetChainContract ca methodSig with
      | None => failS (Errorf "chain contract %s method not exist")
      | Some cf =>
          if negb (povState (GetDescribe cf)) then mret tt
          else
            csdb ← LookupContractStateDB db fuel ca;
            match NewVMContextWithBlock l txBlock with
            | None => failS (Errorf "update contract state: can not get vm context, %s")
            | Some vmCtx =>
                let '(r, csdb') :=
                  match sendBlk with
                  | None => DoSendOnPov cf l vmCtx height txBlock csdb
                  | Some sendBlk => DoReceiveOnPov cf l vmCtx height txBlock sendBlk csdb
                  end in
                putCSDB ca csdb';;
                liftR r
            end
      end
  end.

(** ** Applying transactions *)
Definition ApplyTransaction (height : Z) (tx : PovTransaction) : SDB unit :=
  oldAs ← lookupAccount (sb_Address (tx_Block tx));
  newAs ← updateAccountState tx oldAs;
  (if decide (sb_Type (tx_Block tx) = Online) then updateRepOnline height tx else updateRepState tx oldAs newAs);;
  updateContractState height tx.

Fixpoint applyAll (height : Z) (txs : list PovTransaction) : SDB unit :=
  match txs with
  | [] => mret tt
  | tx :: txs' => ApplyTransaction height tx;; applyAll height txs'
  end.

Definition TransitStateDB (height : Z) (txs : list PovTransaction) : SDB unit :=
  applyAll height txs;;
  CommitToTrie.

(** ** Representatives that are online *)
Definition isOnline (height : Z) (minVoteWeight : Balance) (rs : PovRepState) : res bool :=
  if negb (prs_Status rs =? PovStatusOnline) then Ok false
  else if (height <? prs_Height rs) || (prs_Height rs <? u64 (height + 1 - DPosOnlinePeriod)) then Ok false
  else
    total ← PovRepState_CalcTotal rs;
    c ← Bal.Compare total minVoteWeight;
    Ok (negb (bool_decide (c = BalanceCompSmaller))).

Fixpoint onlineReps (height : Z) (minVoteWeight : Balance) (kvs : list (list Z * list Z)) : res (list PovRepState) :=
  match kvs with
  | [] => Ok []
  | (_, []) :: kvs' => onlineReps height minVoteWeight kvs'
  | (_, valBytes) :: kvs' =>
      rs ← unmarshalRep valBytes;
      online ← isOnline height minVoteWeight rs;
      rest ← onlineReps height minVoteWeight kvs';
      Ok (if (online : bool) then rs :: rest else rest)
  end.

(** [supply] is the balance of the genesis block.  A record that cannot be read gives nil. *)
Definition GetAllOnlineRepStates (supply : Balance) (height : Z) (stateHash : Hash) : res (list PovRepState) :=
  minVoteWeight ← Bal.Div supply DposVoteDivisor;
  gsdb ← NewPovGlobalStateDB db fuel stateHash;
  match gs_prevTrie gsdb with
  | None => Ok []
  | Some stateTrie =>
      kvs ← iterate (Some db) stateTrie (PovCreateGlobalStateKey PovGlobalStatePrefixRep []);
      match onlineReps height minVoteWeight kvs with
      | Err _ => Ok []
      | r => r
      end
  end.
End state.
