(* ===== verification/PovStateFacts.v ===== *)
(** * Facts about the state transition of the proof-of-value chain

    An open global state is seen as two maps, of accounts and of representatives
    ([refines]).  The weight of a representative is the sum of what the accounts naming it
    hold, as long as blocks that announce a representative as online leave delegation
    alone. *)

From S2P Require Import Prelude Types Cache Storage Ledger Contract Check Trie TrieIter TrieStore PovStateDB PovState.

(** ** The fields that make up a weight *)
Inductive field := fBalance | fVote | fNetwork | fStorage | fOracle.

Definition accField (f : field) (acc : PovAccountState) : Balance :=
  match f with
  | fBalance => pas_Balance acc | fVote => pas_Vote acc | fNetwork => pas_Network acc
  | fStorage => pas_Storage acc | fOracle => pas_Oracle acc
  end.
Definition repField (f : field) (rs : PovRepState) : Balance :=
  match f with
  | fBalance => prs_Balance rs | fVote => prs_Vote rs | fNetwork => prs_Network rs
  | fStorage => prs_Storage rs | fOracle => prs_Oracle rs
  end.
Definition blockField (f : field) (b : StateBlock) : Balance :=
  match f with
  | fBalance => sb_Balance b | fVote => sb_Vote b | fNetwork => sb_Network b
  | fStorage => sb_Storage b | fOracle => sb_Oracle b
  end.

Definition amount (b : Balance) : Z := default 0 b.

Section views.
Context `{Crypto} `{Config} `{Node} `{StateCodec} `{PovHooks}.
Context (db : Hash → res (list Z)) (fuel : nat) (l : Ledger).
Implicit Types (g : PovGlobalStateDB) (A : gmap Address PovAccountState) (R : gmap Address PovRepState).

(** ** What a state answers *)
Definition stored {S} (unmarshal : list Z → res S) (t : Trie) (key : list Z) : option S :=
  match GetValue (Some db) t key with
  | Ok (b :: bs) => match unmarshal (b :: bs) with Ok s => Some s | _ => None end
  | _ => None
  end.

Definition accView g (a : Address) : option PovAccountState :=
  match gs_asCache g !! a with
  | Some acc => Some acc
  | None => stored unmarshalAccount (gs_curTrie g) (PovCreateAccountStateKey a)
  end.

Definition repView g (a : Address) : option PovRepState :=
  match gs_rsCache g !! a with
  | Some rs => Some rs
  | None => stored unmarshalRep (gs_curTrie g) (PovCreateRepStateKey a)
  end.

(** The state holds the accounts [A] and the representatives [R]. *)
Definition refines g A R : Prop := (∀ a, accView g a = A !! a) ∧ (∀ a, repView g a = R !! a).

Lemma refines_cached g A R a acc :
  refines g A R → accView g a = Some acc → refines (gs_with_as g (<[a := acc]> (gs_asCache g)) (gs_asDirty g)) A R.
Proof.
  intros [HA HR] Hacc. split; [|done]. intros x. rewrite <- HA. unfold accView. cbn.
  destruct (decide (x = a)) as [->|]; [rewrite lookup_insert_eq; by rewrite <- Hacc|by rewrite lookup_insert_ne by done].
Qed.

Lemma refines_cached_rep g A R a rs :
  refines g A R → repView g a = Some rs → refines (gs_with_rs g (<[a := rs]> (gs_rsCache g)) (gs_rsDirty g)) A R.
Proof.
  intros [HA HR] Hrs. split; [done|]. intros x. rewrite <- HR. unfold repView. cbn.
  destruct (decide (x = a)) as [->|]; [rewrite lookup_insert_eq; by rewrite <- Hrs|by rewrite lookup_insert_ne by done].
Qed.

Lemma lookupAccount_spec a g g' o A R :
  refines g A R → lookupAccount db a g = (Ok o, g') → o = A !! a ∧ refines g' A R.
Proof.
  intros Hr. pose proof Hr as [HA _]. rewrite <- HA. unfold lookupAccount, mbind, M_bind, tryS, GetAccountState.
  destruct (gs_asCache g !! a) as [acc|] eqn:E.
  { intros [= <- <-]. unfold accView. by rewrite E. }
  assert (Hv : accView g a = stored unmarshalAccount (gs_curTrie g) (PovCreateAccountStateKey a)) by (unfold accView; by rewrite E).
  unfold stored in Hv. destruct (GetValue _ _ _) as [[|b bs]|e|]; try (intros [= <- <-]; by rewrite Hv).
  destruct (unmarshalAccount (b :: bs)) as [acc|e|]; [|intros [= <- <-]; by rewrite Hv|done].
  intros [= <- <-]. rewrite Hv. split; [done|]. by apply refines_cached.
Qed.

Lemma lookupRep_spec a g g' o A R :
  refines g A R → lookupRep db a g = (Ok o, g') → o = R !! a ∧ refines g' A R.
Proof.
  intros Hr. pose proof Hr as [_ HR]. rewrite <- HR. unfold lookupRep, mbind, M_bind, tryS, GetRepState.
  destruct (gs_rsCache g !! a) as [rs|] eqn:E.
  { intros [= <- <-]. unfold repView. by rewrite E. }
  assert (Hv : repView g a = stored unmarshalRep (gs_curTrie g) (PovCreateRepStateKey a)) by (unfold repView; by rewrite E).
  unfold stored in Hv. destruct (GetValue _ _ _) as [[|b bs]|e|]; try (intros [= <- <-]; by rewrite Hv).
  destruct (unmarshalRep (b :: bs)) as [rs|e|]; [|intros [= <- <-]; by rewrite Hv|done].
  intros [= <- <-]. rewrite Hv. split; [done|]. by apply refines_cached_rep.
Qed.

(** The states get the address they are set under. *)
Definition atAddress (a : Address) (acc : PovAccountState) : PovAccountState :=
  mkPovAccountState a (pas_Balance acc) (pas_Vote acc) (pas_Network acc) (pas_Storage acc) (pas_Oracle acc) (pas_TokenStates acc).
Definition atRep (a : Address) (rs : PovRepState) : PovRepState :=
  mkPovRepState a (prs_Balance rs) (prs_Vote rs) (prs_Network rs) (prs_Storage rs) (prs_Oracle rs) (prs_Total rs)
    (prs_Status rs) (prs_Height rs).

Lemma SetAccountState_spec a acc g g' A R :
  refines g A R → SetAccountState a acc g = (Ok tt, g') → refines g' (<[a := atAddress a acc]> A) R.
Proof.
  intros [HA HR] [= <-]. split; [|done]. intros x. unfold accView. cbn.
  destruct (decide (x = a)) as [->|]; [by rewrite !lookup_insert_eq|rewrite !lookup_insert_ne by done]. apply HA.
Qed.

Lemma SetRepState_spec a rs g g' A R :
  refines g A R → SetRepState a rs g = (Ok tt, g') → refines g' A (<[a := atRep a rs]> R).
Proof.
  intros [HA HR] [= <-]. split; [done|]. intros x. unfold repView. cbn.
  destruct (decide (x = a)) as [->|]; [by rewrite !lookup_insert_eq|rewrite !lookup_insert_ne by done]. apply HR.
Qed.

Lemma refines_csdbs g A R csdbs : refines g A R → refines (gs_with_tries g (gs_curTrie g) csdbs) A R.
Proof. by intros [HA HR]. Qed.

(** Contracts have a storage of their own. *)
Lemma updateContractState_spec height tx g g' A R :
  refines g A R → updateContractState db fuel l height tx g = (Ok tt, g') → refines g' A R.
Proof.
  intros Hr. unfold updateContractState. intros Hrun. inv_m. destruct x as [[[ca sig] send]|]; [|by injection Hrun as <-].
  destruct (GetChainContract ca sig) as [cf|]; [|done]. destruct (negb _); [by injection Hrun as <-|].
  apply M_bind_Ok in Hrun as (csdb & g1 & Hlk & Hrun).
  assert (Hr1 : refines g1 A R).
  { unfold LookupContractStateDB in Hlk. destruct (gs_allCSDBs _ !! ca); [by injection Hlk as _ <-|].
    match type of Hlk with context [match ?m with _ => _ end] => destruct m end; try done. injection Hlk as _ <-. by apply refines_csdbs. }
  destruct (NewVMContextWithBlock l (tx_Block tx)) as [ctx|]; [|done].
  destruct (match send with None => _ | Some _ => _ end) as [r csdb']. unfold putCSDB, mbind, M_bind, modifyS, liftR in Hrun.
  injection Hrun as _ <-. by apply refines_csdbs.
Qed.

(** ** Weights *)
Definition total5 (h : field → Z) : Z := h fBalance + h fVote + h fNetwork + h fStorage + h fOracle.

(** What an account adds to a field of a representative. *)
Definition share (f : field) (acc : PovAccountState) (r : Address) : Z :=
  if decide (repOf acc ChainToken = Some r) then amount (accField f acc) else 0.

Definition delegated (f : field) A (r : Address) : Z := map_sum (λ _ acc, share f acc r) A.

Definition coins A : Z := map_sum (λ _ acc, total5 (λ f, amount (accField f acc))) A.

(** Every account has amounts, and together they fit in 64 bits. *)
Definition solvent A : Prop :=
  (∀ a acc f, A !! a = Some acc → ∃ x, accField f acc = Some x ∧ 0 ≤ x) ∧ coins A < 2 ^ 64.

(** The table of representatives is what the accounts delegate. *)
Record weigh A R : Prop := {
  wg_field r rs f : R !! r = Some rs → repField f rs = Some (delegated f A r);
  wg_total r rs : R !! r = Some rs → prs_Total rs = Some (total5 (λ f, delegated f A r));
  wg_none r f : R !! r = None → delegated f A r = 0;
}.

Lemma share_nonneg f acc r : (∃ x, accField f acc = Some x ∧ 0 ≤ x) → 0 ≤ share f acc r ≤ amount (accField f acc).
Proof. intros (x & Hx & ?). unfold share. rewrite Hx. cbn. case_decide; lia. Qed.

Lemma delegated_nonneg f A r : solvent A → 0 ≤ delegated f A r.
Proof. intros [Ha _]. apply map_sum_nonneg. intros a acc Hacc. by apply share_nonneg, (Ha a). Qed.

Lemma total5_le h h' : (∀ f, h f ≤ h' f) → total5 h ≤ total5 h'.
Proof. intros Hle. unfold total5. pose proof (Hle fBalance). pose proof (Hle fVote). pose proof (Hle fNetwork). pose proof (Hle fStorage). pose proof (Hle fOracle). lia. Qed.

Lemma total5_part h f : (∀ f, 0 ≤ h f) → h f ≤ total5 h.
Proof.
  intros Hp. unfold total5. pose proof (Hp fBalance). pose proof (Hp fVote). pose proof (Hp fNetwork). pose proof (Hp fStorage). pose proof (Hp fOracle).
  destruct f; lia.
Qed.

Lemma map_sum_total5 (h : field → Address → PovAccountState → Z) A :
  total5 (λ f, map_sum (h f) A) = map_sum (λ a acc, total5 (λ f, h f a acc)) A.
Proof. unfold total5. by rewrite <- !map_sum_plus. Qed.

Lemma delegated_total A r : solvent A → total5 (λ f, delegated f A r) ≤ coins A.
Proof.
  intros [Ha _]. unfold delegated. rewrite (map_sum_total5 (λ f _ acc, share f acc r)). apply map_sum_le. intros a acc Hacc.
  apply total5_le. intros f. by apply share_nonneg, (Ha a).
Qed.

Lemma delegated_fits f A r : solvent A → 0 ≤ delegated f A r < 2 ^ 64.
Proof.
  intros Hs. split; [by apply delegated_nonneg|]. pose proof (delegated_total A r Hs).
  pose proof (total5_part (λ f, delegated f A r) f (λ f, delegated_nonneg f A r Hs)). cbn in *. destruct Hs. lia.
Qed.

Lemma delegated_insert f A a acc r :
  delegated f (<[a := acc]> A) r = delegated f (delete a A) r + share f acc r.
Proof. unfold delegated. rewrite <- insert_delete_eq, map_sum_insert_new by apply lookup_delete_eq. lia. Qed.

Lemma delegated_delete f A a acc r :
  A !! a = Some acc → delegated f A r = delegated f (delete a A) r + share f acc r.
Proof. intros Ha. unfold delegated. rewrite (map_sum_delete _ _ _ _ Ha). lia. Qed.

(** Only the share of account [a] differs between the two. *)
Lemma weigh_same A B R : (∀ f r, delegated f B r = delegated f A r) → weigh A R → weigh B R.
Proof.
  intros He [W1 W2 W3]. split.
  - intros r rs f Hr. rewrite He. by eapply W1.
  - intros r rs Hr. rewrite (W2 r rs Hr). f_equal. unfold total5. by rewrite !He.
  - intros r f Hr. rewrite He. by apply W3.
Qed.

Lemma add5 x y z u v : 0 ≤ x → 0 ≤ y → 0 ≤ z → 0 ≤ u → 0 ≤ v → x + y + z + u + v < 2 ^ 64 →
  (t ← Bal.Add (Some x) (Some y); t ← Bal.Add t (Some z); t ← Bal.Add t (Some u); Bal.Add t (Some v)) = Ok (Some (x + y + z + u + v)).
Proof.
  intros. rewrite BalFacts.Add_no_overflow by lia. cbn [mbind res_bind]. rewrite BalFacts.Add_no_overflow by lia. cbn [mbind res_bind].
  rewrite BalFacts.Add_no_overflow by lia. cbn [mbind res_bind]. by rewrite BalFacts.Add_no_overflow by lia.
Qed.

Lemma account_total A a acc :
  solvent A → A !! a = Some acc → PovAccountState_TotalBalance acc = Ok (Some (total5 (λ f, amount (accField f acc)))).
Proof.
  intros [Ha Hc] Hacc. assert (Hle : total5 (λ f, amount (accField f acc)) ≤ coins A).
  { apply (map_sum_le_entry (λ _ acc, total5 (λ f, amount (accField f acc))) A a acc); [|done].
    intros k v Hv. unfold total5. pose proof (λ f, Ha k v f Hv) as Hf.
    destruct (Hf fBalance) as (? & -> & ?), (Hf fVote) as (? & -> & ?), (Hf fNetwork) as (? & -> & ?), (Hf fStorage) as (? & -> & ?), (Hf fOracle) as (? & -> & ?).
    cbn. lia. }
  pose proof (λ f, Ha a acc f Hacc) as Hf. unfold PovAccountState_TotalBalance, total5 in *.
  destruct (Hf fBalance) as (b & Hb & ?), (Hf fVote) as (v & Hv & ?), (Hf fNetwork) as (n & Hn & ?), (Hf fStorage) as (st & Hst & ?), (Hf fOracle) as (o & Ho & ?).
  rewrite Hb, Hv, Hn, Hst, Ho in Hle |- *. cbn [accField] in *. rewrite Hb, Hv, Hn, Hst, Ho. cbn [amount default] in *.
  rewrite add5 by (cbn in *; lia). do 2 f_equal. cbn. lia.
Qed.

Lemma solvent_delete A a : solvent A → solvent (delete a A).
Proof.
  intros [Ha Hc]. split; [intros a' acc f; rewrite lookup_delete_Some; intros [_ ?]; by eapply Ha|].
  unfold coins in *. destruct (A !! a) as [acc|] eqn:E; [|by rewrite delete_id].
  rewrite (map_sum_delete _ _ _ _ E) in Hc. assert (0 ≤ total5 (λ f, amount (accField f acc))); [|lia].
  unfold total5. pose proof (λ f, Ha a acc f E) as Hf.
  destruct (Hf fBalance) as (? & -> & ?), (Hf fVote) as (? & -> & ?), (Hf fNetwork) as (? & -> & ?), (Hf fStorage) as (? & -> & ?), (Hf fOracle) as (? & -> & ?).
  cbn. lia.
Qed.

Lemma share_other f acc rep r : repOf acc ChainToken = Some rep → r ≠ rep → share f acc r = 0.
Proof. intros Hrep Hne. unfold share. rewrite Hrep. rewrite decide_False; [done|]. congruence. Qed.

Lemma share_own f acc rep : repOf acc ChainToken = Some rep → share f acc rep = amount (accField f acc).
Proof. intros Hrep. unfold share. by rewrite decide_True. Qed.

(** A representative after its fields were changed. *)
Lemma weigh_update A B R rep rs :
  weigh A R → (∀ f r, r ≠ rep → delegated f B r = delegated f A r) →
  (∀ f, repField f rs = Some (delegated f B rep)) → prs_Total rs = Some (total5 (λ f, delegated f B rep)) →
  weigh B (<[rep := rs]> R).
Proof.
  intros [W1 W2 W3] Hne Hf Ht. split.
  - intros r rs' f. rewrite lookup_insert_Some. intros [[<- <-]|[? Hr]]; [done|]. rewrite Hne by done. by eapply W1.
  - intros r rs'. rewrite lookup_insert_Some. intros [[<- <-]|[? Hr]]; [done|]. rewrite (W2 r rs' Hr). f_equal.
    unfold total5. by rewrite !Hne by done.
  - intros r f. rewrite lookup_insert_None. intros [Hr ?]. rewrite Hne by done. by apply W3.
Qed.

Lemma leave_spec g g' A' R A a acc rep :
  refines g A' R → weigh A R → solvent A → A !! a = Some acc → repOf acc ChainToken = Some rep →
  leaveRep db acc rep g = (Ok tt, g') → ∃ R', refines g' A' R' ∧ weigh (delete a A) R'.
Proof.
  intros Hr Hw Hs Hacc Hrep Hrun. pose proof (solvent_delete A a Hs) as Hs'.
  assert (Hdel : ∀ f, delegated f (delete a A) rep = delegated f A rep - amount (accField f acc)).
  { intros f. rewrite (delegated_delete f A a acc rep Hacc), (share_own f acc rep Hrep). lia. }
  assert (Hne : ∀ f r, r ≠ rep → delegated f (delete a A) r = delegated f A r).
  { intros f r Hne. rewrite (delegated_delete f A a acc r Hacc), (share_other f acc rep r) by done. lia. }
  unfold leaveRep in Hrun. apply M_bind_Ok in Hrun as (o & g1 & Hlk & Hrun).
  destruct (lookupRep_spec _ _ _ _ _ _ Hr Hlk) as [-> Hr1]. destruct (R !! rep) as [old|] eqn:Eold.
  2: { injection Hrun as <-. exists R. split; [done|]. apply (weigh_same A); [|done]. intros f r.
       destruct (decide (r = rep)) as [->|]; [|by apply Hne]. pose proof (delegated_nonneg f _ rep Hs'). pose proof (Hdel f).
       pose proof (wg_none _ _ Hw rep f Eold). destruct (proj1 Hs a acc f Hacc) as (x & Hx & ?). rewrite Hx in *. cbn in *. lia. }
  assert (Hsub : ∀ f, Bal.Sub (repField f old) (accField f acc) = Ok (Some (delegated f (delete a A) rep))).
  { intros f. rewrite (wg_field _ _ Hw _ _ f Eold), Hdel. destruct (proj1 Hs a acc f Hacc) as (x & Hx & ?).
    pose proof (delegated_nonneg f _ rep Hs'). rewrite Hdel, Hx in *. pose proof (delegated_fits f A rep Hs). cbn in *.
    apply BalFacts.Sub_no_underflow; lia. }
  pose proof (account_total A a acc Hs Hacc) as Htot.
  assert (Hsubt : Bal.Sub (prs_Total old) (Some (total5 (λ f, amount (accField f acc)))) = Ok (Some (total5 (λ f, delegated f (delete a A) rep)))).
  { rewrite (wg_total _ _ Hw _ _ Eold). pose proof (delegated_total A rep Hs). destruct Hs as [Hs1 Hs2].
    assert (Hpos : ∀ f, 0 ≤ amount (accField f acc)) by (intros f; destruct (Hs1 a acc f Hacc) as (x & -> & ?); done).
    assert (E : total5 (λ f, delegated f (delete a A) rep) = total5 (λ f, delegated f A rep) - total5 (λ f, amount (accField f acc))).
    { unfold total5. rewrite !Hdel. lia. }
    assert (0 ≤ total5 (λ f, delegated f (delete a A) rep)).
    { etrans; [|apply (total5_part _ fBalance)]; intros; by apply delegated_nonneg. }
    rewrite E in *. apply BalFacts.Sub_no_underflow; [|lia|lia].
    etrans; [|by apply (total5_part (λ f, amount (accField f acc)) fBalance)]. cbn. by apply (Hpos fBalance). }
  inv_m. pose proof (Hsub fBalance). pose proof (Hsub fVote). pose proof (Hsub fNetwork). pose proof (Hsub fOracle). pose proof (Hsub fStorage).
  cbn [repField accField] in *. simplify_eq.
  eexists. split; [by eapply SetRepState_spec|]. apply (weigh_update A); [done..| |by cbn; congruence].
  intros []; cbn; congruence.
Qed.

(** The representative as found, or new. *)
Lemma clone_spec R B rep rs g g' :
  weigh B R → cloneRep (R !! rep) g = (Ok rs, g') →
  g' = g ∧ (∀ f, repField f rs = Some (delegated f B rep)) ∧ prs_Total rs = Some (total5 (λ f, delegated f B rep)).
Proof.
  intros Hw. unfold cloneRep. destruct (R !! rep) as [old|] eqn:E.
  - intros Hrun. apply liftR_Ok in Hrun as [Hc ->]. split; [done|]. unfold PovRepState_Clone, copied in Hc.
    pose proof (wg_field _ _ Hw _ _ fBalance E). pose proof (wg_field _ _ Hw _ _ fVote E). pose proof (wg_field _ _ Hw _ _ fNetwork E).
    pose proof (wg_field _ _ Hw _ _ fStorage E). pose proof (wg_field _ _ Hw _ _ fOracle E). pose proof (wg_total _ _ Hw _ _ E) as Ht.
    cbn [repField] in *. repeat case_match; simplify_eq. cbn in Hc. injection Hc as <-. split; [intros []; cbn; congruence|cbn; congruence].
  - intros [= <- <-]. split; [done|]. unfold total5. split; [intros f; rewrite (wg_none _ _ Hw rep f) by done; by destruct f|].
    by rewrite !(wg_none _ _ Hw rep) by done.
Qed.

Lemma total5_insert B a new rep :
  B !! a = None → repOf new ChainToken = Some rep → (∀ f, ∃ x, accField f new = Some x ∧ 0 ≤ x) →
  total5 (λ f, delegated f (<[a := new]> B) rep) = total5 (λ f, delegated f B rep) + total5 (λ f, amount (accField f new)).
Proof. intros Hb Hrep _. unfold total5. rewrite !delegated_insert, !delete_id, !(share_own _ _ _ Hrep) by done. lia. Qed.

Lemma block_total block x y z u v :
  sb_Balance block = Some x → sb_Vote block = Some y → sb_Network block = Some z → sb_Oracle block = Some u → sb_Storage block = Some v →
  0 ≤ x → 0 ≤ y → 0 ≤ z → 0 ≤ u → 0 ≤ v → x + y + z + u + v < 2 ^ 64 → SB.TotalBalance block = Ok (Some (x + y + z + u + v)).
Proof. intros Hx Hy Hz Hu Hv. intros. unfold SB.TotalBalance. rewrite Hx, Hy, Hz, Hu, Hv. cbn [SB.addIf]. by apply add5. Qed.

Lemma join_spec g g' A' R B a new block rep :
  refines g A' R → weigh B R → B !! a = None → solvent (<[a := new]> B) → repOf new ChainToken = Some rep →
  (∀ f, accField f new = blockField f block) → joinRep db block rep g = (Ok tt, g') →
  ∃ R', refines g' A' R' ∧ weigh (<[a := new]> B) R'.
Proof.
  intros Hr Hw Hb Hs Hrep Hfb Hrun. assert (HsB : solvent B) by (rewrite <- (delete_insert_id B a new Hb); by apply solvent_delete).
  assert (Hins : ∀ f r, delegated f (<[a := new]> B) r = delegated f B r + share f new r) by (intros; by rewrite delegated_insert, delete_id).
  assert (Hnew : ∀ f, ∃ x, accField f new = Some x ∧ 0 ≤ x) by (intros f; apply (proj1 Hs a new f), lookup_insert_eq).
  unfold joinRep in Hrun. apply M_bind_Ok in Hrun as (o & g1 & Hlk & Hrun). destruct (lookupRep_spec _ _ _ _ _ _ Hr Hlk) as [-> Hr1].
  apply M_bind_Ok in Hrun as (rs & g2 & Hcl & Hrun). destruct (clone_spec _ _ _ _ _ _ Hw Hcl) as (-> & Hf & Ht).
  assert (Hadd : ∀ f, Bal.Add (repField f rs) (blockField f block) = Ok (Some (delegated f (<[a := new]> B) rep))).
  { intros f. rewrite Hf, <- Hfb. destruct (Hnew f) as (x & Hx & ?). rewrite Hins, (share_own f new rep Hrep), Hx. change (amount (Some x)) with x.
    pose proof (delegated_fits f (<[a := new]> B) rep Hs) as Hfit. rewrite Hins, (share_own f new rep Hrep), Hx in Hfit. change (amount (Some x)) with x in Hfit.
    pose proof (delegated_nonneg f B rep HsB). apply BalFacts.Add_no_overflow; lia. }
  pose proof (total5_insert B a new rep Hb Hrep Hnew) as Htot. pose proof (delegated_total _ rep Hs) as Hle. destruct Hs as [Hs1 Hs2].
  assert (Hpos : 0 ≤ total5 (λ f, delegated f B rep)) by (etrans; [|apply (total5_part _ fBalance)]; intros; by apply delegated_nonneg).
  assert (Hbt : SB.TotalBalance block = Ok (Some (total5 (λ f, amount (accField f new))))).
  { destruct (Hnew fBalance) as (x & Hx & ?), (Hnew fVote) as (y & Hy & ?), (Hnew fNetwork) as (z & Hz & ?), (Hnew fOracle) as (u & Hu & ?), (Hnew fStorage) as (v & Hv & ?).
    assert (E : total5 (λ f, amount (accField f new)) = x + y + z + u + v) by (unfold total5; rewrite Hx, Hy, Hz, Hu, Hv; cbn; lia).
    rewrite !Hfb in *. cbn [blockField] in *. rewrite E. apply block_total; try done. lia. }
  assert (Hposn : 0 ≤ total5 (λ f, amount (accField f new))).
  { assert (Hn0 : ∀ f, 0 ≤ amount (accField f new)) by (intros f; by destruct (Hnew f) as (? & -> & ?)).
    etrans; [apply (Hn0 fBalance)|]. by apply (total5_part (λ f, amount (accField f new)) fBalance). }
  assert (Haddt : Bal.Add (prs_Total rs) (Some (total5 (λ f, amount (accField f new))))
                  = Ok (Some (total5 (λ f, delegated f (<[a := new]> B) rep)))).
  { rewrite Ht, Htot. apply BalFacts.Add_no_overflow; lia. }
  inv_m. pose proof (Hadd fBalance). pose proof (Hadd fVote). pose proof (Hadd fNetwork). pose proof (Hadd fOracle). pose proof (Hadd fStorage).
  cbn [repField blockField] in *. simplify_eq.
  eexists. split; [by eapply SetRepState_spec|]. apply (weigh_update B); [done| | |cbn; congruence].
  - intros f r Hne. rewrite Hins, (share_other f new rep r) by done. lia.
  - intros []; cbn; congruence.
Qed.

(** ** Transactions *)
Lemma find_put ts states tok :
  List.find (λ t, pts_Type t =? tok) (putTokenState ts states) =
    if pts_Type ts =? tok then Some ts else List.find (λ t, pts_Type t =? tok) states.
Proof.
  induction states as [|t states IH]; cbn; [by destruct (pts_Type ts =? tok)|].
  destruct (Z.eqb_spec (pts_Type t) (pts_Type ts)) as [E|]; cbn.
  - rewrite E. by destruct (pts_Type ts =? tok).
  - rewrite IH. destruct (Z.eqb_spec (pts_Type t) tok), (Z.eqb_spec (pts_Type ts) tok); congruence.
Qed.

(** The token state that a transaction writes. *)
Definition txToken (tx : PovTransaction) : PovTokenState :=
  mkPovTokenState (sb_Token (tx_Block tx)) (tx_Hash tx) (sb_Representative (tx_Block tx)) (SB.GetBalance (tx_Block tx)).

(** The accounts after a transaction. *)
Definition accountsAfter A (tx : PovTransaction) : gmap Address PovAccountState :=
  <[sb_Address (tx_Block tx) := atAddress (sb_Address (tx_Block tx)) (newAccountState tx (A !! sb_Address (tx_Block tx)))]> A.

Lemma token_after tx old tok :
  GetTokenState (newAccountState tx old) tok =
    if sb_Token (tx_Block tx) =? tok then Some (txToken tx) else old ≫= λ acc, GetTokenState acc tok.
Proof.
  unfold GetTokenState, newAccountState, withBlockFields. cbn. destruct old as [acc|]; cbn.
  - destruct (_ =? ChainToken); cbn; apply (find_put (txToken tx)).
  - by destruct (sb_Token (tx_Block tx) =? tok).
Qed.

Lemma repOf_after tx old tok :
  sb_Token (tx_Block tx) ≠ tok → repOf (newAccountState tx old) tok = old ≫= λ acc, repOf acc tok.
Proof.
  intros Hne. unfold repOf. rewrite token_after. rewrite (proj2 (Z.eqb_neq _ _) Hne). by destruct old.
Qed.

Lemma repOf_chain tx old :
  sb_Token (tx_Block tx) = ChainToken →
  repOf (newAccountState tx old) ChainToken =
    if sb_Representative (tx_Block tx) =? 0 then None else Some (sb_Representative (tx_Block tx)).
Proof. intros Ht. unfold repOf. rewrite token_after, Ht, Z.eqb_refl. done. Qed.

(** What the theorem asks of a transaction: its amounts are not nil, the accounts stay
    solvent, and a block that only says that its account is online leaves delegation as it is. *)
Definition oldShare (f : field) A a (r : Address) : Z := match A !! a with Some acc => share f acc r | None => 0 end.

Record txFine A (tx : PovTransaction) : Prop := {
  tf_amounts f : is_Some (blockField f (tx_Block tx));
  tf_solvent : solvent (accountsAfter A tx);
  tf_online : sb_Type (tx_Block tx) = Online → ∀ f r,
    share f (newAccountState tx (A !! sb_Address (tx_Block tx))) r = oldShare f A (sb_Address (tx_Block tx)) r;
}.

Fixpoint txsFine A (txs : list PovTransaction) : Prop :=
  match txs with [] => True | tx :: txs' => txFine A tx ∧ txsFine (accountsAfter A tx) txs' end.

Lemma delegated_after f A tx r :
  delegated f (accountsAfter A tx) r =
    delegated f A r - oldShare f A (sb_Address (tx_Block tx)) r + share f (newAccountState tx (A !! sb_Address (tx_Block tx))) r.
Proof.
  unfold accountsAfter. rewrite delegated_insert. unfold oldShare. destruct (A !! _) as [acc|] eqn:E.
  - rewrite (delegated_delete f A _ acc r E). change (share f (atAddress _ ?x) r) with (share f x r). lia.
  - rewrite delete_id by done. change (share f (atAddress _ ?x) r) with (share f x r). lia.
Qed.

Lemma other_token_share f A tx r :
  sb_Token (tx_Block tx) ≠ ChainToken →
  share f (newAccountState tx (A !! sb_Address (tx_Block tx))) r = oldShare f A (sb_Address (tx_Block tx)) r.
Proof.
  intros Hne. unfold oldShare, share. rewrite repOf_after by done. destruct (A !! _) as [acc|]; cbn; [|by destruct (decide _)].
  unfold newAccountState, withBlockFields. rewrite (proj2 (Z.eqb_neq _ _) Hne). by destruct f.
Qed.

Lemma chain_fields f tx old :
  sb_Token (tx_Block tx) = ChainToken → is_Some (blockField f (tx_Block tx)) →
  accField f (newAccountState tx old) = blockField f (tx_Block tx).
Proof.
  intros Ht [x Hx]. unfold newAccountState, withBlockFields. rewrite (proj2 (Z.eqb_eq _ _) Ht).
  destruct f; cbn in *; unfold SB.GetVote, SB.GetNetwork, SB.GetStorage, SB.GetOracle, SB.GetBalance; by rewrite Hx.
Qed.

Lemma share_none f acc r : repOf acc ChainToken = None → share f acc r = 0.
Proof. intros Hn. unfold share. rewrite Hn. by rewrite decide_False. Qed.

(** The account takes its share from its last representative. *)
Lemma leaving_spec g g' A' R A a :
  refines g A' R → weigh A R → solvent A →
  match A !! a with
  | Some acc => match repOf acc ChainToken with Some rep => leaveRep db acc rep | None => mret tt end
  | None => mret tt
  end g = (Ok tt, g') →
  ∃ R', refines g' A' R' ∧ weigh (delete a A) R'.
Proof.
  intros Hr Hw Hs. destruct (A !! a) as [acc|] eqn:E.
  - destruct (repOf acc ChainToken) as [rep|] eqn:Erep; [intros Hrun; by eapply leave_spec|].
    intros [= <-]. exists R. split; [done|]. apply (weigh_same A); [|done]. intros f r.
    rewrite (delegated_delete f A a acc r E), (share_none f acc r Erep). lia.
  - intros [= <-]. exists R. by rewrite delete_id.
Qed.

(** The account gives its share to its new representative. *)
Lemma joining_spec g g' A' R A tx :
  let a := sb_Address (tx_Block tx) in
  let new := newAccountState tx (A !! a) in
  refines g A' R → weigh (delete a A) R → txFine A tx → sb_Token (tx_Block tx) = ChainToken →
  match repOf new ChainToken with Some rep => joinRep db (tx_Block tx) rep | None => mret tt end g = (Ok tt, g') →
  ∃ R', refines g' A' R' ∧ weigh (accountsAfter A tx) R'.
Proof.
  intros a new Hr Hw [Ham Hsol _] Ht.
  assert (Hafter : accountsAfter A tx = <[a := atAddress a new]> (delete a A)) by (unfold accountsAfter; by rewrite insert_delete_eq).
  rewrite Hafter in Hsol |- *. destruct (repOf new ChainToken) as [rep|] eqn:Erep.
  - intros Hrun. eapply (join_spec g g' A' R (delete a A) a (atAddress a new)); try done; [apply lookup_delete_eq|].
    intros f. change (accField f (atAddress a new)) with (accField f new). by apply chain_fields.
  - intros [= <-]. exists R. split; [done|]. apply (weigh_same (delete a A)); [|done]. intros f r.
    rewrite delegated_insert, delete_id by apply lookup_delete_eq. change (share f (atAddress a new) r) with (share f new r).
    rewrite (share_none f new r Erep). lia.
Qed.

(** The account is written first, then the representatives. *)
Lemma apply_parts height tx g g' A R :
  refines g A R → ApplyTransaction db fuel l height tx g = (Ok tt, g') →
  ∃ g3 g4, refines g3 (accountsAfter A tx) R ∧
    (if decide (sb_Type (tx_Block tx) = Online) then updateRepOnline db height tx
     else updateRepState db tx (A !! sb_Address (tx_Block tx)) (newAccountState tx (A !! sb_Address (tx_Block tx)))) g3
      = (Ok tt, g4) ∧
    ∀ A' R', refines g4 A' R' → refines g' A' R'.
Proof.
  intros Hr Hrun. unfold ApplyTransaction in Hrun. apply M_bind_Ok in Hrun as (o & g1 & Hlk & Hrun).
  destruct (lookupAccount_spec _ _ _ _ _ _ Hr Hlk) as [-> Hr1].
  unfold updateAccountState in Hrun. apply M_bind_Ok in Hrun as (new & g2 & Hset & Hrun).
  apply M_bind_Ok in Hset as ([] & g3 & Hset & [= <- <-]). apply (SetAccountState_spec _ _ _ _ _ _ Hr1) in Hset as Hr3.
  apply M_bind_Ok in Hrun as ([] & g4 & Hrep & Hrun). exists g3, g4. split_and!; [done|done|].
  intros A' R' Hr4. by eapply updateContractState_spec.
Qed.

Lemma apply_spec height tx g g' A R :
  refines g A R → weigh A R → solvent A → txFine A tx → ApplyTransaction db fuel l height tx g = (Ok tt, g') →
  ∃ R', refines g' (accountsAfter A tx) R' ∧ weigh (accountsAfter A tx) R'.
Proof.
  intros Hr Hw Hs Hf Hrun. destruct (apply_parts _ _ _ _ _ _ Hr Hrun) as (g3 & g4 & Hr3 & Hrep & Hlast).
  set (a := sb_Address (tx_Block tx)) in *.
  enough (∃ R', refines g4 (accountsAfter A tx) R' ∧ weigh (accountsAfter A tx) R') as (R' & Hr4 & Hw4) by eauto.
  case_decide as Hty.
  - assert (Hsame : ∀ f r, delegated f (accountsAfter A tx) r = delegated f A r).
    { intros f r. rewrite delegated_after, (tf_online _ _ Hf Hty). lia. }
    pose proof (weigh_same A (accountsAfter A tx) R Hsame Hw) as Hw'.
    unfold updateRepOnline in Hrep. apply M_bind_Ok in Hrep as (o & g5 & Hlk' & Hrep).
    destruct (lookupRep_spec _ _ _ _ _ _ Hr3 Hlk') as [-> Hr5]. apply M_bind_Ok in Hrep as (rs & g6 & Hcl & Hrep).
    destruct (clone_spec _ _ _ _ _ _ Hw' Hcl) as (-> & Hfields & Htot).
    eexists. split; [by eapply SetRepState_spec|]. apply (weigh_update (accountsAfter A tx)); [done..| |done].
    intros f. rewrite <- Hfields. by destruct f.
  - unfold updateRepState in Hrep. destruct (Z.eqb_spec (sb_Token (tx_Block tx)) ChainToken) as [Ht|Hne]; cbn [negb] in Hrep.
    + rewrite Ht in Hrep. apply M_bind_Ok in Hrep as ([] & g5 & Hleave & Hjoin).
      destruct (leaving_spec g3 g5 (accountsAfter A tx) R A a Hr3 Hw Hs Hleave) as (R1 & Hr5 & Hw5).
      by apply (joining_spec g5 g4 (accountsAfter A tx) R1 A tx).
    + injection Hrep as <-. exists R. split; [done|]. apply (weigh_same A); [|done]. intros f r.
      rewrite delegated_after, other_token_share by done. lia.
Qed.

Lemma applyAll_spec height txs g g' A R :
  refines g A R → weigh A R → solvent A → txsFine A txs → applyAll db fuel l height txs g = (Ok tt, g') →
  ∃ R', refines g' (foldl accountsAfter A txs) R' ∧ weigh (foldl accountsAfter A txs) R'.
Proof.
  revert g A R. induction txs as [|tx txs IH]; intros g A R Hr Hw Hs Hf Hrun.
  { injection Hrun as <-. by exists R. }
  destruct Hf as [Hf1 Hf2]. cbn in Hrun. apply M_bind_Ok in Hrun as ([] & g1 & H1' & H2').
  destruct (apply_spec _ _ _ _ _ _ Hr Hw Hs Hf1 H1') as (R1 & Hr1 & Hw1).
  apply (IH g1 (accountsAfter A tx) R1); [done|done|apply Hf1|done|done].
Qed.

(** ** An online block that names another representative *)

(** A representative with these weights. *)
Definition weighs R (r : Address) (w : field → Z) : Prop :=
  ∃ rs, R !! r = Some rs ∧ ∀ f, repField f rs = Some (w f).

(** A block of the chain token by which the account holds [x] and delegates it to [r]. *)
Record delegates (tx : PovTransaction) (a r : Address) (x : field → Z) : Prop := {
  dl_address : sb_Address (tx_Block tx) = a;
  dl_token : sb_Token (tx_Block tx) = ChainToken;
  dl_rep : sb_Representative (tx_Block tx) = r;
  dl_fields f : blockField f (tx_Block tx) = Some (x f);
}.

Lemma weighs_other R r r' rs w : r ≠ r' → weighs R r w → weighs (<[r' := rs]> R) r w.
Proof. intros Hne (rs0 & ? & ?). exists rs0. by rewrite lookup_insert_ne. Qed.

Lemma clone_weighs R r w g rs g' : weighs R r w → cloneRep (R !! r) g = (Ok rs, g') → g' = g ∧ ∀ f, repField f rs = Some (w f).
Proof.
  intros (old & Hold & Hw). rewrite Hold. intros Hrun. apply liftR_Ok in Hrun as [Hc ->]. split; [done|].
  unfold PovRepState_Clone, copied in Hc. pose proof (Hw fBalance). pose proof (Hw fVote). pose proof (Hw fNetwork).
  pose proof (Hw fStorage). pose proof (Hw fOracle). cbn [repField] in *.
  repeat case_match; simplify_eq. cbn in Hc. repeat case_match; simplify_eq. intros []; cbn; congruence.
Qed.

Lemma leave_weighs g g' A R acc r w (x : field → Z) :
  refines g A R → weighs R r w → (∀ f, accField f acc = Some (x f)) → (∀ f, 0 ≤ x f ≤ w f ∧ w f < 2 ^ 64) →
  leaveRep db acc r g = (Ok tt, g') →
  ∃ rs, refines g' A (<[r := rs]> R) ∧ ∀ f, repField f rs = Some (w f - x f).
Proof.
  intros Hr (old & Hold & Hw) Hx Hb Hrun. unfold leaveRep in Hrun. apply M_bind_Ok in Hrun as (o & g1 & Hlk & Hrun).
  destruct (lookupRep_spec _ _ _ _ _ _ Hr Hlk) as [-> Hr1]. rewrite Hold in Hrun.
  assert (Hsub : ∀ f, Bal.Sub (repField f old) (accField f acc) = Ok (Some (w f - x f))).
  { intros f. rewrite Hw, Hx. pose proof (Hb f). apply BalFacts.Sub_no_underflow; lia. }
  inv_m. pose proof (Hsub fBalance). pose proof (Hsub fVote). pose proof (Hsub fNetwork). pose proof (Hsub fOracle). pose proof (Hsub fStorage).
  cbn [repField accField] in *. simplify_eq. eexists. split; [by eapply SetRepState_spec|]. intros []; cbn; congruence.
Qed.

Lemma join_weighs g g' A R block r w (x : field → Z) :
  refines g A R → weighs R r w → (∀ f, blockField f block = Some (x f)) → (∀ f, 0 ≤ x f ∧ 0 ≤ w f ∧ w f + x f < 2 ^ 64) →
  joinRep db block r g = (Ok tt, g') →
  ∃ rs, refines g' A (<[r := rs]> R) ∧ ∀ f, repField f rs = Some (w f + x f).
Proof.
  intros Hr Hw Hx Hb Hrun. unfold joinRep in Hrun. apply M_bind_Ok in Hrun as (o & g1 & Hlk & Hrun).
  destruct (lookupRep_spec _ _ _ _ _ _ Hr Hlk) as [-> Hr1]. apply M_bind_Ok in Hrun as (rs & g2 & Hcl & Hrun).
  destruct (clone_weighs _ _ _ _ _ _ Hw Hcl) as [-> Hf].
  assert (Hadd : ∀ f, Bal.Add (repField f rs) (blockField f block) = Ok (Some (w f + x f))).
  { intros f. rewrite Hf, Hx. pose proof (Hb f). apply BalFacts.Add_no_overflow; lia. }
  inv_m. pose proof (Hadd fBalance). pose proof (Hadd fVote). pose proof (Hadd fNetwork). pose proof (Hadd fOracle). pose proof (Hadd fStorage).
  cbn [repField blockField] in *. simplify_eq. eexists. split; [by eapply SetRepState_spec|]. intros []; cbn; congruence.
Qed.

(** The announcement changes no weight. *)
Lemma online_weighs height tx g g' A R :
  refines g A R → sb_Type (tx_Block tx) = Online → ApplyTransaction db fuel l height tx g = (Ok tt, g') →
  ∃ R', refines g' (accountsAfter A tx) R' ∧ ∀ r w, weighs R r w → weighs R' r w.
Proof.
  intros Hr Hty Hrun. destruct (apply_parts _ _ _ _ _ _ Hr Hrun) as (g3 & g4 & Hr3 & Hrep & Hlast). rewrite decide_True in Hrep by done.
  unfold updateRepOnline in Hrep. apply M_bind_Ok in Hrep as (o & g5 & Hlk & Hrep).
  destruct (lookupRep_spec _ _ _ _ _ _ Hr3 Hlk) as [-> Hr5]. apply M_bind_Ok in Hrep as (rs & g6 & Hcl & Hrep).
  assert (g6 = g5) as ->.
  { unfold cloneRep in Hcl. destruct (R !! _); [by apply liftR_Ok in Hcl as [_ ->]|by injection Hcl as _ <-]. }
  eexists. split; [by eapply Hlast, SetRepState_spec|]. intros r w Hw.
  destruct (decide (r = sb_Address (tx_Block tx))) as [->|Hne]; [|by apply weighs_other].
  destruct (clone_weighs _ _ _ _ _ _ Hw Hcl) as [_ Hf]. eexists. rewrite lookup_insert_eq. split; [done|].
  intros f. rewrite <- Hf. by destruct f.
Qed.

(** Another block moves what the account is said to hold. *)
Lemma moving_weighs height tx g g' A R a acc r1 r2 w1 w2 x :
  refines g A R → delegates tx a r1 x → sb_Type (tx_Block tx) ≠ Online → r1 ≠ 0 → r1 ≠ r2 →
  A !! a = Some acc → repOf acc ChainToken = Some r2 → (∀ f, accField f acc = Some (x f)) →
  weighs R r1 w1 → weighs R r2 w2 → (∀ f, 0 ≤ x f ≤ w2 f ∧ w2 f < 2 ^ 64 ∧ 0 ≤ w1 f ∧ w1 f + x f < 2 ^ 64) →
  ApplyTransaction db fuel l height tx g = (Ok tt, g') →
  ∃ R', refines g' (accountsAfter A tx) R' ∧ weighs R' r1 (λ f, w1 f + x f) ∧ weighs R' r2 (λ f, w2 f - x f).
Proof.
  intros Hr [<- Ht <- Hx] Hty Hn0 Hne Hacc Hrep Hax Hw1 Hw2 Hb Hrun.
  destruct (apply_parts _ _ _ _ _ _ Hr Hrun) as (g3 & g4 & Hr3 & Hstep & Hlast). rewrite decide_False in Hstep by done.
  unfold updateRepState in Hstep. rewrite Ht, Z.eqb_refl, Hacc, Hrep, repOf_chain in Hstep by done. cbn [negb] in Hstep.
  rewrite (proj2 (Z.eqb_neq _ _) Hn0) in Hstep. apply M_bind_Ok in Hstep as ([] & g5 & Hleave & Hjoin).
  destruct (leave_weighs _ _ _ _ _ _ _ _ Hr3 Hw2 Hax ltac:(intros f; specialize (Hb f); lia) Hleave) as (rs2 & Hr5 & Hf2).
  destruct (join_weighs _ _ _ _ _ _ w1 x Hr5 ltac:(by apply weighs_other) Hx ltac:(intros f; specialize (Hb f); lia) Hjoin)
    as (rs1 & Hr4 & Hf1).
  eexists. split; [by apply Hlast|]. split; [exists rs1; by rewrite lookup_insert_eq|].
  apply weighs_other; [by apply not_eq_sym|]. exists rs2. by rewrite lookup_insert_eq.
Qed.

(** The account as a delegating block leaves it. *)
Lemma delegates_after A tx a r x :
  delegates tx a r x → r ≠ 0 → ∃ acc, accountsAfter A tx !! a = Some acc ∧ repOf acc ChainToken = Some r ∧
    ∀ f, accField f acc = Some (x f).
Proof.
  intros [<- Ht <- Hx] Hr. unfold accountsAfter. rewrite lookup_insert_eq. eexists. split; [done|]. split.
  - change (repOf (atAddress _ ?y) ChainToken) with (repOf y ChainToken). rewrite repOf_chain by done.
    by rewrite (proj2 (Z.eqb_neq _ _) Hr).
  - intros f. change (accField f (atAddress _ ?y)) with (accField f y). rewrite chain_fields by (rewrite ?Hx; eauto). apply Hx.
Qed.

(** ** Theorems *)

(** C8: applying transactions to a global state that holds some accounts gives the state
    of the accounts with the balances, fields, heads and representatives of the blocks, and
    the weight of every representative is field by field, and in total, what the accounts
    naming it hold, provided that amounts are not nil, fit in 64 bits together, and online
    blocks leave delegation as it is. *)
Theorem state_weights_are_delegated height txs g g' A R :
  refines g A R → weigh A R → solvent A → txsFine A txs → applyAll db fuel l height txs g = (Ok tt, g') →
  ∃ R', refines g' (foldl accountsAfter A txs) R' ∧ weigh (foldl accountsAfter A txs) R'.
Proof. apply applyAll_spec. Qed.

(** C40: an online block is not treated as one that delegates.  When an account that holds
    [x] and delegates to [r1] publishes an online block naming [r2] and then a block back to
    [r1], holding the same all the time, the online block changes the account but no weight,
    and the second block takes [x] from [r2], which was never given it, and adds it to [r1] a
    second time; in the end the accounts delegate what they did at first.  (As long as no
    weight is negative or beyond 64 bits.) *)
Theorem online_block_counts_twice height on back g g' A R a acc r1 r2 w1 w2 x :
  refines g A R → A !! a = Some acc → repOf acc ChainToken = Some r1 → (∀ f, accField f acc = Some (x f)) →
  weighs R r1 w1 → weighs R r2 w2 → (∀ f, 0 ≤ x f ≤ w2 f ∧ w2 f < 2 ^ 64 ∧ 0 ≤ w1 f ∧ w1 f + x f < 2 ^ 64) →
  r1 ≠ r2 → r2 ≠ 0 →
  delegates on a r2 x → sb_Type (tx_Block on) = Online → delegates back a r1 x → sb_Type (tx_Block back) ≠ Online →
  applyAll db fuel l height [on; back] g = (Ok tt, g') →
  let A' := foldl accountsAfter A [on; back] in
  ∃ R', refines g' A' R' ∧ weighs R' r1 (λ f, w1 f + x f) ∧ weighs R' r2 (λ f, w2 f - x f) ∧
    ∀ f r, delegated f A' r = delegated f A r.
Proof.
  intros Hr Hacc Hrep Hx Hw1 Hw2 Hb Hne Hn2 Hon Hty Hback Hty' Hrun A'.
  assert (Hn1 : r1 ≠ 0) by (unfold repOf in Hrep; destruct (GetTokenState acc ChainToken); cbn in Hrep; [|done];
    case_match eqn:E; [done|]; injection Hrep as <-; by apply Z.eqb_neq).
  cbn [applyAll] in Hrun. apply M_bind_Ok in Hrun as ([] & g1 & H1' & Hrun). apply M_bind_Ok in Hrun as ([] & g2 & H2' & [= <-]).
  destruct (online_weighs _ _ _ _ _ _ Hr Hty H1') as (R1 & Hr1 & Hkeep).
  destruct (delegates_after A on a r2 x Hon Hn2) as (acc1 & Hacc1 & Hrep1 & Hx1).
  destruct (moving_weighs height back g1 g2 _ R1 a acc1 r1 r2 w1 w2 x Hr1 Hback Hty' Hn1 Hne Hacc1 Hrep1 Hx1
    (Hkeep _ _ Hw1) (Hkeep _ _ Hw2) Hb H2') as (R2 & Hr2 & Hf1 & Hf2).
  exists R2. split_and!; [done..|]. intros f r.
  destruct (delegates_after (accountsAfter A on) back a r1 x Hback Hn1) as (acc2 & Hacc2 & Hrep2 & Hx2).
  assert (Hsh : share f acc2 r = share f acc r) by (unfold share; by rewrite Hrep, Hrep2, Hx, Hx2).
  assert (Hdel : delete a A' = delete a A).
  { unfold A'. cbn [foldl]. unfold accountsAfter. rewrite (dl_address _ _ _ _ Hon), (dl_address _ _ _ _ Hback).
    by rewrite !delete_insert_eq. }
  rewrite (delegated_delete f A' a acc2 r Hacc2), (delegated_delete f A a acc r Hacc), Hdel, Hsh. done.
Qed.

Lemma early_offline height w rs : 0 ≤ height < DPosOnlinePeriod - 1 → isOnline height w rs = Ok false.
Proof.
  intros Hh. unfold isOnline. destruct (negb _); [done|].
  destruct (Z.ltb_spec height (prs_Height rs)) as [|Hle]; [done|]. cbn [orb].
  destruct (Z.ltb_spec (prs_Height rs) (u64 (height + 1 - DPosOnlinePeriod))) as [|Hge]; [done|].
  unfold u64, DPosOnlinePeriod in *. rewrite <- (Z.mod_unique_pos _ (2 ^ 64) (-1) (height + 1 - 120 + 2 ^ 64)) in Hge by lia. lia.
Qed.

Lemma early_nobody height w kvs rss :
  0 ≤ height < DPosOnlinePeriod - 1 → onlineReps height w kvs = Ok rss → rss = [].
Proof.
  intros Hh. revert rss. induction kvs as [|[k v] kvs IH]; intros rss; cbn [onlineReps]; [by intros [= <-]|].
  destruct v as [|b bs]; [apply IH|]. intros Hrun. inv_m. rewrite early_offline in * by done. simplify_eq. by eapply IH.
Qed.

(** The bound on the height of the last online block wraps around below height 119: no
    representative counts as online there, whenever it announced itself. *)
Theorem nobody_online_early supply height stateHash rss :
  0 ≤ height < DPosOnlinePeriod - 1 → GetAllOnlineRepStates db fuel supply height stateHash = Ok rss → rss = [].
Proof.
  intros Hh Hrun. unfold GetAllOnlineRepStates in Hrun. inv_m. destruct (gs_prevTrie _); [|by injection Hrun as <-].
  inv_m. destruct (onlineReps height _ _) as [rss'|e|] eqn:E; [|by injection Hrun as <-|done].
  injection Hrun as <-. by eapply early_nobody.
Qed.
End views.
