(* ===== verification/PovStore.v ===== *)
(** * Tables of the proof-of-value chain: [ledger/ledger_pov.go]

    Headers, bodies and total difficulties are kept under height and hash, the height of
    a block under its hash, the hashes of the best chain under their heights, and the
    place of a transaction under its hash.  [PovDB] is one state of these tables: the
    store itself, or the store as a batch sees it, with the writes of the batch.  A
    method that may leave part of its writes behind when it fails is an action on the
    tables.  Values are read back as their serialized form gives them. *)

From stdpp Require Import sorting.
From S2P Require Import Prelude Types Target TrieStore Pov.

(** ** Data: [common/types/block_pov.go] *)
Record PovTD := mkPovTD {
  td_Chain : Z; td_Sha256d : Z; td_Scrypt : Z; td_X11 : Z; td_Hybrid : Z }.

Record PovTxLookup := mkPovTxLookup {
  txl_BlockHash : Hash; txl_BlockHeight : Z; txl_TxIndex : Z }.

Definition NewPovTD : PovTD := mkPovTD 0 0 0 0 0.

(** [BigNum.Copy] goes through the bytes of the absolute value; [Hybrid] is left at zero. *)
Definition PovTD_Copy (td : PovTD) : PovTD :=
  mkPovTD (Z.abs (td_Chain td)) (Z.abs (td_Sha256d td)) (Z.abs (td_Scrypt td)) (Z.abs (td_X11 td)) 0.

Definition PovTD_wire (td : PovTD) : PovTD :=
  mkPovTD (Z.abs (td_Chain td)) (Z.abs (td_Sha256d td)) (Z.abs (td_Scrypt td)) (Z.abs (td_X11 td))
    (Z.abs (td_Hybrid td)).

(** Of a header only the amounts of the coinbase change when it is serialized. *)
Definition PovHeader_wire (h : PovHeader) : PovHeader :=
  let out to := mkPovCoinBaseTxOut (Bal.wire (to_Value to)) (to_Address to) in
  let tx cb := mkPovCoinBaseTx (cb_Version cb) (cb_TxIns cb) (out <$> cb_TxOuts cb) (cb_StateHash cb) (cb_TxNum cb) in
  mkPovHeader (h_Version h) (h_Previous h) (h_MerkleRoot h) (h_Timestamp h) (h_Bits h) (h_Nonce h)
    (h_Hash h) (h_Height h) (h_AuxHdr h) (tx <$> h_CbTx h).

Definition pb_Hash (b : PovBlock) : Hash := h_Hash (pb_Header b).
Definition pb_Height (b : PovBlock) : Z := h_Height (pb_Header b).
Definition pb_Previous (b : PovBlock) : Hash := h_Previous (pb_Header b).

(** ** The tables *)
Record PovDB := mkPovDB {
  db_headers : gmap (Z * Hash) PovHeader;
  db_bodies : gmap (Z * Hash) (list Hash);
  db_heights : gmap Hash Z;
  db_tds : gmap (Z * Hash) PovTD;
  db_txls : gmap Hash PovTxLookup;
  db_best : gmap Z Hash;
  db_latest : option Z;
  db_cursor : option Z;
  db_tries : gmap Hash (list Z);
}.

Definition emptyPovDB : PovDB := mkPovDB ∅ ∅ ∅ ∅ ∅ ∅ None None ∅.

Definition db_with_headers (db : PovDB) t :=
  mkPovDB t (db_bodies db) (db_heights db) (db_tds db) (db_txls db) (db_best db) (db_latest db) (db_cursor db) (db_tries db).
Definition db_with_bodies (db : PovDB) t :=
  mkPovDB (db_headers db) t (db_heights db) (db_tds db) (db_txls db) (db_best db) (db_latest db) (db_cursor db) (db_tries db).
Definition db_with_heights (db : PovDB) t :=
  mkPovDB (db_headers db) (db_bodies db) t (db_tds db) (db_txls db) (db_best db) (db_latest db) (db_cursor db) (db_tries db).
Definition db_with_tds (db : PovDB) t :=
  mkPovDB (db_headers db) (db_bodies db) (db_heights db) t (db_txls db) (db_best db) (db_latest db) (db_cursor db) (db_tries db).
Definition db_with_txls (db : PovDB) t :=
  mkPovDB (db_headers db) (db_bodies db) (db_heights db) (db_tds db) t (db_best db) (db_latest db) (db_cursor db) (db_tries db).
Definition db_with_best (db : PovDB) t :=
  mkPovDB (db_headers db) (db_bodies db) (db_heights db) (db_tds db) (db_txls db) t (db_latest db) (db_cursor db) (db_tries db).
Definition db_with_latest (db : PovDB) t :=
  mkPovDB (db_headers db) (db_bodies db) (db_heights db) (db_tds db) (db_txls db) (db_best db) t (db_cursor db) (db_tries db).
Definition db_with_cursor (db : PovDB) t :=
  mkPovDB (db_headers db) (db_bodies db) (db_heights db) (db_tds db) (db_txls db) (db_best db) (db_latest db) t (db_tries db).
Definition db_with_tries (db : PovDB) t :=
  mkPovDB (db_headers db) (db_bodies db) (db_heights db) (db_tds db) (db_txls db) (db_best db) (db_latest db) (db_cursor db) t.

Definition ErrPovKeyNotFound : error := Errorf "pov key not found".
Definition ErrPovHeaderNotFound : error := Errorf "pov header not found".
Definition ErrPovBodyNotFound : error := Errorf "pov body not found".
Definition ErrPovHeightNotFound : error := Errorf "pov height not found".
Definition ErrPovHashNotFound : error := Errorf "pov hash not found".
Definition ErrPovTxLookupNotFound : error := Errorf "pov tx lookup not found".
Definition ErrPovTxLookupNotBest : error := Errorf "pov tx lookup not best".
Definition ErrPovTDNotFound : error := Errorf "pov total difficulty not found".

(** A missing record is the given error. *)
Definition orErr {A} (e : error) (o : option A) : res A := match o with Some a => Ok a | None => Err e end.

(** ** Blocks *)
Definition addPovHeader (header : PovHeader) : M PovDB unit := λ db,
  let key := (h_Height header, h_Hash header) in
  match db_headers db !! key with
  | Some _ => (Err ErrBlockExists, db)
  | None => (Ok tt, db_with_headers db (<[key := PovHeader_wire header]> (db_headers db)))
  end.

Definition addPovBody (height : Z) (hash : Hash) (body : list Hash) : M PovDB unit := λ db,
  match db_bodies db !! (height, hash) with
  | Some _ => (Err ErrBlockExists, db)
  | None => (Ok tt, db_with_bodies db (<[(height, hash) := body]> (db_bodies db)))
  end.

Definition addPovHeight (hash : Hash) (height : Z) : M PovDB unit := λ db,
  match db_heights db !! hash with
  | Some _ => (Err ErrBlockExists, db)
  | None => (Ok tt, db_with_heights db (<[hash := height]> (db_heights db)))
  end.

Definition addPovTD (hash : Hash) (height : Z) (td : PovTD) : M PovDB unit := λ db,
  match db_tds db !! (height, hash) with
  | Some _ => (Err ErrBlockExists, db)
  | None => (Ok tt, db_with_tds db (<[(height, hash) := PovTD_wire td]> (db_tds db)))
  end.

Definition AddPovBlock (blk : PovBlock) (td : PovTD) : M PovDB unit :=
  addPovHeader (pb_Header blk);;
  addPovBody (pb_Height blk) (pb_Hash blk) (pb_Txs blk);;
  addPovHeight (pb_Hash blk) (pb_Height blk);;
  addPovTD (pb_Hash blk) (pb_Height blk) td.

Definition DeletePovBlock (blk : PovBlock) (db : PovDB) : PovDB :=
  let key := (pb_Height blk, pb_Hash blk) in
  mkPovDB (delete key (db_headers db)) (delete key (db_bodies db)) (delete (pb_Hash blk) (db_heights db))
    (delete key (db_tds db)) (db_txls db) (db_best db) (db_latest db) (db_cursor db) (db_tries db).

Definition GetPovHeader (db : PovDB) (height : Z) (hash : Hash) : res PovHeader :=
  orErr ErrPovHeaderNotFound (db_headers db !! (height, hash)).
Definition HasPovHeader (db : PovDB) (height : Z) (hash : Hash) : bool :=
  bool_decide (is_Some (db_headers db !! (height, hash))).
Definition GetPovBody (db : PovDB) (height : Z) (hash : Hash) : res (list Hash) :=
  orErr ErrPovBodyNotFound (db_bodies db !! (height, hash)).
Definition HasPovBody (db : PovDB) (height : Z) (hash : Hash) : bool :=
  bool_decide (is_Some (db_bodies db !! (height, hash))).
Definition GetPovHeight (db : PovDB) (hash : Hash) : res Z :=
  orErr ErrPovHeightNotFound (db_heights db !! hash).
Definition GetPovTD (db : PovDB) (hash : Hash) (height : Z) : res PovTD :=
  orErr ErrPovTDNotFound (db_tds db !! (height, hash)).
Definition HasPovBlock (db : PovDB) (height : Z) (hash : Hash) : bool :=
  HasPovHeader db height hash && HasPovBody db height hash.

(** ** The best chain *)
Definition AddPovBestHash (height : Z) (hash : Hash) (db : PovDB) : PovDB :=
  db_with_best db (<[height := hash]> (db_best db)).
Definition DeletePovBestHash (height : Z) (db : PovDB) : PovDB :=
  db_with_best db (delete height (db_best db)).
Definition GetPovBestHash (db : PovDB) (height : Z) : res Hash :=
  orErr ErrPovHashNotFound (db_best db !! height).
Definition SetPovLatestHeight (height : Z) (db : PovDB) : PovDB := db_with_latest db (Some height).
Definition GetPovLatestHeight (db : PovDB) : res Z := orErr ErrPovHeightNotFound (db_latest db).

(** [NewPovBlockWithBody] copies the header and the body. *)
Definition GetPovBlockByHeightAndHash (db : PovDB) (height : Z) (hash : Hash) : res PovBlock :=
  header ← GetPovHeader db height hash;
  body ← GetPovBody db height hash;
  Ok (mkPovBlock header body).

Definition GetPovBlockByHeight (db : PovDB) (height : Z) : res PovBlock :=
  hash ← GetPovBestHash db height;
  GetPovBlockByHeightAndHash db height hash.

Definition GetPovBlockByHash (db : PovDB) (hash : Hash) : res PovBlock :=
  height ← GetPovHeight db hash;
  GetPovBlockByHeightAndHash db height hash.

Definition GetPovHeaderByHeight (db : PovDB) (height : Z) : res PovHeader :=
  hash ← GetPovBestHash db height;
  GetPovHeader db height hash.

Definition GetPovHeaderByHash (db : PovDB) (hash : Hash) : res PovHeader :=
  height ← GetPovHeight db hash;
  GetPovHeader db height hash.

Definition GetLatestPovBestHash (db : PovDB) : res Hash :=
  latestHeight ← GetPovLatestHeight db;
  latestHash ← GetPovBestHash db latestHeight;
  if hash_IsZero latestHash then Err (Errorf "latest best hash value is zero") else Ok latestHash.

Definition GetLatestPovHeader (db : PovDB) : res PovHeader :=
  latestHash ← GetLatestPovBestHash db;
  GetPovHeaderByHash db latestHash.

Definition GetLatestPovBlock (db : PovDB) : res PovBlock :=
  latestHash ← GetLatestPovBestHash db;
  GetPovBlockByHash db latestHash.

(** The entries of the best chain with keys from [start] to below [stop], in the order
    of their keys; the first header that is missing is the error. *)
Definition lowerKey (a b : Z * Hash) : Prop := a.1 ≤ b.1.
#[global] Instance lowerKey_dec : RelDecision lowerKey := λ a b, Z.le_dec a.1 b.1.

Definition bestEntries (db : PovDB) : list (Z * Hash) := merge_sort lowerKey (map_to_list (db_best db)).

Definition batchGetPovHeadersByHeight (db : PovDB) (start stop : Z) : res (list PovHeader) :=
  traverse (λ e, GetPovHeader db e.1 e.2)
    (filter (λ e, start ≤ e.1 ∧ e.1 < stop) (bestEntries db)).

Definition BatchGetPovHeadersByHeightAsc (db : PovDB) (height count : Z) : res (list PovHeader) :=
  batchGetPovHeadersByHeight db height (u64 (height + count)).

Definition BatchGetPovHeadersByHeightDesc (db : PovDB) (height count : Z) : res (list PovHeader) :=
  if height <? count then Err (Errorf "height should greater than count")
  else
    headers ← batchGetPovHeadersByHeight db (u64 (height - count + 1)) (u64 (height + 1));
    Ok (reverse headers).

(** [GetAllPovBestHeaders], [GetAllPovBestBlocks]: what the callback is called with. *)
Definition GetAllPovBestHeaders (db : PovDB) : res (list PovHeader) :=
  traverse (λ e, GetPovHeader db e.1 e.2) (bestEntries db).
Definition GetAllPovBestBlocks (db : PovDB) : res (list PovBlock) :=
  traverse (λ e, GetPovBlockByHeightAndHash db e.1 e.2) (bestEntries db).

(** ** Transactions *)
Definition AddPovTxLookup (txHash : Hash) (txLookup : PovTxLookup) (db : PovDB) : PovDB :=
  db_with_txls db (<[txHash := txLookup]> (db_txls db)).
Definition DeletePovTxLookup (txHash : Hash) (db : PovDB) : PovDB :=
  db_with_txls db (delete txHash (db_txls db)).

(** An entry counts only while its block is on the best chain. *)
Definition GetPovTxLookup (db : PovDB) (txHash : Hash) : res PovTxLookup :=
  txLookup ← orErr ErrPovTxLookupNotFound (db_txls db !! txHash);
  match GetPovBestHash db (txl_BlockHeight txLookup) with
  | Ok bestHash => if bestHash =? txl_BlockHash txLookup then Ok txLookup else Err ErrPovTxLookupNotBest
  | Err _ => Err ErrPovTxLookupNotBest
  | Panic => Panic
  end.

Definition HasPovTxLookup (db : PovDB) (txHash : Hash) : bool :=
  match db_txls db !! txHash with
  | None => false
  | Some txLookup =>
      match GetPovBestHash db (txl_BlockHeight txLookup) with
      | Ok bestHash => bestHash =? txl_BlockHash txLookup
      | _ => false
      end
  end.

Definition SetPovTxlScanCursor (height : Z) (db : PovDB) : PovDB := db_with_cursor db (Some height).
Definition GetPovTxlScanCursor (db : PovDB) : res Z := orErr ErrPovKeyNotFound (db_cursor db).

(** [DropAllPovBlocks]: every table of this file; the tries stay. *)
Definition DropAllPovBlocks (db : PovDB) : PovDB := db_with_tries emptyPovDB (db_tries db).

Definition CountPovBlocks (db : PovDB) : Z := Z.of_nat (size (db_headers db)).
Definition CountPovTxs (db : PovDB) : Z := Z.of_nat (size (db_txls db)).
Definition CountPovBestHashs (db : PovDB) : Z := Z.of_nat (size (db_best db)).
