(* ===== verification/PovChain.v ===== *)
(** * The proof-of-value chain: [consensus/pov/pov_chain.go]

    Verified blocks form a tree; the chain follows the branch with the greatest total
    difficulty.  [InsertBlock] stores a block in one transaction of the store, and when
    the block is better than the head it extends the best chain or moves it over to
    another branch ([processFork]); afterwards the places of the transactions are
    written outside of the transaction.

    [PovBlockChain] holds the committed store, the open transaction, the head and the
    caches, which come from a third party ([Gcache]).  The head and the caches are
    changed at once, also when the transaction is given up later.  The coin that
    decides between two heads of equal weight is an argument.  Events are an ordered
    log.  Day statistics, log lines and the filling in of state blocks for the
    listeners of events are left out. *)

From stdpp Require Import sorting.
From S2P Require Import Prelude Types Target Trie TrieStore Pov PovStateDB PovStore.

(** ** Caches: [github.com/bluele/gcache] *)
Class Gcache := {
  cache : Type → Type;
  newCache {V} : cache V;
  cacheGet {V} : Z → cache V → option V * cache V;
  cacheHas {V} : Z → cache V → bool;
  cacheSet {V} : Z → V → cache V → cache V;
  cacheRemove {V} : Z → cache V → cache V;
}.

Definition held `{Gcache} {V} (k : Z) (c : cache V) : option V := (cacheGet k c).1.

(** A cache gives back what was last set under a key, unless the entry was removed or
    had to make room for another key. *)
Class GcacheLaws `{Gcache} := {
  held_new {V} k : held k (newCache : cache V) = None;
  held_get {V} k j (c : cache V) : held k (cacheGet j c).2 = held k c;
  has_held {V} k (c : cache V) : cacheHas k c = bool_decide (is_Some (held k c));
  held_set {V} k v (c : cache V) : held k (cacheSet k v c) = Some v;
  held_set_ne {V} k j v (c : cache V) :
    k ≠ j → held k (cacheSet j v c) = held k c ∨ held k (cacheSet j v c) = None;
  held_remove {V} k (c : cache V) : held k (cacheRemove k c) = None;
  held_remove_ne {V} k j (c : cache V) : k ≠ j → held k (cacheRemove j c) = held k c;
}.

Inductive ChainState := ChainStateNone | ChainStateMain | ChainStateSide.

Inductive PovEvent :=
| EventConnectPovBlock (b : PovBlock)
| EventDisconnectPovBlock (b : PovBlock)
| EventPovConnectBestBlock (b : PovBlock)
| EventPovDisconnectBestBlock (b : PovBlock).

Definition ErrPovInvalidHash : error := Errorf "invalid pov block hash".
Definition ErrPovInvalidHeight : error := Errorf "invalid pov block height".
Definition ErrPovInvalidPrevious : error := Errorf "invalid pov block previous".
Definition ErrPovInvalidFork : error := Errorf "invalid pov fork point".

Definition PoVMaxForkHeight : Z := 60 * 23.

(** ** [fastLog2Floor] *)
Definition log2FloorMasks : list Z := [0xffff0000; 0xff00; 0xf0; 0xc; 0x2].

Definition fastLog2Floor (n : Z) : Z :=
  let step '(rv, exponent, n) mask :=
    if negb (Z.land n mask =? 0)
    then ((rv + exponent) mod 256, Z.shiftr exponent 1, Z.shiftr n exponent)
    else (rv, Z.shiftr exponent 1, n) in
  (foldl step (0, 16, n) log2FloorMasks).1.1.

(** ** Total difficulty *)
Definition headerWork (header : PovHeader) : Z := Z.abs (CalcWorkIntToBigInt (GetNormTargetInt header)).

Definition CalcTotalDifficulty (prevTD : PovTD) (header : PovHeader) : PovTD :=
  let curTD := PovTD_Copy prevTD in
  let w := headerWork header in
  let algoType := GetAlgoType header in
  mkPovTD (td_Chain prevTD + w)
    (if algoType =? ALGO_SHA256D then td_Sha256d prevTD + w else td_Sha256d curTD)
    (if algoType =? ALGO_SCRYPT then td_Scrypt prevTD + w else td_Scrypt curTD)
    (if algoType =? ALGO_X11 then td_X11 prevTD + w else td_X11 curTD)
    (if algoType =? ALGO_HYBRID then td_Hybrid prevTD + w else td_Hybrid curTD).

(** [for _, x := range xs { if err := f(x); err != nil { return err } }] *)
Fixpoint forEach {S A} (f : A → M S unit) (xs : list A) : M S unit :=
  match xs with
  | [] => mret tt
  | x :: xs' => f x;; forEach f xs'
  end.

Section chain.
Context `{Crypto} `{TrieCodec} `{StateCodec} `{Gcache}.

Record PovBlockChain := mkBC {
  bc_store : PovDB;
  bc_batch : PovDB;
  bc_genesis : PovBlock;
  bc_latest : PovBlock;
  bc_hashBlock : cache PovBlock;
  bc_heightBlock : cache PovBlock;
  bc_hashTd : cache PovTD;
  bc_hashHeader : cache PovHeader;
  bc_heightHeader : cache PovHeader;
  bc_events : list PovEvent;
}.

Definition bc_with_store c x :=
  mkBC x (bc_batch c) (bc_genesis c) (bc_latest c) (bc_hashBlock c) (bc_heightBlock c) (bc_hashTd c)
    (bc_hashHeader c) (bc_heightHeader c) (bc_events c).
Definition bc_with_batch c x :=
  mkBC (bc_store c) x (bc_genesis c) (bc_latest c) (bc_hashBlock c) (bc_heightBlock c) (bc_hashTd c)
    (bc_hashHeader c) (bc_heightHeader c) (bc_events c).
Definition bc_with_genesis c x :=
  mkBC (bc_store c) (bc_batch c) x (bc_latest c) (bc_hashBlock c) (bc_heightBlock c) (bc_hashTd c)
    (bc_hashHeader c) (bc_heightHeader c) (bc_events c).
Definition bc_with_hashBlock c x :=
  mkBC (bc_store c) (bc_batch c) (bc_genesis c) (bc_latest c) x (bc_heightBlock c) (bc_hashTd c)
    (bc_hashHeader c) (bc_heightHeader c) (bc_events c).
Definition bc_with_heightBlock c x :=
  mkBC (bc_store c) (bc_batch c) (bc_genesis c) (bc_latest c) (bc_hashBlock c) x (bc_hashTd c)
    (bc_hashHeader c) (bc_heightHeader c) (bc_events c).
Definition bc_with_hashTd c x :=
  mkBC (bc_store c) (bc_batch c) (bc_genesis c) (bc_latest c) (bc_hashBlock c) (bc_heightBlock c) x
    (bc_hashHeader c) (bc_heightHeader c) (bc_events c).
Definition bc_with_hashHeader c x :=
  mkBC (bc_store c) (bc_batch c) (bc_genesis c) (bc_latest c) (bc_hashBlock c) (bc_heightBlock c) (bc_hashTd c)
    x (bc_heightHeader c) (bc_events c).
Definition bc_with_heightHeader c x :=
  mkBC (bc_store c) (bc_batch c) (bc_genesis c) (bc_latest c) (bc_hashBlock c) (bc_heightBlock c) (bc_hashTd c)
    (bc_hashHeader c) x (bc_events c).
Definition bc_log (e : PovEvent) c :=
  mkBC (bc_store c) (bc_batch c) (bc_genesis c) (bc_latest c) (bc_hashBlock c) (bc_heightBlock c) (bc_hashTd c)
    (bc_hashHeader c) (bc_heightHeader c) (bc_events c ++ [e]).

Abbreviation BC := (M PovBlockChain) (only parsing).

Definition onStore (f : PovDB → PovDB) : BC unit := modifyS (λ c, bc_with_store c (f (bc_store c))).
Definition onBatch (f : PovDB → PovDB) : BC unit := modifyS (λ c, bc_with_batch c (f (bc_batch c))).

(** ** The head *)
Definition LatestHeader (c : PovBlockChain) : PovHeader := pb_Header (bc_latest c).

Definition StoreLatestBlock (block : PovBlock) : BC unit := modifyS (λ c,
  mkBC (bc_store c) (bc_batch c) (bc_genesis c) block (bc_hashBlock c)
    (cacheSet (pb_Height block) block (bc_heightBlock c)) (bc_hashTd c) (bc_hashHeader c)
    (cacheSet (pb_Height block) (pb_Header block) (bc_heightHeader c)) (bc_events c)).

(** ** Reading blocks and headers *)

(** A lookup in a cache: the value, and the cache after the access. *)
Definition cached {V} (sel : PovBlockChain → cache V) (upd : PovBlockChain → cache V → PovBlockChain) (k : Z)
    : BC (option V) := λ c, let '(v, k') := cacheGet k (sel c) in (Ok v, upd c k').

Definition GetBlockByHeight (height : Z) : BC PovBlock :=
  v ← cached bc_heightBlock bc_with_heightBlock height;
  match v with
  | Some block => mret block
  | None =>
      block ← readS (λ c, GetPovBlockByHeight (bc_store c) height);
      modifyS (λ c, bc_with_heightBlock c (cacheSet height block (bc_heightBlock c)));;
      modifyS (λ c, bc_with_hashBlock c (cacheSet (pb_Hash block) block (bc_hashBlock c)));;
      mret block
  end.

Definition GetBlockByHash (hash : Hash) : BC (option PovBlock) :=
  if hash_IsZero hash then mret None
  else
    v ← cached bc_hashBlock bc_with_hashBlock hash;
    match v with
    | Some block => mret (Some block)
    | None =>
        r ← tryS (readS (λ c, GetPovBlockByHash (bc_store c) hash));
        match r with
        | Ok block =>
            modifyS (λ c, bc_with_hashBlock c (cacheSet hash block (bc_hashBlock c)));;
            mret (Some block)
        | _ => mret None
        end
    end.

Definition GetHeaderByHash (hash : Hash) : BC (option PovHeader) :=
  if hash_IsZero hash then mret None
  else
    v ← cached bc_hashHeader bc_with_hashHeader hash;
    match v with
    | Some header => mret (Some header)
    | None =>
        r ← tryS (readS (λ c, GetPovHeaderByHash (bc_store c) hash));
        match r with
        | Ok header =>
            modifyS (λ c, bc_with_hashHeader c (cacheSet hash header (bc_hashHeader c)));;
            mret (Some header)
        | _ => mret None
        end
    end.

Definition GetHeaderByHeight (height : Z) : BC (option PovHeader) :=
  v ← cached bc_heightHeader bc_with_heightHeader height;
  match v with
  | Some header => mret (Some header)
  | None =>
      r ← tryS (readS (λ c, GetPovHeaderByHeight (bc_store c) height));
      match r with
      | Ok header =>
          modifyS (λ c, bc_with_heightHeader c (cacheSet height header (bc_heightHeader c)));;
          modifyS (λ c, bc_with_hashHeader c (cacheSet (h_Hash header) header (bc_hashHeader c)));;
          mret (Some header)
      | _ => mret None
      end
  end.

Definition HasFullBlock (c : PovBlockChain) (hash : Hash) (height : Z) : bool :=
  cacheHas hash (bc_hashBlock c) || HasPovBlock (bc_store c) height hash.

Definition HasHeader (c : PovBlockChain) (hash : Hash) (height : Z) : bool :=
  cacheHas hash (bc_hashHeader c) || HasPovHeader (bc_store c) height hash.

Definition GetBestBlockByHash (c : PovBlockChain) (hash : Hash) : option PovBlock :=
  match GetPovBlockByHash (bc_store c) hash with
  | Ok block =>
      match GetPovBestHash (bc_store c) (pb_Height block) with
      | Ok bestHashInDB => if bestHashInDB =? hash then Some block else None
      | _ => None
      end
  | _ => None
  end.

Definition HasBestBlock (c : PovBlockChain) (hash : Hash) (height : Z) : bool :=
  HasFullBlock c hash height &&
  match GetPovBestHash (bc_store c) height with
  | Ok bestHashInDB => bestHashInDB =? hash
  | _ => false
  end.

Definition GetBlockTDByHashAndHeight (hash : Hash) (height : Z) : BC (option PovTD) :=
  v ← cached bc_hashTd bc_with_hashTd hash;
  match v with
  | Some td => mret (Some td)
  | None =>
      r ← tryS (readS (λ c, GetPovTD (bc_store c) hash height));
      match r with
      | Ok td =>
          modifyS (λ c, bc_with_hashTd c (cacheSet hash td (bc_hashTd c)));;
          mret (Some td)
      | _ => mret None
      end
  end.

Definition GetBlockTDByHash (hash : Hash) : BC (option PovTD) :=
  hdr ← GetHeaderByHash hash;
  match hdr with
  | None => mret None
  | Some hdr => GetBlockTDByHashAndHeight (h_Hash hdr) (h_Height hdr)
  end.

(** ** Ancestors and locators *)

(** The heights on a chain decrease, so the loop ends within the height of the header. *)
Fixpoint findAncestorLoop (fuel : nat) (cur : PovHeader) (height : Z) : BC (option PovHeader) :=
  match fuel with
  | O => failS OutOfFuel
  | S fuel =>
      prev ← GetHeaderByHash (h_Previous cur);
      match prev with
      | None => mret None
      | Some prev =>
          if h_Height prev =? height then mret (Some prev)
          else if h_Height prev <? height then mret None
          else findAncestorLoop fuel prev height
      end
  end.

Definition FindAncestor (header : PovHeader) (height : Z) : BC (option PovHeader) :=
  if h_Height header <? height then mret None
  else findAncestorLoop (S (Z.to_nat (h_Height header))) header height.

(** The loop of [GetBlockLocator]; every turn but the last goes to a lower height. *)
Fixpoint locatorLoop (fuel : nat) (header : option PovHeader) (step : Z) (locator : list Hash) : BC (list Hash) :=
  match fuel with
  | O => failS OutOfFuel
  | S fuel =>
      match header with
      | None => mret locator
      | Some header =>
          let locator := locator ++ [h_Hash header] in
          if h_Height header =? 0 then mret locator
          else
            let height := if step <? h_Height header then h_Height header - step else 0 in
            next ← FindAncestor header height;
            locatorLoop fuel next (if (10 <? length locator)%nat then u64 (step * 2) else step) locator
      end
  end.

Definition GetBlockLocator (hash : Hash) : BC (list Hash) :=
  header ← (if hash_IsZero hash then readS (λ c, Ok (Some (LatestHeader c))) else GetHeaderByHash hash);
  match header with
  | None => mret []
  | Some header => locatorLoop (S (S (Z.to_nat (h_Height header)))) (Some header) 1 []
  end.

(** A nil entry of the locator is [None]. *)
Fixpoint LocateBestBlock (c : PovBlockChain) (locator : list (option Hash)) : PovBlock :=
  match locator with
  | [] => bc_genesis c
  | None :: locator' => LocateBestBlock c locator'
  | Some hash :: locator' =>
      match GetBestBlockByHash c hash with
      | Some block => block
      | None => LocateBestBlock c locator'
      end
  end.

(** ** Connecting and disconnecting blocks of the best chain *)
Definition connectBlock (block : PovBlock) : BC unit :=
  onBatch (AddPovBestHash (pb_Height block) (pb_Hash block)).

Definition disconnectBlock (block : PovBlock) : BC unit := onBatch (DeletePovBestHash (pb_Height block)).

(** Only the lookup of the coinbase is written in the transaction. *)
Definition connectTransactions (block : PovBlock) : BC unit :=
  match pb_Txs block with
  | [] => mret tt
  | coinbase :: _ => onBatch (AddPovTxLookup coinbase (mkPovTxLookup (pb_Hash block) (pb_Height block) 0))
  end;;
  modifyS (bc_log (EventConnectPovBlock block)).

Definition disconnectTransactions (block : PovBlock) : BC unit :=
  match pb_Txs block with
  | [] => mret tt
  | coinbase :: _ => onBatch (DeletePovTxLookup coinbase)
  end;;
  modifyS (bc_log (EventDisconnectPovBlock block)).

Definition connectBestBlock (block : PovBlock) : BC unit :=
  latestBlock ← readS (λ c, Ok (bc_latest c));
  if negb (pb_Height block =? u64 (pb_Height latestBlock + 1)) then failS ErrPovInvalidHeight
  else
    connectBlock block;;
    connectTransactions block;;
    onBatch (SetPovLatestHeight (pb_Height block));;
    StoreLatestBlock block;;
    modifyS (bc_log (EventPovConnectBestBlock block)).

Definition disconnectBestBlock (block : PovBlock) : BC unit :=
  latestBlock ← readS (λ c, Ok (bc_latest c));
  if negb (pb_Hash latestBlock =? pb_Hash block) then failS ErrPovInvalidHash
  else
    disconnectTransactions block;;
    disconnectBlock block;;
    prevBlock ← GetBlockByHash (pb_Previous block);
    match prevBlock with
    | None => failS ErrPovInvalidPrevious
    | Some prevBlock =>
        onBatch (SetPovLatestHeight (pb_Height prevBlock));;
        modifyS (λ c, bc_with_heightBlock c (cacheRemove (pb_Height block) (bc_heightBlock c)));;
        modifyS (λ c, bc_with_heightHeader c (cacheRemove (pb_Height block) (bc_heightHeader c)));;
        StoreLatestBlock prevBlock;;
        modifyS (bc_log (EventPovDisconnectBestBlock block))
    end.

(** ** Moving to another branch *)

(** [for height := cur.GetHeight(); height > stop; height-- { ... }], [n] turns: the
    blocks passed are appended to the list. *)
Fixpoint walkBack (n : nat) (cur : PovBlock) (passed : list PovBlock) : BC (PovBlock * list PovBlock) :=
  match n with
  | O => mret (cur, passed)
  | S n =>
      let passed := passed ++ [cur] in
      if hash_IsZero (pb_Previous cur) then mret (cur, passed)
      else
        prev ← GetBlockByHash (pb_Previous cur);
        match prev with
        | None => failS ErrPovInvalidPrevious
        | Some prev => walkBack n prev passed
        end
  end.

(** The search for the fork point, down both branches at once. *)
Fixpoint findForkPoint (fuel : nat) (attachBlock detachBlock : PovBlock) (attachBlocks detachBlocks : list PovBlock)
    : BC (Hash * list PovBlock * list PovBlock) :=
  match fuel with
  | O => failS OutOfFuel
  | S fuel =>
      let attachBlocks := attachBlocks ++ [attachBlock] in
      let detachBlocks := detachBlocks ++ [detachBlock] in
      if pb_Previous attachBlock =? pb_Previous detachBlock
      then mret (pb_Previous attachBlock, attachBlocks, detachBlocks)
      else
        prevAttach ← GetBlockByHash (pb_Previous attachBlock);
        match prevAttach with
        | None => failS ErrPovInvalidPrevious
        | Some prevAttach =>
            prevDetach ← GetBlockByHash (pb_Previous detachBlock);
            match prevDetach with
            | None => failS ErrPovInvalidPrevious
            | Some prevDetach => findForkPoint fuel prevAttach prevDetach attachBlocks detachBlocks
            end
        end
  end.

Definition processFork (newBlock : PovBlock) : BC PovBlock :=
  oldHeadBlock ← readS (λ c, Ok (bc_latest c));
  '(attachBlock, attachBlocks) ←
    walkBack (Z.to_nat (pb_Height newBlock - pb_Height oldHeadBlock)) newBlock [];
  '(detachBlock, detachBlocks) ←
    walkBack (Z.to_nat (pb_Height oldHeadBlock - pb_Height newBlock)) oldHeadBlock [];
  if negb (pb_Height attachBlock =? pb_Height detachBlock) then failS ErrPovInvalidHeight
  else
    '(forkHash, attachBlocks, detachBlocks) ←
      findForkPoint (S (Z.to_nat (pb_Height attachBlock))) attachBlock detachBlock attachBlocks detachBlocks;
    forkBlock ← (if hash_IsZero forkHash then readS (λ c, Ok (Some (bc_genesis c))) else GetBlockByHash forkHash);
    match forkBlock with
    | None => failS ErrPovInvalidHash
    | Some forkBlock =>
        if PoVMaxForkHeight <? Z.of_nat (length detachBlocks) then failS ErrPovInvalidFork
        else
          forEach disconnectBestBlock detachBlocks;;
          forEach connectBestBlock (reverse attachBlocks);;
          mret forkBlock
    end.

(** ** Inserting a block *)

(** The better of the head and a block: more difficulty, then less height, then [coin]. *)
Definition isBetter (coin : bool) (block current : PovBlock) (blockTD bestTD : PovTD) : bool :=
  match td_Chain blockTD ?= td_Chain bestTD with
  | Gt => true
  | Lt => false
  | Eq => (pb_Height block <? pb_Height current) || ((pb_Height block =? pb_Height current) && coin)
  end.

(** [AddPovBlock] in the transaction; that the block exists is no failure. *)
Definition addBlockInBatch (block : PovBlock) (td : PovTD) : BC unit := λ c,
  match AddPovBlock block td (bc_batch c) with
  | (Ok _, b) | (Err ErrBlockExists, b) => (Ok tt, bc_with_batch c b)
  | (Err e, b) => (Err e, bc_with_batch c b)
  | (Panic, b) => (Panic, bc_with_batch c b)
  end.

(** [gsdb.CommitToDB(batch)]: tries are read from the store. *)
Definition commitState (g : PovGlobalStateDB) : BC unit :=
  puts ← readS (λ c, CommitToDB (storeGet (db_tries (bc_store c))) g);
  onBatch (λ b, db_with_tries b (putAll (db_tries b) puts.1)).

Definition insertBlock (coin : bool) (block : PovBlock) (gsdb : PovGlobalStateDB)
    : BC (ChainState * option PovBlock) :=
  currentBlock ← readS (λ c, Ok (bc_latest c));
  bestTD ← readS (λ c, GetPovTD (bc_batch c) (pb_Hash currentBlock) (pb_Height currentBlock));
  prevTD ← readS (λ c, GetPovTD (bc_batch c) (pb_Previous block) (u64 (pb_Height block - 1)));
  let blockTD := CalcTotalDifficulty prevTD (pb_Header block) in
  (λ c, if HasPovBlock (bc_batch c) (pb_Height block) (pb_Hash block) then (Ok tt, c)
        else addBlockInBatch block blockTD c);;
  commitState gsdb;;
  modifyS (λ c, bc_with_hashTd c (cacheSet (pb_Hash block) blockTD (bc_hashTd c)));;
  if isBetter coin block currentBlock blockTD bestTD then
    if pb_Previous block =? pb_Hash currentBlock then
      connectBestBlock block;;
      mret (ChainStateMain, None)
    else
      forkBlock ← processFork block;
      mret (ChainStateMain, Some forkBlock)
  else mret (ChainStateSide, None).

(** [BatchWrite(true, fn)]: a transaction over the store, committed unless [fn] fails. *)
Definition batchWrite {A} (fn : BC A) : BC A := λ c,
  let '(r, c1) := fn (bc_with_batch c (bc_store c)) in
  match r with
  | Ok a => (Ok a, bc_with_store c1 (bc_batch c1))
  | Err e => (Err e, c1)
  | Panic => (Panic, c1)
  end.

(** ** Places of transactions *)
Fixpoint addTxLookups (block : PovBlock) (txIndex : nat) (txs : list Hash) (db : PovDB) : PovDB :=
  match txs with
  | [] => db
  | tx :: txs' =>
      addTxLookups block (S txIndex) txs'
        (AddPovTxLookup tx (mkPovTxLookup (pb_Hash block) (pb_Height block) (Z.of_nat txIndex)) db)
  end.

(** [for curHeight := cur; curHeight <= latestHeight; curHeight++], [n] turns. *)
Fixpoint updateTxLookups (n : nat) (cur : Z) : BC unit :=
  match n with
  | O => mret tt
  | S n =>
      block ← GetBlockByHeight cur;
      onStore (addTxLookups block 0 (pb_Txs block));;
      onStore (SetPovTxlScanCursor cur);;
      updateTxLookups n (cur + 1)
  end.

Definition batchUpdateTxLookupInSync (forkBlock : option PovBlock) : BC unit :=
  lastCursorHeight ←
    match forkBlock with
    | Some forkBlock => onStore (SetPovTxlScanCursor (pb_Height forkBlock));; mret (pb_Height forkBlock)
    | None => readS (λ c, Ok (default 0 (db_cursor (bc_store c))))
    end;
  latestHeight ← readS (λ c, Ok (h_Height (LatestHeader c)));
  let start := u64 (lastCursorHeight + 1) in
  updateTxLookups (Z.to_nat (latestHeight - start + 1)) start.

Definition InsertBlock (coin : bool) (block : PovBlock) (gsdb : PovGlobalStateDB) : BC unit :=
  r ← tryS (batchWrite (insertBlock coin block gsdb));
  let forkBlock := match r with Ok (_, forkBlock) => forkBlock | _ => None end in
  tryS (batchUpdateTxLookupInSync forkBlock);;
  liftR (r ≫= λ _, Ok tt).

(** ** Starting up *)

(** The genesis block and the pairs of its state are constants of [common/genesis_pov.go].
    A fatal log line ends the process: [Panic]. *)
Definition resetWithGenesisBlock (genesis : PovBlock) (stateKVs : list (list Z * list Z)) : BC unit :=
  r ← tryS (batchWrite (
    (λ c, let '(r, b) := AddPovBlock genesis (CalcTotalDifficulty NewPovTD (pb_Header genesis)) (bc_batch c) in
          (r, bc_with_batch c b));;
    onBatch (AddPovBestHash (pb_Height genesis) (pb_Hash genesis));;
    onBatch (SetPovLatestHeight (pb_Height genesis));;
    onBatch (addTxLookups genesis 0 (pb_Txs genesis));;
    onBatch (SetPovTxlScanCursor (pb_Height genesis));;
    gsdb ← readS (λ c, NewPovGlobalStateDB (storeGet (db_tries (bc_store c))) 0 0);
    gsdb ← liftR (match (forEach (λ kv, SetValue_kv kv.1 (Some kv.2)) stateKVs;; CommitToTrie) gsdb with
                  | (Ok _, g) => Ok g
                  | (Err e, _) => Err e
                  | (Panic, _) => Panic
                  end);
    curHash ← liftR (GetCurHash gsdb);
    stateHash ← liftR (GetStateHash (pb_Header genesis));
    if curHash =? stateHash then commitState gsdb else liftR Panic));
  match r with
  | Ok _ => modifyS (λ c, bc_with_genesis c genesis);; StoreLatestBlock genesis
  | _ => liftR Panic
  end.

Definition ResetChainState (genesis : PovBlock) (stateKVs : list (list Z * list Z)) : BC unit :=
  onStore DropAllPovBlocks;;
  resetWithGenesisBlock genesis stateKVs.

(** The state of the head is opened.  A trie of an unknown hash is empty and not nil, so
    only a zero hash is found to be invalid. *)
Definition openLatestState (db : PovDB) (latestBlock : PovBlock) : res unit :=
  latestStateHash ← GetStateHash (pb_Header latestBlock);
  latestStateDB ← NewPovGlobalStateDB (storeGet (db_tries db)) (S (size (db_tries db))) latestStateHash;
  match gs_prevTrie latestStateDB with Some _ => Ok tt | None => Panic end.

Definition loadLastState : BC unit :=
  r ← tryS (readS (λ c, GetLatestPovBlock (bc_store c)));
  match r with
  | Ok latestBlock =>
      StoreLatestBlock latestBlock;;
      readS (λ c, openLatestState (bc_store c) latestBlock)
  | _ => liftR Panic
  end.

Definition Init (genesis : PovBlock) (stateKVs : list (list Z * list Z)) : BC unit :=
  r ← tryS (readS (λ c, GetPovBlockByHeight (bc_store c) 0));
  match r with
  | Ok genesisBlock =>
      if pb_Hash genesisBlock =? pb_Hash genesis
      then modifyS (λ c, bc_with_genesis c genesisBlock)
      else liftR Panic
  | _ => ResetChainState genesis stateKVs
  end;;
  loadLastState;;
  tryS (batchUpdateTxLookupInSync None);;
  mret tt.
End chain.
