(* ===== verification/PovTree.v ===== *)
(** * The tree of proof-of-value blocks

    What the tables of [PovStore] hold: blocks with their total difficulties, every block
    on a branch down to the genesis block.  Storing a block that continues a stored one
    keeps the tree. *)

From S2P Require Import Prelude Types Target Pov PovStateDB PovStore PovChain.

(** ** Blocks as the store gives them *)

(** What identifies a block and its transactions; the auxiliary header and the nil amounts
    of a coinbase may differ between two copies of one block. *)
Definition ident (b : PovBlock) : Hash * Z * Hash * Z * Z * list Hash :=
  (pb_Hash b, pb_Height b, pb_Previous b, h_Version (pb_Header b), h_Bits (pb_Header b), pb_Txs b).

Definition same (a b : PovBlock) : Prop := ident a = ident b.

#[global] Instance same_equiv : Equivalence same.
Proof. split; unfold same; congruence. Qed.

Lemma same_fields a b : same a b →
  pb_Hash a = pb_Hash b ∧ pb_Height a = pb_Height b ∧ pb_Previous a = pb_Previous b ∧ pb_Txs a = pb_Txs b.
Proof. unfold same, ident. intros [= ? ? ? ? ? ?]. done. Qed.

Lemma same_work a b td : same a b →
  CalcTotalDifficulty td (pb_Header a) = CalcTotalDifficulty td (pb_Header b).
Proof.
  unfold same, ident. intros [= _ _ _ Hv Hb _].
  unfold CalcTotalDifficulty, headerWork, GetNormTargetInt, GetAlgoTargetInt, GetAlgoEfficiency, GetAlgoType.
  by rewrite Hv, Hb.
Qed.

(** The block of a hash, and its total difficulty. *)
Definition blockAt (db : PovDB) (x : Hash) : option PovBlock :=
  h ← db_heights db !! x; hdr ← db_headers db !! (h, x); txs ← db_bodies db !! (h, x); Some (mkPovBlock hdr txs).

Definition tdAt (db : PovDB) (x : Hash) : option PovTD := h ← db_heights db !! x; db_tds db !! (h, x).

Definition weight (db : PovDB) (x : Hash) : Z := from_option td_Chain 0 (tdAt db x).

Definition treePart (db : PovDB) := (db_headers db, db_bodies db, db_heights db, db_tds db).

Lemma treePart_reads db db' : treePart db = treePart db' →
  (∀ x, blockAt db x = blockAt db' x) ∧ (∀ x, tdAt db x = tdAt db' x) ∧ (∀ x, weight db x = weight db' x).
Proof.
  unfold treePart. intros [= H1 H2 H3 H4]. unfold weight, blockAt, tdAt. by rewrite H1, H2, H3, H4.
Qed.

(** The four tables of blocks agree. *)
Record wf_tables (db : PovDB) : Prop := {
  wt_header h x hdr : db_headers db !! (h, x) = Some hdr →
    db_heights db !! x = Some h ∧ h_Hash hdr = x ∧ h_Height hdr = h;
  wt_body h x txs : db_bodies db !! (h, x) = Some txs → db_heights db !! x = Some h;
  wt_td h x td : db_tds db !! (h, x) = Some td → db_heights db !! x = Some h;
  wt_height h x : db_heights db !! x = Some h →
    is_Some (db_headers db !! (h, x)) ∧ is_Some (db_bodies db !! (h, x)) ∧ is_Some (db_tds db !! (h, x));
}.

Lemma blockAt_hash db x b : wf_tables db → blockAt db x = Some b →
  pb_Hash b = x ∧ db_heights db !! x = Some (pb_Height b).
Proof.
  intros Hwf Hb. unfold blockAt in Hb. apply bind_Some in Hb as (h & Hh & (hdr & Hhdr & (txs & Htxs & [= <-])%bind_Some)%bind_Some).
  destruct (wt_header _ Hwf _ _ _ Hhdr) as (? & ? & ?). unfold pb_Height; cbn. split; [done|congruence].
Qed.

Lemma blockAt_None db x : wf_tables db → blockAt db x = None → db_heights db !! x = None.
Proof.
  intros Hwf Hb. destruct (db_heights db !! x) as [h|] eqn:E; [|done].
  destruct (wt_height _ Hwf _ _ E) as ([hdr H1] & [txs H2] & _). unfold blockAt in Hb. rewrite E in Hb; cbn in Hb.
  rewrite H1 in Hb; cbn in Hb. by rewrite H2 in Hb.
Qed.

Lemma GetPovBlockByHash_blockAt db x :
  wf_tables db → GetPovBlockByHash db x = match blockAt db x with Some b => Ok b | None => Err ErrPovHeightNotFound end.
Proof.
  intros Hwf. unfold GetPovBlockByHash, GetPovHeight, blockAt.
  destruct (db_heights db !! x) as [h|] eqn:E; [|done]. cbn.
  destruct (wt_height _ Hwf _ _ E) as ([hdr H1] & [txs H2] & _).
  unfold GetPovBlockByHeightAndHash, GetPovHeader, GetPovBody. rewrite H1; cbn. by rewrite H2.
Qed.

Lemma HasPovBlock_blockAt db h x :
  wf_tables db → HasPovBlock db h x = match blockAt db x with Some b => pb_Height b =? h | None => false end.
Proof.
  intros Hwf. destruct (blockAt db x) as [b|] eqn:E.
  - destruct (blockAt_hash _ _ _ Hwf E) as [_ Hh]. unfold HasPovBlock, HasPovHeader, HasPovBody.
    destruct (wt_height _ Hwf _ _ Hh) as (H1 & H2 & _). destruct (Z.eqb_spec (pb_Height b) h) as [<-|Hne].
    + by rewrite !bool_decide_eq_true_2.
    + rewrite bool_decide_eq_false_2; [done|]. intros [hdr Hhdr].
      destruct (wt_header _ Hwf _ _ _ Hhdr) as [? _]. congruence.
  - apply blockAt_None in E; [|done]. unfold HasPovBlock, HasPovHeader.
    rewrite bool_decide_eq_false_2; [done|]. intros [hdr Hhdr].
    destruct (wt_header _ Hwf _ _ _ Hhdr) as [? _]. congruence.
Qed.

Lemma GetPovTD_tdAt db x h : wf_tables db → db_heights db !! x = Some h →
  ∃ td, GetPovTD db x h = Ok td ∧ tdAt db x = Some td.
Proof.
  intros Hwf Hh. destruct (wt_height _ Hwf _ _ Hh) as (_ & _ & [td Htd]). exists td.
  unfold GetPovTD, tdAt. rewrite Hh; cbn. by rewrite Htd.
Qed.

(** ** Branches *)

(** Blocks of the store from one down to the root, each the parent of the one before. *)
Fixpoint branch (db : PovDB) (l : list PovBlock) : Prop :=
  match l with
  | [] => False
  | b :: l' =>
      blockAt db (pb_Hash b) = Some b ∧
      match l' with
      | [] => pb_Height b = 0
      | p :: _ => pb_Previous b = pb_Hash p ∧ pb_Height b = pb_Height p + 1 ∧ branch db l'
      end
  end.

(** The same with a first block that need not be stored. *)
Definition tip (db : PovDB) (b : PovBlock) (l : list PovBlock) : Prop :=
  match l with
  | [] => pb_Height b = 0
  | p :: _ => pb_Previous b = pb_Hash p ∧ pb_Height b = pb_Height p + 1 ∧ branch db l
  end.

Lemma branch_tip db b l : branch db (b :: l) ↔ blockAt db (pb_Hash b) = Some b ∧ tip db b l.
Proof. by destruct l. Qed.

Lemma tip_same db a b l : same a b → tip db a l → tip db b l.
Proof. intros (_ & Hh & Hp & _)%same_fields. destruct l; cbn; rewrite <- ?Hh, <- ?Hp; done. Qed.

Lemma branch_mono db db' l :
  (∀ x b, blockAt db x = Some b → blockAt db' x = Some b) → branch db l → branch db' l.
Proof.
  intros Hsub. induction l as [|b l IH]; [done|]. rewrite !branch_tip. intros [Hb Ht].
  split; [by apply Hsub|]. destruct l as [|p l]; [done|]. destruct Ht as (? & ? & ?).
  split_and!; [done..|]. by apply IH.
Qed.

Lemma tip_heights db b l : tip db b l → pb_Height b = Z.of_nat (length l) ∧ Forall (λ p, 0 ≤ pb_Height p < pb_Height b) l.
Proof.
  revert b. induction l as [|p l IH]; intros b Ht; [cbn in Ht; by rewrite Ht|].
  destruct Ht as (_ & Hh & Hbr). apply branch_tip in Hbr as [_ Ht].
  destruct (IH p Ht) as [Hlen Hall]. cbn [length]. split; [lia|]. constructor; [lia|].
  eapply Forall_impl; [|done]. cbn. intros. lia.
Qed.

Lemma branch_unique db b l l' : tip db b l → tip db b l' → l = l'.
Proof.
  revert b l'. induction l as [|p l IH]; intros b l' Ht Ht'.
  - destruct (tip_heights _ _ _ Ht) as [H1 _], (tip_heights _ _ _ Ht') as [H2 _]. destruct l'; cbn in *; [done|lia].
  - destruct (tip_heights _ _ _ Ht) as [H1 _], (tip_heights _ _ _ Ht') as [H2 _]. destruct l' as [|p' l']; cbn in H1, H2; [lia|].
    destruct Ht as (Hp & _ & Hb), Ht' as (Hp' & _ & Hb'). apply branch_tip in Hb as [Hb Ht], Hb' as [Hb' Ht'].
    assert (p = p') as -> by congruence. f_equal. by eapply IH.
Qed.

Lemma branch_suffix db b l l1 p l2 : tip db b l → l = l1 ++ p :: l2 → branch db (p :: l2).
Proof.
  revert b l. induction l1 as [|q l1 IH]; intros b l Ht ->; cbn in Ht; destruct Ht as (_ & _ & Hb); [done|].
  apply branch_tip in Hb as [_ Ht]. by eapply IH.
Qed.

(** ** The tree of blocks *)
Record tree (db : PovDB) (g : PovBlock) : Prop := {
  tr_tables : wf_tables db;
  tr_zero : blockAt db 0 = None;
  tr_genesis : ∃ g', blockAt db (pb_Hash g) = Some g' ∧ same g g' ∧ pb_Height g = 0;
  tr_root x b : blockAt db x = Some b → pb_Height b = 0 → x = pb_Hash g;
  tr_range x b : blockAt db x = Some b → 0 ≤ pb_Height b < MaxUint64;
  tr_parent x b : blockAt db x = Some b → pb_Height b ≠ 0 → ∃ p td,
    blockAt db (pb_Previous b) = Some p ∧ pb_Height b = pb_Height p + 1 ∧
    tdAt db (pb_Previous b) = Some td ∧ 0 < headerWork (pb_Header b) ∧
    tdAt db x = Some (PovTD_wire (CalcTotalDifficulty td (pb_Header b)));
  tr_weight x td : tdAt db x = Some td → 0 ≤ td_Chain td;
}.

(** No transaction is in two places of a branch.  The verifier does not see to this for the
    transactions of contract addresses. *)
Definition unique (db : PovDB) : Prop := ∀ b l, branch db (b :: l) → NoDup (concat (pb_Txs <$> b :: l)).

Lemma unique_mono db db' :
  (∀ x b, blockAt db x = Some b → blockAt db' x = Some b) → unique db' → unique db.
Proof. intros Hsub Hu b l Hbr. by eapply Hu, branch_mono. Qed.

Lemma tree_part db db' g : treePart db = treePart db' → tree db g → tree db' g.
Proof.
  intros Heq Ht. destruct (treePart_reads _ _ Heq) as (Hb & Hd & _).
  unfold treePart in Heq. injection Heq as H1 H2 H3 H4. destruct Ht as [[] Hz Hg Hroot Hrange Hpar Hw].
  split.
  - split; rewrite <- ?H1, <- ?H2, <- ?H3, <- ?H4; done.
  - by rewrite <- Hb.
  - by rewrite <- Hb.
  - intros x b. rewrite <- Hb. apply Hroot.
  - intros x b. rewrite <- Hb. apply Hrange.
  - intros x b. rewrite <- !Hb, <- !Hd. apply Hpar.
  - intros x td. rewrite <- Hd. apply Hw.
Qed.

Lemma tree_same db g g' : same g g' → tree db g → tree db g'.
Proof.
  intros Hs [? ? (g1 & Hg1 & Hs1 & Hh) Hroot ? ? ?]. destruct (same_fields _ _ Hs) as (Hx & Hh' & _ & _).
  split; try done; rewrite <- ?Hx, <- ?Hh'; try done. exists g1. split_and!; [done| |done]. by etrans.
Qed.

Lemma tip_part db db' b l : treePart db = treePart db' → tip db b l → tip db' b l.
Proof.
  intros (Hb & _)%treePart_reads. destruct l as [|p l]; [done|]. intros (? & ? & Hbr). split_and!; [done..|].
  eapply branch_mono, Hbr. intros x b'. by rewrite Hb.
Qed.

Section tree.
Context {db : PovDB} {g : PovBlock} (Htree : tree db g).

Lemma blockAt_self x b : blockAt db x = Some b → pb_Hash b = x.
Proof. intros Hb. by apply (blockAt_hash db x b (tr_tables _ _ Htree)). Qed.

Lemma stored_nonzero x b : blockAt db x = Some b → x ≠ 0.
Proof. intros Hb ->. by rewrite (tr_zero _ _ Htree) in Hb. Qed.

(** Every block of the store stands on a branch. *)
Lemma branch_exists x b : blockAt db x = Some b → ∃ l, branch db (b :: l).
Proof.
  remember (Z.to_nat (pb_Height b)) as n eqn:Hn. revert x b Hn.
  induction n as [|n IH]; intros x b Hn Hb; pose proof (tr_range _ _ Htree _ _ Hb) as Hr;
    pose proof (blockAt_self _ _ Hb) as Hx.
  - exists []. rewrite branch_tip, Hx. split; [done|]. cbn. lia.
  - destruct (tr_parent _ _ Htree _ _ Hb) as (p & td & Hp & Hh & _); [lia|].
    destruct (IH (pb_Previous b) p) as [l Hl]; [lia|done|].
    exists (p :: l). rewrite branch_tip, Hx. split; [done|].
    split_and!; [by rewrite (blockAt_self _ _ Hp)|done|done].
Qed.

Lemma tdAt_exists x b : blockAt db x = Some b → ∃ td, tdAt db x = Some td.
Proof.
  intros Hb. destruct (blockAt_hash _ _ _ (tr_tables _ _ Htree) Hb) as [_ Hh].
  destruct (GetPovTD_tdAt _ _ _ (tr_tables _ _ Htree) Hh) as (td & _ & ?). eauto.
Qed.

Lemma weight_parent x b : blockAt db x = Some b → pb_Height b ≠ 0 →
  weight db x = weight db (pb_Previous b) + headerWork (pb_Header b) ∧ 0 < headerWork (pb_Header b).
Proof.
  intros Hb Hh. destruct (tr_parent _ _ Htree _ _ Hb Hh) as (p & td & Hp & _ & Htd & Hw & Hx).
  split; [|done]. unfold weight. rewrite Htd, Hx; cbn.
  pose proof (tr_weight _ _ Htree _ _ Htd). lia.
Qed.

(** Difficulty grows along a branch. *)
Lemma weight_branch b l p : branch db (b :: l) → p ∈ l → weight db (pb_Hash p) < weight db (pb_Hash b).
Proof.
  revert b. induction l as [|q l IH]; intros b Hbr Hp; [inv Hp|].
  destruct Hbr as (Hb & Hprev & Hh & Hbr). pose proof (tip_heights db q l) as Hq.
  apply branch_tip in Hbr as [Hqs Ht]. destruct (Hq Ht) as [Hq' _].
  destruct (weight_parent _ _ Hb) as [Hw Hpos]; [lia|]. rewrite Hprev in Hw.
  apply list.elem_of_cons in Hp as [->|Hp]; [lia|].
  assert (weight db (pb_Hash p) < weight db (pb_Hash q)); [|lia].
  apply IH; [|done]. by apply branch_tip.
Qed.

Lemma branch_root b l : branch db (b :: l) → ∃ g', blockAt db (pb_Hash g) = Some g' ∧ list.last (b :: l) = Some g'.
Proof.
  revert b. induction l as [|p l IH]; intros b Hbr.
  - destruct Hbr as [Hb Hh]. pose proof (tr_root _ _ Htree _ _ Hb Hh) as Hx. exists b. by rewrite <- Hx.
  - destruct Hbr as (_ & _ & _ & Hbr). apply IH in Hbr as (g' & Hg & Hl). by exists g'.
Qed.
End tree.

(** ** Storing a block *)

(** A block that the verifier may have accepted: it continues a stored block, its target
    is in range, and, by the absence of hash collisions, a stored block of the same hash
    is the same block. *)
Record admissible (db : PovDB) (b : PovBlock) : Prop := {
  ad_parent : ∃ p, blockAt db (pb_Previous b) = Some p ∧ pb_Height b = pb_Height p + 1;
  ad_height : pb_Height b < MaxUint64;
  ad_hash : pb_Hash b ≠ 0;
  ad_target : 0 < GetNormTargetInt (pb_Header b) < 2 ^ 256;
  ad_same b' : blockAt db (pb_Hash b) = Some b' → same b b';
}.

Lemma work_positive h : 0 < GetNormTargetInt h < 2 ^ 256 → 0 < headerWork h.
Proof.
  intros Ht. unfold headerWork, CalcWorkIntToBigInt. rewrite (proj2 (Z.leb_gt _ _)) by lia.
  pose proof (Z.div_str_pos (2 ^ 256) (GetNormTargetInt h + 1)). lia.
Qed.

(** The block as it is read back. *)
Definition wireBlock (b : PovBlock) : PovBlock := mkPovBlock (PovHeader_wire (pb_Header b)) (pb_Txs b).

Lemma same_wire b : same b (wireBlock b).
Proof. done. Qed.

(** The tables after [AddPovBlock] of a new block. *)
Definition withBlock (b : PovBlock) (td : PovTD) (db : PovDB) : PovDB :=
  let key := (pb_Height b, pb_Hash b) in
  mkPovDB (<[key := PovHeader_wire (pb_Header b)]> (db_headers db)) (<[key := pb_Txs b]> (db_bodies db))
    (<[pb_Hash b := pb_Height b]> (db_heights db)) (<[key := PovTD_wire td]> (db_tds db))
    (db_txls db) (db_best db) (db_latest db) (db_cursor db) (db_tries db).

Section insert.
Context {db : PovDB} {b : PovBlock} (td : PovTD).
Context (Hwf : wf_tables db) (Hnew : blockAt db (pb_Hash b) = None).

Lemma new_keys : db_heights db !! pb_Hash b = None ∧ db_headers db !! (pb_Height b, pb_Hash b) = None ∧
  db_bodies db !! (pb_Height b, pb_Hash b) = None ∧ db_tds db !! (pb_Height b, pb_Hash b) = None.
Proof.
  pose proof (blockAt_None _ _ Hwf Hnew) as Hh. split; [done|].
  split_and!; apply eq_None_not_Some; intros [y Hy];
    [apply (wt_header _ Hwf) in Hy as [Hy _]|apply (wt_body _ Hwf) in Hy|apply (wt_td _ Hwf) in Hy]; congruence.
Qed.

Lemma AddPovBlock_new : AddPovBlock b td db = (Ok tt, withBlock b td db).
Proof.
  destruct new_keys as (H1 & H2 & H3 & H4). unfold AddPovBlock, mbind, M_bind, addPovHeader.
  change (h_Height (pb_Header b), h_Hash (pb_Header b)) with (pb_Height b, pb_Hash b). rewrite H2.
  unfold addPovBody; cbn. rewrite H3; cbn. unfold addPovHeight; cbn. rewrite H1; cbn.
  unfold addPovTD; cbn. by rewrite H4.
Qed.

Lemma blockAt_withBlock x :
  blockAt (withBlock b td db) x = if decide (x = pb_Hash b) then Some (wireBlock b) else blockAt db x.
Proof.
  unfold blockAt; cbn. case_decide as Hx.
  - subst. rewrite lookup_insert_eq; cbn. by rewrite !lookup_insert_eq.
  - rewrite lookup_insert_ne by done. destruct (db_heights db !! x) as [h|]; cbn; [|done].
    by rewrite !lookup_insert_ne by congruence.
Qed.

Lemma tdAt_withBlock x :
  tdAt (withBlock b td db) x = if decide (x = pb_Hash b) then Some (PovTD_wire td) else tdAt db x.
Proof.
  unfold tdAt; cbn. case_decide as Hx.
  - subst. rewrite lookup_insert_eq; cbn. by rewrite !lookup_insert_eq.
  - rewrite lookup_insert_ne by done. destruct (db_heights db !! x) as [h|]; cbn; [|done].
    by rewrite !lookup_insert_ne by congruence.
Qed.

Lemma wf_withBlock : wf_tables (withBlock b td db).
Proof.
  destruct new_keys as (Hh & _). assert (Hk : ∀ {V} (m : gmap (Z * Hash) V) k v y,
    <[(pb_Height b, pb_Hash b) := v]> m !! k = Some y →
    k = (pb_Height b, pb_Hash b) ∧ y = v ∨ k ≠ (pb_Height b, pb_Hash b) ∧ m !! k = Some y).
  { intros V m k v y. destruct (decide (k = (pb_Height b, pb_Hash b))) as [->|Hne].
    - rewrite lookup_insert_eq. intros [= ->]. by left.
    - rewrite lookup_insert_ne by done. by right. }
  assert (Hold : ∀ h x, db_heights db !! x = Some h → x ≠ pb_Hash b) by (intros h x Hx ->; congruence).
  split; cbn.
  - intros h x hdr [[[= -> ->] ->]|[Hne Hx]]%Hk; [by rewrite lookup_insert_eq|].
    destruct (wt_header _ Hwf _ _ _ Hx) as (Hx' & ? & ?). by rewrite lookup_insert_ne by (by eapply not_eq_sym, Hold).
  - intros h x txs [[[= -> ->] ->]|[Hne Hx]]%Hk; [by rewrite lookup_insert_eq|].
    apply (wt_body _ Hwf) in Hx. by rewrite lookup_insert_ne by (by eapply not_eq_sym, Hold).
  - intros h x y [[[= -> ->] ->]|[Hne Hx]]%Hk; [by rewrite lookup_insert_eq|].
    apply (wt_td _ Hwf) in Hx. by rewrite lookup_insert_ne by (by eapply not_eq_sym, Hold).
  - intros h x. destruct (decide (x = pb_Hash b)) as [->|Hne].
    + rewrite lookup_insert_eq. intros [= <-]. by rewrite !lookup_insert_eq.
    + rewrite lookup_insert_ne by done. intros Hx. rewrite !lookup_insert_ne by congruence. by apply (wt_height _ Hwf).
Qed.
End insert.

Section grow.
Context {db : PovDB} {g b : PovBlock} {ptd : PovTD}.
Context (Htree : tree db g) (Had : admissible db b).
Context (Hnew : blockAt db (pb_Hash b) = None) (Hptd : tdAt db (pb_Previous b) = Some ptd).
#[local] Abbreviation db1 := (withBlock b (CalcTotalDifficulty ptd (pb_Header b)) db).

Lemma old_blockAt x b' : blockAt db x = Some b' → blockAt db1 x = Some b'.
Proof. intros Hx. rewrite blockAt_withBlock. case_decide; [congruence|done]. Qed.

Lemma tree_withBlock : tree db1 g.
Proof.
  pose proof (tr_tables _ _ Htree) as Hwf. destruct (ad_parent _ _ Had) as (p & Hp & Hh).
  pose proof (tr_range _ _ Htree _ _ Hp) as Hrp. pose proof (ad_height _ _ Had) as Hhb.
  assert (Hpne : pb_Previous b ≠ pb_Hash b) by (intros Heq; congruence).
  assert (Hself : pb_Height (wireBlock b) = pb_Height b) by done.
  split.
  - by apply wf_withBlock.
  - rewrite blockAt_withBlock, decide_False; [apply (tr_zero _ _ Htree)|]. apply not_eq_sym, (ad_hash _ _ Had).
  - destruct (tr_genesis _ _ Htree) as (g' & Hg & ? & ?). exists g'. split; [by apply old_blockAt|done].
  - intros x b'. rewrite blockAt_withBlock. case_decide as Hx; [|apply (tr_root _ _ Htree)].
    intros [= <-]. lia.
  - intros x b'. rewrite blockAt_withBlock. case_decide as Hx; [|apply (tr_range _ _ Htree)].
    intros [= <-]. lia.
  - intros x b'. rewrite (blockAt_withBlock _ x), (tdAt_withBlock _ x). case_decide as Hx.
    + intros [= <-] _. exists p, ptd. split_and!; [by apply old_blockAt|done| | |by rewrite (same_work b (wireBlock b))].
      * cbn. change (h_Previous (pb_Header b)) with (pb_Previous b). by rewrite tdAt_withBlock, decide_False.
      * apply (work_positive _ (ad_target _ _ Had)).
    + intros Hb' Hne. destruct (tr_parent _ _ Htree _ _ Hb' Hne) as (q & td & Hq & Hhq & Htd & Hw & Hx').
      exists q, td. split_and!; [by apply old_blockAt|done| |done|done].
      rewrite tdAt_withBlock, decide_False; [done|]. congruence.
  - intros x td. rewrite tdAt_withBlock. case_decide; [|apply (tr_weight _ _ Htree)]. intros [= <-]. cbn. lia.
Qed.
End grow.

(** ** The index of a branch *)
Definition best_of (l : list PovBlock) : gmap Z Hash := list_to_map ((λ b, (pb_Height b, pb_Hash b)) <$> l).

Lemma best_of_None l h : Forall (λ p, pb_Height p < h) l → best_of l !! h = None.
Proof.
  induction l as [|p l IH]; intros Hl; [done|]. inv Hl. unfold best_of; cbn.
  rewrite lookup_insert_ne by lia. by apply IH.
Qed.

Lemma best_of_cons b l : best_of (b :: l) = <[pb_Height b := pb_Hash b]> (best_of l).
Proof. done. Qed.

Lemma best_of_lookup l h x : best_of l !! h = Some x → ∃ b, b ∈ l ∧ pb_Height b = h ∧ pb_Hash b = x.
Proof.
  unfold best_of. intros Hx%elem_of_list_to_map_2. apply list_elem_of_fmap in Hx as (b & [= -> ->] & Hb). eauto.
Qed.

Lemma best_of_elem db b l p : tip db b l → p ∈ b :: l → best_of (b :: l) !! pb_Height p = Some (pb_Hash p).
Proof.
  revert b. induction l as [|q l IH]; intros b Ht Hp.
  - apply list.elem_of_cons in Hp as [->|Hp]; [|inv Hp]. by rewrite best_of_cons, lookup_insert_eq.
  - apply list.elem_of_cons in Hp as [->|Hp]; [by rewrite best_of_cons, lookup_insert_eq|].
    destruct (tip_heights _ _ _ Ht) as [_ Hall]. rewrite list.Forall_forall in Hall. pose proof (Hall p Hp).
    rewrite best_of_cons, lookup_insert_ne by lia. destruct Ht as (_ & _ & Hbr).
    apply branch_tip in Hbr as [_ Ht]. by apply IH.
Qed.
