(* ===== verification/PovChainFacts.v ===== *)
(** * Inserting proof-of-value blocks

    After any insertions the index of the best chain is exactly the branch of the head,
    the head has the greatest total difficulty of all stored blocks, the caches agree
    with the store, and the lookups of transactions are exactly the transactions of the
    best chain. *)

From S2P Require Import Prelude Types Target Trie TrieStore Pov PovStateDB PovStore PovChain PovTree.

(** ** The best chain in memory and in the open transaction *)

(** The lookups of coinbases. *)
Definition delCb (b : PovBlock) (m : gmap Hash PovTxLookup) : gmap Hash PovTxLookup :=
  match pb_Txs b with [] => m | t :: _ => delete t m end.
Definition addCb (b : PovBlock) (m : gmap Hash PovTxLookup) : gmap Hash PovTxLookup :=
  match pb_Txs b with [] => m | t :: _ => <[t := mkPovTxLookup (pb_Hash b) (pb_Height b) 0]> m end.

Section chain.
Context `{Crypto} `{TrieCodec} `{StateCodec} `{GcacheLaws}.
Implicit Types (c : PovBlockChain) (l : list PovBlock).

(** *** Caches *)
Definition hcoh (db : PovDB) (k : cache PovBlock) : Prop := ∀ x b, held x k = Some b → blockAt db x = Some b.

Definition acoh l (k : cache PovBlock) : Prop :=
  ∀ h b, held h k = Some b → ∃ b', b' ∈ l ∧ pb_Height b' = h ∧ same b b'.

(** The same for headers, completed by the transactions of their block. *)
Definition acohH l (k : cache PovHeader) : Prop :=
  ∀ h hdr, held h k = Some hdr → ∃ b', b' ∈ l ∧ pb_Height b' = h ∧ same (mkPovBlock hdr (pb_Txs b')) b'.

Lemma held_set_cases {V} k j (v w : V) (ch : cache V) :
  held k (cacheSet j v ch) = Some w → k = j ∧ w = v ∨ k ≠ j ∧ held k ch = Some w.
Proof.
  destruct (decide (k = j)) as [->|Hne].
  - rewrite held_set. intros [= ->]. by left.
  - intros Hw. right. split; [done|]. destruct (held_set_ne k j v ch Hne) as [Heq|Heq]; congruence.
Qed.

Lemma held_remove_cases {V} k j (w : V) (ch : cache V) :
  held k (cacheRemove j ch) = Some w → k ≠ j ∧ held k ch = Some w.
Proof.
  destruct (decide (k = j)) as [->|Hne]; [by rewrite held_remove|]. by rewrite held_remove_ne.
Qed.

Lemma GetBlockByHash_spec c x :
  wf_tables (bc_store c) → blockAt (bc_store c) 0 = None → hcoh (bc_store c) (bc_hashBlock c) →
  ∃ k, GetBlockByHash x c = (Ok (blockAt (bc_store c) x), bc_with_hashBlock c k) ∧ hcoh (bc_store c) k.
Proof.
  intros Hwf Hz Hcoh. unfold GetBlockByHash, hash_IsZero. destruct (Z.eqb_spec x 0) as [->|Hx].
  { exists (bc_hashBlock c). rewrite Hz. split; [by destruct c|done]. }
  unfold mbind, M_bind, cached. destruct (cacheGet x (bc_hashBlock c)) as [v k] eqn:E.
  assert (Hv : held x (bc_hashBlock c) = v) by (unfold held; by rewrite E).
  assert (Hk : ∀ y, held y k = held y (bc_hashBlock c)) by (intros y; by rewrite <- (held_get y x (bc_hashBlock c)), E).
  destruct v as [b|].
  - exists k. rewrite (Hcoh _ _ Hv). split; [done|]. intros y b'. rewrite Hk. apply Hcoh.
  - unfold tryS, readS. cbn [bc_with_hashBlock bc_store]. rewrite GetPovBlockByHash_blockAt by done.
    destruct (blockAt (bc_store c) x) as [b|] eqn:Eb.
    + exists (cacheSet x b k). split; [done|]. intros y b' [[-> ->]|[_ Hy]]%held_set_cases; [done|].
      rewrite Hk in Hy. by apply Hcoh.
    + exists k. split; [done|]. intros y b'. rewrite Hk. apply Hcoh.
Qed.

(** *** The state while a transaction is open: [l] is the best chain, the head first. *)
Record mid c l : Prop := {
  md_head : ∃ tl, l = bc_latest c :: tl ∧ tip (bc_store c) (bc_latest c) tl;
  md_best : db_best (bc_batch c) = best_of l;
  md_latest : db_latest (bc_batch c) = Some (pb_Height (bc_latest c));
  md_hash : hcoh (bc_store c) (bc_hashBlock c);
  md_heightB : acoh l (bc_heightBlock c);
  md_heightH : acohH l (bc_heightHeader c);
}.

(** What connecting and disconnecting blocks leaves alone. *)
Record frame c c' : Prop := {
  fr_store : bc_store c' = bc_store c;
  fr_genesis : bc_genesis c' = bc_genesis c;
  fr_td : bc_hashTd c' = bc_hashTd c;
  fr_header : bc_hashHeader c' = bc_hashHeader c;
  fr_tree : treePart (bc_batch c') = treePart (bc_batch c);
  fr_cursor : db_cursor (bc_batch c') = db_cursor (bc_batch c);
}.

Lemma frame_refl c : frame c c.
Proof. done. Qed.

Lemma frame_trans c1 c2 c3 : frame c1 c2 → frame c2 c3 → frame c1 c3.
Proof. intros [] []. split; congruence. Qed.

Lemma onBatch_cb (o : list Hash) (f : Hash → PovDB → PovDB) c :
  match o with [] => mret tt | t :: _ => onBatch (f t) end c
  = (Ok tt, bc_with_batch c (match o with [] => bc_batch c | t :: _ => f t (bc_batch c) end)).
Proof. destruct o; [|done]. by destruct c. Qed.

Lemma acoh_sub l l' k : (∀ b, b ∈ l → ∃ b', b' ∈ l' ∧ pb_Height b' = pb_Height b ∧ same b b') → acoh l k → acoh l' k.
Proof.
  intros Hsub Hk h b Hb. destruct (Hk h b Hb) as (b1 & Hin & Hh & Hs). destruct (Hsub b1 Hin) as (b2 & ? & ? & ?).
  exists b2. split_and!; [done|congruence|]. by etrans.
Qed.

Lemma acohH_sub l l' k : (∀ b, b ∈ l → ∃ b', b' ∈ l' ∧ pb_Height b' = pb_Height b ∧ same b b') → acohH l k → acohH l' k.
Proof.
  intros Hsub Hk h hdr Hb. destruct (Hk h hdr Hb) as (b1 & Hin & Hh & Hs). destruct (Hsub b1 Hin) as (b2 & ? & ? & Hs2).
  exists b2. split_and!; [done|congruence|]. destruct (same_fields _ _ Hs2) as (_ & _ & _ & <-). by etrans.
Qed.

Lemma acoh_set l b k : b ∈ l → acoh l k → acoh l (cacheSet (pb_Height b) b k).
Proof. intros Hin Hk h b' [[-> ->]|[_ Hy]]%held_set_cases; [by exists b|by apply Hk]. Qed.

Lemma acohH_set l b k : b ∈ l → acohH l k → acohH l (cacheSet (pb_Height b) (pb_Header b) k).
Proof.
  intros Hin Hk h hdr [[-> ->]|[_ Hy]]%held_set_cases; [|by apply Hk].
  exists b. by destruct b.
Qed.

Lemma acoh_remove d l k : acoh (d :: l) k → acoh l (cacheRemove (pb_Height d) k).
Proof.
  intros Hk h b [Hne Hb]%held_remove_cases. destruct (Hk h b Hb) as (b' & [->|Hin]%list.elem_of_cons & Hh & Hs); [done|eauto].
Qed.

Lemma acohH_remove d l k : acohH (d :: l) k → acohH l (cacheRemove (pb_Height d) k).
Proof.
  intros Hk h b [Hne Hb]%held_remove_cases. destruct (Hk h b Hb) as (b' & [->|Hin]%list.elem_of_cons & Hh & Hs); [done|eauto].
Qed.

(** *** One block *)
Lemma disconnect_spec c g d p l :
  tree (bc_store c) g → mid c (d :: p :: l) →
  ∃ c', disconnectBestBlock d c = (Ok tt, c') ∧ mid c' (p :: l) ∧ frame c c' ∧
    db_txls (bc_batch c') = delCb d (db_txls (bc_batch c)) ∧
    bc_events c' = bc_events c ++ [EventDisconnectPovBlock d; EventPovDisconnectBestBlock d].
Proof.
  intros Ht [(tl & [= Hd <-] & Htip) Hbest Hlat Hh HB HH]. subst d. destruct Htip as (Hprev & Hhgt & Hbr).
  set (d := bc_latest c) in *. pose proof (tip_heights (bc_store c) d (p :: l)) as Hhs.
  destruct Hhs as [_ Hhs]; [done|].
  unfold disconnectBestBlock, disconnectTransactions, disconnectBlock, mbind, M_bind, readS.
  fold d. rewrite Z.eqb_refl. cbn [negb]. rewrite (onBatch_cb (pb_Txs d) DeletePovTxLookup).
  unfold onBatch, StoreLatestBlock, modifyS. cbv beta iota.
  match goal with |- context [GetBlockByHash (pb_Previous d) ?s] => set (c1 := s) end.
  destruct (GetBlockByHash_spec c1 (pb_Previous d)) as (k & Hk & Hcoh); [apply Ht|apply Ht|done|].
  rewrite Hk. assert (Hp : blockAt (bc_store c1) (pb_Previous d) = Some p).
  { rewrite Hprev. by apply branch_tip in Hbr as [? _]. }
  rewrite Hp. eexists. split; [reflexivity|]. split; [|split; [|split]].
  - split; cbn -[best_of].
    + exists l. split; [done|]. by apply branch_tip in Hbr as [_ ?].
    + assert (Hb : db_best (match pb_Txs d with [] => bc_batch c | t :: _ => DeletePovTxLookup t (bc_batch c) end)
                   = db_best (bc_batch c)) by (by destruct (pb_Txs d)).
      rewrite Hb, Hbest, best_of_cons, delete_insert_id; [done|]. apply best_of_None.
      eapply Forall_impl; [|done]. cbn. lia.
    + done.
    + done.
    + apply acoh_set; [by left|]. by apply acoh_remove.
    + apply acohH_set; [by left|]. by apply acohH_remove.
  - split; try done; cbn; by destruct (pb_Txs d).
  - cbn. unfold delCb. by destruct (pb_Txs d).
  - cbn. by rewrite <- app_assoc.
Qed.

Lemma connect_spec c a hd b l :
  mid c (a :: l) → same a hd → tip (bc_store c) b (hd :: l) → pb_Height b < MaxUint64 →
  ∃ c', connectBestBlock b c = (Ok tt, c') ∧ mid c' (b :: hd :: l) ∧ frame c c' ∧
    db_txls (bc_batch c') = addCb b (db_txls (bc_batch c)) ∧
    bc_events c' = bc_events c ++ [EventConnectPovBlock b; EventPovConnectBestBlock b].
Proof.
  intros [(tl & [= Ha <-] & Htip) Hbest Hlat Hh HB HH] Hs Hb Hrange. subst a.
  destruct (same_fields _ _ Hs) as (Hsh & Hsg & _ & _). destruct Hb as (Hprev & Hhgt & Hbr).
  destruct (tip_heights _ _ _ Htip) as [Hlen _].
  unfold connectBestBlock, connectTransactions, connectBlock, mbind, M_bind, readS.
  rewrite Hsg, u64_small by (unfold MaxUint64 in *; lia). rewrite <- Hhgt, Z.eqb_refl. cbn [negb]. unfold onBatch at 1, modifyS at 1.
  rewrite (onBatch_cb (pb_Txs b) (λ t, AddPovTxLookup t (mkPovTxLookup (pb_Hash b) (pb_Height b) 0))).
  unfold onBatch, StoreLatestBlock, modifyS. eexists. split; [reflexivity|]. split; [|split; [|split]].
  - split; cbn -[best_of].
    + exists (hd :: l). split; [done|]. done.
    + transitivity (<[pb_Height b:=pb_Hash b]> (db_best (bc_batch c))); [by destruct (pb_Txs b)|].
      by rewrite Hbest, !best_of_cons, Hsh, Hsg.
    + done.
    + done.
    + apply acoh_set; [by left|]. eapply acoh_sub, HB. intros b1 [->|Hin]%list.elem_of_cons.
      * exists hd. split_and!; [right; by left|done|done].
      * exists b1. split_and!; [right; by right|done|done].
    + apply acohH_set; [by left|]. eapply acohH_sub, HH. intros b1 [->|Hin]%list.elem_of_cons.
      * exists hd. split_and!; [right; by left|done|done].
      * exists b1. split_and!; [right; by right|done|done].
  - split; try done; cbn; by destruct (pb_Txs b).
  - cbn. unfold addCb. by destruct (pb_Txs b).
  - cbn. by rewrite <- app_assoc.
Qed.

(** *** Several blocks *)
Lemma forEach_app {S A} (f : A → M S unit) xs ys s s1 s2 :
  forEach f xs s = (Ok tt, s1) → forEach f ys s1 = (Ok tt, s2) → forEach f (xs ++ ys) s = (Ok tt, s2).
Proof.
  revert s. induction xs as [|x xs IH]; intros s; cbn; [by intros [= ->]|].
  unfold mbind, M_bind. destruct (f x s) as [[[]| |] s']; [|done|done]. intros. by apply IH.
Qed.

Definition disconnectEvents (ds : list PovBlock) : list PovEvent :=
  ds ≫= λ d, [EventDisconnectPovBlock d; EventPovDisconnectBestBlock d].
Definition connectEvents (bs : list PovBlock) : list PovEvent :=
  bs ≫= λ b, [EventConnectPovBlock b; EventPovConnectBestBlock b].

Lemma disconnect_all c g ds p l :
  tree (bc_store c) g → mid c (ds ++ p :: l) →
  ∃ c', forEach disconnectBestBlock ds c = (Ok tt, c') ∧ mid c' (p :: l) ∧ frame c c' ∧
    db_txls (bc_batch c') = foldl (λ m d, delCb d m) (db_txls (bc_batch c)) ds ∧
    bc_events c' = bc_events c ++ disconnectEvents ds.
Proof.
  revert c. induction ds as [|d ds IH]; intros c Ht Hmid.
  - exists c. unfold disconnectEvents. cbn. by rewrite app_nil_r.
  - assert (Hmid' : ∃ q l', ds ++ p :: l = q :: l') by (destruct ds; eauto). destruct Hmid' as (q & l' & Hq).
    cbn [app] in Hmid. rewrite Hq in Hmid.
    destruct (disconnect_spec c g d q l' Ht Hmid) as (c1 & Hrun & Hmid1 & Hfr & Htx & Hev).
    rewrite <- Hq in Hmid1. destruct (IH c1) as (c2 & Hrun2 & Hmid2 & Hfr2 & Htx2 & Hev2); [by rewrite (fr_store _ _ Hfr)|done|].
    exists c2. cbn [forEach]. unfold mbind, M_bind. rewrite Hrun. split_and!; [done|done|by eapply frame_trans| |].
    + by rewrite Htx2, Htx.
    + by rewrite Hev2, Hev, <- app_assoc.
Qed.

Lemma connect_all c a l p l0 :
  mid c (p :: l0) → branch (bc_store c) (p :: l0) → tip (bc_store c) a (l ++ p :: l0) →
  Forall (λ b, pb_Height b < MaxUint64) (a :: l) →
  ∃ c', forEach connectBestBlock (reverse (a :: l)) c = (Ok tt, c') ∧ mid c' (a :: l ++ p :: l0) ∧ frame c c' ∧
    db_txls (bc_batch c') = foldl (λ m b, addCb b m) (db_txls (bc_batch c)) (reverse (a :: l)) ∧
    bc_events c' = bc_events c ++ connectEvents (reverse (a :: l)).
Proof.
  intros Hmid Hbr. revert a. induction l as [|a' l IH]; intros a Htip Hr.
  - destruct (connect_spec c p p a l0 Hmid) as (c' & Hrun & ?); [done|done|by inv Hr|].
    exists c'. cbn. unfold mbind, M_bind. rewrite Hrun. unfold connectEvents; cbn. done.
  - destruct Htip as (Hp & Hh & Hb). pose proof Hb as Hb'. cbn [app] in Hb. apply branch_tip in Hb as [Hsa Ht'].
    inv Hr. destruct (IH a' Ht') as (c1 & Hrun & Hmid1 & Hfr & Htx & Hev); [done|].
    destruct (connect_spec c1 a' a' a (l ++ p :: l0)) as (c2 & Hrun2 & Hmid2 & Hfr2 & Htx2 & Hev2); try done.
    { by rewrite (fr_store _ _ Hfr). }
    exists c2. rewrite (reverse_cons (a' :: l) a), foldl_app. unfold connectEvents. rewrite bind_app.
    split_and!; [|done|by eapply frame_trans|by rewrite Htx2, Htx|].
    + eapply forEach_app; [exact Hrun|]. cbn. unfold mbind, M_bind. by rewrite Hrun2.
    + rewrite Hev2, Hev. by rewrite <- app_assoc.
Qed.

Section walk.
Context (c : PovBlockChain) (g : PovBlock) (Ht : tree (bc_store c) g).

Lemma parent_read k cur p l : hcoh (bc_store c) k → tip (bc_store c) cur (p :: l) →
  ∃ k', GetBlockByHash (pb_Previous cur) (bc_with_hashBlock c k) = (Ok (Some p), bc_with_hashBlock c k') ∧
    hcoh (bc_store c) k' ∧ pb_Previous cur ≠ 0 ∧ tip (bc_store c) p l.
Proof.
  intros Hk (Hprev & _ & Hbr). apply branch_tip in Hbr as [Hp Htp].
  destruct (GetBlockByHash_spec (bc_with_hashBlock c k) (pb_Previous cur)) as (k' & Hrun & Hk');
    [apply Ht|apply Ht|done|].
  exists k'. rewrite Hrun. cbn [bc_with_hashBlock bc_store]. rewrite Hprev, Hp. split_and!; [done|done| |done].
  by apply (stored_nonzero Ht _ p).
Qed.

Lemma walkBack_spec n cur l passed k :
  hcoh (bc_store c) k → tip (bc_store c) cur l → (n ≤ length l)%nat →
  ∃ cur' ps l' k', walkBack n cur passed (bc_with_hashBlock c k) = (Ok (cur', passed ++ ps), bc_with_hashBlock c k') ∧
    hcoh (bc_store c) k' ∧ cur :: l = ps ++ cur' :: l' ∧ length ps = n ∧ tip (bc_store c) cur' l'.
Proof.
  revert cur l passed k. induction n as [|n IH]; intros cur l passed k Hk Htip Hn.
  - exists cur, [], l, k. cbn. by rewrite app_nil_r.
  - destruct l as [|p l]; [cbn in Hn; lia|]. cbn in Hn.
    destruct (parent_read k cur p l Hk Htip) as (k1 & Hrun & Hk1 & Hnz & Hp).
    destruct (IH p l (passed ++ [cur]) k1 Hk1 Hp) as (cur' & ps & l' & k' & Hw & Hk' & Hl & Hlen & Ht'); [lia|].
    exists cur', (cur :: ps), l', k'. cbn [walkBack]. unfold hash_IsZero. rewrite (proj2 (Z.eqb_neq _ _)) by done.
    unfold mbind, M_bind. rewrite Hrun, Hw, <- app_assoc. cbn. rewrite Hl, Hlen. done.
Qed.

Lemma findForkPoint_spec fuel a d la ld ats des k :
  hcoh (bc_store c) k → tip (bc_store c) a la → tip (bc_store c) d ld → length la = length ld →
  (0 < length la ≤ fuel)%nat →
  ∃ A D f l k', findForkPoint fuel a d ats des (bc_with_hashBlock c k)
      = (Ok (pb_Hash f, ats ++ a :: A, des ++ d :: D), bc_with_hashBlock c k') ∧
    hcoh (bc_store c) k' ∧ la = A ++ f :: l ∧ ld = D ++ f :: l ∧ branch (bc_store c) (f :: l).
Proof.
  revert a d la ld ats des k. induction fuel as [|fuel IH]; intros a d la ld ats des k Hk Ha Hd Hlen Hf; [lia|].
  destruct la as [|p la]; [cbn in Hf; lia|]. destruct ld as [|q ld]; [done|]. cbn in Hlen, Hf. cbn [findForkPoint].
  pose proof Ha as (Hpa & _ & Hba). pose proof Hd as (Hpd & _ & Hbd). rewrite Hpa, Hpd.
  destruct (Z.eqb_spec (pb_Hash p) (pb_Hash q)) as [Heq|Hne].
  - apply branch_tip in Hba as [Hp Htp], Hbd as [Hq Htq]. assert (p = q) as -> by congruence.
    assert (la = ld) as -> by (by eapply branch_unique).
    exists [], [], q, ld, k. split; [done|]. split_and!; [done..|]. by apply branch_tip.
  - destruct (parent_read k a p la Hk Ha) as (k1 & Hrun1 & Hk1 & _ & Htp).
    destruct (parent_read k1 d q ld Hk1 Hd) as (k2 & Hrun2 & Hk2 & _ & Htq).
    rewrite Hpa in Hrun1. rewrite Hpd in Hrun2. unfold mbind, M_bind. rewrite Hrun1, Hrun2.
    destruct la as [|p2 la].
    { destruct ld; [|done]. exfalso. apply Hne. destruct Hba as [Hp Hh0], Hbd as [Hq Hh0'].
      by rewrite (tr_root _ _ Ht _ _ Hp Hh0), (tr_root _ _ Ht _ _ Hq Hh0'). }
    destruct (IH p q (p2 :: la) ld (ats ++ [a]) (des ++ [d]) k2) as (A & D & f & l & k' & Hw & Hk' & Hla & Hld & Hbr);
      [done|done|done|cbn in *; lia|cbn in *; lia|].
    exists (p :: A), (q :: D), f, l, k'. rewrite Hw, <- !app_assoc. cbn. rewrite Hla, Hld. done.
Qed.
End walk.

(** *** Moving to another branch *)
Lemma mid_hashBlock c l k : mid c l → hcoh (bc_store c) k → mid (bc_with_hashBlock c k) l.
Proof. intros [] ?. by split. Qed.

Lemma frame_hashBlock c k c' : frame (bc_with_hashBlock c k) c' → frame c c'.
Proof. intros []. by split. Qed.

(** The blocks to attach and to detach, and the fork point. *)
Lemma fork_search c g b lb tl k :
  tree (bc_store c) g → tip (bc_store c) (bc_latest c) tl → tip (bc_store c) b lb → hcoh (bc_store c) k →
  (1 ≤ length tl)%nat → (1 ≤ length lb)%nat →
  ∃ a ps1 k1 d ps2 k2 A D f l k3,
    walkBack (Z.to_nat (pb_Height b - pb_Height (bc_latest c))) b [] (bc_with_hashBlock c k)
      = (Ok (a, ps1), bc_with_hashBlock c k1) ∧
    walkBack (Z.to_nat (pb_Height (bc_latest c) - pb_Height b)) (bc_latest c) [] (bc_with_hashBlock c k1)
      = (Ok (d, ps2), bc_with_hashBlock c k2) ∧
    pb_Height a = pb_Height d ∧
    findForkPoint (S (Z.to_nat (pb_Height a))) a d ps1 ps2 (bc_with_hashBlock c k2)
      = (Ok (pb_Hash f, b :: A, bc_latest c :: D), bc_with_hashBlock c k3) ∧
    hcoh (bc_store c) k3 ∧ lb = A ++ f :: l ∧ tl = D ++ f :: l ∧ branch (bc_store c) (f :: l).
Proof.
  intros Ht Hold Hnew Hk Hl1 Hl2.
  destruct (tip_heights _ _ _ Hold) as [Ho _], (tip_heights _ _ _ Hnew) as [Hn _].
  destruct (walkBack_spec c g Ht (Z.to_nat (pb_Height b - pb_Height (bc_latest c))) b lb [] k)
    as (a & ps1 & la & k1 & Hw1 & Hk1 & Hla & Hlen1 & Hta); [done|done|lia|].
  destruct (walkBack_spec c g Ht (Z.to_nat (pb_Height (bc_latest c) - pb_Height b)) (bc_latest c) tl [] k1)
    as (d & ps2 & ld & k2 & Hw2 & Hk2 & Hld & Hlen2 & Htd); [done|done|lia|].
  destruct (tip_heights _ _ _ Hta) as [Ha _], (tip_heights _ _ _ Htd) as [Hd _].
  pose proof (f_equal length Hla) as HL1. pose proof (f_equal length Hld) as HL2.
  rewrite !length_app in HL1, HL2. cbn in HL1, HL2.
  destruct (findForkPoint_spec c g Ht (S (Z.to_nat (pb_Height a))) a d la ld ps1 ps2 k2)
    as (A & D & f & l & k3 & Hff & Hk3 & HlA & HlD & Hbr); [done|done|done|lia|lia|].
  assert (HA : ∃ A', ps1 ++ a :: A = b :: A' ∧ lb = A' ++ f :: l).
  { destruct ps1 as [|x ps1]; cbn in Hla |- *; injection Hla as -> ->; [by exists A|].
    exists (ps1 ++ a :: A). by rewrite HlA, <- app_assoc. }
  assert (HD : ∃ D', ps2 ++ d :: D = bc_latest c :: D' ∧ tl = D' ++ f :: l).
  { destruct ps2 as [|x ps2]; cbn in Hld |- *; injection Hld as Hx ->; [rewrite Hx; by exists D|].
    rewrite Hx. exists (ps2 ++ d :: D). by rewrite HlD, <- app_assoc. }
  destruct HA as (A' & HA & ->), HD as (D' & HD & ->). rewrite HA, HD in Hff.
  exists a, ps1, k1, d, ps2, k2, A', D', f, l, k3. split_and!; try done. lia.
Qed.

Lemma processFork_spec c g b lb tl :
  tree (bc_store c) g → mid c (bc_latest c :: tl) → tip (bc_store c) b lb → pb_Height b < MaxUint64 →
  (1 ≤ length tl)%nat → (1 ≤ length lb)%nat →
  ∃ A D f l, lb = A ++ f :: l ∧ tl = D ++ f :: l ∧ branch (bc_store c) (f :: l) ∧
    let ats := reverse (b :: A) in let des := bc_latest c :: D in
    if PoVMaxForkHeight <? Z.of_nat (length des)
    then ∃ k, processFork b c = (Err ErrPovInvalidFork, bc_with_hashBlock c k) ∧ hcoh (bc_store c) k
    else ∃ c', processFork b c = (Ok f, c') ∧ mid c' (b :: lb) ∧ frame c c' ∧
      db_txls (bc_batch c') = foldl (λ m x, addCb x m) (foldl (λ m x, delCb x m) (db_txls (bc_batch c)) des) ats ∧
      bc_events c' = bc_events c ++ disconnectEvents des ++ connectEvents ats.
Proof.
  intros Ht Hmid Hnew Hrange Hl1 Hl2. pose proof Hmid as [(tl' & [= <-] & Hold) _ _ Hk _ _].
  destruct (fork_search c g b lb tl (bc_hashBlock c) Ht Hold Hnew Hk Hl1 Hl2)
    as (a & ps1 & k1 & d & ps2 & k2 & A & D & f & l & k3 & Hw1 & Hw2 & Hh & Hff & Hk3 & HA & HD & Hbr).
  exists A, D, f, l. split_and!; [done..|]. intros ats des.
  replace (bc_with_hashBlock c (bc_hashBlock c)) with c in Hw1 by (by destruct c).
  unfold processFork, mbind, M_bind, readS. rewrite Hw1, Hw2. rewrite Hh, Z.eqb_refl. cbn [negb]. rewrite Hh in Hff.
  rewrite Hff. pose proof Hbr as [Hf _]%branch_tip. unfold hash_IsZero.
  rewrite (proj2 (Z.eqb_neq _ _)) by (by apply (stored_nonzero Ht _ f)).
  destruct (GetBlockByHash_spec (bc_with_hashBlock c k3) (pb_Hash f)) as (k4 & Hrun & Hk4); [apply Ht|apply Ht|done|].
  change (bc_store (bc_with_hashBlock c k3)) with (bc_store c) in Hrun.
  change (bc_with_hashBlock (bc_with_hashBlock c k3) k4) with (bc_with_hashBlock c k4) in Hrun.
  rewrite Hrun, Hf. fold des.
  destruct (PoVMaxForkHeight <? Z.of_nat (length des)) eqn:Emax; [by exists k4|].
  set (c2 := bc_with_hashBlock c k4).
  destruct (disconnect_all c2 g des f l) as (c3 & Hrun3 & Hmid3 & Hfr3 & Htx3 & Hev3); [done| |].
  { unfold des. cbn [app]. rewrite <- HD. by apply mid_hashBlock. }
  fold c2. rewrite Hrun3.
  destruct (connect_all c3 b A f l) as (c4 & Hrun4 & Hmid4 & Hfr4 & Htx4 & Hev4); [done|by rewrite (fr_store _ _ Hfr3)| | |].
  { rewrite (fr_store _ _ Hfr3). cbn. by rewrite <- HA. }
  { destruct (tip_heights _ _ _ Hnew) as [_ Hall]. rewrite HA in Hall. apply Forall_app in Hall as [Hall _].
    constructor; [done|]. eapply Forall_impl; [|done]. cbn. lia. }
  rewrite Hrun4. exists c4. rewrite HA. split_and!; [done|done| | |].
  - eapply frame_hashBlock, frame_trans; done.
  - by rewrite Htx4, Htx3.
  - by rewrite Hev4, Hev3, <- app_assoc.
Qed.

(** ** The invariant *)

(** Every entry names a stored block and a transaction of it. *)
Definition sound (db : PovDB) (txls : gmap Hash PovTxLookup) : Prop :=
  ∀ t e, txls !! t = Some e → ∃ b i, blockAt db (txl_BlockHash e) = Some b ∧ pb_Height b = txl_BlockHeight e ∧
    txl_TxIndex e = Z.of_nat i ∧ pb_Txs b !! i = Some t.

Definition place (b : PovBlock) (i : nat) : PovTxLookup := mkPovTxLookup (pb_Hash b) (pb_Height b) (Z.of_nat i).

(** The transactions of the blocks have their places. *)
Definition complete (txls : gmap Hash PovTxLookup) l : Prop :=
  ∀ b i t, b ∈ l → pb_Txs b !! i = Some t → txls !! t = Some (place b i).

Definition headerCoh (db : PovDB) (k : cache PovHeader) : Prop :=
  ∀ x hdr, held x k = Some hdr → ∃ b, blockAt db x = Some b ∧ pb_Header b = hdr.

Definition tdCoh (db : PovDB) (k : cache PovTD) : Prop :=
  ∀ x td td', held x k = Some td → tdAt db x = Some td' → td_Chain td = td_Chain td'.

(** The best chain is the head followed by [tl]. *)
Record core c (tl : list PovBlock) : Prop := {
  ok_tree : tree (bc_store c) (bc_genesis c);
  ok_head : ∃ hd, blockAt (bc_store c) (pb_Hash (bc_latest c)) = Some hd ∧ same (bc_latest c) hd;
  ok_tip : tip (bc_store c) (bc_latest c) tl;
  ok_best : db_best (bc_store c) = best_of (bc_latest c :: tl);
  ok_latest : db_latest (bc_store c) = Some (pb_Height (bc_latest c));
  ok_heaviest x b : blockAt (bc_store c) x = Some b →
    weight (bc_store c) x ≤ weight (bc_store c) (pb_Hash (bc_latest c));
  ok_hash : hcoh (bc_store c) (bc_hashBlock c);
  ok_heightB : acoh (bc_latest c :: tl) (bc_heightBlock c);
  ok_heightH : acohH (bc_latest c :: tl) (bc_heightHeader c);
  ok_header : headerCoh (bc_store c) (bc_hashHeader c);
  ok_td : tdCoh (bc_store c) (bc_hashTd c);
  ok_sound : sound (bc_store c) (db_txls (bc_store c));
}.

Lemma core_mid c tl : core c tl → mid (bc_with_batch c (bc_store c)) (bc_latest c :: tl).
Proof. intros []. split; try done. by exists tl. Qed.

(** *** The first steps of [insertBlock] *)
Record grown (db db1 : PovDB) (g b : PovBlock) (td : PovTD) : Prop := {
  gr_tree : tree db1 g;
  gr_old x b' : blockAt db x = Some b' → blockAt db1 x = Some b' ∧ tdAt db1 x = tdAt db x;
  gr_new x b' : blockAt db1 x = Some b' → x = pb_Hash b ∨ blockAt db x = Some b';
  gr_block : ∃ b1, blockAt db1 (pb_Hash b) = Some b1 ∧ same b b1;
  gr_td : tdAt db1 (pb_Hash b) = Some (PovTD_wire td);
  gr_rest : (db_txls db1, db_best db1, db_latest db1, db_cursor db1) = (db_txls db, db_best db, db_latest db, db_cursor db);
}.

Lemma add_step c b ptd :
  tree (bc_batch c) (bc_genesis c) → admissible (bc_batch c) b → tdAt (bc_batch c) (pb_Previous b) = Some ptd →
  let td := CalcTotalDifficulty ptd (pb_Header b) in
  ∃ db1, (if HasPovBlock (bc_batch c) (pb_Height b) (pb_Hash b) then (Ok tt, c) else addBlockInBatch b td c)
           = (Ok tt, bc_with_batch c db1) ∧
    grown (bc_batch c) db1 (bc_genesis c) b td.
Proof.
  intros Ht Had Hptd td. rewrite HasPovBlock_blockAt by apply Ht.
  destruct (blockAt (bc_batch c) (pb_Hash b)) as [b1|] eqn:Eb.
  - pose proof (ad_same _ _ Had _ Eb) as Hs. destruct (same_fields _ _ Hs) as (_ & Hh & Hp & _).
    rewrite Hh, Z.eqb_refl. exists (bc_batch c). split; [by destruct c|]. split; try done; eauto.
    destruct (ad_parent _ _ Had) as (p & Hpp & Hhp). pose proof (tr_range _ _ Ht _ _ Hpp).
    destruct (tr_parent _ _ Ht _ _ Eb) as (q & qtd & Hq & _ & Hqtd & _ & Htd); [lia|].
    rewrite Htd. unfold td. rewrite (same_work b b1) by done. congruence.
  - unfold addBlockInBatch. rewrite AddPovBlock_new by (done || apply Ht).
    eexists. split; [reflexivity|]. split.
    + by apply tree_withBlock.
    + intros x b' Hx. rewrite blockAt_withBlock, tdAt_withBlock, !decide_False by congruence. done.
    + intros x b'. rewrite blockAt_withBlock. case_decide; [by left|by right].
    + exists (wireBlock b). by rewrite blockAt_withBlock, decide_True.
    + by rewrite tdAt_withBlock, decide_True.
    + done.
Qed.

Lemma tdAt_blockAt db x td : wf_tables db → tdAt db x = Some td → ∃ b, blockAt db x = Some b.
Proof.
  intros Hwf Htd. unfold tdAt in Htd. apply bind_Some in Htd as (h & Hh & _).
  destruct (blockAt db x) as [b|] eqn:E; [eauto|]. apply blockAt_None in E; [congruence|done].
Qed.

Lemma grown_weight db db1 g b td x b' : grown db db1 g b td → blockAt db x = Some b' → weight db1 x = weight db x.
Proof. intros Hg Hx. unfold weight. by destruct (gr_old _ _ _ _ _ Hg _ _ Hx) as [_ ->]. Qed.

Lemma sound_mono db db1 m : (∀ x b, blockAt db x = Some b → blockAt db1 x = Some b) → sound db m → sound db1 m.
Proof. intros Hsub Hm t e He. destruct (Hm t e He) as (b & i & Hb & ?). exists b, i. split; [by apply Hsub|done]. Qed.

Lemma sound_delCb db d m : sound db m → sound db (delCb d m).
Proof.
  intros Hm. unfold delCb. destruct (pb_Txs d) as [|t0 ?]; [done|]. intros t e [_ He]%lookup_delete_Some. by apply Hm.
Qed.

Lemma sound_addCb db b b1 m : blockAt db (pb_Hash b) = Some b1 → same b b1 → sound db m → sound db (addCb b m).
Proof.
  intros Hb1 Hs Hm. destruct (same_fields _ _ Hs) as (_ & Hh & _ & Htx). unfold addCb.
  destruct (pb_Txs b) as [|t0 txs] eqn:E; [done|]. intros t e [[<- <-]|[_ He]]%lookup_insert_Some; [|by apply Hm].
  exists b1, 0%nat. cbn. by rewrite <- Htx.
Qed.

Lemma sound_foldl db ds bs m :
  Forall (λ b, ∃ b1, blockAt db (pb_Hash b) = Some b1 ∧ same b b1) bs → sound db m →
  sound db (foldl (λ m x, addCb x m) (foldl (λ m x, delCb x m) m ds) bs).
Proof.
  intros Hbs Hm. assert (Hd : sound db (foldl (λ m x, delCb x m) m ds)).
  { revert m Hm. induction ds as [|d ds IH]; intros m Hm; [done|]. by apply IH, sound_delCb. }
  revert Hd. generalize (foldl (λ m x, delCb x m) m ds). clear Hm.
  induction Hbs as [|b bs (b1 & Hb & Hs) _ IH]; intros m' Hm'; [done|]. cbn. by eapply IH, sound_addCb.
Qed.

Lemma core_commit c tl b td c' tl' db1 :
  core c tl → grown (bc_store c) db1 (bc_genesis c) b td → 0 ≤ td_Chain td →
  bc_store c' = bc_store c → bc_genesis c' = bc_genesis c → treePart (bc_batch c') = treePart db1 →
  bc_hashHeader c' = bc_hashHeader c → bc_hashTd c' = cacheSet (pb_Hash b) td (bc_hashTd c) →
  mid c' (bc_latest c' :: tl') →
  (∃ hd, blockAt db1 (pb_Hash (bc_latest c')) = Some hd ∧ same (bc_latest c') hd) →
  (∀ x b', blockAt db1 x = Some b' → weight db1 x ≤ weight db1 (pb_Hash (bc_latest c'))) →
  sound db1 (db_txls (bc_batch c')) →
  core (bc_with_store c' (bc_batch c')) tl'.
Proof.
  intros Hc Hgr Htd Hst Hgen Hpart Hhdr Hctd [(tl2 & [= <-] & Htip) Hbest Hlat Hh HB HH] Hhd Hheavy Hsound.
  destruct (treePart_reads _ _ Hpart) as (Hb & Hd & Hw). rewrite Hst in *.
  assert (Hmono : ∀ x b', blockAt (bc_store c) x = Some b' → blockAt (bc_batch c') x = Some b').
  { intros x b' Hx. rewrite Hb. by apply (gr_old _ _ _ _ _ Hgr). }
  split; cbn -[best_of]; rewrite ?Hgen; try done.
  - eapply tree_part; [by symmetry|apply Hgr].
  - by rewrite Hb.
  - destruct tl' as [|p tl']; [done|]. destruct Htip as (? & ? & Hbr). split_and!; [done..|]. by eapply branch_mono.
  - intros x b'. rewrite Hb, !Hw. apply Hheavy.
  - intros x b' Hx. by apply Hmono, Hh.
  - intros x hdr. rewrite Hhdr. intros Hx. destruct (ok_header _ _ Hc _ _ Hx) as (b' & ? & ?). eauto.
  - intros x t t'. rewrite Hctd, Hd. intros [[-> ->]|[Hne Hx]]%held_set_cases Ht'.
    + rewrite (gr_td _ _ _ _ _ Hgr) in Ht'. injection Ht' as <-. cbn. lia.
    + destruct (tdAt_blockAt _ _ _ (tr_tables _ _ (gr_tree _ _ _ _ _ Hgr)) Ht') as [b' Hb'].
      destruct (gr_new _ _ _ _ _ Hgr _ _ Hb') as [->|Hold]; [done|].
      destruct (gr_old _ _ _ _ _ Hgr _ _ Hold) as [_ Heq]. rewrite Heq in Ht'. by eapply (ok_td _ _ Hc).
  - eapply sound_mono, Hsound. intros x b' Hx. by rewrite Hb.
Qed.

(** *** The outcomes of an insertion *)
(** The block is stored, next to the old ones. *)
Definition added c c' (b : PovBlock) : Prop :=
  (∃ b1, blockAt (bc_store c') (pb_Hash b) = Some b1 ∧ same b b1) ∧
  (∀ x b', blockAt (bc_store c) x = Some b' → blockAt (bc_store c') x = Some b') ∧
  ∀ x b', blockAt (bc_store c') x = Some b' → x = pb_Hash b ∨ blockAt (bc_store c) x = Some b'.

Inductive outcome c (tl : list PovBlock) (b : PovBlock) (gsdb : PovGlobalStateDB) : res (ChainState * option PovBlock) → PovBlockChain → Prop :=
| out_failed r c' :
    (∀ x, r ≠ Ok x) →
    core c' tl → bc_genesis c' = bc_genesis c → bc_latest c' = bc_latest c → bc_store c' = bc_store c → bc_events c' = bc_events c →
    (* the state could not be saved, or the fork is too deep *)
    (r = Err ErrPovInvalidFork ∧ (∃ A D f l, tip (bc_store c) b (A ++ f :: l) ∧ tl = D ++ f :: l ∧
       PoVMaxForkHeight < Z.of_nat (length (bc_latest c :: D))) ∨
     (r ≫= λ _, Ok tt) = (CommitToDB (storeGet (db_tries (bc_store c))) gsdb ≫= λ _, Ok tt)) →
    outcome c tl b gsdb r c'
| out_side c' :
    core c' tl → bc_genesis c' = bc_genesis c → added c c' b → bc_latest c' = bc_latest c → bc_events c' = bc_events c →
    db_txls (bc_store c') = db_txls (bc_store c) → db_cursor (bc_store c') = db_cursor (bc_store c) →
    outcome c tl b gsdb (Ok (ChainStateSide, None)) c'
| out_extend c' hd :
    core c' (hd :: tl) → bc_genesis c' = bc_genesis c → added c c' b → same (bc_latest c) hd → bc_latest c' = b →
    bc_events c' = bc_events c ++ connectEvents [b] →
    db_txls (bc_store c') = addCb b (db_txls (bc_store c)) → db_cursor (bc_store c') = db_cursor (bc_store c) →
    outcome c tl b gsdb (Ok (ChainStateMain, None)) c'
| out_fork c' A D f l :
    core c' (A ++ f :: l) → bc_genesis c' = bc_genesis c → added c c' b → tl = D ++ f :: l → bc_latest c' = b →
    Z.of_nat (length (bc_latest c :: D)) ≤ PoVMaxForkHeight →
    bc_events c' = bc_events c ++ disconnectEvents (bc_latest c :: D) ++ connectEvents (reverse (b :: A)) →
    db_txls (bc_store c') = foldl (λ m x, addCb x m) (foldl (λ m x, delCb x m) (db_txls (bc_store c)) (bc_latest c :: D))
                              (reverse (b :: A)) →
    outcome c tl b gsdb (Ok (ChainStateMain, Some f)) c'.

Section inserting.
Context (c : PovBlockChain) (tl : list PovBlock) (b : PovBlock) (Hc : core c tl) (Had : admissible (bc_store c) b).

Lemma core_head : ∃ hd, blockAt (bc_store c) (pb_Hash (bc_latest c)) = Some hd ∧ same (bc_latest c) hd ∧
  branch (bc_store c) (hd :: tl).
Proof.
  destruct (ok_head _ _ Hc) as (hd & Hhd & Hs). exists hd. split_and!; [done..|]. apply branch_tip.
  pose proof (blockAt_self (ok_tree _ _ Hc) _ _ Hhd) as Hx. rewrite Hx. split; [done|].
  by eapply tip_same, (ok_tip _ _ Hc).
Qed.

(** A transaction that is given up only leaves marks in caches. *)
Lemma core_discard batch k td :
  hcoh (bc_store c) k → (∀ td', tdAt (bc_store c) (pb_Hash b) = Some td' → td_Chain td = td_Chain td') →
  core (bc_with_hashBlock (bc_with_hashTd (bc_with_batch c batch) (cacheSet (pb_Hash b) td (bc_hashTd c))) k) tl.
Proof.
  intros Hk Htd. destruct Hc. split; try done. cbn.
  intros x t t' [[-> ->]|[_ Hx]]%held_set_cases Ht'; [by apply Htd|]. by eapply ok_td0.
Qed.

(** The parent of a better block that does not extend the head is not the genesis block. *)
Lemma fork_has_depth :
  pb_Previous b ≠ pb_Hash (bc_latest c) → (1 ≤ length tl)%nat.
Proof.
  intros Hne. destruct (length tl) as [|n] eqn:Etl; [exfalso|lia]. apply nil_length_inv in Etl.
  pose proof (ok_tree _ _ Hc) as Ht. destruct core_head as (hd & Hhd & Hs & Hbr). rewrite Etl in Hbr.
  destruct Hbr as [_ Hh0]. destruct (ad_parent _ _ Had) as (q & Hq & _).
  destruct (branch_exists Ht _ _ Hq) as (l & Hl). pose proof (blockAt_self Ht _ _ Hq) as Hqx.
  destruct (branch_root Ht _ _ Hl) as (g' & Hg' & Hlast).
  pose proof (tr_root _ _ Ht _ _ Hhd Hh0) as Hx. assert (g' = hd) as -> by congruence.
  destruct l as [|y l].
  - cbn in Hlast. injection Hlast as ->. apply Hne. rewrite <- Hqx. by apply (blockAt_self Ht).
  - assert (Hin : hd ∈ y :: l) by (apply list.last_Some_elem_of; exact Hlast).
    pose proof (weight_branch Ht _ _ _ Hl Hin) as Hw. pose proof (ok_heaviest _ _ Hc _ _ Hq) as Hmax.
    rewrite (blockAt_self Ht _ _ Hhd) in Hw. rewrite Hqx in Hw. lia.
Qed.

(** What [insertBlock] does once the block is stored. *)
Definition choose (coin : bool) (td best : PovTD) : M PovBlockChain (ChainState * option PovBlock) :=
  if isBetter coin b (bc_latest c) td best then
    if pb_Previous b =? pb_Hash (bc_latest c)
    then connectBestBlock b;; mret (ChainStateMain, None)
    else forkBlock ← processFork b; mret (ChainStateMain, Some forkBlock)
  else mret (ChainStateSide, None).

Lemma insert_prefix coin gsdb :
  ∃ td best db1, grown (bc_store c) db1 (bc_genesis c) b td ∧ tdAt (bc_store c) (pb_Hash (bc_latest c)) = Some best ∧
    0 ≤ td_Chain td ∧
    insertBlock coin b gsdb (bc_with_batch c (bc_store c)) =
    match CommitToDB (storeGet (db_tries (bc_store c))) gsdb with
    | Ok puts =>
        choose coin td best (bc_with_hashTd (bc_with_batch c (db_with_tries db1 (putAll (db_tries db1) puts.1)))
                               (cacheSet (pb_Hash b) td (bc_hashTd c)))
    | Err e => (Err e, bc_with_batch c db1)
    | Panic => (Panic, bc_with_batch c db1)
    end.
Proof.
  pose proof (ok_tree _ _ Hc) as Ht. pose proof (tr_tables _ _ Ht) as Hwf.
  destruct core_head as (hd & Hhd & Hs & _). destruct (same_fields _ _ Hs) as (_ & Hh & _).
  destruct (blockAt_hash _ _ _ Hwf Hhd) as [_ Hhh]. rewrite <- Hh in Hhh.
  destruct (GetPovTD_tdAt _ _ _ Hwf Hhh) as (best & Hbest & Hbest').
  destruct (ad_parent _ _ Had) as (p & Hp & Hhp). destruct (blockAt_hash _ _ _ Hwf Hp) as [_ Hph].
  destruct (GetPovTD_tdAt _ _ _ Hwf Hph) as (ptd & Hptd & Hptd').
  destruct (add_step (bc_with_batch c (bc_store c)) b ptd) as (db1 & Hadd & Hgr); [done..|].
  exists (CalcTotalDifficulty ptd (pb_Header b)), best, db1. split_and!; [done|done| |].
  { pose proof (tr_weight _ _ Ht _ _ Hptd'). cbn. unfold headerWork. lia. }
  unfold insertBlock, mbind, M_bind, readS. cbn [bc_with_batch bc_batch bc_latest]. rewrite Hbest.
  pose proof (tr_range _ _ Ht _ _ Hp). rewrite u64_small by (pose proof (ad_height _ _ Had); unfold MaxUint64 in *; lia).
  replace (pb_Height b - 1) with (pb_Height p) by lia. rewrite Hptd. cbv zeta.
  cbn [bc_with_batch bc_batch] in Hadd. rewrite Hadd. unfold commitState, mbind, M_bind, readS, onBatch, modifyS.
  cbn [bc_with_batch bc_store bc_batch bc_hashTd].
  destruct (CommitToDB (storeGet (db_tries (bc_store c))) gsdb) as [puts| |]; done.
Qed.

Section choosing.
Context (coin : bool) (td best : PovTD) (db1 : PovDB) (tries : gmap Hash (list Z)).
Context (Hgr : grown (bc_store c) db1 (bc_genesis c) b td) (Hbest : tdAt (bc_store c) (pb_Hash (bc_latest c)) = Some best).
Context (Htd : 0 ≤ td_Chain td) (gsdb : PovGlobalStateDB).
#[local] Abbreviation c3 := (bc_with_hashTd (bc_with_batch c (db_with_tries db1 tries)) (cacheSet (pb_Hash b) td (bc_hashTd c))).

Lemma better_weight : isBetter coin b (bc_latest c) td best = true → td_Chain best ≤ td_Chain td.
Proof. unfold isBetter. destruct (Z.compare_spec (td_Chain td) (td_Chain best)); (done || lia). Qed.

Lemma worse_weight : isBetter coin b (bc_latest c) td best = false → td_Chain td ≤ td_Chain best.
Proof. unfold isBetter. destruct (Z.compare_spec (td_Chain td) (td_Chain best)); (done || lia). Qed.

Lemma weights : weight db1 (pb_Hash b) = td_Chain td ∧ weight (bc_store c) (pb_Hash (bc_latest c)) = td_Chain best ∧
  weight db1 (pb_Hash (bc_latest c)) = td_Chain best.
Proof.
  destruct core_head as (hd & Hhd & _). rewrite (grown_weight _ _ _ _ _ _ _ Hgr Hhd). unfold weight.
  rewrite (gr_td _ _ _ _ _ Hgr), Hbest. cbn. split; [lia|done].
Qed.

(** The new head is the heaviest block when it is better than the old one. *)
Lemma new_heaviest : td_Chain best ≤ td_Chain td →
  ∀ x b', blockAt db1 x = Some b' → weight db1 x ≤ weight db1 (pb_Hash b).
Proof.
  intros Hle x b' Hx. destruct weights as (Hw & Hw' & _). destruct (gr_new _ _ _ _ _ Hgr _ _ Hx) as [->|Hold]; [done|].
  rewrite (grown_weight _ _ _ _ _ _ _ Hgr Hold). pose proof (ok_heaviest _ _ Hc _ _ Hold). lia.
Qed.

Lemma mid_start : mid c3 (bc_latest c :: tl).
Proof.
  pose proof (gr_rest _ _ _ _ _ Hgr) as [= _ Hb Hl _]. destruct Hc. split; cbn -[best_of]; rewrite ?Hb, ?Hl; try done.
  by exists tl.
Qed.

Lemma is_added c' : treePart (bc_store c') = treePart db1 → added c c' b.
Proof.
  intros (Hb & _)%treePart_reads. unfold added. setoid_rewrite Hb. split; [apply (gr_block _ _ _ _ _ Hgr)|].
  split; [intros x b' Hx; by apply (gr_old _ _ _ _ _ Hgr)|apply (gr_new _ _ _ _ _ Hgr)].
Qed.

Lemma side_outcome : isBetter coin b (bc_latest c) td best = false →
  outcome c tl b gsdb (Ok (ChainStateSide, None)) (bc_with_store c3 (bc_batch c3)).
Proof.
  intros Hw%worse_weight. pose proof (gr_rest _ _ _ _ _ Hgr) as [= Hx _ _ Hcur]. destruct weights as (W1 & W2 & W3).
  destruct core_head as (hd & Hhd & Hs & _). apply out_side; try done; [|by apply is_added].
  eapply (core_commit c tl b td c3 tl db1); try done.
  - apply mid_start.
  - exists hd. split; [|done]. by apply (gr_old _ _ _ _ _ Hgr).
  - intros x b' Hb'. cbn. rewrite W3. destruct (gr_new _ _ _ _ _ Hgr _ _ Hb') as [->|Hold]; [lia|].
    rewrite (grown_weight _ _ _ _ _ _ _ Hgr Hold). pose proof (ok_heaviest _ _ Hc _ _ Hold). lia.
  - cbn. rewrite Hx. eapply sound_mono, (ok_sound _ _ Hc). intros x b' Hb'. by apply (gr_old _ _ _ _ _ Hgr).
Qed.

Lemma extend_outcome : isBetter coin b (bc_latest c) td best = true → pb_Previous b = pb_Hash (bc_latest c) →
  ∃ c', connectBestBlock b c3 = (Ok tt, c') ∧ outcome c tl b gsdb (Ok (ChainStateMain, None)) (bc_with_store c' (bc_batch c')).
Proof.
  intros Hw%better_weight Hprev. pose proof (gr_rest _ _ _ _ _ Hgr) as [= Hx _ _ Hcur].
  destruct core_head as (hd & Hhd & Hs & Hbr). destruct (ad_parent _ _ Had) as (p & Hp & Hhp).
  assert (p = hd) as -> by congruence.
  destruct (connect_spec c3 (bc_latest c) hd b tl) as (c' & Hrun & Hmid & Hfr & Htx & Hev).
  { apply mid_start. } { done. }
  { split_and!; [|done|done]. rewrite Hprev. symmetry. by apply (blockAt_self (ok_tree _ _ Hc)). }
  { apply (ad_height _ _ Had). }
  exists c'. split; [done|]. destruct Hfr. cbn in *. pose proof Hmid as [(tl2 & [= Hlat <-] & _) _ _ _ _ _].
  apply (out_extend c tl b gsdb _ hd); [|done|by apply is_added|done|done|done|cbn; by rewrite Htx, Hx|cbn; by rewrite fr_cursor0, Hcur].
  eapply (core_commit c tl b td c' (hd :: tl) db1); try done; rewrite <- ?Hlat; try done.
  - apply (gr_block _ _ _ _ _ Hgr).
  - by apply new_heaviest.
  - rewrite Htx, Hx. destruct (gr_block _ _ _ _ _ Hgr) as (b1 & Hb1 & Hs1). eapply sound_addCb; [done..|].
    eapply sound_mono, (ok_sound _ _ Hc). intros x b' Hb'. by apply (gr_old _ _ _ _ _ Hgr).
Qed.

Lemma fork_outcome : isBetter coin b (bc_latest c) td best = true → pb_Previous b ≠ pb_Hash (bc_latest c) →
  (∃ k, processFork b c3 = (Err ErrPovInvalidFork, bc_with_hashBlock c3 k) ∧
     outcome c tl b gsdb (Err ErrPovInvalidFork) (bc_with_hashBlock c3 k)) ∨
  (∃ f c', processFork b c3 = (Ok f, c') ∧ outcome c tl b gsdb (Ok (ChainStateMain, Some f)) (bc_with_store c' (bc_batch c'))).
Proof.
  intros Hw%better_weight Hprev. pose proof (gr_rest _ _ _ _ _ Hgr) as [= Hx _ _ Hcur].
  pose proof (ok_tree _ _ Hc) as Ht. destruct (ad_parent _ _ Had) as (p & Hp & Hhp).
  destruct (branch_exists Ht _ _ Hp) as (lp & Hlp). pose proof (blockAt_self Ht _ _ Hp) as Hpx.
  assert (Htip : tip (bc_store c) b (p :: lp)) by (split_and!; [done..|exact Hlp]).
  destruct (processFork_spec c3 (bc_genesis c) b (p :: lp) tl) as (A & D & f & l & HA & HD & Hbf & Hrun);
    [done|apply mid_start|done|apply (ad_height _ _ Had)|by apply fork_has_depth|cbn; lia|].
  cbv zeta in Hrun. change (bc_latest c3) with (bc_latest c) in Hrun.
  destruct (Z.ltb_spec PoVMaxForkHeight (Z.of_nat (length (bc_latest c :: D)))) as [Hmax|Hmax].
  - left. destruct Hrun as (k & Hrun & Hk). exists k. split; [done|]. apply out_failed; try done.
    + apply core_discard; [done|]. intros td' Htd'.
      destruct (tdAt_blockAt _ _ _ (tr_tables _ _ Ht) Htd') as [b' Hb'].
      destruct (gr_old _ _ _ _ _ Hgr _ _ Hb') as [_ Heq]. rewrite (gr_td _ _ _ _ _ Hgr), Htd' in Heq.
      injection Heq as <-. cbn. lia.
    + left. split; [done|]. exists A, D, f, l. by rewrite <- HA.
  - right. destruct Hrun as (c' & Hrun & Hmid & Hfr & Htx & Hev). exists f, c'. split; [done|]. destruct Hfr as [Hf1 Hf2 Hf3 Hf4 Hf5 Hf6].
    change (db_txls (bc_batch c3)) with (db_txls db1) in Htx. rewrite Hx in Htx.
    pose proof Hmid as [(tl2 & [= Hlat <-] & _) _ _ _ _ _].
    apply (out_fork c tl b gsdb _ A D f l); [|done|by apply is_added|done|done|done|done|done]. rewrite <- HA.
    eapply (core_commit c tl b td c' (p :: lp) db1); try done; rewrite <- ?Hlat; try done.
    + apply (gr_block _ _ _ _ _ Hgr).
    + by apply new_heaviest.
    + rewrite Htx. apply sound_foldl.
      * apply Forall_reverse. constructor; [apply (gr_block _ _ _ _ _ Hgr)|]. apply list.Forall_forall. intros x Hin.
        exists x. split; [|done]. assert (Hxl : x ∈ p :: lp) by (rewrite HA; apply elem_of_app; by left).
        apply list_elem_of_split in Hxl as (l1 & l2 & Hl12).
        pose proof (branch_suffix _ _ _ _ _ _ Htip Hl12) as [Hxb _]%branch_tip. by apply (gr_old _ _ _ _ _ Hgr).
      * eapply sound_mono, (ok_sound _ _ Hc). intros x b' Hb'. by apply (gr_old _ _ _ _ _ Hgr).
Qed.
End choosing.

Lemma insert_outcome coin gsdb r c' :
  batchWrite (insertBlock coin b gsdb) c = (r, c') → outcome c tl b gsdb r c'.
Proof.
  unfold batchWrite. destruct (insert_prefix coin gsdb) as (td & best & db1 & Hgr & Hbest & Htd & Hrun). rewrite Hrun.
  assert (Hfail : core (bc_with_batch c db1) tl) by (destruct Hc; split; done).
  destruct (CommitToDB (storeGet (db_tries (bc_store c))) gsdb) as [puts|e|] eqn:Ecom.
  - unfold choose. set (tries := putAll (db_tries db1) puts.1).
    destruct (isBetter coin b (bc_latest c) td best) eqn:Ebet; [destruct (Z.eqb_spec (pb_Previous b) (pb_Hash (bc_latest c))) as [Hp|Hp]|].
    + destruct (extend_outcome coin td best db1 tries Hgr Hbest Htd gsdb Ebet Hp) as (c1 & Hcon & Hout).
      unfold mbind, M_bind. rewrite Hcon. by intros [= <- <-].
    + destruct (fork_outcome coin td best db1 tries Hgr Hbest Htd gsdb Ebet Hp) as [(k & Hf & Hout)|(f & c1 & Hf & Hout)];
        unfold mbind, M_bind; rewrite Hf; by intros [= <- <-].
    + intros [= <- <-]. by apply (side_outcome coin td best db1 tries Hgr Hbest Htd gsdb).
  - intros [= <- <-]. apply out_failed; try done. right. by rewrite Ecom.
  - intros [= <- <-]. apply out_failed; try done. right. by rewrite Ecom.
Qed.
End inserting.

(** ** Places of transactions *)
Lemma tip_height_inj db b l x y : tip db b l → x ∈ b :: l → y ∈ b :: l → pb_Height x = pb_Height y → x = y.
Proof.
  revert b. induction l as [|p l IH]; intros b Ht Hx Hy Heq.
  - apply list_elem_of_singleton in Hx, Hy. congruence.
  - destruct (tip_heights _ _ _ Ht) as [_ Hall]. rewrite list.Forall_forall in Hall.
    apply list.elem_of_cons in Hx as [->|Hx], Hy as [->|Hy]; [done|pose proof (Hall _ Hy); lia|pose proof (Hall _ Hx); lia|].
    destruct Ht as (_ & _ & Hbr). apply branch_tip in Hbr as [_ Ht]. by eapply IH.
Qed.

Lemma core_stored c tl x : core c tl → x ∈ bc_latest c :: tl → ∃ x', blockAt (bc_store c) (pb_Hash x) = Some x' ∧ same x x'.
Proof.
  intros Hc [->|Hx]%list.elem_of_cons; [apply (ok_head _ _ Hc)|]. exists x. split; [|done].
  apply list_elem_of_split in Hx as (l1 & l2 & Hl). by apply (branch_suffix _ _ _ _ _ _ (ok_tip _ _ Hc)) in Hl as [? _]%branch_tip.
Qed.

Lemma core_read c tl x : core c tl → x ∈ bc_latest c :: tl →
  ∃ x', GetPovBlockByHeight (bc_store c) (pb_Height x) = Ok x' ∧ blockAt (bc_store c) (pb_Hash x) = Some x' ∧ same x x'.
Proof.
  intros Hc Hx. destruct (core_stored _ _ _ Hc Hx) as (x' & Hx' & Hs). exists x'. split; [|done].
  pose proof (tr_tables _ _ (ok_tree _ _ Hc)) as Hwf. destruct (blockAt_hash _ _ _ Hwf Hx') as [_ Hh].
  unfold GetPovBlockByHeight, GetPovBestHash. rewrite (ok_best _ _ Hc), (best_of_elem _ _ _ _ (ok_tip _ _ Hc) Hx). cbn.
  pose proof (GetPovBlockByHash_blockAt _ (pb_Hash x) Hwf) as Hby. rewrite Hx' in Hby.
  unfold GetPovBlockByHash, GetPovHeight in Hby. rewrite Hh in Hby. cbn in Hby.
  by destruct (same_fields _ _ Hs) as (_ & -> & _).
Qed.

(** Reads that leave everything but caches alone. *)
Record reads c c' : Prop := {
  rd_store : bc_store c' = bc_store c;
  rd_genesis : bc_genesis c' = bc_genesis c;
  rd_latest : bc_latest c' = bc_latest c;
  rd_events : bc_events c' = bc_events c;
}.

Lemma GetBlockByHeight_spec c tl x :
  core c tl → x ∈ bc_latest c :: tl →
  ∃ b c', GetBlockByHeight (pb_Height x) c = (Ok b, c') ∧ same b x ∧ core c' tl ∧ reads c c'.
Proof.
  intros Hc Hx. unfold GetBlockByHeight, mbind, M_bind, cached, readS, modifyS.
  destruct (cacheGet (pb_Height x) (bc_heightBlock c)) as [v k] eqn:E.
  assert (Hv : held (pb_Height x) (bc_heightBlock c) = v) by (unfold held; by rewrite E).
  assert (Hk : acoh (bc_latest c :: tl) k).
  { intros h b Hb. apply (ok_heightB _ _ Hc). by rewrite <- (held_get h (pb_Height x) (bc_heightBlock c)), E. }
  destruct v as [b|].
  - destruct (ok_heightB _ _ Hc _ _ Hv) as (b' & Hin & Hh & Hs).
    assert (b' = x) as -> by (by eapply tip_height_inj; [apply (ok_tip _ _ Hc)|..]).
    exists b, (bc_with_heightBlock c k). split_and!; [done|done| |done]. destruct Hc; split; done.
  - destruct (core_read c tl x Hc Hx) as (x' & Hget & Hx' & Hs). pose proof (blockAt_self (ok_tree _ _ Hc) _ _ Hx') as Hself.
    change (bc_store (bc_with_heightBlock c k)) with (bc_store c). rewrite Hget.
    eexists x', _. split; [reflexivity|]. split_and!; [by symmetry| |done].
    destruct Hc as [? ? ? ? ? ? Hhash ? ? ? ? ?]; split; try done; cbn.
    + intros y b' [[-> ->]|[_ Hy]]%held_set_cases; [by rewrite Hself|by apply Hhash].
    + intros h b' [[-> ->]|[_ Hy]]%held_set_cases; [by exists x|by apply Hk].
Qed.

Fixpoint addPlaces (b : PovBlock) (i : nat) (txs : list Hash) (m : gmap Hash PovTxLookup) : gmap Hash PovTxLookup :=
  match txs with [] => m | t :: txs' => addPlaces b (S i) txs' (<[t := place b i]> m) end.

Definition addBlockPlaces (m : gmap Hash PovTxLookup) (b : PovBlock) := addPlaces b 0 (pb_Txs b) m.

Lemma addTxLookups_places b i txs db : addTxLookups b i txs db = db_with_txls db (addPlaces b i txs (db_txls db)).
Proof. revert i db. induction txs as [|t txs IH]; intros i db; cbn; [by destruct db|]. by rewrite IH. Qed.

Lemma addPlaces_other b i txs m t : t ∉ txs → addPlaces b i txs m !! t = m !! t.
Proof.
  revert i m. induction txs as [|t' txs IH]; intros i m Ht; cbn; [done|].
  apply list.not_elem_of_cons in Ht as [Hne Ht]. by rewrite IH, lookup_insert_ne.
Qed.

Lemma addPlaces_own b i txs m j t : NoDup txs → txs !! j = Some t → addPlaces b i txs m !! t = Some (place b (i + j)).
Proof.
  revert i m j. induction txs as [|t' txs IH]; intros i m j Hnd Hj; [done|].
  apply list.NoDup_cons in Hnd as [Hn Hnd]. destruct j as [|j]; cbn in *.
  - injection Hj as ->. by rewrite addPlaces_other, lookup_insert_eq, Nat.add_0_r.
  - rewrite (IH (S i) _ j Hnd Hj). f_equal. f_equal. lia.
Qed.

Lemma addPlaces_sound db b b1 i txs m :
  blockAt db (pb_Hash b) = Some b1 → same b b1 → (∀ j t, txs !! j = Some t → pb_Txs b !! (i + j)%nat = Some t) →
  sound db m → sound db (addPlaces b i txs m).
Proof.
  intros Hb Hs. destruct (same_fields _ _ Hs) as (_ & Hh & _ & Htx). revert i m.
  induction txs as [|t txs IH]; intros i m Hsub Hm; cbn; [done|]. apply IH.
  - intros j t' Hj. rewrite <- (Hsub (S j) t' Hj). f_equal. lia.
  - intros t' e [[<- <-]|[_ He]]%lookup_insert_Some; [|by apply Hm]. exists b1, i. cbn. split_and!; [done|done|done|].
    rewrite <- Htx, <- (Hsub 0%nat t eq_refl). f_equal. lia.
Qed.

Lemma addPlaces_same b b' i txs m : same b b' → addPlaces b i txs m = addPlaces b' i txs m.
Proof.
  intros (Hx & Hh & _)%same_fields. revert i m. induction txs as [|t txs IH]; intros i m; cbn; [done|].
  rewrite IH. unfold place. by rewrite Hx, Hh.
Qed.

Lemma core_txls c tl m k :
  core c tl → sound (bc_store c) m → core (bc_with_store c (db_with_cursor (db_with_txls (bc_store c) m) k)) tl.
Proof.
  intros [Ht Hhd Htip] Hm. split; try done.
  - by apply (tree_part (bc_store c)).
  - cbn. eapply tip_part, Htip. done.
Qed.

(** The scan over blocks of the best chain, from low to high. *)
Lemma updateTxLookups_spec xs c tl cur :
  core c tl → (∀ x, x ∈ xs → x ∈ bc_latest c :: tl) → (∀ i x, xs !! i = Some x → pb_Height x = cur + Z.of_nat i) →
  ∃ c', updateTxLookups (length xs) cur c = (Ok tt, c') ∧ core c' tl ∧ bc_latest c' = bc_latest c ∧
    bc_genesis c' = bc_genesis c ∧ bc_events c' = bc_events c ∧
    treePart (bc_store c') = treePart (bc_store c) ∧
    db_txls (bc_store c') = foldl addBlockPlaces (db_txls (bc_store c)) xs ∧
    db_cursor (bc_store c') = match list.last xs with Some x => Some (pb_Height x) | None => db_cursor (bc_store c) end.
Proof.
  revert c cur. induction xs as [|x xs IH]; intros c cur Hc Hin Hh; [by exists c|].
  assert (Hx : pb_Height x = cur) by (rewrite (Hh 0%nat x eq_refl); cbn; lia).
  destruct (GetBlockByHeight_spec c tl x Hc) as (b & c1 & Hget & Hs & Hc1 & [R1 R2 R3 R4]); [apply Hin; by left|].
  cbn [length updateTxLookups]. unfold mbind, M_bind. rewrite <- Hx, Hget. unfold onStore, modifyS.
  rewrite addTxLookups_places. set (m := addPlaces b 0 (pb_Txs b) _).
  set (c2 := bc_with_store (bc_with_store c1 _) _).
  assert (Hm : m = addBlockPlaces (db_txls (bc_store c)) x).
  { unfold m, addBlockPlaces. destruct (same_fields _ _ Hs) as (_ & _ & _ & ->). by rewrite R1, (addPlaces_same b x). }
  assert (Hc2 : core c2 tl).
  { destruct (core_stored c tl x Hc) as (x' & Hx' & Hsx); [apply Hin; by left|].
    assert (Hsnd : sound (bc_store c) m) by (rewrite Hm; eapply addPlaces_sound; [done|done|done|apply (ok_sound _ _ Hc)]).
    rewrite <- R1 in Hsnd. exact (core_txls c1 tl m (Some (pb_Height x)) Hc1 Hsnd). }
  destruct (IH c2 (cur + 1) Hc2) as (c' & Hrun & Hc' & L' & G' & E' & T' & X' & K').
  { intros y Hy. cbn. rewrite R3. apply Hin. by right. }
  { intros i y Hy. rewrite (Hh (S i) y Hy). lia. }
  exists c'. rewrite Hx, Hrun. split_and!; [done|done|by rewrite L'|by rewrite G'|by rewrite E'|by rewrite T', <- R1| |].
  - rewrite X'. cbn. by rewrite Hm.
  - rewrite K'. destruct xs as [|y xs]; [cbn; by rewrite Hx|]. rewrite list.last_cons_cons.
    destruct (list.last (y :: xs)) eqn:El; [done|]. by apply list.last_None in El.
Qed.

(** *** Completeness *)
Lemma elem_txs l t : t ∈ concat (pb_Txs <$> l) ↔ ∃ b i, b ∈ l ∧ pb_Txs b !! i = Some t.
Proof.
  induction l as [|b l IH]; cbn.
  - split; [intros Ht; inv Ht|intros (b & i & Hb & _); inv Hb].
  - rewrite elem_of_app, IH, list_elem_of_lookup. setoid_rewrite list.elem_of_cons. naive_solver.
Qed.

Lemma complete_other m m' l :
  complete m l → (∀ t, t ∈ concat (pb_Txs <$> l) → m' !! t = m !! t) → complete m' l.
Proof.
  intros Hm Heq b i t Hb Ht. rewrite Heq; [by apply Hm|]. apply elem_txs. eauto.
Qed.

Lemma delCb_other d m t : t ∉ pb_Txs d → delCb d m !! t = m !! t.
Proof.
  unfold delCb. destruct (pb_Txs d) as [|t0 txs]; [done|]. intros Ht. rewrite lookup_delete_ne; [done|].
  intros ->. apply Ht. by left.
Qed.

Lemma addCb_other d m t : t ∉ pb_Txs d → addCb d m !! t = m !! t.
Proof.
  unfold addCb. destruct (pb_Txs d) as [|t0 txs]; [done|]. intros Ht. rewrite lookup_insert_ne; [done|].
  intros ->. apply Ht. by left.
Qed.

Lemma foldl_other (f : gmap Hash PovTxLookup → PovBlock → gmap Hash PovTxLookup) ds m t :
  (∀ d m, t ∉ pb_Txs d → f m d !! t = m !! t) → t ∉ concat (pb_Txs <$> ds) → foldl f m ds !! t = m !! t.
Proof.
  intros Hf. revert m. induction ds as [|d ds IH]; intros m Ht; cbn in *; [done|].
  rewrite elem_of_app in Ht. rewrite IH, Hf by tauto. done.
Qed.

Lemma NoDup_apart (l1 l2 : list PovBlock) t :
  NoDup (concat (pb_Txs <$> l1 ++ l2)) → t ∈ concat (pb_Txs <$> l2) → t ∉ concat (pb_Txs <$> l1).
Proof. rewrite fmap_app, concat_app. intros (_ & Hd & _)%list.NoDup_app Ht Ht'. by eapply Hd. Qed.

Lemma concat_reverse (l : list PovBlock) t : t ∈ concat (pb_Txs <$> reverse l) ↔ t ∈ concat (pb_Txs <$> l).
Proof. rewrite !elem_txs. setoid_rewrite elem_of_reverse. done. Qed.

Lemma complete_scan xs l m :
  NoDup (concat (pb_Txs <$> reverse xs ++ l)) → complete m l → complete (foldl addBlockPlaces m xs) (reverse xs ++ l).
Proof.
  revert l m. induction xs as [|x xs IH]; intros l m Hnd Hm; [done|]. rewrite reverse_cons, <- app_assoc in Hnd |- *.
  apply IH; [done|]. rewrite fmap_app, concat_app in Hnd. apply list.NoDup_app in Hnd as (_ & _ & Hnd). cbn in Hnd.
  apply list.NoDup_app in Hnd as (Hx & Hd & _). intros b i t [->|Hb]%list.elem_of_cons Ht.
  - by apply (addPlaces_own x 0).
  - unfold addBlockPlaces. rewrite addPlaces_other; [by apply Hm|]. intros Hin. apply (Hd t Hin).
    apply elem_txs. eauto.
Qed.

Lemma core_unique c tl : core c tl → unique (bc_store c) → NoDup (concat (pb_Txs <$> bc_latest c :: tl)).
Proof.
  intros Hc Hu. destruct (core_head c tl Hc) as (hd & _ & Hs & Hbr). apply Hu in Hbr.
  cbn in *. destruct (same_fields _ _ Hs) as (_ & _ & _ & ->). done.
Qed.

Lemma tip_lookup_height db b l j x : tip db b l → (b :: l) !! j = Some x → pb_Height x = pb_Height b - Z.of_nat j.
Proof.
  revert b j. induction l as [|p l IH]; intros b j Ht Hj; (destruct j as [|j]; [injection Hj as <-; lia|]); [done|].
  destruct Ht as (_ & Hh & Hbr). apply branch_tip in Hbr as [_ Ht]. rewrite (IH p j Ht Hj). lia.
Qed.

(** ** Inserting blocks *)

(** The lookups are complete as long as no branch repeats a transaction. *)
Definition indexed c (tl : list PovBlock) : Prop :=
  core c tl ∧ (unique (bc_store c) → complete (db_txls (bc_store c)) (bc_latest c :: tl)) ∧
  db_cursor (bc_store c) = Some (pb_Height (bc_latest c)).

(** What the chain consists of, apart from caches and lookups. *)
Definition settled c c' : Prop :=
  bc_latest c' = bc_latest c ∧ bc_genesis c' = bc_genesis c ∧ bc_events c' = bc_events c ∧
  treePart (bc_store c') = treePart (bc_store c).

Lemma core_range c tl x : core c tl → x ∈ bc_latest c :: tl → 0 ≤ pb_Height x < MaxUint64.
Proof.
  intros Hc Hx. destruct (core_stored c tl x Hc Hx) as (x' & Hx' & (_ & -> & _)%same_fields).
  by apply (tr_range _ _ (ok_tree _ _ Hc) _ _ Hx').
Qed.

(** The scan above a block whose branch is complete. *)
Lemma scan_above c A f l :
  core c (A ++ f :: l) → (unique (bc_store c) → complete (db_txls (bc_store c)) (f :: l)) →
  ∃ c', updateTxLookups (Z.to_nat (pb_Height (bc_latest c) - u64 (pb_Height f + 1) + 1)) (u64 (pb_Height f + 1)) c
      = (Ok tt, c') ∧ indexed c' (A ++ f :: l) ∧ settled c c'.
Proof.
  intros Hc Hcom. pose proof (ok_tip _ _ Hc) as Ht. set (b := bc_latest c) in *.
  assert (Hf : f ∈ b :: A ++ f :: l) by (right; apply elem_of_app; right; by left).
  pose proof (core_range c _ f Hc Hf) as Hr. rewrite u64_small by (unfold MaxUint64 in *; lia).
  assert (Hpos : (b :: A ++ f :: l) !! S (length A) = Some f) by (by apply (list_lookup_middle (b :: A))).
  pose proof (tip_lookup_height _ _ _ _ _ Ht Hpos) as Hhf.
  replace (Z.to_nat (pb_Height b - (pb_Height f + 1) + 1)) with (length (reverse (b :: A)))
    by (rewrite length_reverse; cbn [length]; lia).
  destruct (updateTxLookups_spec (reverse (b :: A)) c (A ++ f :: l) (pb_Height f + 1) Hc)
    as (c' & Hrun & Hc' & L' & G' & E' & T' & X' & K').
  { intros x Hx. rewrite elem_of_reverse in Hx. change (x ∈ (b :: A) ++ f :: l). apply elem_of_app. by left. }
  { intros i x Hx. pose proof (lookup_lt_Some _ _ _ Hx) as Hi. rewrite length_reverse in Hi.
    rewrite reverse_lookup in Hx by done.
    assert (Hx' : (b :: A ++ f :: l) !! (length (b :: A) - S i)%nat = Some x).
    { change (b :: A ++ f :: l) with ((b :: A) ++ f :: l). by rewrite lookup_app_l by (cbn in *; lia). }
    rewrite (tip_lookup_height _ _ _ _ _ Ht Hx'). cbn in Hi |- *. lia. }
  exists c'. split; [done|]. split; [|done]. split; [done|]. fold b in L'. rewrite L'. split.
  - intros Hu'. assert (Hu : unique (bc_store c)).
    { eapply unique_mono, Hu'. destruct (treePart_reads _ _ T') as (Hreads & _). intros x b'. by rewrite Hreads. }
    rewrite X'. change (b :: A ++ f :: l) with ((b :: A) ++ f :: l). rewrite <- (reverse_involutive (b :: A)) at 2.
    apply complete_scan; [|by apply Hcom]. rewrite reverse_involutive. by apply (core_unique _ _ Hc).
  - rewrite K', reverse_cons, list.last_snoc. done.
Qed.

Lemma scan_nothing c tl :
  indexed c tl → batchUpdateTxLookupInSync None c = (Ok tt, c).
Proof.
  intros (Hc & _ & Hcur). unfold batchUpdateTxLookupInSync, mbind, M_bind, readS. rewrite Hcur. cbn [from_option id].
  destruct (core_range c tl (bc_latest c) Hc) as [Hr1 Hr2]; [by left|].
  rewrite u64_small by (unfold MaxUint64 in *; lia).
  unfold LatestHeader. change (h_Height (pb_Header (bc_latest c))) with (pb_Height (bc_latest c)).
  replace (Z.to_nat _) with 0%nat by lia. done.
Qed.

Lemma complete_head m a b l : same a b → complete m (a :: l) → complete m (b :: l).
Proof.
  intros (Hx & Hh & _ & Htx)%same_fields Hm x i t [->|Hin]%list.elem_of_cons Ht; [|by apply Hm; [right|]].
  rewrite <- Htx in Ht. rewrite (Hm a i t); [|by left|done]. unfold place. by rewrite Hx, Hh.
Qed.

(** Deleting and adding lookups of coinbases leaves the places below the fork point alone. *)
Lemma complete_below m ds bs (old new l : list PovBlock) :
  complete m (old ++ l) → NoDup (concat (pb_Txs <$> old ++ l)) → NoDup (concat (pb_Txs <$> new ++ l)) →
  (∀ t, t ∈ concat (pb_Txs <$> ds) → t ∈ concat (pb_Txs <$> old)) →
  (∀ t, t ∈ concat (pb_Txs <$> bs) → t ∈ concat (pb_Txs <$> new)) →
  complete (foldl (λ m x, addCb x m) (foldl (λ m x, delCb x m) m ds) bs) l.
Proof.
  intros Hm Ho Hn Hds Hbs. eapply (complete_other m).
  - intros b i t Hb Ht. apply Hm; [apply elem_of_app; by right|done].
  - intros t Ht. rewrite (foldl_other (λ m x, addCb x m)), (foldl_other (λ m x, delCb x m)); [done|..].
    + intros. by apply delCb_other.
    + intros Hin. by apply (NoDup_apart _ _ t Ho Ht), Hds.
    + intros. by apply addCb_other.
    + intros Hin. by apply (NoDup_apart _ _ t Hn Ht), Hbs.
Qed.

Lemma InsertBlock_spec c tl b coin gsdb :
  indexed c tl → admissible (bc_store c) b →
  ∃ r c1 c' tl', outcome c tl b gsdb r c1 ∧ InsertBlock coin b gsdb c = (r ≫= λ _, Ok tt, c') ∧
    core c1 tl' ∧ indexed c' tl' ∧ settled c1 c' ∧ ((∀ x, r ≠ Ok x) → c' = c1).
Proof.
  intros (Hc & Hcom & Hcur) Had. destruct (batchWrite (insertBlock coin b gsdb) c) as [r c1] eqn:Erun.
  pose proof (insert_outcome c tl b Hc Had coin gsdb r c1 Erun) as Hout. exists r, c1.
  unfold InsertBlock, mbind, M_bind, tryS at 1. rewrite Erun.
  pose proof (core_unique c tl Hc) as Hnd. pose proof Hout as Hcase.
  assert (Hless : added c c1 b → unique (bc_store c1) → unique (bc_store c)) by (intros (_ & Hold & _); by apply unique_mono).
  destruct Hcase.
  - assert (Hidx : indexed c' tl) by (rename select (bc_store c' = _) into Hst; rename select (bc_latest c' = _) into Hl;
      split; [done|]; by rewrite Hst, Hl). exists c', tl.
    destruct r as [x|e|]; [by exfalso; eapply H4| |done].
    unfold tryS. rewrite (scan_nothing c' tl Hidx). done.
  - assert (Hidx : indexed c' tl).
    { split; [done|]. rename select (bc_latest c' = _) into Hl. rewrite Hl.
      rename select (db_txls (bc_store c') = _) into Htx. rename select (db_cursor (bc_store c') = _) into Hcu. rewrite Htx, Hcu. auto. }
    exists c', tl. unfold tryS. by rewrite (scan_nothing c' tl Hidx).
  - rename select (core c' _) into Hc'. rename select (same _ hd) into Hs. rename select (bc_latest c' = _) into Hl.
    rename select (db_txls (bc_store c') = _) into Htx. rename select (db_cursor (bc_store c') = _) into Hcu.
    pose proof (core_unique c' _ Hc') as Hnd'. rewrite Hl in Hnd'.
    destruct (scan_above c' [] hd tl Hc') as (c2 & Hscan & Hidx & Hset).
    { intros Hu. specialize (Hnd' Hu). rewrite Htx.
      apply (complete_below _ [] [b] [] [b] (hd :: tl)); try done; [by eapply complete_head; auto|].
      by apply (list.NoDup_app (pb_Txs b)). }
    exists c2, (hd :: tl). unfold tryS, batchUpdateTxLookupInSync, mbind, M_bind, readS. rewrite Hcu, Hcur. cbn [from_option id].
    destruct (same_fields _ _ Hs) as (_ & -> & _). unfold LatestHeader. fold (pb_Height (bc_latest c')). rewrite Hscan.
    split_and!; [done..|]. intros Hr. by destruct (Hr _ eq_refl).
  - rename select (core c' _) into Hc'. rename select (tl = _) into Htl. rename select (bc_latest c' = _) into Hl.
    rename select (db_txls (bc_store c') = _) into Htx. pose proof (core_unique c' _ Hc') as Hnd'. rewrite Hl in Hnd'.
    set (c1b := bc_with_store c' (db_with_cursor (bc_store c') (Some (pb_Height f)))).
    assert (Hc1b : core c1b (A ++ f :: l)).
    { pose proof (core_txls c' _ (db_txls (bc_store c')) (Some (pb_Height f)) Hc' (ok_sound _ _ Hc')) as Hx.
      by destruct c' as [[] ? ? ? ? ? ? ? ? ?]. }
    destruct (scan_above c1b A f l Hc1b) as (c2 & Hscan & Hidx & Hset).
    { intros Hu. change (db_txls (bc_store c1b)) with (db_txls (bc_store c')). rewrite Htx.
      assert (Hu' : unique (bc_store c')) by (by eapply unique_mono, Hu).
      apply (complete_below _ _ _ (bc_latest c :: D) (b :: A) (f :: l)); rewrite Htl in *; auto.
      intros t. by rewrite concat_reverse. }
    assert (Hup : batchUpdateTxLookupInSync (Some f) c' = (Ok tt, c2)) by exact Hscan.
    exists c2, (A ++ f :: l). unfold tryS. rewrite Hup. split_and!; [done..|]. intros Hr. by destruct (Hr _ eq_refl).
Qed.
End chain.
