(* ===== verification/PovRuns.v ===== *)
(** * Runs of the proof-of-value chain

    A run starts with the reset to the genesis block and inserts admissible blocks, each
    with any coin, any state to save and any result.  The theorems hold in every state of
    every run: the best chain, the choice between branches, the places of transactions,
    what listeners are told, and starting again from the store. *)

From S2P Require Import Prelude Types Target Trie TrieStore Pov PovStateDB PovStore PovChain PovTree PovChainFacts.

(** ** The genesis block *)
Record wf_genesis (g : PovBlock) : Prop := {
  wg_height : pb_Height g = 0;
  wg_hash : pb_Hash g ≠ 0;
}.

Lemma wf_empty tries : wf_tables (db_with_tries emptyPovDB tries).
Proof. split; intros *; cbn; by rewrite lookup_empty. Qed.

Lemma tree_genesis g td tries : wf_genesis g → tree (withBlock g td (db_with_tries emptyPovDB tries)) g.
Proof.
  intros [Hh Hx]. pose proof (wf_empty tries) as Hwf.
  assert (Hb : ∀ x, blockAt (withBlock g td (db_with_tries emptyPovDB tries)) x
                    = if decide (x = pb_Hash g) then Some (wireBlock g) else None).
  { intros x. rewrite blockAt_withBlock. case_decide; [done|]. unfold blockAt; cbn. by rewrite lookup_empty. }
  assert (Hw : pb_Height (wireBlock g) = 0) by done.
  split.
  - apply wf_withBlock; [done|]. unfold blockAt; cbn. by rewrite lookup_empty.
  - rewrite Hb, decide_False by done. done.
  - exists (wireBlock g). by rewrite Hb, decide_True.
  - intros x b. rewrite Hb. case_decide; by intros [= <-].
  - intros x b. rewrite Hb. case_decide; [|done]. intros [= <-]. unfold MaxUint64. lia.
  - intros x b. rewrite Hb. case_decide; [|done]. intros [= <-]. lia.
  - intros x td'. rewrite tdAt_withBlock. case_decide; [intros [= <-]; cbn; lia|]. unfold tdAt; cbn. by rewrite lookup_empty.
Qed.

Section runs.
Context `{Crypto} `{TrieCodec} `{StateCodec} `{GcacheLaws}.
Implicit Types (c : PovBlockChain) (g b : PovBlock).

(** A chain that has just been created over a store. *)
Definition newChain (db : PovDB) (g : PovBlock) : PovBlockChain :=
  mkBC db emptyPovDB g g newCache newCache newCache newCache newCache [].

Lemma readS_run {S A} (f : S → res A) (s s' : S) a : readS f s = (Ok a, s') → s' = s.
Proof. by intros [_ ?]%readS_Ok. Qed.

(** What a reset leaves in the store. *)
Lemma reset_store g kvs db c' :
  wf_genesis g → ResetChainState g kvs (newChain db g) = (Ok tt, c') →
  ∃ tries, let db0 := withBlock g (CalcTotalDifficulty NewPovTD (pb_Header g)) (db_with_tries emptyPovDB tries) in
    bc_store c' = db_with_tries (mkPovDB (db_headers db0) (db_bodies db0) (db_heights db0) (db_tds db0)
      (addPlaces g 0 (pb_Txs g) ∅) {[pb_Height g := pb_Hash g]} (Some (pb_Height g)) (Some (pb_Height g)) ∅) (db_tries (bc_store c')) ∧
    bc_genesis c' = g ∧ bc_latest c' = g ∧ bc_events c' = [] ∧ bc_hashBlock c' = newCache ∧ bc_hashTd c' = newCache ∧
    bc_hashHeader c' = newCache ∧ bc_heightBlock c' = cacheSet (pb_Height g) g newCache ∧
    bc_heightHeader c' = cacheSet (pb_Height g) (pb_Header g) newCache.
Proof.
  intros Hg. unfold ResetChainState, resetWithGenesisBlock, newChain. intros Hrun.
  apply M_bind_Ok in Hrun as (u & c1 & [= <- <-] & Hrun). apply M_bind_Ok in Hrun as (r & c2 & Htry & Hrun).
  unfold tryS, batchWrite in Htry. set (c0 := bc_with_batch _ _) in Htry.
  assert (Hadd : AddPovBlock g (CalcTotalDifficulty NewPovTD (pb_Header g)) (bc_batch c0)
    = (Ok tt, withBlock g (CalcTotalDifficulty NewPovTD (pb_Header g)) (bc_batch c0))).
  { apply AddPovBlock_new; [apply wf_empty|]. unfold blockAt; cbn. by rewrite lookup_empty. }
  match type of Htry with context [(?m ≫= ?f) c0] => destruct ((m ≫= f) c0) as [r0 c3] eqn:Erun end.
  destruct r0 as [[]|e|]; [|injection Htry as <- <-; discriminate Hrun|discriminate Htry].
  injection Htry as <- <-.
  apply M_bind_Ok in Erun as (u & c4 & Eadd & Erun). rewrite Hadd in Eadd. injection Eadd as <- <-.
  do 4 (apply M_bind_Ok in Erun as (? & ? & [= <- <-] & Erun)).
  apply M_bind_Ok in Erun as (g1 & c5 & ->%readS_run & Erun). do 3 (apply M_bind_Ok in Erun as (? & ? & [_ ->]%liftR_Ok & Erun)).
  case_match; [|by apply liftR_Ok in Erun as [? _]].
  unfold commitState in Erun. apply M_bind_Ok in Erun as (puts & c6 & ->%readS_run & Erun). injection Erun as <-.
  cbv [mbind M_bind modifyS StoreLatestBlock] in Hrun. injection Hrun as <-.
  exists (db_tries db). cbn -[addTxLookups withBlock addPlaces insert]. rewrite addTxLookups_places. done.
Qed.

Lemma held_first {V} k j (v w : V) : held k (cacheSet j v newCache) = Some w → k = j ∧ w = v.
Proof. intros [?|[_ Hw]]%held_set_cases; [done|]. by rewrite held_new in Hw. Qed.

Lemma reset_indexed g kvs db c' :
  wf_genesis g → ResetChainState g kvs (newChain db g) = (Ok tt, c') →
  indexed c' [] ∧ bc_genesis c' = g ∧ bc_latest c' = g ∧ bc_events c' = [].
Proof.
  intros Hg Hrun. destruct (reset_store g kvs db c' Hg Hrun) as (tries & Hst & Hgen & Hlat & Hev & K1 & K2 & K3 & K4 & K5).
  set (td := CalcTotalDifficulty NewPovTD (pb_Header g)) in *.
  pose proof (tree_genesis g td tries Hg) as Ht. pose proof Hg as [Hh Hx].
  assert (Hpart : treePart (withBlock g td (db_with_tries emptyPovDB tries)) = treePart (bc_store c')) by (by rewrite Hst).
  destruct (treePart_reads _ _ Hpart) as (Hb & _ & _). apply (tree_part _ _ _ Hpart) in Ht.
  assert (Hstored : blockAt (bc_store c') (pb_Hash g) = Some (wireBlock g)) by (by rewrite <- Hb, blockAt_withBlock, decide_True).
  assert (Hbest : db_best (bc_store c') = best_of [g]) by (by rewrite Hst).
  assert (Hm : db_txls (bc_store c') = addPlaces g 0 (pb_Txs g) ∅) by (by rewrite Hst).
  split; [split; [|split]|done].
  - split; rewrite ?Hgen, ?Hlat; try done.
    + by exists (wireBlock g).
    + by rewrite Hst.
    + intros x b. rewrite <- Hb, blockAt_withBlock. case_decide as Hxg; [by rewrite Hxg|].
      unfold blockAt; cbn. by rewrite lookup_empty.
    + rewrite K1. intros x b. by rewrite held_new.
    + rewrite K4. intros h b [-> ->]%held_first. exists g. split_and!; [by left|done|done].
    + rewrite K5. intros h hdr [-> ->]%held_first. exists g. split_and!; [by left|done|by destruct g].
    + rewrite K3. intros x hdr. by rewrite held_new.
    + rewrite K2. intros x t t'. by rewrite held_new.
    + rewrite Hm. eapply (addPlaces_sound _ g (wireBlock g)); [done..|]. intros t e. by rewrite lookup_empty.
  - intros Hu. rewrite Hm, Hlat. intros b i t ->%list_elem_of_singleton Ht'. apply (addPlaces_own g 0); [|done].
    specialize (Hu (wireBlock g) []). cbn in Hu. rewrite app_nil_r in Hu. by apply Hu.
  - by rewrite Hst, Hlat.
Qed.

(** ** What listeners are told *)

(** The chain, the head first, that a listener keeps by following the events. *)
Fixpoint replay (chain : list Hash) (es : list PovEvent) : option (list Hash) :=
  match es with
  | [] => Some chain
  | EventConnectPovBlock b :: es' =>
      match chain with
      | x :: _ => if pb_Previous b =? x then replay (pb_Hash b :: chain) es' else None
      | [] => None
      end
  | EventDisconnectPovBlock d :: es' =>
      match chain with
      | x :: chain' => if x =? pb_Hash d then replay chain' es' else None
      | [] => None
      end
  | _ :: es' => replay chain es'
  end.

Lemma replay_app chain es es' : replay chain (es ++ es') = replay chain es ≫= λ chain', replay chain' es'.
Proof.
  revert chain. induction es as [|e es IH]; intros chain; [done|]. destruct e, chain; cbn; try case_match; try done; apply IH.
Qed.

Lemma replay_disconnect ds rest : replay ((pb_Hash <$> ds) ++ rest) (disconnectEvents ds) = Some rest.
Proof. induction ds as [|d ds IH]; [done|]. cbn. rewrite Z.eqb_refl. exact IH. Qed.

Lemma replay_connect db b A f l : tip db b (A ++ f :: l) →
  replay (pb_Hash <$> f :: l) (connectEvents (reverse (b :: A))) = Some (pb_Hash <$> b :: A ++ f :: l).
Proof.
  revert b. induction A as [|a A IH]; intros b Ht.
  - destruct Ht as (Hp & _ & _). cbn. by rewrite Hp, Z.eqb_refl.
  - destruct Ht as (Hp & _ & Hbr). cbn [app] in Hbr. apply branch_tip in Hbr as [_ Ht].
    rewrite (reverse_cons (a :: A) b). unfold connectEvents in *. rewrite bind_app, replay_app, (IH a Ht). cbn.
    by rewrite Hp, Z.eqb_refl.
Qed.

(** ** Reading the invariant *)
Lemma core_latest c tl hd : core c tl → blockAt (bc_store c) (pb_Hash (bc_latest c)) = Some hd →
  GetLatestPovBlock (bc_store c) = Ok hd.
Proof.
  intros Hc Hhd. pose proof (ok_tree _ _ Hc) as Ht.
  unfold GetLatestPovBlock, GetLatestPovBestHash, GetPovLatestHeight, GetPovBestHash. rewrite (ok_latest _ _ Hc). cbn.
  rewrite (ok_best _ _ Hc), best_of_cons, lookup_insert_eq. cbn. unfold hash_IsZero.
  rewrite (proj2 (Z.eqb_neq _ _)) by (by apply (stored_nonzero Ht _ hd)). cbn.
  rewrite GetPovBlockByHash_blockAt by apply Ht. by rewrite Hhd.
Qed.

Lemma best_block_on_chain c tl h b : core c tl → GetPovBlockByHeight (bc_store c) h = Ok b →
  ∃ y, y ∈ bc_latest c :: tl ∧ pb_Height y = h ∧ same y b.
Proof.
  intros Hc Hget. pose proof Hget as Hget'. unfold GetPovBlockByHeight, GetPovBestHash in Hget. rewrite (ok_best _ _ Hc) in Hget.
  destruct (best_of _ !! h) as [x|] eqn:E; [|done]. apply best_of_lookup in E as (y & Hy & <- & _).
  destruct (core_read c tl y Hc Hy) as (y' & Hget2 & _ & Hs). exists y. split_and!; [done|done|]. by assert (y' = b) as <- by congruence.
Qed.

(** An insertion in two steps: the transaction, then the scan for transactions. *)
Lemma insertion_steps c tl b coin gsdb :
  indexed c tl → admissible (bc_store c) b →
  ∃ r c1 c', outcome c tl b gsdb r c1 ∧ InsertBlock coin b gsdb c = (r ≫= λ _, Ok tt, c') ∧
    bc_latest c' = bc_latest c1 ∧ treePart (bc_store c') = treePart (bc_store c1) ∧
    (∀ x b', blockAt (bc_store c1) x = Some b' → weight (bc_store c1) x ≤ weight (bc_store c1) (pb_Hash (bc_latest c1))) ∧
    ((∀ x, r ≠ Ok x) → bc_store c' = bc_store c1 ∧ bc_latest c' = bc_latest c1).
Proof.
  intros Hidx Had. destruct (InsertBlock_spec c tl b coin gsdb Hidx Had)
    as (r & c1 & c' & tl' & Hout & Hrun & Hc1 & Hidx' & (Hl' & _ & _ & Hp) & Hf).
  exists r, c1, c'. split_and!; [done..|apply (ok_heaviest _ _ Hc1)|]. intros Hr. by rewrite (Hf Hr).
Qed.

(** ** Starting again *)
Lemma restart_indexed g kvs c tl :
  indexed c tl → same g (bc_genesis c) →
  ∃ c' hd, GetLatestPovBlock (bc_store c) = Ok hd ∧ Init g kvs (newChain (bc_store c) g) = (openLatestState (bc_store c) hd, c') ∧
    indexed c' tl ∧ same (bc_latest c') (bc_latest c) ∧ bc_store c' = bc_store c ∧ same g (bc_genesis c').
Proof.
  intros (Hc & Hcom & Hcur) Hg. pose proof (ok_tree _ _ Hc) as Ht.
  destruct (core_head c tl Hc) as (hd & Hhd & Hs & Hbr). destruct (branch_root Ht _ _ Hbr) as (g' & Hg' & Hlast).
  destruct (tr_genesis _ _ Ht) as (g2 & Hg2 & Hsg & Hh0). assert (g2 = g') as -> by congruence.
  assert (Hin : g' ∈ hd :: tl) by (by apply list.last_Some_elem_of).
  pose (c0 := newChain (bc_store c) g). pose (c1 := bc_with_genesis c0 g').
  pose (c2 := (StoreLatestBlock hd c1).2).
  assert (Hc2 : core c2 tl).
  { pose proof (ok_best _ _ Hc) as Hbest. pose proof (ok_latest _ _ Hc) as Hlat. apply branch_tip in Hbr as [Hhd' Htip]. destruct (same_fields _ _ Hs) as (Hx & Hh & _).
    split; cbn -[best_of]; try done.
    - by eapply tree_same.
    - by exists hd.
    - by rewrite Hbest, !best_of_cons, Hx, Hh.
    - by rewrite Hlat, Hh.
    - rewrite <- Hx. apply (ok_heaviest _ _ Hc).
    - intros x b. by rewrite held_new.
    - intros h b [-> ->]%held_first. exists hd. split_and!; [by left|done|done].
    - intros h b [-> ->]%held_first. exists hd. split_and!; [by left|done|by destruct hd].
    - intros x b. by rewrite held_new.
    - intros x t t'. by rewrite held_new.
    - apply (ok_sound _ _ Hc). }
  assert (Hi2 : indexed c2 tl).
  { split; [done|]. split; [intros Hu; eapply complete_head; [done|by apply Hcom]|]. change (db_cursor (bc_store c2)) with (db_cursor (bc_store c)).
    rewrite Hcur. by destruct (same_fields _ _ Hs) as (_ & -> & _). }
  exists c2, hd. split; [by apply (core_latest c tl)|]. split; [|split_and!; [done|by symmetry|done|by etrans]].
  destruct (core_read c2 tl g' Hc2 Hin) as (g3 & Hget & Hg3 & _).
  destruct (same_fields _ _ Hsg) as (Hxg & Hhg & _). rewrite <- Hxg in Hg3.
  assert (g3 = g') as -> by (change (bc_store c2) with (bc_store c) in Hg3; congruence).
  rewrite <- Hhg, Hh0 in Hget. change (bc_store c2) with (bc_store c) in Hget.
  unfold Init, mbind, M_bind, tryS at 1, readS at 1. cbn [newChain bc_store]. rewrite Hget.
  destruct (same_fields _ _ Hg) as (-> & _). rewrite Hxg, Z.eqb_refl. unfold modifyS.
  unfold loadLastState, mbind, M_bind, tryS at 1, readS at 1.
  cbn [newChain bc_with_genesis bc_store]. rewrite (core_latest c tl hd Hc Hhd).
  change (StoreLatestBlock hd _) with (Ok tt, c2). unfold readS at 1. change (bc_store c2) with (bc_store c).
  destruct (openLatestState (bc_store c) hd) as [[]|e|]; [|done|done]. unfold tryS. by rewrite (scan_nothing c2 tl Hi2).
Qed.

(** ** Runs *)
Inductive run (g : PovBlock) : PovBlockChain → Prop :=
| run_reset kvs db c : ResetChainState g kvs (newChain db g) = (Ok tt, c) → run g c
| run_insert c coin b gsdb : run g c → admissible (bc_store c) b → run g (InsertBlock coin b gsdb c).2
| run_restart c kvs c' : run g c → Init g kvs (newChain (bc_store c) g) = (Ok tt, c') → run g c'.

Definition running g c (tl : list PovBlock) : Prop := indexed c tl ∧ same g (bc_genesis c).

(** One insertion, and what listeners are told of it. *)
Lemma running_insert g c tl coin b gsdb :
  running g c tl → admissible (bc_store c) b →
  ∃ tl' es, running g (InsertBlock coin b gsdb c).2 tl' ∧ bc_events (InsertBlock coin b gsdb c).2 = bc_events c ++ es ∧
    replay (pb_Hash <$> bc_latest c :: tl) es = Some (pb_Hash <$> bc_latest (InsertBlock coin b gsdb c).2 :: tl').
Proof.
  intros [Hidx Hg] Had. destruct (InsertBlock_spec c tl b coin gsdb Hidx Had)
    as (r & c1 & c' & tl' & Hout & Hrun & Hc1 & Hidx' & (Hl' & Hg' & He' & _) & _).
  rewrite Hrun. cbn [snd]. rewrite He', Hl'. exists tl'.
  assert (Hrun' : running g c' tl') by (split; [done|]; rewrite Hg'; destruct Hout; congruence).
  assert (Htl : ∀ tl2, core c1 tl2 → tl2 = tl').
  { intros tl2 Hc2. eapply branch_unique; [apply (ok_tip _ _ Hc2)|apply (ok_tip _ _ Hc1)]. }
  destruct Hout as [? ? ? Hc2 ? Hl ? He|? Hc2 ? _ Hl He|? hd Hc2 ? _ Hs Hl He|? A D f l Hc2 ? _ Htl' Hl ? He];
    rewrite <- (Htl _ Hc2) in Hrun' |- *; rewrite Hl, He.
  - exists []. by rewrite app_nil_r.
  - exists []. by rewrite app_nil_r.
  - eexists. split_and!; [done..|]. destruct (same_fields _ _ Hs) as (Hx & _). rewrite <- Hl.
    pose proof (ok_tip _ _ Hc2) as (Hp & _ & _). cbn. by rewrite Hx, Hp, Z.eqb_refl.
  - eexists. split_and!; [done..|]. rewrite replay_app.
    change (bc_latest c :: tl) with ([bc_latest c] ++ tl). rewrite Htl', app_assoc, fmap_app.
    rewrite replay_disconnect. cbn [mbind option_bind]. rewrite <- Hl. apply (replay_connect _ _ _ _ _ (ok_tip _ _ Hc2)).
Qed.

Lemma run_running g c : wf_genesis g → run g c → ∃ tl, running g c tl.
Proof.
  intros Hg. induction 1 as [kvs db c Hrun|c coin b gsdb _ [tl IH] Had|c kvs c' _ [tl [Hi Hs]] Hrun].
  - destruct (reset_indexed g kvs db c Hg Hrun) as (? & Hgen & _). exists []. split; [done|]. by rewrite Hgen.
  - destruct (running_insert g c tl coin b gsdb IH Had) as (tl' & _ & ? & _). eauto.
  - destruct (restart_indexed g kvs c tl Hi Hs) as (c2 & hd & _ & Hrun2 & ? & _ & _ & ?). exists tl.
    assert (c' = c2) as -> by congruence. done.
Qed.
(** The index of the best chain is the branch of the head, and the head is the heaviest. *)
Definition onHeaviest g c : Prop :=
  ∃ hd tl, branch (bc_store c) (hd :: tl) ∧ same (bc_latest c) hd ∧ GetLatestPovBlock (bc_store c) = Ok hd ∧
    (∃ g', list.last (hd :: tl) = Some g' ∧ same g g') ∧
    (∀ h x, GetPovBestHash (bc_store c) h = Ok x ↔ ∃ b, b ∈ hd :: tl ∧ pb_Height b = h ∧ pb_Hash b = x) ∧
    ∀ x b, blockAt (bc_store c) x = Some b → weight (bc_store c) x ≤ weight (bc_store c) (pb_Hash hd).

Lemma running_onHeaviest g c tl : running g c tl → onHeaviest g c.
Proof.
  intros [(Hc & _ & _) Hs0]. pose proof (ok_tree _ _ Hc) as Ht.
  destruct (core_head c tl Hc) as (hd & Hhd & Hs & Hbr). exists hd, tl. split_and!; [done|done| | | |].
  - by apply (core_latest c tl).
  - destruct (branch_root Ht _ _ Hbr) as (g' & Hg' & Hl). exists g'. split; [done|].
    destruct (tr_genesis _ _ Ht) as (g2 & Hg2 & Hs2 & _). assert (g2 = g') as -> by congruence. by etrans.
  - intros h x. assert (Hb : db_best (bc_store c) = best_of (hd :: tl)).
    { rewrite (ok_best _ _ Hc), !best_of_cons. by destruct (same_fields _ _ Hs) as (-> & -> & _). }
    unfold GetPovBestHash. rewrite Hb. split.
    + destruct (best_of (hd :: tl) !! h) as [y|] eqn:E; [|done]. intros [= <-]. by apply best_of_lookup.
    + intros (b & Hin & <- & <-). apply branch_tip in Hbr as [_ Htip]. by rewrite (best_of_elem _ _ _ _ Htip Hin).
  - destruct (same_fields _ _ Hs) as (<- & _). apply (ok_heaviest _ _ Hc).
Qed.

(** ** Theorems *)

(** C4: in every state of a run, that is of insertions of [admissible] blocks and
    restarts, the index of the best chain lists exactly one branch of the tree of
    stored blocks, from the genesis block to the head in memory, which is the latest
    block of the store; no stored block has a greater total difficulty. *)
Theorem best_chain_is_heaviest_branch g c : wf_genesis g → run g c → onHeaviest g c.
Proof. intros Hg Hrun. destruct (run_running g c Hg Hrun) as (tl & Hr). by eapply running_onHeaviest. Qed.

(** C14: inserting an admissible block whose state can be saved either succeeds, and then
    the block is stored, no block is lost, and the heavier of the block and the old head
    is the head; or it fails because more than 1380 blocks would have to be detached, and
    then the store and the head are unchanged. *)
Theorem insertion_succeeds_or_fork_too_deep g c coin b gsdb puts :
  wf_genesis g → run g c → admissible (bc_store c) b →
  CommitToDB (storeGet (db_tries (bc_store c))) gsdb = Ok puts →
  let '(r, c') := InsertBlock coin b gsdb c in
  r = Ok tt ∧ (∃ b', blockAt (bc_store c') (pb_Hash b) = Some b' ∧ same b b') ∧
    (∀ x b', blockAt (bc_store c) x = Some b' → blockAt (bc_store c') x = Some b') ∧
    (bc_latest c' = b ∧ weight (bc_store c') (pb_Hash (bc_latest c)) ≤ weight (bc_store c') (pb_Hash b) ∨
     bc_latest c' = bc_latest c ∧ weight (bc_store c') (pb_Hash b) ≤ weight (bc_store c') (pb_Hash (bc_latest c))) ∨
  r = Err ErrPovInvalidFork ∧ bc_store c' = bc_store c ∧ bc_latest c' = bc_latest c ∧
    ∃ A D f l, tip (bc_store c) b (A ++ f :: l) ∧ tip (bc_store c) (bc_latest c) (D ++ f :: l) ∧
      PoVMaxForkHeight < 1 + Z.of_nat (length D).
Proof.
  intros Hg Hrun Had Hcom. destruct (run_running g c Hg Hrun) as (tl & Hidx & _).
  destruct (insertion_steps c tl b coin gsdb Hidx Had) as (r & c1 & c' & Hout & -> & Hl & Hpart & Hheavy & Hfail).
  destruct (treePart_reads _ _ Hpart) as (Hb & _ & Hw). pose proof Hidx as (Hc & _ & _).
  destruct (core_head c tl Hc) as (hd & Hhd & _ & _).
  destruct Hout as [r c1 Hr Hc1 _ Hl1 Hs1 _ Hwhy|? ? _ (Had1 & Had2 & _) Hl1|? ? ? _ (Had1 & Had2 & _) _ Hl1|? ? ? ? ? ? _ (Had1 & Had2 & _) _ Hl1].
  - right. destruct Hwhy as [[-> (A & D & f & l & HA & -> & Hmax)]|Hwhy].
    + destruct (Hfail (λ x, ltac:(discriminate))) as [Hst Hl2]. split_and!; [done|congruence|congruence|].
      exists A, D, f, l. split_and!; [done|apply (ok_tip _ _ Hc)|]. cbn [length] in Hmax. lia.
    + rewrite Hcom in Hwhy. destruct r; [by exfalso; eapply Hr|done|done].
  - left. setoid_rewrite Hb. split_and!; [done..|]. right. rewrite Hl, Hl1, !Hw. split; [done|].
    destruct Had1 as (b1 & Hb1 & _). pose proof (Hheavy _ _ Hb1) as Hle. by rewrite Hl1 in Hle.
  - left. setoid_rewrite Hb. split_and!; [done..|]. left. rewrite Hl, Hl1, !Hw. split; [done|].
    pose proof (Hheavy _ _ (Had2 _ _ Hhd)) as Hle. by rewrite Hl1 in Hle.
  - left. setoid_rewrite Hb. split_and!; [done..|]. left. rewrite Hl, Hl1, !Hw. split; [done|].
    pose proof (Hheavy _ _ (Had2 _ _ Hhd)) as Hle. by rewrite Hl1 in Hle.
Qed.

(** C12: in every state of a run a transaction that has a lookup is in a block of the best
    chain, and the lookup names that block and the place in it; and as long as no branch of
    the stored blocks repeats a transaction, every transaction of every block of the best
    chain has that lookup.  (The verifier does not exclude repeated transactions of contract
    addresses; the lookup of such a transaction names one of its places.) *)
Theorem lookups_are_the_best_chain g c t e :
  wf_genesis g → run g c →
  let onBest := ∃ b i, GetPovBlockByHeight (bc_store c) (txl_BlockHeight e) = Ok b ∧ txl_BlockHash e = pb_Hash b ∧
    txl_TxIndex e = Z.of_nat i ∧ pb_Txs b !! i = Some t in
  (GetPovTxLookup (bc_store c) t = Ok e → onBest) ∧
  (unique (bc_store c) → onBest → GetPovTxLookup (bc_store c) t = Ok e).
Proof.
  intros Hg Hrun. destruct (run_running g c Hg Hrun) as (tl & (Hc & Hcom & _) & _).
  cbv zeta. unfold GetPovTxLookup, GetPovBestHash. rewrite (ok_best _ _ Hc). split.
  - destruct (db_txls (bc_store c) !! t) as [e'|] eqn:E; [cbn -[best_of]|done].
    destruct (best_of _ !! txl_BlockHeight e') as [x|] eqn:Eb; [cbn|done].
    destruct (Z.eqb_spec x (txl_BlockHash e')) as [->|]; [|done]. intros [= <-].
    destruct (ok_sound _ _ Hc _ _ E) as (b1 & i & Hb1 & Hh1 & Hi & Ht).
    apply best_of_lookup in Eb as (y & Hy & <- & Hx). destruct (core_read c tl y Hc Hy) as (y' & Hget & Hy' & Hs).
    rewrite Hx in Hy'. assert (y' = b1) as -> by congruence. exists b1, i. split_and!; [done| |done|done].
    symmetry. by apply (blockAt_self (ok_tree _ _ Hc)).
  - intros Hu (b & i & Hget & Hx & Hi & Ht). destruct (best_block_on_chain c tl _ b Hc Hget) as (y & Hy & Hh & Hs).
    destruct (same_fields _ _ Hs) as (Hxy & Hhy & _ & Htx). rewrite <- Htx in Ht. rewrite (Hcom Hu y i t Hy Ht).
    cbn -[best_of]. rewrite (best_of_elem _ _ _ _ (ok_tip _ _ Hc) Hy). cbn. rewrite Z.eqb_refl. f_equal.
    destruct e; cbn in *. unfold place. congruence.
Qed.

(** C20: a listener that follows the connect and disconnect events of an insertion, each
    block connected on top of its parent and only the head disconnected, gets from the
    best chain before the insertion to the best chain after it. *)
Theorem events_replay_the_best_chain g c coin b gsdb :
  wf_genesis g → run g c → admissible (bc_store c) b →
  let c' := (InsertBlock coin b gsdb c).2 in
  ∃ tl tl' es, tip (bc_store c) (bc_latest c) tl ∧ tip (bc_store c') (bc_latest c') tl' ∧
    bc_events c' = bc_events c ++ es ∧
    replay (pb_Hash <$> bc_latest c :: tl) es = Some (pb_Hash <$> bc_latest c' :: tl').
Proof.
  intros Hg Hrun Had c'. destruct (run_running g c Hg Hrun) as (tl & Hr).
  destruct (running_insert g c tl coin b gsdb Hr Had) as (tl' & es & [[Hc' _] _] & He & Hrep). destruct Hr as [[Hc _] _].
  exists tl, tl', es. split_and!; [apply (ok_tip _ _ Hc)|apply (ok_tip _ _ Hc')|done|done].
Qed.

(** C26: a node that is started again over the store of a run comes up with the same head
    and the same tables, provided that the state of the head can be opened. *)
Theorem restart_recovers g kvs c :
  wf_genesis g → run g c →
  ∃ hd c', GetLatestPovBlock (bc_store c) = Ok hd ∧ bc_store c' = bc_store c ∧ same (bc_latest c') (bc_latest c) ∧
    Init g kvs (newChain (bc_store c) g) = (openLatestState (bc_store c) hd, c') ∧
    (openLatestState (bc_store c) hd = Ok tt → run g c').
Proof.
  intros Hg Hrun. destruct (run_running g c Hg Hrun) as (tl & Hi & Hs).
  destruct (restart_indexed g kvs c tl Hi Hs) as (c' & hd & Hhd & Hrun' & _ & Hl & Hst & _). exists hd, c'. split_and!; [done..|].
  intros E. rewrite E in Hrun'. by eapply run_restart.
Qed.
End runs.
