(* ===== verification/PovProcessor.v ===== *)
(** * The proof-of-value block processor: [consensus/pov/pov_processor.go]

    Blocks from peers and from the miner are queued, verified and given to the chain.  A
    block whose parent is not stored waits as an orphan; a block whose transactions are
    not confirmed waits for them.

    The processor is written against [ProcessorChain], the methods of the chain, the
    verifier and the ledger that it calls.  Handlers run one at a time, with the time as an
    argument; a send on a full queue is [Err Blocked].  Requests to peers and replies to
    the miner are logs.  Go iterates over maps in an unspecified order, here in the order
    of [map_to_list].  A pending block is shared between the table of blocks and the lists
    of the transactions it waits for: it lives in a heap and the tables hold references. *)

From S2P Require Import Prelude Types Check Pov PovStateDB PovStore PovChain.

(** ** What the processor calls *)
Record PovVerifyStat := mkStat {
  st_Result : ProcessResult;
  st_GapTxs : gmap Hash ProcessResult;
  st_StateDB : PovGlobalStateDB;
}.

Class ProcessorChain (C : Type) := {
  pc_HasBestBlock : Hash → Z → M C bool;
  pc_GetBlockByHash : Hash → M C (option PovBlock);
  pc_VerifyFull : Z → PovBlock → M C PovVerifyStat;
  pc_InsertBlock : PovBlock → PovGlobalStateDB → M C unit;
  pc_IsConfirmed : C → Hash → bool;                       (* [ledger.GetStateBlockConfirmed] finds the block *)
}.

(** ** Data *)
Inductive PovBlockFrom :=
| PovBlockFromUnkonwn | PovBlockFromLocal | PovBlockFromRemoteBroadcast | PovBlockFromRemoteFetch
| PovBlockFromRemoteSync.

Inductive SyncState := SyncNotStart | Syncing | SyncDone | SyncFinish.

Definition IsSyncExited (s : SyncState) : bool := match s with SyncDone => true | _ => false end.

(** The channel of a reply is a number. *)
Record PovBlockSource := mkSource {
  src_block : PovBlock;
  src_from : PovBlockFrom;
  src_peerID : string;
  src_replyCh : option Z;
}.

Record PovOrphanBlock := mkOrphan {
  ob_blockSrc : PovBlockSource;
  ob_addTime : Z;
  ob_lastPullTime : Z;
}.

Record PovPendingBlock := mkPending {
  pd_addTime : Z;
  pd_blockSrc : PovBlockSource;
  pd_gapTxs : gmap Hash ProcessResult;
}.

(** The pending blocks are references into the heap. *)
Record PovTxPendingEntry := mkTxPending {
  te_pendingBlocks : list Z;
  te_lastPullTime : Z;
}.

Inductive SyncRequest :=
| requestBlocksByHashes (reqBlkHashes : list Hash) (peerID : string)
| requestSyncFrontiers (peerID : string).

Definition src_hash (s : PovBlockSource) : Hash := pb_Hash (src_block s).
Definition src_prev (s : PovBlockSource) : Hash := pb_Previous (src_block s).
Definition ob_hash (o : PovOrphanBlock) : Hash := src_hash (ob_blockSrc o).
Definition ob_prev (o : PovOrphanBlock) : Hash := src_prev (ob_blockSrc o).
Definition pd_hash (p : PovPendingBlock) : Hash := src_hash (pd_blockSrc p).

Definition blockChanSize : Z := 8192.
Definition blockHighChanSize : Z := blockChanSize / 10.
Definition minPullTxInterval : Z := 10.
Definition minPullBlockInterval : Z := 15.
Definition orphanLifetime : Z := 3600.

Definition ErrPovFailedVerify : error := Errorf "failed to verify block".
Definition Blocked : error := Errorf "channel is full".

(** Only the block source of the orphans in [bp_parentOrphans] and [bp_reqOrphanBlocks] is
    read; the times are kept up to date in [bp_orphanBlocks]. *)
Record PovBlockProcessor (C : Type) := mkBP {
  bp_chain : C;
  bp_orphanBlocks : gmap Hash PovOrphanBlock;
  bp_parentOrphans : gmap Hash (list PovOrphanBlock);
  bp_heap : gmap Z PovPendingBlock;
  bp_pendingBlocks : gmap Hash Z;
  bp_txPendingBlocks : gmap Hash PovTxPendingEntry;
  bp_deOrphanBlocks : list PovBlockSource;
  bp_reqOrphanBlocks : gmap Hash PovOrphanBlock;
  bp_blockInCh : gset Hash;
  bp_blockHighCh : list PovBlockSource;
  bp_blockNormCh : list PovBlockSource;
  bp_syncState : SyncState;
  bp_requests : list SyncRequest;
  bp_replies : list (Z * res unit);
}.
Arguments mkBP {C}.
Arguments bp_chain {C}. Arguments bp_orphanBlocks {C}. Arguments bp_parentOrphans {C}. Arguments bp_heap {C}.
Arguments bp_pendingBlocks {C}. Arguments bp_txPendingBlocks {C}. Arguments bp_deOrphanBlocks {C}.
Arguments bp_reqOrphanBlocks {C}. Arguments bp_blockInCh {C}. Arguments bp_blockHighCh {C}. Arguments bp_blockNormCh {C}.
Arguments bp_syncState {C}. Arguments bp_requests {C}. Arguments bp_replies {C}.

Section processor.
Context {C : Type} `{ProcessorChain C}.
#[local] Abbreviation State := (PovBlockProcessor C).
#[local] Abbreviation BP := (M State) (only parsing).
Implicit Types (s : State).

Definition bp_with_chain s x : State :=
  mkBP x (bp_orphanBlocks s) (bp_parentOrphans s) (bp_heap s) (bp_pendingBlocks s) (bp_txPendingBlocks s)
    (bp_deOrphanBlocks s) (bp_reqOrphanBlocks s) (bp_blockInCh s) (bp_blockHighCh s) (bp_blockNormCh s)
    (bp_syncState s) (bp_requests s) (bp_replies s).
Definition bp_with_orphans s orphans parents : State :=
  mkBP (bp_chain s) orphans parents (bp_heap s) (bp_pendingBlocks s) (bp_txPendingBlocks s)
    (bp_deOrphanBlocks s) (bp_reqOrphanBlocks s) (bp_blockInCh s) (bp_blockHighCh s) (bp_blockNormCh s)
    (bp_syncState s) (bp_requests s) (bp_replies s).
Definition bp_with_pending s heap pendings txs : State :=
  mkBP (bp_chain s) (bp_orphanBlocks s) (bp_parentOrphans s) heap pendings txs
    (bp_deOrphanBlocks s) (bp_reqOrphanBlocks s) (bp_blockInCh s) (bp_blockHighCh s) (bp_blockNormCh s)
    (bp_syncState s) (bp_requests s) (bp_replies s).
Definition bp_with_deOrphans s x : State :=
  mkBP (bp_chain s) (bp_orphanBlocks s) (bp_parentOrphans s) (bp_heap s) (bp_pendingBlocks s) (bp_txPendingBlocks s)
    x (bp_reqOrphanBlocks s) (bp_blockInCh s) (bp_blockHighCh s) (bp_blockNormCh s)
    (bp_syncState s) (bp_requests s) (bp_replies s).
Definition bp_with_reqOrphans s x : State :=
  mkBP (bp_chain s) (bp_orphanBlocks s) (bp_parentOrphans s) (bp_heap s) (bp_pendingBlocks s) (bp_txPendingBlocks s)
    (bp_deOrphanBlocks s) x (bp_blockInCh s) (bp_blockHighCh s) (bp_blockNormCh s)
    (bp_syncState s) (bp_requests s) (bp_replies s).
Definition bp_with_queues s inCh high norm : State :=
  mkBP (bp_chain s) (bp_orphanBlocks s) (bp_parentOrphans s) (bp_heap s) (bp_pendingBlocks s) (bp_txPendingBlocks s)
    (bp_deOrphanBlocks s) (bp_reqOrphanBlocks s) inCh high norm
    (bp_syncState s) (bp_requests s) (bp_replies s).
Definition bp_with_syncState s x : State :=
  mkBP (bp_chain s) (bp_orphanBlocks s) (bp_parentOrphans s) (bp_heap s) (bp_pendingBlocks s) (bp_txPendingBlocks s)
    (bp_deOrphanBlocks s) (bp_reqOrphanBlocks s) (bp_blockInCh s) (bp_blockHighCh s) (bp_blockNormCh s)
    x (bp_requests s) (bp_replies s).
Definition bp_request (r : SyncRequest) s : State :=
  mkBP (bp_chain s) (bp_orphanBlocks s) (bp_parentOrphans s) (bp_heap s) (bp_pendingBlocks s) (bp_txPendingBlocks s)
    (bp_deOrphanBlocks s) (bp_reqOrphanBlocks s) (bp_blockInCh s) (bp_blockHighCh s) (bp_blockNormCh s)
    (bp_syncState s) (bp_requests s ++ [r]) (bp_replies s).
Definition bp_reply (r : Z * res unit) s : State :=
  mkBP (bp_chain s) (bp_orphanBlocks s) (bp_parentOrphans s) (bp_heap s) (bp_pendingBlocks s) (bp_txPendingBlocks s)
    (bp_deOrphanBlocks s) (bp_reqOrphanBlocks s) (bp_blockInCh s) (bp_blockHighCh s) (bp_blockNormCh s)
    (bp_syncState s) (bp_requests s) (bp_replies s ++ [r]).

Definition NewPovBlockProcessor (c : C) : State := mkBP c ∅ ∅ ∅ ∅ ∅ [] ∅ ∅ [] [] SyncNotStart [] [].

(** A call of the chain or of the verifier. *)
Definition onChain {A} (m : M C A) : BP A := λ s, let '(r, c) := m (bp_chain s) in (r, bp_with_chain s c).

Definition isPovSyncDone (s : State) : bool := IsSyncExited (bp_syncState s).

Definition onPovSyncState (state : SyncState) : BP unit :=
  if negb (IsSyncExited state) then mret tt else modifyS (λ s, bp_with_syncState s state).

(** ** The queues *)
Definition checkAndSetBlockInChan (block : PovBlock) : BP bool := λ s,
  if bool_decide (pb_Hash block ∈ bp_blockInCh s) then (Ok true, s)
  else (Ok false, bp_with_queues s ({[pb_Hash block]} ∪ bp_blockInCh s) (bp_blockHighCh s) (bp_blockNormCh s)).

Definition sendNorm (src : PovBlockSource) : BP unit := λ s,
  if Z.of_nat (length (bp_blockNormCh s)) <? blockChanSize
  then (Ok tt, bp_with_queues s (bp_blockInCh s) (bp_blockHighCh s) (bp_blockNormCh s ++ [src]))
  else (Err Blocked, s).

Definition sendHigh (src : PovBlockSource) : BP unit := λ s,
  if Z.of_nat (length (bp_blockHighCh s)) <? blockHighChanSize
  then (Ok tt, bp_with_queues s (bp_blockInCh s) (bp_blockHighCh s ++ [src]) (bp_blockNormCh s))
  else (Err Blocked, s).

Definition AddBlock (block : PovBlock) (from : PovBlockFrom) (peerID : string) : BP unit :=
  inCh ← checkAndSetBlockInChan block;
  if (inCh : bool) then mret tt else sendNorm (mkSource block from peerID None).

(** The part before the result is waited for. *)
Definition AddMinedBlock (block : PovBlock) (replyCh : Z) : BP unit :=
  sendNorm (mkSource block PovBlockFromLocal EmptyString (Some replyCh)).

(** ** Orphans *)
Definition HasOrphanBlock (s : State) (blockHash : Hash) : bool := bool_decide (is_Some (bp_orphanBlocks s !! blockHash)).

Definition removeOrphanBlock (orphanBlock : PovOrphanBlock) : BP unit := modifyS (λ s,
  let orphans :=
    List.filter (λ o, negb (ob_hash o =? ob_hash orphanBlock)) (default [] (bp_parentOrphans s !! ob_prev orphanBlock)) in
  bp_with_orphans s (delete (ob_hash orphanBlock) (bp_orphanBlocks s))
    (match orphans with
     | [] => delete (ob_prev orphanBlock) (bp_parentOrphans s)
     | _ => <[ob_prev orphanBlock := orphans]> (bp_parentOrphans s)
     end)).

(** No request in the syncing phase. *)
Definition requestOrphanBlock (oBlock : PovOrphanBlock) : BP unit := modifyS (λ s,
  if isPovSyncDone s then bp_with_reqOrphans s (<[ob_hash oBlock := oBlock]> (bp_reqOrphanBlocks s)) else s).

Definition expired (now : Z) (o : PovOrphanBlock) : bool := ob_addTime o + orphanLifetime <? now.

Definition addOrphanBlock (now : Z) (blockSrc : PovBlockSource) : BP unit :=
  s ← getS;
  forEach (λ e : Hash * PovOrphanBlock, if expired now e.2 then removeOrphanBlock e.2 else mret tt)
    (map_to_list (bp_orphanBlocks s));;
  let oBlock := mkOrphan blockSrc now now in
  modifyS (λ s, bp_with_orphans s (<[src_hash blockSrc := oBlock]> (bp_orphanBlocks s))
    (<[src_prev blockSrc := default [] (bp_parentOrphans s !! src_prev blockSrc) ++ [oBlock]]> (bp_parentOrphans s)));;
  requestOrphanBlock oBlock.

(** The loop of [enqueueOrphanBlocks].  The slice it reads shares its array with the one in
    the table, in which [removeOrphanBlock] moves the remaining orphans to the front; a turn
    always takes the first. *)
Fixpoint enqueueLoop (fuel : nat) (orphans : list PovOrphanBlock) : BP unit :=
  match fuel, orphans with
  | _, [] => mret tt
  | O, _ :: _ => failS OutOfFuel
  | S fuel, orphan :: _ =>
      removeOrphanBlock orphan;;
      modifyS (λ s, bp_with_deOrphans s (bp_deOrphanBlocks s ++ [ob_blockSrc orphan]));;
      enqueueLoop fuel (List.filter (λ o, negb (ob_hash o =? ob_hash orphan)) orphans)
  end.

Definition enqueueOrphanBlocks (blockSrc : PovBlockSource) : BP unit := λ s,
  match bp_parentOrphans s !! src_hash blockSrc with
  | None => (Ok tt, s)
  | Some [] => (Ok tt, bp_with_orphans s (bp_orphanBlocks s) (delete (src_hash blockSrc) (bp_parentOrphans s)))
  | Some orphans => enqueueLoop (length orphans) orphans s
  end.

(** The loop of [GetOrphanRoot]; it has as many turns as there are orphans, or never ends. *)
Fixpoint orphanRootLoop (fuel : nat) (s : State) (oRoot : Hash) : res Hash :=
  match fuel with
  | O => Err OutOfFuel
  | S fuel =>
      match bp_orphanBlocks s !! oRoot with
      | None => Ok oRoot
      | Some oBlock => orphanRootLoop fuel s (ob_prev oBlock)
      end
  end.

Definition GetOrphanRoot (s : State) (oHash : Hash) : res Hash :=
  orphanRootLoop (S (size (bp_orphanBlocks s))) s oHash.

(** ** Blocks that wait for transactions *)
Definition HasPendingBlock (s : State) (blockHash : Hash) : bool := bool_decide (is_Some (bp_pendingBlocks s !! blockHash)).

(** Reading through a reference. *)
Definition deref (ref : Z) : BP PovPendingBlock :=
  readS (λ s, match bp_heap s !! ref with Some p => Ok p | None => Panic end).

Definition setGapTxs (ref : Z) (pd : PovPendingBlock) (gapTxs : gmap Hash ProcessResult) : BP unit := modifyS (λ s,
  bp_with_pending s (<[ref := mkPending (pd_addTime pd) (pd_blockSrc pd) gapTxs]> (bp_heap s))
    (bp_pendingBlocks s) (bp_txPendingBlocks s)).

Definition setTxPending (txHash : Hash) (e : option PovTxPendingEntry) : BP unit := modifyS (λ s,
  bp_with_pending s (bp_heap s) (bp_pendingBlocks s)
    (match e with
     | Some e => <[txHash := e]> (bp_txPendingBlocks s)
     | None => delete txHash (bp_txPendingBlocks s)
     end)).

(** One transaction that a new pending block waits for. *)
Definition listPending (now ref : Z) (txHash : Hash) : BP unit :=
  s ← getS;
  let entry := default (mkTxPending [] now) (bp_txPendingBlocks s !! txHash) in
  setTxPending txHash (Some (mkTxPending (te_pendingBlocks entry ++ [ref]) (te_lastPullTime entry))).

Definition addTxPendingBlock (now : Z) (blockSrc : PovBlockSource) (stat : PovVerifyStat) : BP unit :=
  s ← getS;
  let ref := fresh (dom (bp_heap s)) in
  modifyS (λ s, bp_with_pending s (<[ref := mkPending now blockSrc (st_GapTxs stat)]> (bp_heap s))
    (bp_pendingBlocks s) (bp_txPendingBlocks s));;
  let waiting := List.filter (λ e : Hash * ProcessResult, bool_decide (e.2 = GapTransaction)) (map_to_list (st_GapTxs stat)) in
  forEach (listPending now ref) waiting.*1;;
  modifyS (λ s, bp_with_pending s (bp_heap s) (<[src_hash blockSrc := ref]> (bp_pendingBlocks s)) (bp_txPendingBlocks s));;
  if (0 <? length waiting)%nat then modifyS (bp_request (requestSyncFrontiers (src_peerID blockSrc))) else mret tt.

Definition releaseTxPendingBlock (pd : PovPendingBlock) : BP unit :=
  modifyS (λ s, bp_with_pending s (bp_heap s) (delete (pd_hash pd) (bp_pendingBlocks s)) (bp_txPendingBlocks s));;
  inCh ← checkAndSetBlockInChan (src_block (pd_blockSrc pd));
  if (inCh : bool) then mret tt else sendHigh (pd_blockSrc pd).

(** One block that waits for the transaction. *)
Definition txArrived (txHash : Hash) (ref : Z) : BP unit :=
  pd ← deref ref;
  match pd_gapTxs pd !! txHash with
  | None => mret tt
  | Some _ =>
      let gapTxs := delete txHash (pd_gapTxs pd) in
      setGapTxs ref pd gapTxs;;
      if bool_decide (gapTxs = ∅) then releaseTxPendingBlock pd else mret tt
  end.

Definition onAddStateBlock (txHash : Hash) : BP unit :=
  s ← getS;
  match bp_txPendingBlocks s !! txHash with
  | None => mret tt
  | Some entry =>
      setTxPending txHash None;;
      forEach (txArrived txHash) (te_pendingBlocks entry)
  end.

Definition onAddSyncStateBlock (txHash : Hash) (done : bool) : BP unit :=
  if done then mret tt else onAddStateBlock txHash.

Definition dropGapTx (txHash : Hash) (ref : Z) : BP unit :=
  pd ← deref ref;
  setGapTxs ref pd (delete txHash (pd_gapTxs pd)).

(** One entry of [onCheckTxPendingBlocksTimer]: whether the transaction is to be asked for. *)
Definition checkTxPending (now : Z) (txHash : Hash) (entry : PovTxPendingEntry) : BP bool :=
  match te_pendingBlocks entry with
  | [] => setTxPending txHash None;; mret false
  | refs =>
      s ← getS;
      if negb (pc_IsConfirmed (bp_chain s) txHash) then
        if te_lastPullTime entry + minPullTxInterval <? now
        then setTxPending txHash (Some (mkTxPending refs now));; mret true
        else mret false
      else
        forEach (dropGapTx txHash) refs;;
        setTxPending txHash None;;
        mret false
  end.

Fixpoint checkTxsPending (now : Z) (entries : list (Hash * PovTxPendingEntry)) : BP bool :=
  match entries with
  | [] => mret false
  | (txHash, entry) :: entries' =>
      need ← checkTxPending now txHash entry;
      needs ← checkTxsPending now entries';
      mret (need || needs)
  end.

Definition releaseIfDone (ref : Z) : BP unit :=
  pd ← deref ref;
  if bool_decide (pd_gapTxs pd = ∅) then releaseTxPendingBlock pd else mret tt.

Definition onCheckTxPendingBlocksTimer (now : Z) : BP unit :=
  s ← getS;
  need ← checkTxsPending now (map_to_list (bp_txPendingBlocks s));
  s ← getS;
  forEach releaseIfDone (map_to_list (bp_pendingBlocks s)).*2;;
  if (need : bool) then modifyS (bp_request (requestSyncFrontiers EmptyString)) else mret tt.

(** ** Asking for the parents of orphans *)
Fixpoint peerOrphanRoots (s : State) (orphans : list PovOrphanBlock) (roots : gmap string (gset Hash))
    : res (gmap string (gset Hash)) :=
  match orphans with
  | [] => Ok roots
  | o :: orphans' =>
      oRoot ← GetOrphanRoot s (ob_hash o);
      let peer := src_peerID (ob_blockSrc o) in
      peerOrphanRoots s orphans' (<[peer := {[oRoot]} ∪ default ∅ (roots !! peer)]> roots)
  end.

(** Roots that wait for transactions are not asked for. *)
Definition reqOrphanRoots (s : State) (roots : gset Hash) : list Hash :=
  List.filter (λ oRoot, negb (HasPendingBlock s oRoot)) (elements roots).

Definition onRequestOrphanBlocksTimer : BP unit :=
  s ← getS;
  if bool_decide (bp_reqOrphanBlocks s = ∅) || negb (isPovSyncDone s) then mret tt
  else
    roots ← liftR (peerOrphanRoots s (map_to_list (bp_reqOrphanBlocks s)).*2 ∅);
    modifyS (λ s, bp_with_reqOrphans s ∅);;
    forEach (λ e : string * gset Hash, modifyS (bp_request (requestBlocksByHashes (reqOrphanRoots s e.2) e.1)))
      (map_to_list roots).

Fixpoint checkOrphans (now : Z) (orphans : list (Hash * PovOrphanBlock)) (roots : gset Hash) : BP (gset Hash) :=
  match orphans with
  | [] => mret roots
  | (h, o) :: orphans' =>
      if expired now o || (now <? ob_lastPullTime o + minPullBlockInterval) then checkOrphans now orphans' roots
      else
        modifyS (λ s, bp_with_orphans s (<[h := mkOrphan (ob_blockSrc o) (ob_addTime o) now]> (bp_orphanBlocks s))
          (bp_parentOrphans s));;
        oRoot ← readS (λ s, GetOrphanRoot s (ob_hash o));
        checkOrphans now orphans' ({[oRoot]} ∪ roots)
  end.

Definition onCheckOrphanBlocksTimer (now : Z) : BP unit :=
  s ← getS;
  if bool_decide (bp_orphanBlocks s = ∅) || negb (isPovSyncDone s) then mret tt
  else
    roots ← checkOrphans now (map_to_list (bp_orphanBlocks s)) ∅;
    modifyS (bp_request (requestBlocksByHashes (reqOrphanRoots s roots) EmptyString)).

(** ** Processing a block *)
Definition processBlock (now : Z) (blockSrc : PovBlockSource) : BP unit :=
  let block := src_block blockSrc in
  let blockHash := src_hash blockSrc in
  s ← getS;
  if HasOrphanBlock s blockHash || HasPendingBlock s blockHash then mret tt
  else
    best ← onChain (pc_HasBestBlock blockHash (pb_Height block));
    if (best : bool) then mret tt
    else
      prevBlock ← onChain (pc_GetBlockByHash (pb_Previous block));
      match prevBlock with
      | None => addOrphanBlock now blockSrc
      | Some _ =>
          stat ← onChain (pc_VerifyFull now block);
          match st_Result stat with
          | GapPrevious => addOrphanBlock now blockSrc
          | GapTransaction => addTxPendingBlock now blockSrc stat
          | Progress =>
              onChain (pc_InsertBlock block (st_StateDB stat));;
              enqueueOrphanBlocks blockSrc
          | _ => failS ErrPovFailedVerify
          end
      end.

(** The result goes to the miner who waits for it. *)
Definition processAndReply (now : Z) (blockSrc : PovBlockSource) : BP unit :=
  r ← tryS (processBlock now blockSrc);
  match src_replyCh blockSrc with
  | Some ch => modifyS (bp_reply (ch, r))
  | None => mret tt
  end.

(** Orphans whose parent was stored are processed until none is left; every round takes
    orphans out of the table, so the rounds are bounded by its size. *)
Fixpoint processDeOrphans (fuel : nat) (now : Z) : BP unit :=
  match fuel with
  | O => failS OutOfFuel
  | S fuel =>
      s ← getS;
      match bp_deOrphanBlocks s with
      | [] => mret tt
      | needProcBlocks =>
          modifyS (λ s, bp_with_deOrphans s []);;
          forEach (processAndReply now) needProcBlocks;;
          processDeOrphans fuel now
      end
  end.

Definition processOneBlock (now : Z) (blockSrc : PovBlockSource) : BP unit :=
  modifyS (λ s, bp_with_queues s (bp_blockInCh s ∖ {[src_hash blockSrc]}) (bp_blockHighCh s) (bp_blockNormCh s));;
  processAndReply now blockSrc;;
  s ← getS;
  processDeOrphans (S (S (length (bp_deOrphanBlocks s) + size (bp_orphanBlocks s)))) now.

(** ** The processor at work *)

(** One case of the loops, or a call from another part of the node.  What happens outside
    of the processor, such as the arrival of confirmed blocks, changes the chain at will. *)
Inductive action :=
| act_AddBlock (block : PovBlock) (from : PovBlockFrom) (peerID : string)
| act_AddMinedBlock (block : PovBlock) (replyCh : Z)
| act_high (now : Z)
| act_norm (now : Z)
| act_checkOrphans (now : Z)
| act_requestOrphans
| act_checkTxs (now : Z)
| act_addStateBlock (txHash : Hash)
| act_addSyncStateBlock (txHash : Hash) (done : bool)
| act_syncState (state : SyncState).

(** The receive cases of [loop] are not ready while their queue is empty. *)
Definition handle (a : action) : BP unit := λ s,
  match a with
  | act_AddBlock block from peerID => AddBlock block from peerID s
  | act_AddMinedBlock block replyCh => AddMinedBlock block replyCh s
  | act_high now =>
      match bp_blockHighCh s with
      | [] => (Err Blocked, s)
      | src :: q => processOneBlock now src (bp_with_queues s (bp_blockInCh s) q (bp_blockNormCh s))
      end
  | act_norm now =>
      match bp_blockNormCh s with
      | [] => (Err Blocked, s)
      | src :: q => processOneBlock now src (bp_with_queues s (bp_blockInCh s) (bp_blockHighCh s) q)
      end
  | act_checkOrphans now => onCheckOrphanBlocksTimer now s
  | act_requestOrphans => onRequestOrphanBlocksTimer s
  | act_checkTxs now => onCheckTxPendingBlocksTimer now s
  | act_addStateBlock txHash => onAddStateBlock txHash s
  | act_addSyncStateBlock txHash done => onAddSyncStateBlock txHash done s
  | act_syncState state => onPovSyncState state s
  end.
End processor.
