(* ===== verification/PovProcessorFacts.v ===== *)
(** * Facts about the proof-of-value block processor

    The promises of the chain to the processor ([ChainPromise]), the invariant of the
    tables of orphans and of waiting blocks, and the theorems on runs of the processor,
    proved against the promises. *)

From S2P Require Import Prelude Types Check Pov PovStateDB PovStore PovChain PovProcessor.

(** ** What the chain promises *)

(** [known c x]: the block of hash [x] is stored.  [pool] is the set of blocks in play, on
    which the promises depend, and [verified] what the verifier found out about a block. *)
Class ChainPromise {C} `{ProcessorChain C} (good : C → Prop) (known : C → Hash → Prop)
    (verified : C → PovBlock → PovGlobalStateDB → Prop) (pool : PovBlock → Prop) : Prop := {
  promise_best x h c r c' : good c → pc_HasBestBlock x h c = (r, c') →
    ∃ b, r = Ok b ∧ good c' ∧ (∀ y, known c' y ↔ known c y) ∧ (b = true → known c x);
  promise_get x c r c' : good c → pc_GetBlockByHash x c = (r, c') →
    ∃ o, r = Ok o ∧ good c' ∧ (∀ y, known c' y ↔ known c y) ∧ (is_Some o ↔ known c x);
  promise_verify now b c r c' : good c → pool b → known c (pb_Previous b) → pc_VerifyFull now b c = (r, c') →
    r = Panic ∨ ∃ stat, r = Ok stat ∧ good c' ∧ (∀ y, known c' y ↔ known c y) ∧ st_Result stat ≠ GapPrevious ∧
      (st_Result stat = GapTransaction →
        st_GapTxs stat ≠ ∅ ∧ ∀ t x, st_GapTxs stat !! t = Some x → x = GapTransaction) ∧
      (st_Result stat = Progress → verified c' b (st_StateDB stat));
  promise_insert b gsdb c r c' : good c → pool b → verified c b gsdb → pc_InsertBlock b gsdb c = (r, c') →
    match r with
    | Ok _ => good c' ∧ ∀ y, known c' y ↔ y = pb_Hash b ∨ known c y
    | Err _ => good c' ∧ ∀ y, known c' y ↔ known c y
    | Panic => True
    end;
}.

(** [clean c]: the chain has refused no block so far, neither the verifier one that it was
    asked about nor the chain one that was verified. *)
Class Watch {C} `{ProcessorChain C} (clean : C → Prop) : Prop := {
  watch_best x h c r c' : pc_HasBestBlock x h c = (r, c') → clean c' → clean c;
  watch_get x c r c' : pc_GetBlockByHash x c = (r, c') → clean c' → clean c;
  watch_verify now b c r c' : pc_VerifyFull now b c = (r, c') → clean c' →
    clean c ∧ ∃ stat, r = Ok stat ∧ (st_Result stat = Progress ∨ st_Result stat = GapTransaction);
  watch_insert b gsdb c r c' : pc_InsertBlock b gsdb c = (r, c') → clean c' → clean c ∧ r = Ok tt;
}.

(** Nobody watches. *)
#[export] Instance Watch_never {C} `{ProcessorChain C} : Watch (λ _, False).
Proof. by split. Qed.

(** ** The tables of orphans *)
Definition waitingFor (parents : gmap Hash (list PovOrphanBlock)) (p : Hash) : list PovOrphanBlock :=
  default [] (parents !! p).

Record orphansOk (orphans : gmap Hash PovOrphanBlock) (parents : gmap Hash (list PovOrphanBlock)) : Prop := {
  oo_nonempty p : parents !! p ≠ Some [];
  oo_nodup p : NoDup (ob_hash <$> waitingFor parents p);
  oo_listed p o : o ∈ waitingFor parents p →
    ob_prev o = p ∧ ∃ o', orphans !! ob_hash o = Some o' ∧ ob_blockSrc o' = ob_blockSrc o;
  oo_orphan h o : orphans !! h = Some o → ob_hash o = h ∧ ob_blockSrc o ∈ ob_blockSrc <$> waitingFor parents (ob_prev o);
}.

Definition dropOrphan (o : PovOrphanBlock) (l : list PovOrphanBlock) : list PovOrphanBlock :=
  List.filter (λ o', negb (ob_hash o' =? ob_hash o)) l.

Lemma dropOrphan_elem o l x : x ∈ dropOrphan o l ↔ x ∈ l ∧ ob_hash x ≠ ob_hash o.
Proof.
  unfold dropOrphan. rewrite list_elem_of_In, filter_In, <- list_elem_of_In, negb_true_iff, Z.eqb_neq. done.
Qed.

Lemma dropOrphan_sublist o l : sublist (dropOrphan o l) l.
Proof. induction l as [|x l IH]; cbn; [constructor|]. destruct (_ =? _); cbn; by constructor. Qed.

Lemma dropOrphan_head o l : NoDup (ob_hash <$> o :: l) → dropOrphan o (o :: l) = l.
Proof.
  cbn. rewrite list.NoDup_cons, Z.eqb_refl. cbn. intros [Hn _]. induction l as [|x l IH]; cbn; [done|].
  destruct (Z.eqb_spec (ob_hash x) (ob_hash o)) as [E|]; cbn; [|f_equal; apply IH; set_solver].
  destruct Hn. rewrite <- E. cbn. by left.
Qed.

(** The parents table after a removal. *)
Definition dropParent (o : PovOrphanBlock) (parents : gmap Hash (list PovOrphanBlock)) : gmap Hash (list PovOrphanBlock) :=
  let l := dropOrphan o (waitingFor parents (ob_prev o)) in
  match l with
  | [] => delete (ob_prev o) parents
  | _ => <[ob_prev o := l]> parents
  end.

Lemma waitingFor_drop o parents p :
  waitingFor (dropParent o parents) p =
    if decide (p = ob_prev o) then dropOrphan o (waitingFor parents p) else waitingFor parents p.
Proof.
  unfold dropParent. case_decide as E; [subst p|]; unfold waitingFor in *; destruct (dropOrphan o _) eqn:Ed.
  - by rewrite lookup_delete_eq.
  - by rewrite lookup_insert_eq.
  - by rewrite lookup_delete_ne by done.
  - by rewrite lookup_insert_ne by done.
Qed.

Lemma orphansOk_drop orphans parents o o' :
  orphansOk orphans parents → orphans !! ob_hash o = Some o' → ob_blockSrc o' = ob_blockSrc o →
  orphansOk (delete (ob_hash o) orphans) (dropParent o parents).
Proof.
  intros [He Hn Hl Ho] Ho' Hs. split.
  - intros p. unfold dropParent. destruct (dropOrphan _ _) eqn:E; intros Hp.
    + rewrite lookup_delete_Some in Hp. destruct Hp as [_ Hp]. by apply (He p).
    + rewrite lookup_insert_Some in Hp. destruct Hp as [[_ [=]]|[_ Hp]]. by apply (He p).
  - intros p. rewrite waitingFor_drop. case_decide; [|apply Hn].
    eapply sublist_NoDup; [apply Hn|apply fmap_sublist, dropOrphan_sublist].
  - intros p x. rewrite waitingFor_drop. case_decide as E.
    + rewrite dropOrphan_elem. intros [Hx Hne]. destruct (Hl _ _ Hx) as (? & x' & ? & ?).
      split; [done|]. exists x'. by rewrite lookup_delete_ne by done.
    + intros Hx. destruct (Hl _ _ Hx) as (Hp & x' & Hx' & ?). split; [done|]. exists x'.
      rewrite lookup_delete_ne; [done|]. intros Eh. rewrite <- Eh in Hx'. rewrite Hx' in Ho'. injection Ho' as ->.
      apply E. rewrite <- Hp. unfold ob_prev. congruence.
  - intros h x. rewrite lookup_delete_Some. intros [Hne Hx]. destruct (Ho _ _ Hx) as [Hh Hin]. split; [done|].
    rewrite waitingFor_drop. case_decide as E; [|done]. rewrite list_elem_of_fmap in *. destruct Hin as (y & Hy & Hin).
    exists y. split; [done|]. apply dropOrphan_elem. split; [done|]. intros Ey. apply Hne. rewrite <- Hh, <- Ey. unfold ob_hash. congruence.
Qed.

Lemma orphansOk_add orphans parents o :
  orphansOk orphans parents → orphans !! ob_hash o = None →
  orphansOk (<[ob_hash o := o]> orphans) (<[ob_prev o := waitingFor parents (ob_prev o) ++ [o]]> parents).
Proof.
  intros [He Hn Hl Ho] Hnew.
  assert (Hw : ∀ p, waitingFor (<[ob_prev o := waitingFor parents (ob_prev o) ++ [o]]> parents) p
     = if decide (p = ob_prev o) then waitingFor parents p ++ [o] else waitingFor parents p).
  { intros p. unfold waitingFor at 1. case_decide as E; [rewrite E; by rewrite lookup_insert_eq|by rewrite lookup_insert_ne by done]. }
  assert (Hne : ∀ p x, x ∈ waitingFor parents p → ob_hash x ≠ ob_hash o).
  { intros p x Hx E. destruct (Hl _ _ Hx) as (_ & x' & Hx' & _). rewrite E in Hx'. congruence. }
  split.
  - intros p. rewrite lookup_insert_Some. intros [[_ Hp]|[_ Hp]]; [by destruct (waitingFor parents (ob_prev o))|by apply (He p)].
  - intros p. rewrite Hw. case_decide; [|apply Hn]. rewrite fmap_app. apply list.NoDup_app. split_and!; [apply Hn| |apply NoDup_singleton].
    intros h (x & -> & Hx)%list_elem_of_fmap E%list_elem_of_singleton. by apply (Hne p x).
  - intros p x. rewrite Hw. case_decide as E; [rewrite elem_of_app, list_elem_of_singleton; intros [Hx| ->]|intros Hx].
    1, 3: destruct (Hl _ _ Hx) as (? & x' & ? & ?); split; [done|]; exists x'; rewrite lookup_insert_ne; [done|];
      intros Eh; by apply (Hne p x).
    split; [done|]. exists o. by rewrite lookup_insert_eq.
  - intros h x. rewrite lookup_insert_Some. intros [[<- <-]|[Hh Hx]].
    + split; [done|]. rewrite Hw, decide_True by done. rewrite fmap_app, elem_of_app. right. by left.
    + destruct (Ho _ _ Hx) as [? Hin]. split; [done|]. rewrite Hw. case_decide; [|done]. rewrite fmap_app, elem_of_app. by left.
Qed.

(** ** The tables of blocks that wait for transactions *)

(** While a handler works, a missing transaction may be [excused] from being listed, and a
    block may be [spent]: it waits for nothing any more but is not yet released. *)
Record pendingOk (excused : Hash → Z → Prop) (spent : Z → Prop) (heap : gmap Z PovPendingBlock)
    (pend : gmap Hash Z) (txs : gmap Hash PovTxPendingEntry) : Prop := {
  po_block h ref : pend !! h = Some ref → ∃ pd, heap !! ref = Some pd ∧ pd_hash pd = h ∧
    (pd_gapTxs pd ≠ ∅ ∨ spent ref) ∧
    ∀ t r, pd_gapTxs pd !! t = Some r → r = GapTransaction ∧
      (excused t ref ∨ ∃ e, txs !! t = Some e ∧ ref ∈ te_pendingBlocks e);
  po_entry t e : txs !! t = Some e → NoDup (te_pendingBlocks e) ∧ ∀ ref, ref ∈ te_pendingBlocks e →
    ∃ pd, heap !! ref = Some pd ∧ pend !! pd_hash pd = Some ref ∧ is_Some (pd_gapTxs pd !! t);
}.

Definition nobody {A} (_ : A) : Prop := False.
Definition nothing (_ : Hash) (_ : Z) : Prop := False.

Lemma pendingOk_weaken D E D' E' heap pend txs :
  pendingOk D E heap pend txs → (∀ t ref, D t ref → D' t ref) → (∀ ref, E ref → E' ref) → pendingOk D' E' heap pend txs.
Proof.
  intros [Hb He] HD HE. split; [|done]. intros h ref Hh. destruct (Hb _ _ Hh) as (pd & ? & ? & Hg & Ht).
  exists pd. split_and!; [done|done|naive_solver|]. intros t r Hr. destruct (Ht _ _ Hr) as [-> ?]. naive_solver.
Qed.

Lemma pendingOk_drop_entry D E heap pend txs t e :
  pendingOk D E heap pend txs → txs !! t = Some e →
  pendingOk (λ t' ref, D t' ref ∨ t' = t ∧ ref ∈ te_pendingBlocks e) E heap pend (delete t txs).
Proof.
  intros [Hb He] Ht. split.
  - intros h ref Hh. destruct (Hb _ _ Hh) as (pd & ? & ? & ? & Hg). exists pd. split_and!; [done..|].
    intros t' r Hr. destruct (Hg _ _ Hr) as [-> Hc]. split; [done|]. destruct Hc as [?|(e' & He' & Hin)]; [tauto|].
    destruct (decide (t' = t)) as [->|]; [left; right; by assert (e' = e) as <- by congruence|].
    right. exists e'. by rewrite lookup_delete_ne by done.
  - intros t' e'. rewrite lookup_delete_Some. intros [_ ?]. by apply He.
Qed.

Lemma pendingOk_drop_gap D E heap pend txs t ref pd :
  pendingOk D E heap pend txs → txs !! t = None → heap !! ref = Some pd →
  pendingOk (λ t' ref', D t' ref' ∧ ¬ (t' = t ∧ ref' = ref)) (λ ref', E ref' ∨ ref' = ref ∧ delete t (pd_gapTxs pd) = ∅)
    (<[ref := mkPending (pd_addTime pd) (pd_blockSrc pd) (delete t (pd_gapTxs pd))]> heap) pend txs.
Proof.
  intros [Hb He] Hnone Hpd. split.
  - intros h ref' Hh. destruct (Hb _ _ Hh) as (pd' & Hpd' & Hx & Hg & Ht). destruct (decide (ref' = ref)) as [->|Hne].
    + assert (pd' = pd) as -> by congruence. eexists. rewrite lookup_insert_eq. split_and!; [done|done| |].
      * cbn. destruct (decide (delete t (pd_gapTxs pd) = ∅)); naive_solver.
      * cbn. intros t' r. rewrite lookup_delete_Some. intros [Hne Hr]. destruct (Ht _ _ Hr) as [-> ?]. naive_solver.
    + exists pd'. rewrite lookup_insert_ne by done. split_and!; [done|done|naive_solver|].
      intros t' r Hr. destruct (Ht _ _ Hr) as [-> ?]. naive_solver.
  - intros t' e Ht'. destruct (He _ _ Ht') as [? Hr]. split; [done|]. intros ref' Hin.
    destruct (Hr _ Hin) as (pd' & Hpd' & ? & ?). destruct (decide (ref' = ref)) as [->|Hne].
    + assert (pd' = pd) as -> by congruence. eexists. rewrite lookup_insert_eq. split_and!; [done|done|]. cbn.
      by rewrite lookup_delete_ne by (intros ->; congruence).
    + exists pd'. by rewrite lookup_insert_ne by done.
Qed.

Lemma pendingOk_release D E heap pend txs ref pd :
  pendingOk D E heap pend txs → heap !! ref = Some pd → pend !! pd_hash pd = Some ref → pd_gapTxs pd = ∅ →
  pendingOk D (λ ref', E ref' ∧ ref' ≠ ref) heap (delete (pd_hash pd) pend) txs.
Proof.
  intros [Hb He] Hpd Hp Hg. split.
  - intros h ref'. rewrite lookup_delete_Some. intros [Hne Hh]. destruct (Hb _ _ Hh) as (pd' & ? & Hx & Hg' & ?).
    exists pd'. split_and!; [done|done| |done]. destruct Hg' as [?|?]; [by left|right]. split; [done|].
    intros ->. apply Hne. congruence.
  - intros t e Ht. destruct (He _ _ Ht) as [? Hr]. split; [done|]. intros ref' Hin.
    destruct (Hr _ Hin) as (pd' & Hpd' & Hp' & Hs). exists pd'. split_and!; [done| |done].
    rewrite lookup_delete_ne; [done|]. intros Ex. assert (ref' = ref) as -> by congruence.
    assert (pd' = pd) as -> by congruence. rewrite Hg, lookup_empty in Hs. by destruct Hs.
Qed.

(** Listing a block under the transactions it waits for. *)
Definition listUnder (now ref : Z) (txs : gmap Hash PovTxPendingEntry) (t : Hash) : gmap Hash PovTxPendingEntry :=
  let entry := default (mkTxPending [] now) (txs !! t) in
  <[t := mkTxPending (te_pendingBlocks entry ++ [ref]) (te_lastPullTime entry)]> txs.

Definition refsOf (txs : gmap Hash PovTxPendingEntry) (t : Hash) : list Z := default [] (te_pendingBlocks <$> txs !! t).

Lemma refsOf_listUnder now ref ts txs t : NoDup ts →
  refsOf (foldl (listUnder now ref) txs ts) t = refsOf txs t ++ (if decide (t ∈ ts) then [ref] else []).
Proof.
  revert txs. induction ts as [|t1 ts IH]; intros txs Hnd; [by rewrite app_nil_r|].
  apply list.NoDup_cons in Hnd as [Hn Hnd]. cbn [foldl]. rewrite IH by done.
  destruct (decide (t = t1)) as [->|Hne].
  - rewrite decide_False, decide_True, app_nil_r by (done || by left). unfold refsOf, listUnder. rewrite lookup_insert_eq.
    cbn. by destruct (txs !! t1).
  - assert (refsOf (listUnder now ref txs t1) t = refsOf txs t) as ->.
    { unfold refsOf, listUnder. by rewrite lookup_insert_ne by done. }
    f_equal. destruct (decide (t ∈ ts)); [rewrite decide_True by (by right); done|].
    rewrite decide_False; [done|]. rewrite list.elem_of_cons. tauto.
Qed.

Lemma entries_listUnder now ref ts txs t : NoDup ts →
  is_Some (foldl (listUnder now ref) txs ts !! t) ↔ is_Some (txs !! t) ∨ t ∈ ts.
Proof.
  revert txs. induction ts as [|t1 ts IH]; intros txs Hnd; cbn [foldl].
  - rewrite list.elem_of_nil. tauto.
  - apply list.NoDup_cons in Hnd as [Hn Hnd]. rewrite IH by done. rewrite list.elem_of_cons. unfold listUnder.
    rewrite lookup_insert_is_Some. destruct (decide (t = t1)); naive_solver.
Qed.

Lemma entry_refs txs t e : txs !! t = Some e → te_pendingBlocks e = refsOf txs t.
Proof. unfold refsOf. by intros ->. Qed.

Lemma pendingOk_add heap pend txs ref now pd :
  pendingOk nothing nobody heap pend txs → heap !! ref = None → pend !! pd_hash pd = None → pd_gapTxs pd ≠ ∅ →
  (∀ t x, pd_gapTxs pd !! t = Some x → x = GapTransaction) →
  pendingOk nothing nobody (<[ref := pd]> heap) (<[pd_hash pd := ref]> pend)
    (foldl (listUnder now ref) txs (map_to_list (pd_gapTxs pd)).*1).
Proof.
  intros [Hb He] Hfresh Hnew Hg Hgap. set (ts := (map_to_list (pd_gapTxs pd)).*1).
  assert (Hnd : NoDup ts) by apply NoDup_fst_map_to_list.
  assert (Hin : ∀ t, t ∈ ts ↔ is_Some (pd_gapTxs pd !! t)).
  { intros t. unfold ts. rewrite list_elem_of_fmap. split.
    - intros ([t' x] & -> & Hx%elem_of_map_to_list). by exists x.
    - intros [x Hx]. exists (t, x). by rewrite elem_of_map_to_list. }
  assert (Hlt : ∀ t, is_Some (foldl (listUnder now ref) txs ts !! t) → is_Some (txs !! t) ∨ t ∈ ts).
  { intros t. by rewrite entries_listUnder. }
  assert (Hnot : ∀ t, ref ∉ refsOf txs t).
  { intros t Hr. unfold refsOf in Hr. destruct (txs !! t) as [e|] eqn:E; [|by apply list.elem_of_nil in Hr].
    destruct (proj2 (He _ _ E) _ Hr) as (? & ? & _). congruence. }
  split.
  - intros h ref'. rewrite lookup_insert_Some. intros [[<- <-]|[Hne Hh]].
    + exists pd. rewrite lookup_insert_eq. split_and!; [done|done|by left|]. intros t r Hr. split; [by eapply Hgap|right].
      assert (Ht : t ∈ ts) by (apply Hin; by exists r).
      destruct (proj2 (entries_listUnder now ref ts txs t Hnd) (or_intror Ht)) as [e Ee]. exists e. split; [done|].
      rewrite (entry_refs _ _ _ Ee), refsOf_listUnder, decide_True by done. rewrite elem_of_app. right. by left.
    + destruct (Hb _ _ Hh) as (pd' & Hpd' & ? & ? & Ht). exists pd'. rewrite lookup_insert_ne by congruence.
      split_and!; [done..|]. intros t r Hr. destruct (Ht _ _ Hr) as [-> [[]|(e & Ee & Hin')]]. split; [done|right].
      destruct (proj2 (entries_listUnder now ref ts txs t Hnd) (or_introl (ex_intro _ e Ee))) as [e' Ee'].
      exists e'. split; [done|]. rewrite (entry_refs _ _ _ Ee'), refsOf_listUnder by done.
      rewrite elem_of_app, <- (entry_refs _ _ _ Ee). by left.
  - intros t e Et. rewrite (entry_refs _ _ _ Et), refsOf_listUnder by done.
    assert (Hold : NoDup (refsOf txs t) ∧ ∀ r, r ∈ refsOf txs t →
      ∃ pd', heap !! r = Some pd' ∧ pend !! pd_hash pd' = Some r ∧ is_Some (pd_gapTxs pd' !! t)).
    { unfold refsOf. destruct (txs !! t) eqn:E; cbn; [by apply He|]. split; [constructor|]. by intros ? ?%list.elem_of_nil. }
    destruct Hold as [Hn Hr]. split.
    + case_decide; [|by rewrite app_nil_r]. apply list.NoDup_app. split_and!; [done| |apply NoDup_singleton].
      intros r Hr' ->%list_elem_of_singleton. by apply (Hnot t).
    + intros r. rewrite elem_of_app. intros [Hr'|Hr'].
      * destruct (Hr _ Hr') as (pd' & ? & Hp & ?). exists pd'. rewrite !lookup_insert_ne; [done|congruence|congruence].
      * case_decide as Ht; [|by apply list.elem_of_nil in Hr']. apply list_elem_of_singleton in Hr' as ->.
        exists pd. rewrite !lookup_insert_eq. split_and!; [done..|]. by apply Hin.
Qed.

(** ** Releasing blocks *)
Section release.
Context {C : Type} `{ProcessorChain C}.
Implicit Types (s : PovBlockProcessor C).

Definition queued s : list Hash := src_hash <$> bp_blockHighCh s ++ bp_blockNormCh s.

(** Every hash marked as queued is in a queue. *)
Definition inChOk s : Prop := ∀ h, h ∈ bp_blockInCh s → h ∈ queued s.

(** What the handlers of transactions leave as it is. *)
Record calm s s' : Prop := {
  cl_chain : bp_chain s' = bp_chain s;
  cl_orphans : bp_orphanBlocks s' = bp_orphanBlocks s;
  cl_parents : bp_parentOrphans s' = bp_parentOrphans s;
  cl_deOrphans : bp_deOrphanBlocks s' = bp_deOrphanBlocks s;
  cl_norm : bp_blockNormCh s' = bp_blockNormCh s;
  cl_high : ∃ extra, bp_blockHighCh s' = bp_blockHighCh s ++ extra ∧
    ∀ src, src ∈ extra → ∃ ref pd, bp_heap s !! ref = Some pd ∧ pd_blockSrc pd = src;
  cl_heap ref pd' : bp_heap s' !! ref = Some pd' → ∃ pd, bp_heap s !! ref = Some pd ∧ pd_blockSrc pd' = pd_blockSrc pd;
  cl_inCh : inChOk s → inChOk s';
  cl_pending h : inChOk s → is_Some (bp_pendingBlocks s !! h) → is_Some (bp_pendingBlocks s' !! h) ∨ h ∈ queued s';
}.

Lemma calm_queued s s' h : calm s s' → h ∈ queued s → h ∈ queued s'.
Proof.
  intros [_ _ _ _ Hn (extra & Hx & _) _ _ _]. unfold queued. rewrite Hn, Hx, !fmap_app, !elem_of_app. tauto.
Qed.

#[local] Instance calm_refl : Reflexive calm.
Proof. intros s. split; try done; [exists []; rewrite app_nil_r; split; [done|]; by intros ? ?%list.elem_of_nil|eauto|tauto]. Qed.

#[local] Instance calm_trans : Transitive calm.
Proof.
  intros s1 s2 s3 H12 H23. pose proof (cl_high _ _ H12) as (x1 & E1 & X1). pose proof (cl_high _ _ H23) as (x2 & E2 & X2).
  split; try (etrans; [apply H23|apply H12]).
  - exists (x1 ++ x2). rewrite E2, E1, app_assoc. split; [done|]. intros src. rewrite elem_of_app. intros [?|Hs]; [by apply X1|].
    destruct (X2 _ Hs) as (ref & pd & Hpd & <-). destruct (cl_heap _ _ H12 _ _ Hpd) as (pd0 & ? & ?). by exists ref, pd0.
  - intros ref pd (pd2 & Hpd2 & ->)%(cl_heap _ _ H23). by apply (cl_heap _ _ H12).
  - intros ?. by apply (cl_inCh _ _ H23), (cl_inCh _ _ H12).
  - intros h Hi Hp. destruct (cl_pending _ _ H12 h Hi Hp) as [Hp2|Hq].
    + apply (cl_pending _ _ H23); [by apply (cl_inCh _ _ H12)|done].
    + right. by apply (calm_queued _ _ _ H23).
Qed.

Lemma release_calm pd ref s s' :
  bp_heap s !! ref = Some pd → releaseTxPendingBlock pd s = (Ok tt, s') →
  calm s s' ∧ bp_heap s' = bp_heap s ∧ bp_pendingBlocks s' = delete (pd_hash pd) (bp_pendingBlocks s) ∧
  bp_txPendingBlocks s' = bp_txPendingBlocks s.
Proof.
  intros Hpd. unfold releaseTxPendingBlock, checkAndSetBlockInChan, sendHigh, mbind, M_bind, modifyS, mret, M_ret. cbn.
  case_bool_decide as Hin.
  - intros [= <-]. split; [|done]. split; cbn; try done; [exists []; rewrite app_nil_r; split; [done|]; by intros ? ?%list.elem_of_nil|eauto|].
    intros h Hi Hp. destruct (decide (h = pd_hash pd)) as [->|]; [right; by apply Hi|left]. by rewrite lookup_delete_ne by done.
  - case_match; [|done]. intros [= <-]. split; [|done].
    assert (Hnew : pd_hash pd ∈ src_hash <$> (bp_blockHighCh s ++ [pd_blockSrc pd]) ++ bp_blockNormCh s).
    { rewrite !fmap_app, !elem_of_app. left. right. by left. }
    split; cbn; try done.
    + exists [pd_blockSrc pd]. split; [done|]. intros src ->%list_elem_of_singleton. by exists ref, pd.
    + eauto.
    + intros Hi h. unfold queued. cbn. rewrite elem_of_union, elem_of_singleton. intros [->|Hh]; [done|].
      apply Hi in Hh. unfold queued in Hh. rewrite !fmap_app, !elem_of_app in *. tauto.
    + intros h _ Hp. destruct (decide (h = pd_hash pd)) as [->|]; [by right|left]. by rewrite lookup_delete_ne by done.
Qed.

Lemma pending_calm s heap' txs' :
  (∀ ref pd', heap' !! ref = Some pd' → ∃ pd, bp_heap s !! ref = Some pd ∧ pd_blockSrc pd' = pd_blockSrc pd) →
  calm s (bp_with_pending s heap' (bp_pendingBlocks s) txs').
Proof.
  intros Hh. split; cbn; try done; [exists []; rewrite app_nil_r; split; [done|]; by intros ? ?%list.elem_of_nil|tauto].
Qed.

#[local] Abbreviation tablesOk D E s := (pendingOk D E (bp_heap s) (bp_pendingBlocks s) (bp_txPendingBlocks s)).

(** ** The arrival of a transaction *)

(** A reference to a block that waits for [t]. *)
Definition waitsFor s (t : Hash) (ref : Z) : Prop :=
  ∃ pd, bp_heap s !! ref = Some pd ∧ bp_pendingBlocks s !! pd_hash pd = Some ref ∧ is_Some (pd_gapTxs pd !! t).

(** The pending block without the transaction. *)
Definition without (t : Hash) (pd : PovPendingBlock) : PovPendingBlock :=
  mkPending (pd_addTime pd) (pd_blockSrc pd) (delete t (pd_gapTxs pd)).

(** What becomes of a block that waits: it goes on waiting as [pd'], or, when that waits for
    nothing, is back in a queue. *)
Definition resumed (h : Hash) (ref : Z) (pd' : PovPendingBlock) s' : Prop :=
  if decide (pd_gapTxs pd' = ∅) then bp_pendingBlocks s' !! h = None ∧ h ∈ queued s'
  else bp_pendingBlocks s' !! h = Some ref ∧ bp_heap s' !! ref = Some pd'.

(** The transaction reaches the blocks [refs]. *)
Definition reaches (t : Hash) (refs : list Z) s s' : Prop :=
  bp_pendingBlocks s' ⊆ bp_pendingBlocks s ∧
  (inChOk s → ∀ h ref pd, bp_pendingBlocks s !! h = Some ref → bp_heap s !! ref = Some pd →
    if decide (ref ∈ refs) then resumed h ref (without t pd) s'
    else bp_pendingBlocks s' !! h = Some ref ∧ bp_heap s' !! ref = Some pd).

Lemma reaches_trans t ref refs s1 s2 s3 :
  ref ∉ refs → calm s1 s2 → calm s2 s3 → reaches t [ref] s1 s2 → reaches t refs s2 s3 → reaches t (ref :: refs) s1 s3.
Proof.
  intros Hn C12 C23 [S12 R12] [S23 R23]. split; [by etrans|]. intros Hi h ref0 pd Hh Hpd.
  specialize (R12 Hi h ref0 pd Hh Hpd). specialize (R23 (cl_inCh _ _ C12 Hi)).
  destruct (decide (ref0 ∈ [ref])) as [->%list_elem_of_singleton|Hne].
  - rewrite decide_True by (by left). unfold resumed in *. destruct (decide (pd_gapTxs _ = ∅)) as [E|E]; destruct R12 as [Hp Hq].
    + split; [by eapply lookup_weaken_None|by apply (calm_queued s2)].
    + specialize (R23 _ _ _ Hp Hq). by rewrite decide_False in R23.
  - destruct R12 as [Hp Hq]. specialize (R23 _ _ _ Hp Hq). rewrite list_elem_of_singleton in Hne.
    destruct (decide (ref0 ∈ refs)) as [Hin|Hout]; [by rewrite decide_True by (by right)|].
    rewrite decide_False; [done|]. by intros [->|?]%list.elem_of_cons.
Qed.

Lemma txArrived_spec D t ref s r s' :
  tablesOk D nobody s → bp_txPendingBlocks s !! t = None → waitsFor s t ref → txArrived t ref s = (r, s') →
  r = Err Blocked ∨ r = Ok tt ∧ calm s s' ∧ tablesOk (λ t' ref', D t' ref' ∧ ¬ (t' = t ∧ ref' = ref)) nobody s' ∧
    bp_txPendingBlocks s' = bp_txPendingBlocks s ∧ (∀ ref', ref' ≠ ref → waitsFor s t ref' → waitsFor s' t ref') ∧
    reaches t [ref] s s'.
Proof.
  intros Hok Hnone (pd & Hpd & Hp & [x Hx]). unfold txArrived, deref. unfold mbind at 1, M_bind at 1, readS. rewrite Hpd, Hx.
  set (pd' := without t pd).
  pose (s1 := bp_with_pending s (<[ref := pd']> (bp_heap s)) (bp_pendingBlocks s) (bp_txPendingBlocks s)).
  unfold mbind, M_bind. change (setGapTxs ref pd (delete t (pd_gapTxs pd)) s) with (Ok tt : res unit, s1). cbv zeta iota.
  assert (Hc1 : calm s s1).
  { apply pending_calm. intros r' p'. rewrite lookup_insert_Some. intros [[<- <-]|[_ ?]]; eauto. }
  pose proof (pendingOk_drop_gap _ _ _ _ _ t ref pd Hok Hnone Hpd) as Hok1. fold (without t pd) in Hok1. fold pd' in Hok1.
  assert (Hw : ∀ ref', ref' ≠ ref → waitsFor s t ref' → waitsFor s1 t ref').
  { intros ref' Hne (p' & ? & ? & ?). exists p'. cbn. by rewrite lookup_insert_ne by done. }
  assert (Hinj : ∀ h ref0 pd0, bp_pendingBlocks s !! h = Some ref0 → bp_heap s !! ref0 = Some pd0 → pd_hash pd0 = h).
  { intros h ref0 pd0 Hh H0. destruct (po_block _ _ _ _ _ Hok _ _ Hh) as (p0 & ? & <- & _). congruence. }
  assert (Hrefs : ∀ h pd0, bp_pendingBlocks s !! h = Some ref → bp_heap s !! ref = Some pd0 → pd0 = pd ∧ h = pd_hash pd).
  { intros h pd0 Hh H0. assert (pd0 = pd) as -> by congruence. split; [done|]. by rewrite (Hinj _ _ _ Hh H0). }
  case_bool_decide as Hg.
  - destruct (releaseTxPendingBlock pd s1) as [r1 s2] eqn:Erel. intros [= <- <-].
    assert (r1 = Err Blocked ∨ r1 = Ok tt) as [->| ->].
    { unfold releaseTxPendingBlock, checkAndSetBlockInChan, sendHigh, mbind, M_bind, modifyS, mret, M_ret in Erel.
      cbn in Erel. repeat case_match; naive_solver. }
    { by left. }
    right. destruct (release_calm pd' ref s1 s2) as (Hc2 & Hh & Hpend & Htx); [by cbn; rewrite lookup_insert_eq|done|].
    split_and!; [done|by etrans| |by rewrite Htx| |].
    + rewrite Hh, Hpend, Htx. cbn.
      assert (Hrel := pendingOk_release _ _ _ _ _ ref pd' Hok1 ltac:(by rewrite lookup_insert_eq) Hp Hg).
      eapply pendingOk_weaken; [exact Hrel|done|]. unfold nobody. tauto.
    + intros ref' Hne (p' & Hp' & Hpe & Hs)%Hw; [|done]. exists p'. rewrite Hh, Hpend. split_and!; [done| |done].
      rewrite lookup_delete_ne; [done|]. intros E. rewrite <- E in Hpe. cbn in Hpe. change (pd_hash pd') with (pd_hash pd) in Hpe. congruence.
    + split; [rewrite Hpend; apply delete_subseteq|]. intros Hi h ref0 pd0 H0 Hpd0. rewrite Hpend, Hh. cbn.
      destruct (decide (ref0 ∈ [ref])) as [->%list_elem_of_singleton|Hne].
      * destruct (Hrefs _ _ H0 Hpd0) as [-> ->]. unfold resumed. fold pd'. rewrite decide_True by done. rewrite Hpend, lookup_delete_eq.
        split; [done|]. destruct (cl_pending _ _ Hc2 (pd_hash pd) (cl_inCh _ _ Hc1 Hi)) as [Hs|?]; [by exists ref| |done].
        change (pd_hash pd') with (pd_hash pd) in Hpend. rewrite Hpend, lookup_delete_eq in Hs. by destruct Hs.
      * rewrite list_elem_of_singleton in Hne. rewrite lookup_insert_ne, lookup_delete_ne; [done| |done].
        intros E. rewrite <- E in H0. change (pd_hash pd') with (pd_hash pd) in H0. congruence.
  - intros [= <- <-]. right. split_and!; [done|done| |done|done|].
    + eapply pendingOk_weaken; [exact Hok1|done|]. unfold nobody. naive_solver.
    + split; [done|]. intros Hi h ref0 pd0 H0 Hpd0. cbn.
      destruct (decide (ref0 ∈ [ref])) as [->%list_elem_of_singleton|Hne].
      * destruct (Hrefs _ _ H0 Hpd0) as [-> ->]. unfold resumed. fold pd'. rewrite decide_False by done. cbn. by rewrite lookup_insert_eq.
      * rewrite list_elem_of_singleton in Hne. by rewrite lookup_insert_ne.
Qed.

Lemma arrival_loop t refs s r s' :
  NoDup refs → tablesOk (λ t' ref, t' = t ∧ ref ∈ refs) nobody s → bp_txPendingBlocks s !! t = None →
  (∀ ref, ref ∈ refs → waitsFor s t ref) → forEach (txArrived t) refs s = (r, s') →
  r = Err Blocked ∨ r = Ok tt ∧ calm s s' ∧ tablesOk nothing nobody s' ∧ bp_txPendingBlocks s' = bp_txPendingBlocks s ∧
    reaches t refs s s'.
Proof.
  revert s. induction refs as [|ref refs IH]; intros s Hnd Hok Hnone Hrefs.
  { intros [= <- <-]. right. split_and!; [done|done| |done|by split].
    eapply pendingOk_weaken; [done| |done]. by intros t' r [_ ?%list.elem_of_nil]. }
  apply list.NoDup_cons in Hnd as [Hn Hnd]. cbn [forEach]. unfold mbind, M_bind. destruct (txArrived t ref s) as [r1 s1] eqn:E1.
  destruct (txArrived_spec _ t ref s r1 s1 Hok Hnone ltac:(apply Hrefs; by left) E1) as [->|(-> & Hc & Hok1 & Htx & Hw & Hre)].
  { intros [= <- <-]. by left. }
  intros Hrun. destruct (IH s1) as [?|(? & ? & ? & ? & ?)]; [done| |congruence| |done|by left|].
  - eapply pendingOk_weaken; [exact Hok1| |done]. intros t' ref' [[-> Hin] Hne]. split; [done|].
    apply list.elem_of_cons in Hin as [->|?]; [tauto|done].
  - intros ref' Hin. apply Hw; [by intros ->|]. apply Hrefs. by right.
  - right. split_and!; [done|by etrans|done|congruence|by eapply reaches_trans].
Qed.

Lemma onAddStateBlock_spec t s r s' :
  tablesOk nothing nobody s → onAddStateBlock t s = (r, s') →
  r = Err Blocked ∨ r = Ok tt ∧ calm s s' ∧ tablesOk nothing nobody s' ∧ bp_txPendingBlocks s' !! t = None ∧
    (inChOk s → ∀ h ref pd, bp_pendingBlocks s !! h = Some ref → bp_heap s !! ref = Some pd → resumed h ref (without t pd) s').
Proof.
  intros Hok. unfold onAddStateBlock, mbind, M_bind, getS.
  assert (Hsame : ∀ h ref pd s', bp_pendingBlocks s !! h = Some ref → bp_heap s !! ref = Some pd → pd_gapTxs pd !! t = None →
    bp_pendingBlocks s' !! h = Some ref → bp_heap s' !! ref = Some pd → resumed h ref (without t pd) s').
  { intros h ref pd s2 Hh Hpd Ht H1 H2. destruct (po_block _ _ _ _ _ Hok _ _ Hh) as (p0 & ? & _ & [Hg|[]] & _).
    assert (p0 = pd) as -> by congruence. unfold resumed, without. cbn. rewrite delete_id, decide_False by done.
    destruct pd. done. }
  destruct (bp_txPendingBlocks s !! t) as [e|] eqn:E.
  2: { intros [= <- <-]. right. split_and!; [done..|]. intros _ h ref pd Hh Hpd. eapply Hsame; [done..| |done|done].
       destruct (pd_gapTxs pd !! t) as [x|] eqn:Ex; [|done]. destruct (po_block _ _ _ _ _ Hok _ _ Hh) as (p0 & ? & _ & _ & Hg).
       assert (p0 = pd) as -> by congruence. destruct (Hg _ _ Ex) as [_ [[]|(e & He & _)]]. congruence. }
  pose (s1 := bp_with_pending s (bp_heap s) (bp_pendingBlocks s) (delete t (bp_txPendingBlocks s))).
  change (setTxPending t None s) with (Ok tt : res unit, s1). cbv iota. intros Hrun.
  destruct (po_entry _ _ _ _ _ Hok _ _ E) as [Hnd Hrefs].
  destruct (arrival_loop t (te_pendingBlocks e) s1 r s') as [?|(-> & Hc & Hok' & Htx & _ & Hre)]; [done| |by cbn; rewrite lookup_delete_eq|done|done|by left|].
  - eapply pendingOk_weaken; [by apply (pendingOk_drop_entry _ _ _ _ _ _ e Hok)| |done]. unfold nothing. tauto.
  - right. split_and!; [done| |done|rewrite Htx; cbn; by rewrite lookup_delete_eq|].
    { etrans; [|done]. apply pending_calm. eauto. }
    intros Hi h ref pd Hh Hpd. specialize (Hre Hi h ref pd Hh Hpd). case_decide as Hin; [done|]. destruct Hre as [H1 H2].
    apply Hsame; [done..| |done|done]. destruct (pd_gapTxs pd !! t) as [x|] eqn:Ex; [|done]. destruct Hin.
    destruct (po_block _ _ _ _ _ Hok _ _ Hh) as (p0 & ? & _ & _ & Hg). assert (p0 = pd) as -> by congruence.
    destruct (Hg _ _ Ex) as [_ [[]|(e' & He & Hin)]]. congruence.
Qed.

(** ** The timer of transactions *)
Definition anybody {A} (_ : A) : Prop := True.

Lemma pendingOk_touch D E heap pend txs t e now :
  pendingOk D E heap pend txs → txs !! t = Some e →
  pendingOk D E heap pend (<[t := mkTxPending (te_pendingBlocks e) now]> txs).
Proof.
  intros [Hb He] Ht. split.
  - intros h ref Hh. destruct (Hb _ _ Hh) as (pd & ? & ? & ? & Hg). exists pd. split_and!; [done..|].
    intros t' r Hr. destruct (Hg _ _ Hr) as [-> [?|(e' & He' & Hin)]]; [split; [done|by left]|]. split; [done|right].
    destruct (decide (t' = t)) as [->|]; [|exists e'; by rewrite lookup_insert_ne by done].
    eexists. rewrite lookup_insert_eq. split; [done|]. cbn. congruence.
  - intros t' e'. rewrite lookup_insert_Some. intros [[<- <-]|[_ ?]]; [by apply (He _ _ Ht)|by apply He].
Qed.

Definition dropGap (t : Hash) (heap : gmap Z PovPendingBlock) (ref : Z) : gmap Z PovPendingBlock :=
  match heap !! ref with
  | Some pd => <[ref := mkPending (pd_addTime pd) (pd_blockSrc pd) (delete t (pd_gapTxs pd))]> heap
  | None => heap
  end.

Lemma dropGap_heap t heap refs ref pd' : foldl (dropGap t) heap refs !! ref = Some pd' →
  ∃ pd, heap !! ref = Some pd ∧ pd_blockSrc pd' = pd_blockSrc pd.
Proof.
  revert heap. induction refs as [|r refs IH]; intros heap; cbn [foldl]; [eauto|]. intros (pd & Hpd & ->)%IH.
  unfold dropGap in Hpd. destruct (heap !! r) as [p|] eqn:E; [|eauto].
  rewrite lookup_insert_Some in Hpd. destruct Hpd as [[<- <-]|[_ ?]]; eauto.
Qed.

Lemma dropGap_loop t refs s :
  (∀ ref, ref ∈ refs → is_Some (bp_heap s !! ref)) →
  forEach (dropGapTx t) refs s =
    (Ok tt, bp_with_pending s (foldl (dropGap t) (bp_heap s) refs) (bp_pendingBlocks s) (bp_txPendingBlocks s)).
Proof.
  revert s. induction refs as [|ref refs IH]; intros s Hrefs; [by destruct s|].
  cbn [forEach foldl]. destruct (Hrefs ref ltac:(by left)) as [pd Hpd].
  unfold mbind, M_bind, dropGapTx at 1, deref, readS, mbind, M_bind, setGapTxs, modifyS. unfold dropGap at 2. rewrite Hpd.
  rewrite IH; [done|]. intros ref' Hin. cbn. apply lookup_insert_is_Some. destruct (decide (ref = ref')); [by left|right].
  split; [done|]. apply Hrefs. by right.
Qed.

Lemma pendingOk_dropGap D heap pend txs t refs :
  pendingOk D anybody heap pend txs → txs !! t = None →
  pendingOk (λ t' ref, D t' ref ∧ ¬ (t' = t ∧ ref ∈ refs)) anybody (foldl (dropGap t) heap refs) pend txs.
Proof.
  intros Hok Hnone. revert D heap Hok. induction refs as [|ref refs IH]; intros D heap Hok; cbn [foldl].
  - eapply pendingOk_weaken; [done| |done]. intros t' ref ?. split; [done|]. by intros [_ ?%list.elem_of_nil].
  - assert (Hok1 : pendingOk (λ t' ref', D t' ref' ∧ ¬ (t' = t ∧ ref' = ref)) anybody (dropGap t heap ref) pend txs).
    { unfold dropGap. destruct (heap !! ref) as [pd|] eqn:E.
      - eapply pendingOk_weaken; [by apply (pendingOk_drop_gap _ _ _ _ _ t ref pd Hok)|done|done].
      - split; [|apply Hok]. intros h ref' Hh. destruct (po_block _ _ _ _ _ Hok _ _ Hh) as (pd & Hpd & ? & ? & Ht).
        exists pd. split_and!; [done..|]. intros t' r Hr. destruct (Ht _ _ Hr) as [-> [?|?]]; [|tauto].
        split; [done|left]. split; [done|]. intros [_ ->]. congruence. }
    eapply pendingOk_weaken; [apply (IH _ _ Hok1)| |done]. cbn. intros t' ref' [[? Hn1] Hn2]. split; [done|].
    intros [-> [->|?]%list.elem_of_cons]; tauto.
Qed.

Lemma checkTxPending_spec now t e s :
  tablesOk nothing anybody s → bp_txPendingBlocks s !! t = Some e →
  ∃ need s', checkTxPending now t e s = (Ok need, s') ∧ calm s s' ∧ tablesOk nothing anybody s' ∧
    bp_pendingBlocks s' = bp_pendingBlocks s ∧ ∀ t', t' ≠ t → bp_txPendingBlocks s' !! t' = bp_txPendingBlocks s !! t'.
Proof.
  intros Hok E. unfold checkTxPending. pose proof (pendingOk_drop_entry _ _ _ _ _ _ _ Hok E) as Hdrop.
  destruct (te_pendingBlocks e) as [|ref refs] eqn:Er.
  { eexists _, _. split; [done|]. split_and!; [apply pending_calm; eauto| |done|].
    - eapply pendingOk_weaken; [exact Hdrop| |done]. intros ? ? [[]|[_ ?%list.elem_of_nil]]. done.
    - intros t' Hne. cbn. by rewrite lookup_delete_ne by done. }
  unfold mbind, M_bind, getS. rewrite <- Er in Hdrop |- *. destruct (negb _).
  - destruct (_ <? now); eexists _, _; (split; [done|]); split_and!; try done; [apply pending_calm; eauto|by apply pendingOk_touch|].
    intros t' Hne. cbn. by rewrite lookup_insert_ne by done.
  - destruct (po_entry _ _ _ _ _ Hok _ _ E) as [_ Hrefs].
    rewrite dropGap_loop by (intros ref' Hin; destruct (Hrefs ref' Hin) as (? & ? & _); eauto).
    eexists _, _. split; [done|]. split_and!.
    + apply (pending_calm s (foldl (dropGap t) (bp_heap s) (te_pendingBlocks e)) (delete t (bp_txPendingBlocks s))). apply dropGap_heap.
    + cbn. eapply pendingOk_weaken; [apply (pendingOk_dropGap _ _ _ _ t (te_pendingBlocks e) Hdrop); by rewrite lookup_delete_eq| |done].
      unfold nothing. tauto.
    + done.
    + intros t' Hne. cbn. by rewrite lookup_delete_ne by done.
Qed.

Lemma checkTxsPending_spec now l s :
  tablesOk nothing anybody s → NoDup l.*1 → (∀ t e, (t, e) ∈ l → bp_txPendingBlocks s !! t = Some e) →
  ∃ need s', checkTxsPending now l s = (Ok need, s') ∧ calm s s' ∧ tablesOk nothing anybody s' ∧
    bp_pendingBlocks s' = bp_pendingBlocks s.
Proof.
  revert s. induction l as [|[t e] l IH]; intros s Hok Hnd Hl; [by eexists _, _|].
  cbn in Hnd. apply list.NoDup_cons in Hnd as [Hn Hnd].
  destruct (checkTxPending_spec now t e s Hok ltac:(apply Hl; by left)) as (n1 & s1 & E1 & Hc1 & Hok1 & Hp1 & Htx).
  destruct (IH s1 Hok1 Hnd) as (n2 & s2 & E2 & Hc2 & Hok2 & Hp2).
  { intros t' e' Hin. rewrite Htx; [apply Hl; by right|]. intros ->. apply Hn. apply list_elem_of_fmap. by exists (t, e'). }
  exists (n1 || n2), s2. split; [|split_and!; [by etrans|done|congruence]].
  cbn. unfold mbind, M_bind. by rewrite E1, E2.
Qed.

Lemma release_result pd s : (releaseTxPendingBlock pd s).1 = Err Blocked ∨ (releaseTxPendingBlock pd s).1 = Ok tt.
Proof.
  unfold releaseTxPendingBlock, checkAndSetBlockInChan, sendHigh, mbind, M_bind, modifyS, mret, M_ret. cbn.
  repeat case_match; naive_solver.
Qed.

Lemma release_loop refs s r s' :
  tablesOk nothing (λ ref, ref ∈ refs) s → NoDup refs →
  (∀ ref, ref ∈ refs → ∃ h, bp_pendingBlocks s !! h = Some ref) → forEach releaseIfDone refs s = (r, s') →
  r = Err Blocked ∨ r = Ok tt ∧ calm s s' ∧ tablesOk nothing nobody s'.
Proof.
  revert s. induction refs as [|ref refs IH]; intros s Hok Hnd Hrefs.
  { intros [= <- <-]. right. split_and!; [done..|]. eapply pendingOk_weaken; [done|done|]. by intros ? ?%list.elem_of_nil. }
  apply list.NoDup_cons in Hnd as [Hn Hnd]. cbn [forEach]. unfold mbind at 1, M_bind at 1.
  destruct (Hrefs ref ltac:(by left)) as [h Hh]. destruct (po_block _ _ _ _ _ Hok _ _ Hh) as (pd & Hpd & <- & Hg & _).
  unfold releaseIfDone at 1, mbind, M_bind, deref, readS. rewrite Hpd. case_bool_decide as Hempty.
  - destruct (releaseTxPendingBlock pd s) as [r1 s1] eqn:E1. pose proof (release_result pd s) as Hr. rewrite E1 in Hr. cbn in Hr.
    destruct Hr as [->| ->]; [intros [= <- <-]; by left|]. destruct (release_calm pd ref s s1 Hpd E1) as (Hc & Hh1 & Hp1 & Ht1).
    intros Hrun. destruct (IH s1) as [?|(? & ? & ?)]; [|done| |done|by left|right; split_and!; [done|by etrans|done]].
    + rewrite Hh1, Hp1, Ht1. eapply pendingOk_weaken; [by apply (pendingOk_release _ _ _ _ _ ref pd Hok)|done|].
      cbn. intros ref' [[->|?]%list.elem_of_cons ?]; done.
    + intros ref' Hin. destruct (Hrefs ref' ltac:(by right)) as [h' Hh']. exists h'. rewrite Hp1.
      rewrite lookup_delete_ne; [done|]. intros <-. congruence.
  - cbn [mret M_ret]. intros Hrun. destruct (IH s) as [?|(? & ? & ?)]; [|done| |done|by left|right; by split_and!].
    + split; [|apply Hok]. intros h' ref' Hh'. destruct (po_block _ _ _ _ _ Hok _ _ Hh') as (pd' & Hpd' & ? & Hg' & ?).
      exists pd'. split_and!; [done..| |done]. destruct Hg' as [?|[->|?]%list.elem_of_cons]; [by left| |by right].
      left. congruence.
    + intros ref' Hin. apply Hrefs. by right.
Qed.

Lemma pending_refs_nodup D E s : tablesOk D E s → NoDup (map_to_list (bp_pendingBlocks s)).*2.
Proof.
  intros Hok. apply NoDup_fmap_2_strong; [|apply NoDup_map_to_list].
  intros [h1 r1] [h2 r2] H1%elem_of_map_to_list H2%elem_of_map_to_list. cbn. intros <-.
  destruct (po_block _ _ _ _ _ Hok _ _ H1) as (p1 & ? & <- & _), (po_block _ _ _ _ _ Hok _ _ H2) as (p2 & ? & <- & _).
  congruence.
Qed.

Lemma tx_timer_spec now s r s' :
  tablesOk nothing nobody s → onCheckTxPendingBlocksTimer now s = (r, s') →
  r = Err Blocked ∨ r = Ok tt ∧ calm s s' ∧ tablesOk nothing nobody s'.
Proof.
  intros Hok. unfold onCheckTxPendingBlocksTimer. unfold mbind, M_bind, getS.
  destruct (checkTxsPending_spec now (map_to_list (bp_txPendingBlocks s)) s) as (need & s1 & -> & Hc1 & Hok1 & Hp1).
  { by eapply pendingOk_weaken. }
  { apply NoDup_fst_map_to_list. }
  { intros t e. by rewrite elem_of_map_to_list. }
  destruct (forEach releaseIfDone _ s1) as [r2 s2] eqn:E2.
  destruct (release_loop (map_to_list (bp_pendingBlocks s1)).*2 s1 r2 s2) as [->|(-> & Hc2 & Hok2)].
  - split; [|apply Hok1]. intros h ref Hh. destruct (po_block _ _ _ _ _ Hok1 _ _ Hh) as (pd & ? & ? & _ & ?). exists pd.
    split_and!; [done..| |done]. right. apply list_elem_of_fmap. exists (h, ref). by rewrite elem_of_map_to_list.
  - by eapply pending_refs_nodup.
  - intros ref ([h ref'] & -> & Hin%elem_of_map_to_list)%list_elem_of_fmap. by exists h.
  - done.
  - intros [= <- <-]. by left.
  - destruct need; intros [= <- <-]; right; split_and!; try done; [|by etrans..].
    etrans; [by etrans|]. split; cbn; try done; [exists []; rewrite app_nil_r; split; [done|]; by intros ? ?%list.elem_of_nil|eauto|tauto].
Qed.
End release.

(** ** Orphans come and go *)
Section orphans.
Context {C : Type} `{ProcessorChain C}.
Implicit Types (s : PovBlockProcessor C).

#[local] Abbreviation orphaned s := (orphansOk (bp_orphanBlocks s) (bp_parentOrphans s)).

Lemma enqueueLoop_spec p l s :
  orphaned s → waitingFor (bp_parentOrphans s) p = l →
  ∃ orphans' parents', enqueueLoop (length l) l s =
      (Ok tt, bp_with_deOrphans (bp_with_orphans s orphans' parents') (bp_deOrphanBlocks s ++ (ob_blockSrc <$> l))) ∧
    orphansOk orphans' parents' ∧ waitingFor parents' p = [] ∧ (size orphans' + length l = size (bp_orphanBlocks s))%nat ∧
    orphans' ⊆ bp_orphanBlocks s ∧
    ∀ h, is_Some (bp_orphanBlocks s !! h) → is_Some (orphans' !! h) ∨ h ∈ ob_hash <$> l.
Proof.
  revert s. induction l as [|o l IH]; intros s Hok Hl.
  { exists (bp_orphanBlocks s), (bp_parentOrphans s). cbn. rewrite app_nil_r, Nat.add_0_r. split; [by destruct s|]. split_and!; try done. by left. }
  assert (Hin : o ∈ waitingFor (bp_parentOrphans s) p) by (rewrite Hl; by left).
  destruct (oo_listed _ _ Hok _ _ Hin) as (Hp & o' & Ho' & Hs).
  pose (s1 := bp_with_orphans s (delete (ob_hash o) (bp_orphanBlocks s)) (dropParent o (bp_parentOrphans s))).
  pose (s2 := bp_with_deOrphans s1 (bp_deOrphanBlocks s ++ [ob_blockSrc o])).
  assert (Hrest : waitingFor (bp_parentOrphans s2) p = l).
  { change (bp_parentOrphans s2) with (dropParent o (bp_parentOrphans s)). rewrite waitingFor_drop, decide_True by done.
    rewrite Hl. apply dropOrphan_head. rewrite <- Hl. apply Hok. }
  assert (Hd : dropOrphan o (o :: l) = l) by (apply dropOrphan_head; rewrite <- Hl; apply Hok).
  destruct (IH s2) as (orphans' & parents' & Hrun & Hok' & Hw & Hsz & Hsub & Hall); [by apply (orphansOk_drop _ _ o o')|done|].
  exists orphans', parents'. split_and!; [|done|done| | |].
  - cbn [enqueueLoop length]. change (List.filter _ (o :: l)) with (dropOrphan o (o :: l)). rewrite Hd.
    change ((removeOrphanBlock o ≫= λ _, _) s) with (enqueueLoop (length l) l s2). rewrite Hrun. cbn. by rewrite <- app_assoc.
  - cbn [length]. cbn in Hsz. rewrite map_size_delete, Ho' in Hsz. cbn in Hsz.
    assert (size (bp_orphanBlocks s) ≠ 0)%nat; [|lia]. intros E%map_size_empty_inv. by rewrite E, lookup_empty in Ho'.
  - etrans; [exact Hsub|]. apply delete_subseteq.
  - intros h Hh. cbn. destruct (decide (h = ob_hash o)) as [->|Hne]; [right; by left|].
    destruct (Hall h) as [?|?]; [by cbn; rewrite lookup_delete_ne by done|by left|right; by right].
Qed.

Lemma enqueueOrphanBlocks_spec src s :
  orphaned s → ∃ orphans' parents' moved, enqueueOrphanBlocks src s =
      (Ok tt, bp_with_deOrphans (bp_with_orphans s orphans' parents') (bp_deOrphanBlocks s ++ moved)) ∧
    orphansOk orphans' parents' ∧ (size orphans' + length moved = size (bp_orphanBlocks s))%nat ∧
    (∀ h o, orphans' !! h = Some o → bp_orphanBlocks s !! h = Some o ∧ ob_prev o ≠ src_hash src) ∧
    (∀ m, m ∈ moved → src_prev m = src_hash src ∧ ∃ h o, bp_orphanBlocks s !! h = Some o ∧ ob_blockSrc o = m) ∧
    ∀ h, is_Some (bp_orphanBlocks s !! h) → is_Some (orphans' !! h) ∨ h ∈ src_hash <$> moved.
Proof.
  intros Hok. pose (l := waitingFor (bp_parentOrphans s) (src_hash src)).
  destruct (enqueueLoop_spec (src_hash src) l s Hok eq_refl) as (orphans' & parents' & Hrun & Hok' & Hw & Hsz & Hsub & Hall).
  exists orphans', parents', (ob_blockSrc <$> l). split_and!; [|done|by rewrite length_fmap| | |].
  - unfold enqueueOrphanBlocks. destruct (bp_parentOrphans s !! src_hash src) as [l'|] eqn:E.
    + unfold l, waitingFor in Hrun |- *. rewrite E in Hrun |- *. cbn [default] in *.
      destruct l'; [by destruct (oo_nonempty _ _ Hok (src_hash src))|]. exact Hrun.
    + unfold l, waitingFor in Hrun |- *. rewrite E in Hrun |- *. exact Hrun.
  - intros h o Ho. split; [by eapply lookup_weaken|]. intros E. destruct (oo_orphan _ _ Hok' _ _ Ho) as [_ Hin].
    rewrite E, Hw in Hin. by apply list.elem_of_nil in Hin.
  - intros m (o & -> & Ho)%list_elem_of_fmap. destruct (oo_listed _ _ Hok _ _ Ho) as (? & o' & ? & ?). split; [done|]. by eexists _, o'.
  - intros h Hh. destruct (Hall h Hh) as [?|?]; [by left|right]. by rewrite <- list_fmap_compose.
Qed.

(** Old orphans are dropped. *)
Lemma expiry_loop now l s :
  orphaned s → NoDup l.*1 → (∀ h o, (h, o) ∈ l → bp_orphanBlocks s !! h = Some o) →
  ∃ orphans' parents', forEach (λ e : Hash * PovOrphanBlock, if expired now e.2 then removeOrphanBlock e.2 else mret tt) l s =
      (Ok tt, bp_with_orphans s orphans' parents') ∧
    orphansOk orphans' parents' ∧ orphans' ⊆ bp_orphanBlocks s ∧
    ((∀ h o, (h, o) ∈ l → expired now o = false) → orphans' = bp_orphanBlocks s).
Proof.
  revert s. induction l as [|[h o] l IH]; intros s Hok Hnd Hl.
  { exists (bp_orphanBlocks s), (bp_parentOrphans s). split; [by destruct s|]. by split_and!. }
  cbn in Hnd. apply list.NoDup_cons in Hnd as [Hn Hnd]. pose proof (Hl h o ltac:(by left)) as Ho.
  destruct (oo_orphan _ _ Hok _ _ Ho) as [<- _].
  pose (s1 := bp_with_orphans s (delete (ob_hash o) (bp_orphanBlocks s)) (dropParent o (bp_parentOrphans s))).
  cbn [forEach]. destruct (expired now o) eqn:Ex; cbn [snd]; rewrite Ex.
  - destruct (IH s1) as (orphans' & parents' & Hrun & Hok' & Hsub & _); [by apply (orphansOk_drop _ _ o o)|done| |].
    { intros h' o' Hin. cbn. rewrite lookup_delete_ne; [apply Hl; by right|]. intros <-. apply Hn, list_elem_of_fmap. by exists (ob_hash o, o'). }
    exists orphans', parents'. split_and!; [exact Hrun|done|etrans; [exact Hsub|apply delete_subseteq]|].
    intros Hno. specialize (Hno (ob_hash o) o ltac:(by left)). congruence.
  - destruct (IH s) as (orphans' & parents' & Hrun & Hok' & Hsub & Heq); [done|done|intros; apply Hl; by right|].
    exists orphans', parents'. split_and!; [exact Hrun|done|done|]. intros Hno. apply Heq. intros; eapply Hno. by right.
Qed.

Lemma addOrphanBlock_spec now src s :
  orphaned s → bp_orphanBlocks s !! src_hash src = None →
  ∃ orphans' parents' req, addOrphanBlock now src s = (Ok tt, bp_with_reqOrphans (bp_with_orphans s orphans' parents') req) ∧
    orphansOk orphans' parents' ∧ orphans' !! src_hash src = Some (mkOrphan src now now) ∧
    (∀ h o, orphans' !! h = Some o → bp_orphanBlocks s !! h = Some o ∨ ob_blockSrc o = src) ∧
    ((∀ h o, bp_orphanBlocks s !! h = Some o → expired now o = false) →
      orphans' = <[src_hash src := mkOrphan src now now]> (bp_orphanBlocks s)).
Proof.
  intros Hok Hnew. unfold addOrphanBlock, mbind, M_bind, getS.
  destruct (expiry_loop now (map_to_list (bp_orphanBlocks s)) s) as (orphans1 & parents1 & -> & Hok1 & Hsub & Heq);
    [done|apply NoDup_fst_map_to_list|intros h o; by rewrite elem_of_map_to_list|].
  assert (Hnew1 : orphans1 !! src_hash src = None) by (by eapply lookup_weaken_None).
  pose (oBlock := mkOrphan src now now).
  exists (<[src_hash src := oBlock]> orphans1), (<[src_prev src := waitingFor parents1 (src_prev src) ++ [oBlock]]> parents1).
  exists (if isPovSyncDone s then <[src_hash src := oBlock]> (bp_reqOrphanBlocks s) else bp_reqOrphanBlocks s).
  split; [|split_and!].
  - unfold modifyS, requestOrphanBlock, modifyS. cbn.
    change (isPovSyncDone _) with (isPovSyncDone s) at 1. destruct (isPovSyncDone s); reflexivity.
  - by apply (orphansOk_add orphans1 parents1 oBlock).
  - by rewrite lookup_insert_eq.
  - intros h o. rewrite lookup_insert_Some. intros [[_ <-]|[_ Ho]]; [by right|left]. by eapply lookup_weaken.
  - intros Hno. rewrite Heq; [done|]. intros h o. rewrite elem_of_map_to_list. apply Hno.
Qed.
End orphans.

(** ** Processing keeps the invariant *)
Section processing.
Context {C : Type} `{ProcessorChain C}.
Context {good : C → Prop} {known : C → Hash → Prop} {verified : C → PovBlock → PovGlobalStateDB → Prop}
  {pool : PovBlock → Prop} `{!ChainPromise good known verified pool} {clean : C → Prop} `{!Watch clean}.
Implicit Types (s : PovBlockProcessor C).

#[local] Abbreviation tablesOk D E s := (pendingOk D E (bp_heap s) (bp_pendingBlocks s) (bp_txPendingBlocks s)).

(** Sources that are in a queue. *)
Definition waitingSources s : list PovBlockSource := bp_blockHighCh s ++ bp_blockNormCh s ++ bp_deOrphanBlocks s.

Record wf s : Prop := {
  wf_chain : good (bp_chain s);
  wf_orphans : orphansOk (bp_orphanBlocks s) (bp_parentOrphans s);
  wf_wait h o : bp_orphanBlocks s !! h = Some o → ¬ known (bp_chain s) (ob_prev o);
  wf_pending : tablesOk nothing nobody s;
  wf_inCh : inChOk s;
  wf_pool_orphans h o : bp_orphanBlocks s !! h = Some o → pool (src_block (ob_blockSrc o));
  wf_pool_pending ref pd : bp_heap s !! ref = Some pd → pool (src_block (pd_blockSrc pd));
  wf_pool_queues src : src ∈ waitingSources s → pool (src_block src);
}.

Lemma listing_loop now ref l s :
  forEach (listPending now ref) l s =
  (Ok tt, bp_with_pending s (bp_heap s) (bp_pendingBlocks s) (foldl (listUnder now ref) (bp_txPendingBlocks s) l)).
Proof. revert s. induction l as [|e l IH]; intros s; [by destruct s|]. exact (IH _). Qed.

Lemma filter_all {A} (f : A → bool) l : (∀ x, x ∈ l → f x = true) → List.filter f l = l.
Proof.
  induction l as [|x l IH]; intros Hf; [done|]. cbn. rewrite (Hf x) by (by left). f_equal. apply IH. intros; apply Hf; by right.
Qed.

Lemma addTxPendingBlock_spec now src stat s :
  wf s → pool (src_block src) → bp_pendingBlocks s !! src_hash src = None → st_GapTxs stat ≠ ∅ →
  (∀ t x, st_GapTxs stat !! t = Some x → x = GapTransaction) →
  ∃ s', addTxPendingBlock now src stat s = (Ok tt, s') ∧ wf s' ∧ is_Some (bp_pendingBlocks s' !! src_hash src) ∧
    bp_chain s' = bp_chain s ∧ bp_orphanBlocks s' = bp_orphanBlocks s ∧
    bp_blockInCh s' = bp_blockInCh s ∧ bp_blockHighCh s' = bp_blockHighCh s ∧ bp_blockNormCh s' = bp_blockNormCh s ∧
    bp_deOrphanBlocks s' = bp_deOrphanBlocks s ∧
    ∀ h, is_Some (bp_pendingBlocks s !! h) → is_Some (bp_pendingBlocks s' !! h).
Proof.
  intros Hwf Hpool Hnew Hne Hgap. unfold addTxPendingBlock, mbind, M_bind, getS.
  set (ref := fresh (dom (bp_heap s))). assert (Hfresh : bp_heap s !! ref = None) by apply not_elem_of_dom, is_fresh.
  rewrite filter_all.
  2: { intros [t x] ->%elem_of_map_to_list%Hgap. by apply bool_decide_eq_true. }
  cbv delta [modifyS] beta iota. rewrite listing_loop. set (pd := mkPending now src (st_GapTxs stat)).
  pose (s1 := bp_with_pending s (<[ref := pd]> (bp_heap s)) (<[src_hash src := ref]> (bp_pendingBlocks s))
    (foldl (listUnder now ref) (bp_txPendingBlocks s) (map_to_list (st_GapTxs stat)).*1)).
  assert (Hwf1 : wf s1).
  { destruct Hwf as [H1 H2 H3 H4 H5 H6 H7 H8]. split; try done.
    - by apply (pendingOk_add _ _ _ ref now pd).
    - intros ref' pd'. cbn. rewrite lookup_insert_Some. intros [[_ <-]|[_ ?]]; [done|by eapply H7]. }
  assert (Hs1 : is_Some (bp_pendingBlocks s1 !! src_hash src)) by (cbn; rewrite lookup_insert_eq; eauto).
  assert (Hmono : ∀ h, is_Some (bp_pendingBlocks s !! h) → is_Some (bp_pendingBlocks s1 !! h)).
  { intros h Hh. cbn. apply lookup_insert_is_Some'. by right. }
  destruct (0 <? length (map_to_list (st_GapTxs stat)))%nat.
  - eexists. split; [done|]. split_and!; try done. destruct Hwf1. by split.
  - exists s1. by split_and!.
Qed.

(** A block that has arrived is held while it is stored, waits, or is in a queue. *)
Definition held s (h : Hash) : Prop :=
  known (bp_chain s) h ∨ is_Some (bp_orphanBlocks s !! h) ∨ is_Some (bp_pendingBlocks s !! h) ∨
  h ∈ src_hash <$> waitingSources s.

(** No orphan is older than [t]. *)
Definition recent (t : Z) s : Prop := ∀ h o, bp_orphanBlocks s !! h = Some o → t ≤ ob_addTime o.

(** What processing one block does. *)
Record processed (now : Z) (src : PovBlockSource) s s' : Prop := {
  pr_wf : wf s';
  pr_inCh : bp_blockInCh s' = bp_blockInCh s;
  pr_high : bp_blockHighCh s' = bp_blockHighCh s;
  pr_norm : bp_blockNormCh s' = bp_blockNormCh s;
  pr_moved : ∃ moved, bp_deOrphanBlocks s' = bp_deOrphanBlocks s ++ moved ∧
    (∀ m, m ∈ moved → known (bp_chain s') (src_prev m)) ∧
    (known (bp_chain s) (src_prev src) → (size (bp_orphanBlocks s') + length moved ≤ size (bp_orphanBlocks s))%nat);
  pr_known x : known (bp_chain s) x → known (bp_chain s') x;
  pr_clean : clean (bp_chain s') → clean (bp_chain s);
  pr_held t : clean (bp_chain s') → recent t s → t ≤ now ≤ t + orphanLifetime →
    recent t s' ∧ held s' (src_hash src) ∧ ∀ h, held s h → held s' h;
}.

Lemma wf_with_chain s c : wf s → good c → (∀ y, known c y ↔ known (bp_chain s) y) → wf (bp_with_chain s c).
Proof. intros [H1 H2 H3 H4 H5 H6 H7 H8] Hg Hk. split; try done. intros h o Ho. cbn. rewrite Hk. by eapply H3. Qed.

Lemma held_with_chain s c h : (∀ y, known (bp_chain s) y → known c y) → held s h → held (bp_with_chain s c) h.
Proof. intros Hk [?|?]; [left; by apply Hk|by right]. Qed.

Lemma processed_same now src s c :
  wf s → good c → (∀ y, known c y ↔ known (bp_chain s) y) → (clean c → clean (bp_chain s)) →
  (clean c → held (bp_with_chain s c) (src_hash src)) → processed now src s (bp_with_chain s c).
Proof.
  intros Hwf Hg Hk Hcl Hh. split; try done; [by apply wf_with_chain| |intros ?; apply Hk|].
  - exists []. rewrite app_nil_r. split_and!; [done| |cbn; lia]. by intros ? ?%list.elem_of_nil.
  - intros t Ha Hr Ht. split_and!; [done|by apply Hh|]. intros h. apply held_with_chain. intros y. apply Hk.
Qed.

Lemma processed_orphan now src s :
  wf s → pool (src_block src) → bp_orphanBlocks s !! src_hash src = None → ¬ known (bp_chain s) (src_prev src) →
  ∃ s', addOrphanBlock now src s = (Ok tt, s') ∧ processed now src s s'.
Proof.
  intros Hwf Hpool Hnew Hun. destruct Hwf as [H1 H2 H3 H4 H5 H6 H7 H8].
  destruct (addOrphanBlock_spec now src s H2 Hnew) as (orphans' & parents' & req & -> & Hok & Hin & Hall & Heq).
  eexists. split; [done|]. split; try done.
  - split; cbn; try done.
    + intros h o [Ho|Ho]%Hall; [by eapply H3|]. unfold ob_prev. by rewrite Ho.
    + intros h o [Ho|Ho]%Hall; [by eapply H6|by rewrite Ho].
  - exists []. rewrite app_nil_r. split_and!; [done| |done]. by intros ? ?%list.elem_of_nil.
  - intros t _ Hr Ht. assert (Horph : orphans' = <[src_hash src := mkOrphan src now now]> (bp_orphanBlocks s)).
    { apply Heq. intros h o Ho. specialize (Hr h o Ho). unfold expired, orphanLifetime in *. apply Z.ltb_ge. lia. }
    split_and!.
    + intros h o. cbn. rewrite Horph, lookup_insert_Some. intros [[_ <-]|[_ Ho]]; [cbn; lia|by eapply Hr].
    + right. left. cbn. by rewrite Hin.
    + intros h [?|[Ho|?]]; [by left| |by right; right]. right. left. cbn. rewrite Horph. apply lookup_insert_is_Some'. by right.
Qed.

Lemma processed_stored now src s gsdb r c :
  wf s → pool (src_block src) → verified (bp_chain s) (src_block src) gsdb →
  pc_InsertBlock (src_block src) gsdb (bp_chain s) = (r, c) → r ≠ Panic →
  ∃ s', (onChain (pc_InsertBlock (src_block src) gsdb);; enqueueOrphanBlocks src) s = (r, s') ∧ processed now src s s'.
Proof.
  intros Hwf Hpool Hver Hins Hnp. pose proof (promise_insert _ _ _ _ _ (wf_chain _ Hwf) Hpool Hver Hins) as Hpr.
  unfold mbind, M_bind, onChain. rewrite Hins. destruct r as [[]|e|]; [|destruct Hpr as [Hg Hk]|done].
  2: { eexists. split; [done|]. apply processed_same; [done..| |]; by intros [_ ?]%(watch_insert _ _ _ _ _ Hins). }
  destruct Hpr as [Hg Hk]. destruct Hwf as [H1 H2 H3 H4 H5 H6 H7 H8].
  destruct (enqueueOrphanBlocks_spec src (bp_with_chain s c) H2) as (orphans' & parents' & moved & -> & Hok & Hsz & Hsub & Hmoved & Hall).
  eexists. split; [done|]. split; try done.
  - split; cbn; try done.
    + intros h o [Ho Hne]%Hsub. rewrite Hk. intros [E|Hkn]; [by apply Hne|by apply (H3 h o Ho)].
    + intros h o [Ho _]%Hsub. by eapply H6.
    + intros src'. unfold waitingSources. cbn. rewrite !elem_of_app. intros [?|[?|[?|Hm]]].
      1-3: apply H8; unfold waitingSources; rewrite !elem_of_app; tauto.
      destruct (Hmoved _ Hm) as (_ & h & o & Ho & <-). by eapply H6.
  - exists moved. cbn. split_and!; [done| |cbn in Hsz; lia]. intros m [-> _]%Hmoved. apply Hk. by left.
  - cbn. intros x Hx. apply Hk. by right.
  - cbn. by intros [? _]%(watch_insert _ _ _ _ _ Hins).
  - intros t _ Hr _. split_and!.
    + intros h o [Ho _]%Hsub. by eapply Hr.
    + left. cbn. apply Hk. by left.
    + intros h [Hkn|[Ho|[?|Hq]]]; [left; apply Hk; by right| |by right; right; left|].
      * destruct (Hall h Ho) as [?|Hm]; [by right; left|]. right. right. right. unfold waitingSources. cbn.
        rewrite !fmap_app, !elem_of_app. tauto.
      * right. right. right. unfold waitingSources in *. cbn. rewrite !fmap_app, !elem_of_app in *. tauto.
Qed.

Lemma processed_after now src s c s' :
  (∀ y, known c y ↔ known (bp_chain s) y) → (clean c → clean (bp_chain s)) →
  processed now src (bp_with_chain s c) s' → processed now src s s'.
Proof.
  intros Hk Hcl [H1 H2 H3 H4 (moved & Hm & Hmk & Hsz) H6 Hc H7]. split; try done.
  - exists moved. split_and!; [done..|]. intros Hp. apply Hsz, Hk, Hp.
  - intros x Hx. by apply H6, Hk.
  - intros Hx. by apply Hcl, Hc.
  - intros t Ha Hr Ht. destruct (H7 t Ha Hr Ht) as (? & ? & Hh). split_and!; [done..|]. intros h Hs. apply Hh.
    apply held_with_chain; [|done]. intros y. apply Hk.
Qed.

Lemma processed_pending now src stat s :
  wf s → pool (src_block src) → bp_pendingBlocks s !! src_hash src = None → st_GapTxs stat ≠ ∅ →
  (∀ t x, st_GapTxs stat !! t = Some x → x = GapTransaction) →
  ∃ s', addTxPendingBlock now src stat s = (Ok tt, s') ∧ processed now src s s'.
Proof.
  intros Hwf Hpool Hnew Hne Hgap. destruct (addTxPendingBlock_spec now src stat s Hwf Hpool Hnew Hne Hgap)
    as (s' & -> & Hwf' & Hp & Hc & Ho & Hin & Hh & Hn & Hd & Hmono).
  exists s'. split; [done|]. split; try done.
  - exists []. rewrite app_nil_r, Ho. split_and!; [done| |cbn; lia]. by intros ? ?%list.elem_of_nil.
  - by rewrite Hc.
  - by rewrite Hc.
  - intros t _ Hr _. split_and!; [by intros h o; rewrite Ho; apply Hr|by right; right; left|].
    intros h [?|[?|[?|?]]]; [left; by rewrite Hc|right; left; by rewrite Ho|right; right; left; by apply Hmono|].
    right. right. right. unfold waitingSources. by rewrite Hh, Hn, Hd.
Qed.

Lemma processBlock_spec now src s r s' :
  wf s → pool (src_block src) → processBlock now src s = (r, s') → r = Panic ∨ processed now src s s'.
Proof.
  intros Hwf Hpool. unfold processBlock. unfold mbind at 1, M_bind at 1, getS.
  destruct (HasOrphanBlock s (src_hash src) || HasPendingBlock s (src_hash src)) eqn:Edup.
  { intros [= <- <-]. right. replace s with (bp_with_chain s (bp_chain s)) at 2 by (by destruct s).
    apply processed_same; [done|apply Hwf|done|done|]. intros _. unfold HasOrphanBlock, HasPendingBlock in Edup.
    apply orb_true_iff in Edup as [Ho%bool_decide_eq_true|Hp%bool_decide_eq_true]; [by right; left|by right; right; left]. }
  apply orb_false_iff in Edup as [Ho%bool_decide_eq_false Hp%bool_decide_eq_false].
  apply eq_None_not_Some in Ho. apply eq_None_not_Some in Hp.
  unfold mbind at 1, M_bind at 1, onChain at 1.
  destruct (pc_HasBestBlock _ _ (bp_chain s)) as [r1 c1] eqn:E1.
  destruct (promise_best _ _ _ _ _ (wf_chain _ Hwf) E1) as (best & -> & Hg1 & Hk1 & Hbest).
  pose proof (watch_best _ _ _ _ _ E1) as W1. pose proof (wf_with_chain s c1 Hwf Hg1 Hk1) as Hwf1. destruct best.
  { intros [= <- <-]. right. apply processed_same; [done..|]. intros _. left. by apply Hk1, Hbest. }
  unfold mbind at 1, M_bind at 1, onChain at 1. cbn [bp_chain bp_with_chain].
  destruct (pc_GetBlockByHash _ c1) as [r2 c2] eqn:E2.
  destruct (promise_get _ _ _ _ Hg1 E2) as (o & -> & Hg2 & Hk2 & Hget).
  assert (Hk : ∀ y, known c2 y ↔ known (bp_chain s) y) by (intros y; by rewrite Hk2, Hk1).
  assert (W2 : clean c2 → clean (bp_chain s)) by (intros ?; by eapply W1, watch_get).
  change (bp_with_chain (bp_with_chain s c1) c2) with (bp_with_chain s c2).
  pose proof (wf_with_chain s c2 Hwf Hg2 Hk) as Hwf2. destruct o as [prev|].
  2: { intros Hrun. destruct (processed_orphan now src (bp_with_chain s c2)) as (s3 & E3 & Hpr); [done..| |].
       - cbn. rewrite Hk2. intros Hkn. apply Hget in Hkn. by destruct Hkn.
       - right. rewrite E3 in Hrun. injection Hrun as _ <-. by eapply processed_after. }
  assert (Hprev : known c2 (src_prev src)) by (apply Hk2, Hget; eauto).
  unfold mbind at 1, M_bind at 1, onChain at 1. cbn [bp_chain bp_with_chain].
  destruct (pc_VerifyFull _ _ c2) as [r3 c3] eqn:E3.
  destruct (promise_verify _ _ _ _ _ Hg2 Hpool Hprev E3) as [->|(stat & -> & Hg3 & Hk3 & Hnogap & Hgap & Hok)].
  { intros [= <- <-]. by left. }
  change (bp_with_chain (bp_with_chain s c2) c3) with (bp_with_chain s c3).
  assert (Hks : ∀ y, known c3 y ↔ known (bp_chain s) y) by (intros y; by rewrite Hk3, Hk).
  pose proof (wf_with_chain s c3 Hwf Hg3 Hks) as Hwf3. pose proof (watch_verify _ _ _ _ _ E3) as W3.
  assert (Wc : clean c3 → clean (bp_chain s)) by (intros ?; by apply W2, W3).
  assert (Hbad : st_Result stat ≠ Progress → st_Result stat ≠ GapTransaction → processed now src s (bp_with_chain s c3)).
  { intros Hn1 Hn2. apply processed_same; [done..|]. intros Hx. destruct (W3 Hx) as (_ & stat' & [= <-] & [?|?]); done. }
  destruct (st_Result stat) eqn:Er; try done; try (intros [= <- <-]; right; by apply Hbad); intros Hrun.
  - destruct (pc_InsertBlock (src_block src) (st_StateDB stat) c3) as [r4 c4] eqn:E4.
    assert (r4 = Panic ∨ r4 ≠ Panic) as [->|Hnp] by (destruct r4; [by right|by right|by left]).
    + left. unfold mbind, M_bind, onChain in Hrun. cbn in Hrun. rewrite E4 in Hrun. by injection Hrun as <- <-.
    + destruct (processed_stored now src (bp_with_chain s c3) (st_StateDB stat) r4 c4) as (s5 & E5 & Hpr); [done|done|by apply Hok|done|done|].
      right. rewrite E5 in Hrun. injection Hrun as _ <-. by eapply processed_after.
  - destruct (Hgap eq_refl) as [Hne Hall].
    destruct (processed_pending now src stat (bp_with_chain s c3)) as (s5 & E5 & Hpr); [done..|].
    right. rewrite E5 in Hrun. injection Hrun as _ <-. by eapply processed_after.
Qed.

(** ** Rounds of orphans *)

(** The same for several blocks whose parents are stored. *)
Record rounds (now : Z) (l : list PovBlockSource) s s' : Prop := {
  rd_wf : wf s';
  rd_inCh : bp_blockInCh s' = bp_blockInCh s;
  rd_high : bp_blockHighCh s' = bp_blockHighCh s;
  rd_norm : bp_blockNormCh s' = bp_blockNormCh s;
  rd_moved : ∃ moved, bp_deOrphanBlocks s' = bp_deOrphanBlocks s ++ moved ∧
    (∀ m, m ∈ moved → known (bp_chain s') (src_prev m)) ∧
    (size (bp_orphanBlocks s') + length moved ≤ size (bp_orphanBlocks s))%nat;
  rd_known x : known (bp_chain s) x → known (bp_chain s') x;
  rd_clean : clean (bp_chain s') → clean (bp_chain s);
  rd_held t : clean (bp_chain s') → recent t s → t ≤ now ≤ t + orphanLifetime →
    recent t s' ∧ ∀ h, held s h ∨ h ∈ src_hash <$> l → held s' h;
}.

Lemma processed_reply now src s s' x : processed now src s s' → processed now src s (bp_reply x s').
Proof. intros [[] ? ? ? ? ? ? ?]. by split. Qed.

Lemma processAndReply_spec now src s r s' :
  wf s → pool (src_block src) → processAndReply now src s = (r, s') → r = Panic ∨ r = Ok tt ∧ processed now src s s'.
Proof.
  intros Hwf Hpool. unfold processAndReply, mbind, M_bind, tryS.
  destruct (processBlock now src s) as [r1 s1] eqn:E1.
  destruct (processBlock_spec now src s r1 s1 Hwf Hpool E1) as [->|Hpr]; [intros [= <- <-]; by left|].
  destruct r1 as [[]|e|]; [..|intros [= <- <-]; by left]; destruct (src_replyCh src); intros [= <- <-]; right;
    (split; [done|]); [by apply processed_reply|done|by apply processed_reply|done].
Qed.

Lemma rounds_spec now l s r s' :
  wf s → (∀ src, src ∈ l → pool (src_block src) ∧ known (bp_chain s) (src_prev src)) →
  forEach (processAndReply now) l s = (r, s') → r = Panic ∨ r = Ok tt ∧ rounds now l s s'.
Proof.
  revert s. induction l as [|src l IH]; intros s Hwf Hl.
  { intros [= <- <-]. right. split; [done|]. split; try done.
    - exists []. rewrite app_nil_r. split_and!; [done| |cbn; lia]. by intros ? ?%list.elem_of_nil.
    - intros t _ Hr _. split; [done|]. intros h [?|?%list.elem_of_nil]; done. }
  cbn [forEach]. unfold mbind, M_bind. destruct (processAndReply now src s) as [r1 s1] eqn:E1.
  destruct (Hl src ltac:(by left)) as [Hpool Hkn].
  destruct (processAndReply_spec now src s r1 s1 Hwf Hpool E1) as [->|[-> [H1 H2 H3 H4 (m1 & M1 & K1 & Z1) H6 Hc H7]]].
  { intros [= <- <-]. by left. }
  intros Hrun. destruct (IH s1 H1) as [?|[-> [R1 R2 R3 R4 (m2 & M2 & K2 & Z2) R6 Rc R7]]]; [|done|by left|].
  { intros src' Hin. destruct (Hl src' ltac:(by right)) as [? ?]. split; [done|by apply H6]. }
  right. split; [done|]. split; [done|congruence..| | | |].
  - exists (m1 ++ m2). rewrite M2, M1, app_assoc, length_app. split_and!; [done| |specialize (Z1 Hkn); lia].
    intros m. rewrite elem_of_app. intros [?|?]; [by apply R6, K1|by apply K2].
  - intros x Hx. by apply R6, H6.
  - intros Hx. by apply Hc, Rc.
  - intros t Ha Hr Ht. destruct (H7 t (Rc Ha) Hr Ht) as (Hr1 & Hsrc & Hh1). destruct (R7 t Ha Hr1 Ht) as (Hr2 & Hh2).
    split; [done|]. intros h [Hh|[->|Hh]%list.elem_of_cons]; apply Hh2; [left; by apply Hh1|by left|by right].
Qed.

(** What is left when the queue of orphans is empty again. *)
Record drained (now : Z) s s' : Prop := {
  dr_wf : wf s';
  dr_inCh : bp_blockInCh s' = bp_blockInCh s;
  dr_high : bp_blockHighCh s' = bp_blockHighCh s;
  dr_norm : bp_blockNormCh s' = bp_blockNormCh s;
  dr_empty : bp_deOrphanBlocks s' = [];
  dr_known x : known (bp_chain s) x → known (bp_chain s') x;
  dr_clean : clean (bp_chain s') → clean (bp_chain s);
  dr_held t : clean (bp_chain s') → recent t s → t ≤ now ≤ t + orphanLifetime → recent t s' ∧ ∀ h, held s h → held s' h;
}.

Lemma processDeOrphans_spec fuel now s r s' :
  (length (bp_deOrphanBlocks s) + size (bp_orphanBlocks s) < fuel)%nat → wf s →
  (∀ src, src ∈ bp_deOrphanBlocks s → known (bp_chain s) (src_prev src)) →
  processDeOrphans fuel now s = (r, s') → r = Panic ∨ r = Ok tt ∧ drained now s s'.
Proof.
  revert s. induction fuel as [|fuel IH]; intros s Hfuel Hwf Hkn; [lia|].
  cbn [processDeOrphans]. unfold mbind at 1, M_bind at 1, getS. destruct (bp_deOrphanBlocks s) as [|src l] eqn:Ed.
  { intros [= <- <-]. right. by split. }
  set (s1 := bp_with_deOrphans s []).
  change ((modifyS _;; ?m) s) with (m s1). unfold mbind, M_bind.
  assert (Hwf1 : wf s1).
  { destruct Hwf as [H1 H2 H3 H4 H5 H6 H7 H8]. split; try done. intros x. unfold waitingSources. cbn.
    rewrite app_nil_r, elem_of_app. intros Hx. apply H8. unfold waitingSources. rewrite !elem_of_app. tauto. }
  destruct (forEach (processAndReply now) (src :: l) s1) as [r2 s2] eqn:E2.
  destruct (rounds_spec now (src :: l) s1 r2 s2 Hwf1) as [->|[-> [R1 R2 R3 R4 (m & M & K & Z) R6 Rc R7]]]; [|done|intros [= <- <-]; by left|].
  { intros x Hx. split; [|by apply Hkn]. apply (wf_pool_queues _ Hwf). unfold waitingSources. rewrite Ed, !elem_of_app. tauto. }
  cbn in M. intros Hrun. destruct (IH s2) as [?|[-> [D1 D2 D3 D4 D5 D6 Dc D7]]]; [|done| |done|by left|].
  { rewrite M. cbn in Z, Hfuel. lia. }
  { intros x. rewrite M. apply K. }
  right. split; [done|]. split; [done|by rewrite D2, R2|by rewrite D3, R3|by rewrite D4, R4|done|by intros; apply D6, R6|by intros; apply Rc, Dc|].
  intros t Ha Hr Ht. destruct (R7 t (Dc Ha) Hr Ht) as [Hr2 Hh2]. destruct (D7 t Ha Hr2 Ht) as [Hr3 Hh3]. split; [done|].
  intros h Hh. apply Hh3, Hh2. destruct Hh as [?|[?|[?|Hq]]]; [by left; left|by left; right; left|by left; right; right; left|].
  unfold waitingSources in Hq. rewrite Ed in Hq. rewrite !fmap_app, !elem_of_app in Hq. destruct Hq as [?|[?|?]]; [..|by right].
  all: left; right; right; right; unfold waitingSources; cbn; rewrite app_nil_r, fmap_app, elem_of_app; tauto.
Qed.

Lemma processOneBlock_spec now src s r s' :
  wf (bp_with_queues s (bp_blockInCh s ∖ {[src_hash src]}) (bp_blockHighCh s) (bp_blockNormCh s)) →
  bp_deOrphanBlocks s = [] → pool (src_block src) → processOneBlock now src s = (r, s') →
  r = Panic ∨ r = Ok tt ∧ wf s' ∧ bp_deOrphanBlocks s' = [] ∧
    (clean (bp_chain s') → clean (bp_chain s)) ∧
    ∀ t, clean (bp_chain s') → recent t s → t ≤ now ≤ t + orphanLifetime →
      recent t s' ∧ ∀ h, held s h ∨ h = src_hash src → held s' h.
Proof.
  unfold processOneBlock. set (s1 := bp_with_queues s (bp_blockInCh s ∖ {[src_hash src]}) (bp_blockHighCh s) (bp_blockNormCh s)).
  change ((modifyS _;; ?m) s) with (m s1). unfold mbind at 1, M_bind at 1. intros Hwf1 Hd Hpool.
  destruct (processAndReply now src s1) as [r1 s2] eqn:E1.
  destruct (processAndReply_spec now src s1 r1 s2 Hwf1 Hpool E1) as [->|[-> [H1 H2 H3 H4 (m & M & K & _) H6 Hc H7]]].
  { intros [= <- <-]. by left. }
  cbn in M. rewrite Hd in M. cbn in M. unfold mbind, M_bind, getS. intros Hrun.
  destruct (processDeOrphans_spec (S (S (length (bp_deOrphanBlocks s2) + size (bp_orphanBlocks s2)))) now s2 r s')
    as [?|[-> [D1 D2 D3 D4 D5 D6 Dc D7]]]; [lia|done|intros x; rewrite M; apply K|done|by left|].
  right. split_and!; [done..|by intros; apply Hc, Dc|]. intros t Ha Hr Ht. destruct (H7 t (Dc Ha) Hr Ht) as (Hr2 & Hsrc & Hh2).
  destruct (D7 t Ha Hr2 Ht) as [Hr3 Hh3]. split; [done|]. intros h [Hh| ->]; apply Hh3; [by apply Hh2|done].
Qed.
End processing.
