(* ===== verification/PovDelivery.v ===== *)
(** * Runs of the proof-of-value block processor

    Every sequence of calls, timers and arrivals keeps the invariant of the processor, no
    handler runs forever, and blocks are stored whatever the order in which they arrive. *)

From S2P Require Import Prelude Types Check Pov PovStateDB PovStore PovChain PovProcessor PovProcessorFacts.

(** ** The roots of orphans *)

(** Hashes cannot be built into a cycle: along parents a rank decreases. *)
Definition acyclic (pool : PovBlock → Prop) : Prop :=
  ∃ rank : Hash → nat, ∀ b, pool b → (rank (pb_Previous b) < rank (pb_Hash b))%nat.

Fixpoint rootIn (fuel : nat) (m : gmap Hash PovOrphanBlock) (h : Hash) : res Hash :=
  match fuel with
  | O => Err OutOfFuel
  | S fuel => match m !! h with None => Ok h | Some o => rootIn fuel m (ob_prev o) end
  end.

Lemma rootIn_delete rank n (m : gmap Hash PovOrphanBlock) h x :
  (∀ h o, m !! h = Some o → (rank (ob_prev o) < rank h)%nat) → (rank x < rank h)%nat →
  rootIn n m x = rootIn n (delete h m) x.
Proof.
  intros Hr. revert x. induction n as [|n IH]; intros x Hx; [done|]. cbn.
  rewrite lookup_delete_ne by (intros ->; lia). destruct (m !! x) as [o|] eqn:E; [|done]. apply IH. specialize (Hr _ _ E). lia.
Qed.

Lemma rootIn_ends rank n (m : gmap Hash PovOrphanBlock) h :
  (∀ h o, m !! h = Some o → (rank (ob_prev o) < rank h)%nat) → (size m < n)%nat → ∃ root, rootIn n m h = Ok root.
Proof.
  revert m h. induction n as [|n IH]; intros m h Hr Hn; [lia|]. cbn.
  destruct (m !! h) as [o|] eqn:E; [|by eexists]. pose proof (Hr _ _ E) as Hlt.
  rewrite (rootIn_delete rank n m h) by done. apply IH.
  - intros h' o'. rewrite lookup_delete_Some. intros [_ ?]. by apply Hr.
  - rewrite map_size_delete, E. cbn. assert (size m ≠ 0)%nat; [|lia]. intros Em%map_size_empty_inv. by rewrite Em, lookup_empty in E.
Qed.

Section delivery.
Context {C : Type} `{ProcessorChain C}.
Context {good : C → Prop} {known : C → Hash → Prop} {verified : C → PovBlock → PovGlobalStateDB → Prop}
  {pool : PovBlock → Prop} `{!ChainPromise good known verified pool} {clean : C → Prop} `{!Watch clean}.
Implicit Types (s : PovBlockProcessor C).

#[local] Abbreviation wf := (wf (good := good) (known := known) (pool := pool)).
#[local] Abbreviation held := (held (known := known)).

Lemma orphanRoot_rootIn n s h : orphanRootLoop n s h = rootIn n (bp_orphanBlocks s) h.
Proof. revert h. induction n as [|n IH]; intros h; [done|]. cbn. destruct (bp_orphanBlocks s !! h); [apply IH|done]. Qed.

Lemma GetOrphanRoot_ends s h : acyclic pool → wf s → ∃ root, GetOrphanRoot s h = Ok root.
Proof.
  intros [rank Hr] Hwf. unfold GetOrphanRoot. rewrite orphanRoot_rootIn. apply (rootIn_ends rank); [|lia].
  intros h' o Ho. destruct (oo_orphan _ _ (wf_orphans _ Hwf) _ _ Ho) as [<- _].
  apply Hr, (wf_pool_orphans _ Hwf _ _ Ho).
Qed.

(** A walk to the roots ends, or the orphans form a cycle. *)
Definition endsUnlessCyclic {A} (r : res A) : Prop := (∃ x, r = Ok x) ∨ r = Err OutOfFuel ∧ ¬ acyclic pool.

Lemma orphanRootLoop_cases n s h : (∃ root, orphanRootLoop n s h = Ok root) ∨ orphanRootLoop n s h = Err OutOfFuel.
Proof. revert h. induction n as [|n IH]; intros h; [by right|]. cbn. destruct (bp_orphanBlocks s !! h); [apply IH|left; eauto]. Qed.

Lemma GetOrphanRoot_cases s h : wf s → endsUnlessCyclic (GetOrphanRoot s h).
Proof.
  intros Hwf. destruct (orphanRootLoop_cases (S (size (bp_orphanBlocks s))) s h) as [?|E]; [by left|right].
  split; [done|]. intros Ha. destruct (GetOrphanRoot_ends s h Ha Hwf) as [root Hr]. unfold GetOrphanRoot in Hr. congruence.
Qed.

(** ** The timers of orphans *)
Lemma peerOrphanRoots_cases s os roots : wf s → endsUnlessCyclic (peerOrphanRoots s os roots).
Proof.
  intros Hwf. revert roots. induction os as [|o os IH]; intros roots; [left; by eexists|]. cbn [peerOrphanRoots].
  destruct (GetOrphanRoot_cases s (ob_hash o) Hwf) as [[root ->]|[-> ?]]; [apply IH|by right].
Qed.

(** The state up to the times of orphans, requests and what was asked for. *)
Record retimed s s' : Prop := {
  rt_wf : wf s';
  rt_deOrphans : bp_deOrphanBlocks s' = bp_deOrphanBlocks s;
  rt_orphans h : ob_addTime <$> bp_orphanBlocks s' !! h = ob_addTime <$> bp_orphanBlocks s !! h;
  rt_held h : held s h → held s' h;
  rt_chain : bp_chain s' = bp_chain s;
}.

Lemma retimed_refl s : wf s → retimed s s.
Proof. by split. Qed.

Lemma retimed_recent t s s' : retimed s s' → recent t s → recent t s'.
Proof.
  intros Hrt Hr h o Ho. pose proof (rt_orphans _ _ Hrt h) as E. rewrite Ho in E. cbn in E.
  destruct (bp_orphanBlocks s !! h) as [o'|] eqn:Eo; [|done]. injection E as ->. by eapply Hr.
Qed.

Lemma retimed_request s s' r : retimed s s' → retimed s (bp_request r s').
Proof. intros [[] ? ? ? ?]. by split. Qed.

Lemma retime s h o now :
  wf s → bp_orphanBlocks s !! h = Some o →
  retimed s (bp_with_orphans s (<[h := mkOrphan (ob_blockSrc o) (ob_addTime o) now]> (bp_orphanBlocks s)) (bp_parentOrphans s)).
Proof.
  intros Hwf Ho. set (o' := mkOrphan (ob_blockSrc o) (ob_addTime o) now). destruct Hwf as [H1 [O1 O2 O3 O4] H3 H4 H5 H6 H7 H8].
  assert (Hlk : ∀ h' x, <[h := o']> (bp_orphanBlocks s) !! h' = Some x → ∃ y, bp_orphanBlocks s !! h' = Some y ∧ ob_blockSrc x = ob_blockSrc y).
  { intros h' x. rewrite lookup_insert_Some. intros [[<- <-]|[_ ?]]; [by exists o|by exists x]. }
  split; try done.
  - split; cbn; try done.
    + split; try done.
      * intros p x Hx. destruct (O3 p x Hx) as (? & y & Hy & ?). split; [done|].
        destruct (decide (ob_hash x = h)) as [E|Hne]; [|exists y; by rewrite lookup_insert_ne by done].
        exists o'. rewrite E, lookup_insert_eq. split; [done|]. rewrite E in Hy. cbn. congruence.
      * intros h' x (y & Hy & E)%Hlk. destruct (O4 _ _ Hy) as [? ?]. unfold ob_hash, ob_prev in *. by rewrite E.
    + intros h' x (y & Hy & E)%Hlk. unfold ob_prev. rewrite E. by eapply H3.
    + intros h' x (y & Hy & E)%Hlk. rewrite E. by eapply H6.
  - intros h'. cbn. destruct (decide (h' = h)) as [->|]; [by rewrite lookup_insert_eq, Ho|by rewrite lookup_insert_ne by done].
  - intros h' [?|[Hs|?]]; [by left| |by right; right]. right. left. cbn. apply lookup_insert_is_Some'. by right.
Qed.

Lemma checkOrphans_spec now l roots s :
  wf s → NoDup l.*1 → (∀ h o, (h, o) ∈ l → bp_orphanBlocks s !! h = Some o) →
  ∃ r s', checkOrphans now l roots s = (r, s') ∧ endsUnlessCyclic r ∧ retimed s s'.
Proof.
  revert roots s. induction l as [|[h o] l IH]; intros roots s Hwf Hnd Hl.
  { eexists _, _. split_and!; [done|left; by eexists|by apply retimed_refl]. }
  cbn in Hnd. apply list.NoDup_cons in Hnd as [Hn Hnd]. cbn [checkOrphans]. destruct (_ || _).
  { apply IH; [done|done|]. intros; apply Hl; by right. }
  set (s1 := bp_with_orphans s (<[h := mkOrphan (ob_blockSrc o) (ob_addTime o) now]> (bp_orphanBlocks s)) (bp_parentOrphans s)).
  change ((modifyS _;; ?m) s) with (m s1). pose proof (retime s h o now Hwf ltac:(apply Hl; by left)) as Hrt. fold s1 in Hrt.
  unfold mbind, M_bind, readS. destruct (GetOrphanRoot_cases s1 (ob_hash o) (rt_wf _ _ Hrt)) as [[root ->]|[-> ?]].
  2: { eexists _, _. split_and!; [done|by right|done]. }
  destruct (IH ({[root]} ∪ roots) s1) as (roots' & s2 & E & Hends & [R1 R2 R3 R4 R5]); [apply Hrt|done| |].
  { intros h' o' Hin. cbn. rewrite lookup_insert_ne; [apply Hl; by right|]. intros ->. apply Hn, list_elem_of_fmap. by exists (h', o'). }
  exists roots', s2. split; [done|]. split; [done|]. split; [done|by rewrite R2| | |by rewrite R5].
  - intros h'. rewrite R3. apply Hrt.
  - intros h' Hh. by apply R4, Hrt.
Qed.

Lemma orphan_timer_spec now s r s' : wf s → onCheckOrphanBlocksTimer now s = (r, s') → endsUnlessCyclic r ∧ retimed s s'.
Proof.
  intros Hwf. unfold onCheckOrphanBlocksTimer, mbind, M_bind, getS. destruct (_ || _).
  { intros [= <- <-]. split; [left; by eexists|by apply retimed_refl]. }
  destruct (checkOrphans_spec now (map_to_list (bp_orphanBlocks s)) ∅ s Hwf) as (roots & s1 & -> & [[x ->]|[-> ?]] & Hrt);
    [apply NoDup_fst_map_to_list|intros h o; by rewrite elem_of_map_to_list|..]; intros [= <- <-].
  - split; [left; by eexists|by apply retimed_request].
  - split; [by right|done].
Qed.

Lemma request_loop s s0 l : retimed s0 s →
  ∃ s', forEach (λ e : string * gset Hash, modifyS (bp_request (requestBlocksByHashes (reqOrphanRoots s0 e.2) e.1))) l s = (Ok tt, s') ∧
    retimed s0 s'.
Proof.
  revert s. induction l as [|e l IH]; intros s Hrt; [by eexists|]. apply (IH (bp_request _ s)). by apply retimed_request.
Qed.

Lemma request_timer_spec s r s' : wf s → onRequestOrphanBlocksTimer s = (r, s') → endsUnlessCyclic r ∧ retimed s s'.
Proof.
  intros Hwf. unfold onRequestOrphanBlocksTimer, mbind, M_bind, getS, liftR. destruct (_ || _).
  { intros [= <- <-]. split; [left; by eexists|by apply retimed_refl]. }
  destruct (peerOrphanRoots_cases s (map_to_list (bp_reqOrphanBlocks s)).*2 ∅ Hwf) as [[roots ->]|[-> ?]].
  - destruct (request_loop (bp_with_reqOrphans s ∅) s (map_to_list roots)) as (s1 & E & Hrt); [split; try done; by destruct Hwf|].
    intros Hrun. assert ((Ok tt, s1) = (r, s')) as [= <- <-] by (rewrite <- E; exact Hrun). split; [left; by eexists|done].
  - intros [= <- <-]. split; [by right|by apply retimed_refl].
Qed.

(** ** One handler *)

(** The blocks that an action brings in, and the time at which it runs. *)
Definition brings (a : action) : list PovBlock :=
  match a with act_AddBlock b _ _ | act_AddMinedBlock b _ => [b] | _ => [] end.

Definition runsAt (a : action) : option Z :=
  match a with act_high now | act_norm now | act_checkOrphans now | act_checkTxs now => Some now | _ => None end.

Definition processes (a : action) : Prop := match a with act_high _ | act_norm _ => True | _ => False end.

(** What a handler that has run does to the state. *)
Record handled (a : action) s s' : Prop := {
  hd_wf : wf s';
  hd_deOrphans : bp_deOrphanBlocks s' = [];
  hd_clean : clean (bp_chain s') → clean (bp_chain s);
  hd_held t : clean (bp_chain s') → recent t s → (∀ now, runsAt a = Some now → t ≤ now ≤ t + orphanLifetime) →
    recent t s' ∧ ∀ h, held s h ∨ h ∈ pb_Hash <$> brings a → held s' h;
}.

Lemma calm_handled a s s' :
  wf s → bp_deOrphanBlocks s = [] → brings a = [] → calm s s' →
  pendingOk nothing nobody (bp_heap s') (bp_pendingBlocks s') (bp_txPendingBlocks s') → handled a s s'.
Proof.
  intros [H1 H2 H3 H4 H5 H6 H7 H8] Hd Hb Hc Ht. pose proof Hc as [C1 C2 C3 C4 C5 (extra & C6 & Cx) C7 C8 C9]. split.
  - split; rewrite ?C1, ?C2, ?C3; try done; [by apply C8| |].
    + intros ref pd (pd0 & Hpd0 & ->)%C7. by eapply H7.
    + intros src. unfold waitingSources. rewrite C4, C5, C6, !elem_of_app. intros [[?|Hx]|?].
      1, 3: apply H8; unfold waitingSources; rewrite !elem_of_app; tauto.
      destruct (Cx _ Hx) as (ref & pd & Hpd & <-). by eapply H7.
  - by rewrite C4.
  - by rewrite C1.
  - intros t _ Hr _. split; [intros h o; rewrite C2; apply Hr|]. rewrite Hb. intros h [Hh|?%list.elem_of_nil]; [|done].
    assert (Hq : ∀ x, x ∈ queued s' → x ∈ src_hash <$> waitingSources s').
    { intros x. unfold queued, waitingSources. rewrite !fmap_app, !elem_of_app. tauto. }
    destruct Hh as [?|[?|[Hp|Hs]]]; [left; by rewrite C1|right; left; by rewrite C2| |].
    + destruct (C9 h H5 Hp) as [?|?]; [by right; right; left|right; right; right; by apply Hq].
    + right. right. right. unfold waitingSources in Hs. rewrite Hd, app_nil_r in Hs. apply Hq. by apply (calm_queued s).
Qed.

Lemma retimed_handled a s s' : bp_deOrphanBlocks s = [] → brings a = [] → retimed s s' → handled a s s'.
Proof.
  intros Hd Hb Hrt. split; [apply Hrt|by rewrite (rt_deOrphans _ _ Hrt)|by rewrite (rt_chain _ _ Hrt)|]. intros t _ Hr _. split; [by eapply retimed_recent|].
  rewrite Hb. intros h [?|?%list.elem_of_nil]; [by apply Hrt|done].
Qed.

(** A block is put at the end of the normal queue. *)
Lemma sent_handled a b src s inCh :
  wf s → bp_deOrphanBlocks s = [] → pool (src_block src) → brings a = [b] → src_block src = b → runsAt a = None →
  (∀ h, h ∈ inCh → h = src_hash src ∨ h ∈ bp_blockInCh s) →
  handled a s (bp_with_queues s inCh (bp_blockHighCh s) (bp_blockNormCh s ++ [src])).
Proof.
  intros [H1 H2 H3 H4 H5 H6 H7 H8] Hd Hpool Hb <- _ Hin.
  assert (Hq : ∀ h, h ∈ src_hash <$> waitingSources s ∨ h = src_hash src →
    h ∈ src_hash <$> bp_blockHighCh s ++ (bp_blockNormCh s ++ [src]) ++ bp_deOrphanBlocks s).
  { intros h. unfold waitingSources. rewrite !fmap_app, !elem_of_app. cbn. rewrite list_elem_of_singleton. tauto. }
  split; [split; cbn; try done|done|done|].
  - intros h [->|Hh]%Hin; unfold queued; cbn; rewrite !fmap_app, !elem_of_app; [right; right; by left|].
    apply H5 in Hh. unfold queued in Hh. rewrite fmap_app, elem_of_app in Hh. tauto.
  - intros x. unfold waitingSources. cbn. rewrite !elem_of_app, list_elem_of_singleton. intros [?|[[?| ->]|?]]; [|  |done|].
    all: apply H8; unfold waitingSources; rewrite !elem_of_app; tauto.
  - intros t _ Hr _. split; [done|]. rewrite Hb. intros h [[?|[?|[?|Hw]]]|Hw]; [by left|by right; left|by right; right; left|..];
      right; right; right; apply Hq; [by left|right]. apply list_elem_of_singleton in Hw. exact Hw.
Qed.

Lemma handle_block now src s s1 r s' a :
  wf s → bp_deOrphanBlocks s = [] → src ∈ waitingSources s → brings a = [] → runsAt a = Some now →
  s1 = bp_with_queues s (bp_blockInCh s) (bp_blockHighCh s1) (bp_blockNormCh s1) →
  (∀ x, x ∈ bp_blockHighCh s1 ++ bp_blockNormCh s1 → x ∈ waitingSources s) →
  (∀ x, x ∈ bp_blockHighCh s ++ bp_blockNormCh s → x = src ∨ x ∈ bp_blockHighCh s1 ++ bp_blockNormCh s1) →
  processOneBlock now src s1 = (r, s') → r = Panic ∨ r = Ok tt ∧ handled a s s'.
Proof.
  intros [H1 H2 H3 H4 H5 H6 H7 H8] Hd Hsrc Hb Hat Hs1 Hsub Hall Hrun.
  set (q := bp_blockHighCh s1) in *. set (q' := bp_blockNormCh s1) in *.
  assert (Hwf : wf (bp_with_queues s1 (bp_blockInCh s1 ∖ {[src_hash src]}) (bp_blockHighCh s1) (bp_blockNormCh s1))).
  { rewrite Hs1. split; cbn; try done.
    - intros h. cbn. rewrite elem_of_difference, elem_of_singleton. intros [Hh Hne]. apply H5 in Hh. unfold queued in *.
      rewrite list_elem_of_fmap in Hh. destruct Hh as (x & -> & [->|Hx]%Hall); [done|]. apply list_elem_of_fmap. by exists x.
    - intros x. unfold waitingSources. cbn. rewrite Hd, app_nil_r. intros Hx. by apply H8, Hsub. }
  assert (Hd1 : bp_deOrphanBlocks s1 = []) by (by rewrite Hs1).
  destruct (processOneBlock_spec now src s1 r s' Hwf Hd1 (H8 _ Hsrc) Hrun) as [->|(-> & Hwf' & Hd' & Hcl & Hh)]; [by left|right].
  split; [done|]. split; [done|done|by rewrite Hs1 in Hcl|]. intros t Ha Hr Ht.
  destruct (Hh t Ha) as [Hr' Hheld]; [by rewrite Hs1|by apply Ht|]. split; [done|]. rewrite Hb.
  intros h [Hs|?%list.elem_of_nil]; [|done]. apply Hheld. rewrite Hs1.
  destruct Hs as [?|[?|[?|Hw]]]; [by left; left|by left; right; left|by left; right; right; left|].
  unfold waitingSources in Hw. rewrite Hd, app_nil_r, list_elem_of_fmap in Hw. destruct Hw as (x & -> & [->|Hx]%Hall); [by right|].
  left. right. right. right. unfold waitingSources. cbn. rewrite Hd, app_nil_r. apply list_elem_of_fmap. by exists x.
Qed.

Lemma handle_spec a s r s' :
  wf s → bp_deOrphanBlocks s = [] → Forall pool (brings a) → handle a s = (r, s') →
  r = Panic ∧ processes a ∨ (r = Err Blocked ∨ r = Err OutOfFuel ∧ ¬ acyclic pool) ∨ r = Ok tt ∧ handled a s s'.
Proof.
  intros Hwf Hd Hpool. pose proof (wf_pending _ Hwf) as Hpend.
  destruct a as [b from peer|b ch|now|now|now| |now|t|t done|st]; cbn [handle processes].
  - unfold AddBlock, mbind, M_bind, checkAndSetBlockInChan. case_bool_decide as Hin.
    + intros [= <- <-]. right. right. split; [done|]. split; [done|done|done|]. intros t _ Hr _. split; [done|].
      intros h [?|Hh]; [done|]. apply list_elem_of_singleton in Hh as ->. apply (wf_inCh _ Hwf) in Hin.
      right. right. right. unfold queued, waitingSources in *. rewrite !fmap_app, !elem_of_app in *. tauto.
    + unfold sendNorm. case_match; intros [= <- <-]; [right; right|right; left; by left]. split; [done|].
      apply (sent_handled _ b (mkSource b from peer None) s ({[pb_Hash b]} ∪ bp_blockInCh s)); try done; [by inversion_clear Hpool|]. intros h. rewrite elem_of_union, elem_of_singleton. tauto.
  - unfold AddMinedBlock, sendNorm. case_match; intros [= <- <-]; [right; right|right; left; by left]. split; [done|].
    apply (sent_handled _ b); try done; [by inversion_clear Hpool|]. by right.
  - destruct (bp_blockHighCh s) as [|src q] eqn:Eq; [intros [= <- <-]; right; left; by left|]. intros Hrun.
    destruct (handle_block now src s (bp_with_queues s (bp_blockInCh s) q (bp_blockNormCh s)) r s' (act_high now)) as [->|?];
      try done; [..|by left|right; by right]; unfold waitingSources; rewrite Eq; [by left| |].
    + set_solver.
    + set_solver.
  - destruct (bp_blockNormCh s) as [|src q] eqn:Eq; [intros [= <- <-]; right; left; by left|]. intros Hrun.
    destruct (handle_block now src s (bp_with_queues s (bp_blockInCh s) (bp_blockHighCh s) q) r s' (act_norm now)) as [->|?];
      try done; [..|by left|right; by right]; unfold waitingSources; rewrite Eq.
    + set_solver.
    + set_solver.
    + set_solver.
  - intros [[[[] ->]|[-> ?]] Hrt]%orphan_timer_spec; [|right; left; by right|done]. right. right. split; [done|]. by apply retimed_handled.
  - intros [[[[] ->]|[-> ?]] Hrt]%request_timer_spec; [|right; left; by right|done]. right. right. split; [done|]. by apply retimed_handled.
  - intros [->|(-> & Hc & Ht)]%tx_timer_spec; [right; left; by left| |done]. right. right. split; [done|]. by apply calm_handled.
  - intros [->|(-> & Hc & Ht & _ & _)]%onAddStateBlock_spec; [right; left; by left| |done]. right. right. split; [done|]. by apply calm_handled.
  - unfold onAddSyncStateBlock. destruct done.
    + intros [= <- <-]. right. right. split; [done|]. apply retimed_handled; [done|done|]. by apply retimed_refl.
    + intros [->|(-> & Hc & Ht & _ & _)]%onAddStateBlock_spec; [right; left; by left| |done]. right. right. split; [done|]. by apply calm_handled.
  - unfold onPovSyncState. destruct (negb _); intros [= <- <-]; right; right; (split; [done|]).
    + apply retimed_handled; [done|done|]. by apply retimed_refl.
    + apply retimed_handled; [done|done|]. destruct Hwf. by split.
Qed.

End delivery.

(** ** Runs *)
Section runs.
Context {C : Type} `{ProcessorChain C}.
Context {good : C → Prop} {known : C → Hash → Prop} {verified : C → PovBlock → PovGlobalStateDB → Prop}
  {pool : PovBlock → Prop} `{!ChainPromise good known verified pool}.
Implicit Types (s : PovBlockProcessor C).

#[local] Abbreviation wf := (wf (good := good) (known := known) (pool := pool)).

(** [reach W s bs]: the processor gets to [s] by actions at times in [W]; [bs] are the
    blocks it was given.  Outside of the processor the ledger may confirm blocks. *)
Inductive reach (W : Z → Prop) : PovBlockProcessor C → list PovBlock → Prop :=
| reach_start c : good c → reach W (NewPovBlockProcessor c) []
| reach_step s bs a s' : reach W s bs → Forall pool (brings a) → (∀ now, runsAt a = Some now → W now) →
    handle a s = (Ok tt, s') → reach W s' (brings a ++ bs)
| reach_outside s bs c : reach W s bs → good c → (∀ y, known c y ↔ known (bp_chain s) y) → reach W (bp_with_chain s c) bs.

Lemma wf_new c : good c → wf (NewPovBlockProcessor c).
Proof.
  intros Hg. split; cbn; try done; try (intros ? ?; by rewrite lookup_empty).
  - split; intros *; unfold waitingFor; rewrite ?lookup_empty; cbn; try done; [constructor|]. by intros ?%list.elem_of_nil.
  - intros src ?%list.elem_of_nil. done.
Qed.

Lemma reach_wf W s bs : reach W s bs → wf s ∧ bp_deOrphanBlocks s = [].
Proof.
  induction 1 as [c Hg|s bs a s' _ [IH1 IH2] Hp _ Hrun|s bs c _ [IH1 IH2] Hg Hk].
  - split; [by apply wf_new|done].
  - by destruct (handle_spec (clean := λ _, False) a s _ s' IH1 IH2 Hp Hrun) as [[? _]|[[?|[? _]]|[_ [? ? _]]]].
  - split; [by apply wf_with_chain|done].
Qed.

(** ** Theorems *)

(** C19: in every state of a run of the processor the tables of orphans and of waiting
    blocks agree with each other; no orphan waits for a block that is stored; a block that
    waits for transactions waits for at least one, and each of them leads to the block;
    every hash marked as queued is in a queue. *)
Theorem processor_invariant W s bs : reach W s bs → wf s ∧ bp_deOrphanBlocks s = [].
Proof. apply reach_wf. Qed.

(** C25: no handler of the processor runs forever: in every state of a run it returns,
    waits for a queue, or stops with a panic of the verifier or the chain when it processes
    a block.  The given blocks do not form a cycle along their previous hashes, which a
    hash function does not allow: [PoVEngine.AddBlock] recomputes the hash of a block
    before the processor gets it. *)
Theorem handlers_return W s bs a :
  acyclic pool → reach W s bs → Forall pool (brings a) →
  (handle a s).1 = Ok tt ∨ (handle a s).1 = Err Blocked ∨ (handle a s).1 = Panic ∧ processes a.
Proof.
  intros Hac Hre Hp. destruct (reach_wf _ _ _ Hre) as [Hwf Hd]. destruct (handle a s) as [r s'] eqn:E.
  destruct (handle_spec (clean := λ _, False) a s r s' Hwf Hd Hp E) as [?|[[?|[_ ?]]|[? _]]]; cbn; tauto.
Qed.

(** C34: when a transaction has arrived, every block that waited goes on waiting for what it
    misses besides the transaction; a block for which the transaction was the last one
    missing does not wait any more and is in a queue.  No block waits for the transaction. *)
Theorem arrival_releases W s bs txHash s' h ref pd :
  reach W s bs → onAddStateBlock txHash s = (Ok tt, s') →
  bp_pendingBlocks s !! h = Some ref → bp_heap s !! ref = Some pd →
  pd_gapTxs pd ≠ ∅ ∧
  (if decide (delete txHash (pd_gapTxs pd) = ∅) then bp_pendingBlocks s' !! h = None ∧ h ∈ queued s'
   else bp_pendingBlocks s' !! h = Some ref ∧
        bp_heap s' !! ref = Some (mkPending (pd_addTime pd) (pd_blockSrc pd) (delete txHash (pd_gapTxs pd)))) ∧
  ∀ h' ref' pd', bp_pendingBlocks s' !! h' = Some ref' → bp_heap s' !! ref' = Some pd' → pd_gapTxs pd' !! txHash = None.
Proof.
  intros Hre Hrun Hh Hpd. destruct (reach_wf _ _ _ Hre) as [Hwf Hd].
  destruct (po_block _ _ _ _ _ (wf_pending _ Hwf) _ _ Hh) as (pd0 & Hpd0 & _ & [Hne|[]] & _).
  assert (pd0 = pd) as -> by congruence.
  destruct (onAddStateBlock_spec txHash s _ s' (wf_pending _ Hwf) Hrun) as [?|(_ & _ & Hok & Hnone & Hres)]; [done|].
  split_and!; [done|exact (Hres (wf_inCh _ Hwf) h ref pd Hh Hpd)|].
  intros h' ref' pd' Hp Hpd'. destruct (po_block _ _ _ _ _ Hok _ _ Hp) as (pd2 & Hpd2 & _ & _ & Hg).
  assert (pd2 = pd') as -> by congruence. apply eq_None_not_Some. intros [x Hx].
  destruct (Hg _ _ Hx) as [_ [[]|(e & He & _)]]. congruence.
Qed.
End runs.

(** ** Deliveries *)

(** The chain and the verifier with a note of whether they have refused a block: the
    verifier one that misses more than transactions, or the chain one that was verified.
    The processor on top of them is the same. *)
Section noted.
Context {C : Type} `{ProcessorChain C}.

Definition noting {A} (accepts : res A → bool) (m : M C A) : M (C * bool) A := λ '(c, ok),
  let '(r, c') := m c in (r, (c', ok && accepts r)).

Definition takes (r : res PovVerifyStat) : bool :=
  match r with
  | Ok stat => bool_decide (st_Result stat = Progress ∨ st_Result stat = GapTransaction)
  | _ => false
  end.

#[local] Instance noted : ProcessorChain (C * bool) :=
  {| pc_HasBestBlock := λ x h, noting (λ _, true) (pc_HasBestBlock x h);
     pc_GetBlockByHash := λ x, noting (λ _, true) (pc_GetBlockByHash x);
     pc_VerifyFull := λ now b, noting takes (pc_VerifyFull now b);
     pc_InsertBlock := λ b gsdb, noting isOk (pc_InsertBlock b gsdb);
     pc_IsConfirmed := λ c, pc_IsConfirmed c.1 |}.

Lemma noting_run {A} accepts (m : M C A) c r c' :
  noting accepts m c = (r, c') → m c.1 = (r, c'.1) ∧ (c'.2 = true → c.2 = true ∧ accepts r = true).
Proof.
  destruct c as [c ok]. unfold noting. cbn. destruct (m c) as [r0 c0]. intros [= <- <-]. split; [done|]. by intros ?%andb_true_iff.
Qed.

#[local] Instance noted_watch : Watch (C := C * bool) (λ c, c.2 = true).
Proof.
  split.
  - intros x h c r c' [_ Hok]%noting_run Hc. by apply Hok.
  - intros x c r c' [_ Hok]%noting_run Hc. by apply Hok.
  - intros now b c r c' [_ Hok]%noting_run Hc. destruct (Hok Hc) as [? Ht]. split; [done|].
    destruct r as [stat| |]; [|done..]. exists stat. split; [done|]. by apply bool_decide_eq_true in Ht.
  - intros b gsdb c r c' [_ Hok]%noting_run Hc. destruct (Hok Hc) as [? Ht]. split; [done|]. by destruct r as [[]| |].
Qed.

Context {good : C → Prop} {known : C → Hash → Prop} {verified : C → PovBlock → PovGlobalStateDB → Prop}
  {pool : PovBlock → Prop} `{!ChainPromise good known verified pool}.
Implicit Types (s : PovBlockProcessor (C * bool)).

#[local] Instance noted_promise :
  ChainPromise (C := C * bool) (λ c, good c.1) (λ c, known c.1) (λ c, verified c.1) pool.
Proof.
  split.
  - intros x h c r c' Hg [Hm _]%noting_run. by eapply promise_best.
  - intros x c r c' Hg [Hm _]%noting_run. by eapply promise_get.
  - intros now b c r c' Hg Hp Hk [Hm _]%noting_run. by eapply promise_verify.
  - intros b gsdb c r c' Hg Hp Hv [Hm _]%noting_run. by eapply promise_insert.
Qed.

#[local] Abbreviation wf := (wf (good := λ c : C * bool, good c.1) (known := λ c, known c.1) (pool := pool)).
#[local] Abbreviation held := (held (known := λ c : C * bool, known c.1)).

(** [deliveries W s bs]: the processor gets to [s] by actions at times in [W]; [bs] are the
    blocks it was given.  Outside of the processor the ledger may confirm blocks. *)
Inductive deliveries (W : Z → Prop) : PovBlockProcessor (C * bool) → list PovBlock → Prop :=
| deliveries_start c : good c → deliveries W (NewPovBlockProcessor (c, true)) []
| deliveries_step s bs a s' : deliveries W s bs → Forall pool (brings a) → (∀ now, runsAt a = Some now → W now) →
    handle a s = (Ok tt, s') → deliveries W s' (brings a ++ bs)
| deliveries_outside s bs c : deliveries W s bs → good c → (∀ y, known c y ↔ known (bp_chain s).1 y) →
    deliveries W (bp_with_chain s (c, (bp_chain s).2)) bs.

Lemma deliveries_wf W s bs : deliveries W s bs → wf s ∧ bp_deOrphanBlocks s = [] ∧ Forall pool bs.
Proof.
  induction 1 as [c Hg|s bs a s' _ (IH1 & IH2 & IH3) Hp _ Hrun|s bs c _ (IH1 & IH2 & IH3) Hg Hk].
  - split_and!; [by apply wf_new|done|constructor].
  - destruct (handle_spec (clean := λ _, False) a s _ s' IH1 IH2 Hp Hrun) as [[? _]|[[?|[? _]]|[_ [? ? _ _]]]]; try done.
    split_and!; [done|done|by apply Forall_app].
  - split_and!; [by apply wf_with_chain|done|done].
Qed.

Lemma deliveries_held t s bs :
  deliveries (λ now, t ≤ now ≤ t + orphanLifetime) s bs → (bp_chain s).2 = true →
  recent t s ∧ ∀ b, b ∈ bs → held s (pb_Hash b).
Proof.
  induction 1 as [c Hg|s bs a s' Hd IH Hp Hw Hrun|s bs c _ IH Hg Hk]; intros Hok.
  - split; [intros h o; cbn; by rewrite lookup_empty|]. by intros b ?%list.elem_of_nil.
  - destruct (deliveries_wf _ _ _ Hd) as (Hwf & Hde & _).
    destruct (handle_spec (clean := λ c, c.2 = true) a s _ s' Hwf Hde Hp Hrun) as [[? _]|[[?|[? _]]|[_ [_ _ Hcl Hh]]]]; [done..|].
    destruct (IH (Hcl Hok)) as [IH1 IH2]. destruct (Hh t Hok IH1 Hw) as [Hr Hheld]. split; [done|].
    intros b. rewrite elem_of_app. intros [Hb|Hb]; apply Hheld; [right; apply list_elem_of_fmap; by exists b|left; by apply IH2].
  - destruct (IH Hok) as [IH1 IH2]. split; [done|]. intros b Hb. apply held_with_chain; [|by apply IH2]. intros y. apply Hk.
Qed.

(** Blocks on a chain of given blocks from a stored one. *)
Inductive connected (c : C) (bs : list PovBlock) : PovBlock → Prop :=
| connected_stored b : b ∈ bs → known c (pb_Previous b) → connected c bs b
| connected_given b p : b ∈ bs → pb_Previous b = pb_Hash p → connected c bs p → connected c bs b.

(** The hash of a block commits to its parent. *)
Definition collisionFree : Prop :=
  ∀ b b', pool b → pool b' → pb_Hash b = pb_Hash b' → pb_Previous b = pb_Previous b'.

(** C6: blocks are stored in whatever order they arrive.  Take any actions of the processor
    within one hour, the time after which an orphan may be dropped, in which the verifier
    refused no block that it was asked about, except for missing transactions, and the chain
    failed to insert no verified block.  When the queues are empty and no block waits for
    transactions, every given block that is connected to a stored block through given
    blocks is stored. *)
Theorem delivered_blocks_are_stored t s bs b :
  collisionFree → deliveries (λ now, t ≤ now ≤ t + orphanLifetime) s bs → (bp_chain s).2 = true →
  bp_blockHighCh s = [] → bp_blockNormCh s = [] → bp_pendingBlocks s = ∅ →
  connected (bp_chain s).1 bs b → known (bp_chain s).1 (pb_Hash b).
Proof.
  intros Hcf Hdel Hok Hh Hn Hp. destruct (deliveries_wf _ _ _ Hdel) as (Hwf & Hd & Hpool).
  destruct (deliveries_held t s bs Hdel Hok) as [_ Hheld].
  assert (Hstored : ∀ b, b ∈ bs → known (bp_chain s).1 (pb_Previous b) → known (bp_chain s).1 (pb_Hash b)).
  { intros b' Hb Hk. destruct (Hheld b' Hb) as [?|[[o Ho]|[[? E]|E]]]; [done|exfalso..].
    - destruct (oo_orphan _ _ (wf_orphans _ Hwf) _ _ Ho) as [Ex _]. apply (wf_wait _ Hwf _ _ Ho).
      unfold ob_prev, src_prev. erewrite (Hcf _ b'); [done| | |exact Ex].
      + by apply (wf_pool_orphans _ Hwf _ _ Ho).
      + by apply (proj1 (list.Forall_forall pool bs) Hpool).
    - by rewrite Hp, lookup_empty in E.
    - unfold waitingSources in E. rewrite Hh, Hn, Hd in E. by apply list.elem_of_nil in E. }
  induction 1 as [b Hb Hk|b p Hb Hpr _ IH]; apply Hstored; [done..|]. by rewrite Hpr.
Qed.
End noted.
