(* ===== verification/PovEngine.v ===== *)
(** * The proof-of-value engine: processor, verifier, state and chain together

    [consensus/pov/pov_impl.go] builds the block processor on top of the chain and the
    verifier.  Here the interface of the processor is instantiated with the models of the
    chain ([PovChain]), of the verifier ([Pov]) and of the state transition ([PovState]),
    and the promises to the processor are proved of them.

    The verifier reads headers and states through the chain; what its reads leave in the
    caches of the chain is not kept. *)

From S2P Require Import Prelude Types Cache Storage Ledger Contract Check Merkle Target Trie TrieIter TrieStore.
From S2P Require Import Pov PovFacts PovStateDB PovState PovStore PovChain PovTree PovChainFacts PovRuns PovProcessor PovProcessorFacts PovDelivery.

Section engine.
Context `{Crypto} `{Config} `{Node} `{StateCodec} `{PovHooks} `{GcacheLaws}.
(** Constants of the network and the digests of the mining algorithms; below, the coins
    that decide between two heads of equal weight. *)
Context (base : Pov.PovChain).

Record Engine := mkEngine { en_ledger : Ledger; en_chain : PovBlockChain }.
Context (coin : PovBlock → Engine → bool).
Implicit Types (e : Engine) (b : PovBlock).

Definition triesOf e : Hash → res (list Z) := storeGet (db_tries (bc_store (en_chain e))).
Definition triesFuel e : nat := S (size (db_tries (bc_store (en_chain e)))).

Definition stateAt e (stateHash : Hash) : res PovGlobalStateDB := NewPovGlobalStateDB (triesOf e) (triesFuel e) stateHash.

(** The transactions of a block: the blocks found in the ledger, stored under their hashes. *)
Definition povTxs (txs : list StateBlock) : list PovTransaction := (λ tx, mkPovTransaction (SB.GetHash tx) tx) <$> txs.

(** [chain.TransitStateDB] on the state with a hash. *)
Definition transit e (height : Z) (txs : list StateBlock) (stateHash : Hash) : res PovGlobalStateDB :=
  gsdb ← stateAt e stateHash;
  match PovState.TransitStateDB (triesOf e) (triesFuel e) (en_ledger e) height (povTxs txs) gsdb with
  | (Ok _, gsdb') => Ok gsdb'
  | (Err er, _) => Err er
  | (Panic, _) => Panic
  end.

(** What the verifier reads. *)
Definition readerOf e : Pov.PovChain :=
  {| Pov.GetHeaderByHash := λ h, match PovChain.GetHeaderByHash h (en_chain e) with (Ok hdr, _) => hdr | _ => None end;
     tokenStateHash := λ stateHash a token,
       match stateAt e stateHash with
       | Ok gsdb =>
           match lookupAccount (triesOf e) a gsdb with
           | (Ok (Some acc), _) => pts_Hash <$> GetTokenState acc token
           | _ => None
           end
       | _ => None
       end;
     repStateVote := λ stateHash a,
       match stateAt e stateHash with
       | Ok gsdb => match lookupRep (triesOf e) a gsdb with (Ok (Some rs), _) => Some (prs_Vote rs) | _ => None end
       | _ => None
       end;
     stateTrieExists := λ stateHash,
       match stateAt e stateHash with Ok gsdb => bool_decide (is_Some (gs_prevTrie gsdb)) | _ => false end;
     Pov.TransitStateDB := λ height txs stateHash, gsdb ← transit e height txs stateHash; GetCurHash gsdb;
     MinerPledge := @MinerPledge base;
     IsContractAddress := @IsContractAddress base;
     genesisPovHash := @genesisPovHash base;
     ScryptHashData := @ScryptHashData base;
     X11HashData := @X11HashData base |}.

(** [stat.GapTxs]. *)
Definition gapTxs (l : Ledger) b : gmap Hash ProcessResult :=
  list_to_map ((λ t, (t, GapTransaction)) <$>
    List.filter (λ t, negb (isOk (GetStateBlockConfirmed l None t))) (tail (pb_Txs b))).

(** [stat.StateDB]: the state of the parent with the transactions applied. *)
Definition nextState e b : res PovGlobalStateDB :=
  match Pov.GetHeaderByHash (PovChain := readerOf e) (pb_Previous b) with
  | None => Panic
  | Some prev =>
      stateHash ← GetStateHash prev;
      blocks ← txBlocks (en_ledger e) (tail (pb_Txs b));
      transit e (pb_Height b) (default [] blocks) stateHash
  end.

Definition verify (now : Z) b : M Engine PovVerifyStat := λ e,
  match VerifyFull (H1 := readerOf e) now (en_ledger e) b with
  | CheckPanic => (Panic, e)
  | Verdict r _ =>
      (Ok (mkStat r (gapTxs (en_ledger e) b)
             (match nextState e b with Ok gsdb => gsdb | _ => mkGSDB None emptyTrie ∅ ∅ ∅ ∅ ∅ ∅ ∅ end)), e)
  end.

Definition onEngine {A} (m : M PovBlockChain A) : M Engine A := λ e,
  let '(r, c) := m (en_chain e) in (r, mkEngine (en_ledger e) c).

Definition engine : ProcessorChain Engine :=
  {| pc_HasBestBlock := λ x h e, (Ok (HasBestBlock (en_chain e) x h), e);
     pc_GetBlockByHash := λ x, onEngine (GetBlockByHash x);
     pc_VerifyFull := verify;
     pc_InsertBlock := λ b gsdb e, onEngine (InsertBlock (coin b e) b gsdb) e;
     pc_IsConfirmed := λ e t, isOk (GetStateBlockConfirmed (en_ledger e) None t) |}.
#[export] Existing Instance engine.

(** ** What the verifier answers about a block whose parent is stored *)
Definition usual (gap : Prop) (v : verdict) : Prop :=
  match v with
  | CheckPanic => True
  | Verdict Progress er => er = None
  | Verdict GapPrevious _ => False
  | Verdict GapTransaction _ => gap
  | Verdict _ _ => True
  end.

Lemma usual_andThen gap v w : usual gap v → usual gap w → usual gap (andThen v w).
Proof. destruct v as [[] []|]; cbn; done. Qed.

Lemma usual_fromRes {A} gap (r : res A) k onErr :
  (∀ a, r = Ok a → usual gap (k a)) → (∀ er, usual gap (onErr er)) → usual gap (fromRes r k onErr).
Proof. destruct r; cbn; auto. Qed.

Lemma verifyAuxHeader_usual gap b : usual gap (verifyAuxHeader b).
Proof.
  unfold verifyAuxHeader. repeat (case_match; try done). apply usual_fromRes; [|done]. intros size _. case_match; [done|].
  apply usual_fromRes; [|done]. intros nonce _. apply usual_fromRes; [|done]. intros index _. by case_match.
Qed.

Lemma verifyCoinBaseTx_usual gap cb : usual gap (verifyCoinBaseTx cb).
Proof.
  unfold verifyCoinBaseTx. repeat (case_match; try done). apply usual_fromRes; [|done]. intros [] _; [done|].
  apply usual_fromRes; [|done]. by intros [] _.
Qed.

Lemma txBlocks_no_error l txs er : txBlocks l txs ≠ Err er.
Proof.
  induction txs as [|t txs IH]; [done|]. cbn. destruct (GetStateBlockConfirmed l None t); cbn; try done;
    destruct (txBlocks l txs); cbn; congruence.
Qed.

Section answers.
Context (pc : Pov.PovChain) (l : Ledger) (b : PovBlock) (prev : PovHeader).
Context (Hprev : Pov.GetHeaderByHash (h_Previous (pb_Header b)) = Some prev).
#[local] Abbreviation gap := (txBlocks l (tail (pb_Txs b)) = Ok None).

Lemma verifyTransactions_usual : usual gap (verifyTransactions l b).
Proof.
  unfold verifyTransactions. destruct (h_CbTx _) as [cb|]; [|done]. destruct (negb _); [done|].
  destruct (pb_Txs b) as [|coin0 txs]; [done|]. apply usual_fromRes; [|done]. intros root _. do 2 (case_match; [done|]).
  apply usual_fromRes; [|done]. intros cbHash _. apply usual_andThen; [apply verifyCoinBaseTx_usual|]. case_match; [done|].
  cbn [tail]. destruct (txBlocks l txs) as [[bs|]|er|] eqn:E; cbn [fromRes]; [|done|by apply txBlocks_no_error in E|done].
  rewrite Hprev. apply usual_fromRes; [|done]. intros st _. by case_match.
Qed.

Lemma verifyState_usual : usual gap (verifyState l b).
Proof. unfold verifyState. rewrite Hprev. apply usual_fromRes; [|done]. intros r _. by case_match. Qed.

Lemma VerifyFull_usual now : usual gap (VerifyFull now l b).
Proof.
  unfold VerifyFull. repeat apply usual_andThen.
  - unfold verifyDataIntegrity. by repeat case_match.
  - unfold verifyTimestamp. by repeat case_match.
  - unfold verifyReferred. rewrite Hprev. by repeat case_match.
  - apply verifyAuxHeader_usual.
  - by apply usual_fromRes.
  - apply verifyTransactions_usual.
  - apply verifyState_usual.
Qed.
End answers.

(** The gaps reported are the transactions that are not confirmed. *)
Lemma gapTxs_only l b t x : gapTxs l b !! t = Some x → x = GapTransaction.
Proof.
  unfold gapTxs. intros Hx%elem_of_list_to_map_2. apply list_elem_of_fmap in Hx as (t' & [= _ ->] & _). done.
Qed.

Lemma gapTxs_some l b : txBlocks l (tail (pb_Txs b)) = Ok None → gapTxs l b ≠ ∅.
Proof.
  intros Hgap He.
  assert (Hex : ∃ t, t ∈ tail (pb_Txs b) ∧ isOk (GetStateBlockConfirmed l None t) = false).
  { clear He. revert Hgap. generalize (tail (pb_Txs b)). intros txs. induction txs as [|t txs IH]; [done|]. cbn.
    destruct (GetStateBlockConfirmed l None t) as [sb|er|] eqn:E; cbn; [|intros _; exists t; split; [by left|by rewrite E]|done].
    destruct (txBlocks l txs) as [[bs|]|er|]; cbn; try done. intros _. destruct IH as (t' & ? & ?); [done|].
    exists t'. split; [by right|done]. }
  destruct Hex as (t & Hin & Ht). unfold gapTxs in He.
  assert (Hnone : (list_to_map ((λ t, (t, GapTransaction)) <$> List.filter (λ t, negb (isOk (GetStateBlockConfirmed l None t)))
    (tail (pb_Txs b))) : gmap Hash ProcessResult) !! t = None) by (by rewrite He, lookup_empty).
  apply not_elem_of_list_to_map in Hnone. apply Hnone. rewrite <- list_fmap_compose. apply list_elem_of_fmap. exists t.
  split; [done|]. rewrite list_elem_of_In, filter_In, <- list_elem_of_In. by rewrite Ht.
Qed.

(** ** Reads of the chain *)
Lemma header_read c tl x : core c tl →
  ∃ c', PovChain.GetHeaderByHash x c = (Ok (pb_Header <$> blockAt (bc_store c) x), c').
Proof.
  intros Hc. pose proof (ok_tree _ _ Hc) as Ht. unfold PovChain.GetHeaderByHash, hash_IsZero.
  destruct (Z.eqb_spec x 0) as [->|Hx]; [exists c; by rewrite (tr_zero _ _ Ht)|].
  unfold mbind, M_bind, cached. destruct (cacheGet x (bc_hashHeader c)) as [[hdr|] k] eqn:E.
  - assert (Hh : PovChain.held x (bc_hashHeader c) = Some hdr) by (unfold PovChain.held; by rewrite E).
    destruct (ok_header _ _ Hc _ _ Hh) as (b & Hb & <-). rewrite Hb. by eexists.
  - unfold tryS, readS, GetPovHeaderByHash, GetPovHeight. cbn [bc_with_hashHeader bc_store].
    destruct (blockAt (bc_store c) x) as [b|] eqn:Eb.
    + unfold blockAt in Eb. apply bind_Some in Eb as (h & Hh & (hdr & Hhdr & (txs & _ & [= <-])%bind_Some)%bind_Some).
      rewrite Hh. cbn. unfold GetPovHeader. rewrite Hhdr. by eexists.
    + rewrite (blockAt_None _ _ (tr_tables _ _ Ht) Eb). by eexists.
Qed.

Lemma core_hashBlock c tl k : core c tl → hcoh (bc_store c) k → core (bc_with_hashBlock c k) tl.
Proof. intros [] Hk. by split. Qed.

Lemma best_is_stored c tl x h : core c tl → HasBestBlock c x h = true → is_Some (blockAt (bc_store c) x).
Proof.
  intros Hc. unfold HasBestBlock, HasFullBlock. rewrite andb_true_iff, orb_true_iff. intros [[Hx|Hx] _].
  - rewrite has_held, bool_decide_eq_true in Hx. destruct Hx as [b Hb]. exists b. by apply (ok_hash _ _ Hc).
  - rewrite HasPovBlock_blockAt in Hx by apply (ok_tree _ _ Hc). by destruct (blockAt _ x).
Qed.

(** ** The blocks in play *)
Definition stored e (x : Hash) : Prop := is_Some (blockAt (bc_store (en_chain e)) x).

(** A block got through the verifier of a node on which its parent was stored. *)
Definition wasVerified (g : PovBlock) b : Prop :=
  ∃ e tl now, running g (en_chain e) tl ∧ stored e (pb_Previous b) ∧
    VerifyFull (H1 := readerOf e) now (en_ledger e) b = pass.

(** About the blocks of [pool] that get through the verifier, and only about these: a hash
    names one block, and heights and targets are in the range of the arithmetic. *)
Record inPlay (g : PovBlock) (pool : PovBlock → Prop) : Prop := {
  ip_apart b : pool b → wasVerified g b → pb_Hash b ≠ pb_Hash g;
  ip_unique b b' : pool b → wasVerified g b → pool b' → wasVerified g b' → pb_Hash b = pb_Hash b' → same b b';
  ip_height b : pool b → wasVerified g b → pb_Height b < MaxUint64;
  ip_target b : pool b → wasVerified g b → 0 < GetNormTargetInt (pb_Header b) < 2 ^ 256;
}.

Section promises.
Context (g : PovBlock) (pool : PovBlock → Prop) (Hplay : inPlay g pool).
#[local] Abbreviation wasVerified := (wasVerified g).

Definition sound_engine e : Prop :=
  (∃ tl, running g (en_chain e) tl) ∧
  ∀ x b, blockAt (bc_store (en_chain e)) x = Some b → same g b ∨ ∃ b0, pool b0 ∧ same b0 b ∧ wasVerified b0.

Definition cleared e b (gsdb : PovGlobalStateDB) : Prop :=
  admissible (bc_store (en_chain e)) b ∧ wasVerified b ∧ nextState e b = Ok gsdb.

Lemma verified_admissible e b now :
  sound_engine e → pool b → stored e (pb_Previous b) →
  VerifyFull (H1 := readerOf e) now (en_ledger e) b = pass → admissible (bc_store (en_chain e)) b.
Proof.
  intros [(tl & Hrun) Hhist] Hb [p Hp] Hv. pose proof Hrun as [[Hc _] Hg]. pose proof (ok_tree _ _ Hc) as Ht.
  assert (Hver : wasVerified b) by (exists e, tl, now; split_and!; [done|by exists p|done]).
  destruct (header_read _ _ (pb_Previous b) Hc) as (c' & Hread). rewrite Hp in Hread.
  unfold VerifyFull in Hv. apply andThen_pass in Hv as [Hd Hv]. apply andThen_pass in Hv as [_ Hv]. apply andThen_pass in Hv as [Hr _].
  unfold verifyReferred in Hr. cbn [readerOf Pov.GetHeaderByHash] in Hr. fold (pb_Previous b) in Hr. rewrite Hread in Hr.
  cbn [fmap option_fmap option_map] in Hr. fold (pb_Height b) (pb_Height p) in Hr.
  destruct (Z.eqb_spec (pb_Height b) (u64 (pb_Height p + 1))) as [Hh|]; [clear Hr|done].
  pose proof (tr_range _ _ Ht _ _ Hp). rewrite u64_small in Hh by (unfold MaxUint64 in *; lia).
  split; [by exists p|by apply (ip_height _ _ Hplay)| |by apply (ip_target _ _ Hplay)|].
  - unfold verifyDataIntegrity in Hd. do 2 (case_match; [done|]). unfold hash_IsZero in Hd. fold (pb_Hash b) in Hd.
    by destruct (Z.eqb_spec (pb_Hash b) 0).
  - intros b' Hb'. pose proof (blockAt_self Ht _ _ Hb') as Hx. destruct (Hhist _ _ Hb') as [Hs|(y & Hy & Hs & Hyv)].
    + destruct (same_fields _ _ Hs) as (Hgx & _). destruct (ip_apart _ _ Hplay b Hb Hver). congruence.
    + etrans; [|exact Hs]. apply (ip_unique _ _ Hplay); [done..|]. destruct (same_fields _ _ Hs) as (-> & _). done.
Qed.

Lemma reader_finds e tl x p : core (en_chain e) tl → blockAt (bc_store (en_chain e)) x = Some p →
  Pov.GetHeaderByHash (PovChain := readerOf e) x = Some (pb_Header p).
Proof. intros Hc Hp. destruct (header_read _ _ x Hc) as (c' & Hr). cbn. by rewrite Hr, Hp. Qed.

(** The state that the verifier computed is the one to be saved. *)
Lemma verified_state e b now :
  VerifyFull (H1 := readerOf e) now (en_ledger e) b = pass → ∃ gsdb, nextState e b = Ok gsdb.
Proof.
  unfold VerifyFull. intros Hv. do 6 (apply andThen_pass in Hv as [_ Hv]). unfold verifyState in Hv. unfold nextState.
  fold (pb_Previous b) (pb_Height b) in Hv. destruct (Pov.GetHeaderByHash (pb_Previous b)) as [prev|]; [|done].
  apply fromRes_pass in Hv as (a & Ha & _); [|done]. destruct (GetStateHash prev) as [st| |]; [|done..].
  cbn [mbind res_bind] in Ha |- *. destruct (txBlocks _ _) as [bs| |]; [|done..]. cbn [mbind res_bind] in Ha |- *.
  cbn [readerOf Pov.TransitStateDB] in Ha. destruct (transit e (pb_Height b) (default [] bs) st) as [gsdb| |]; [by exists gsdb|done..].
Qed.

Lemma sound_chain e c : sound_engine e → (∃ tl, running g c tl) →
  (∀ x b, blockAt (bc_store c) x = Some b → blockAt (bc_store (en_chain e)) x = Some b) → sound_engine (mkEngine (en_ledger e) c).
Proof. intros [_ Hhist] Hr Hsub. split; [done|]. intros x b Hb. apply (Hhist x), Hsub, Hb. Qed.

Lemma running_hashBlock c tl k : running g c tl → hcoh (bc_store c) k → running g (bc_with_hashBlock c k) tl.
Proof. intros [(Hc & ? & ?) ?] Hk. split; [|done]. split; [by apply core_hashBlock|done]. Qed.

Lemma engine_verify now b e r e' :
  sound_engine e → pool b → stored e (pb_Previous b) → verify now b e = (r, e') →
  r = Panic ∨ ∃ stat, r = Ok stat ∧ sound_engine e' ∧ (∀ y, stored e' y ↔ stored e y) ∧ st_Result stat ≠ GapPrevious ∧
    (st_Result stat = GapTransaction →
      st_GapTxs stat ≠ ∅ ∧ ∀ t x, st_GapTxs stat !! t = Some x → x = GapTransaction) ∧
    (st_Result stat = Progress → cleared e' b (st_StateDB stat)).
Proof.
  intros He Hb [p Hp] Hrun. pose proof He as [(tl & Hr) _]. pose proof Hr as [(Hc & _) _].
  pose proof (VerifyFull_usual (readerOf e) (en_ledger e) b (pb_Header p) (reader_finds e tl _ p Hc Hp) now) as Hu.
  unfold verify in Hrun. destruct (VerifyFull now (en_ledger e) b) as [v er|] eqn:Ev; injection Hrun as <- <-; [|by left].
  right. eexists. split; [done|]. cbn [st_Result st_GapTxs st_StateDB]. split_and!; try done.
  - by intros ->.
  - intros ->. split; [by apply gapTxs_some|]. apply gapTxs_only.
  - intros ->. cbn in Hu. subst er. change (Verdict Progress None) with pass in Ev.
    destruct (verified_state e b now Ev) as (gsdb & Hst). rewrite Hst.
    assert (Hin : stored e (pb_Previous b)) by (by exists p). split_and!; [by eapply verified_admissible|by exists e, tl, now|done].
Qed.

Lemma engine_insert flip b gsdb e r e' :
  sound_engine e → pool b → cleared e b gsdb → onEngine (InsertBlock flip b gsdb) e = (r, e') →
  match r with
  | Ok _ => sound_engine e' ∧ ∀ y, stored e' y ↔ y = pb_Hash b ∨ stored e y
  | Err _ => sound_engine e' ∧ ∀ y, stored e' y ↔ stored e y
  | Panic => True
  end.
Proof.
  intros He Hb (Had & Hver & _) Hrun. pose proof He as [(tl & Hr) Hhist].
  destruct (running_insert g (en_chain e) tl flip b gsdb Hr Had) as (tl' & es & Hr' & _ & _).
  destruct (insertion_steps (en_chain e) tl b flip gsdb (proj1 Hr) Had) as (r0 & c1 & c' & Hout & Hins & _ & Hpart & _ & Hfail).
  unfold onEngine in Hrun. rewrite Hins in Hrun, Hr'. injection Hrun as <- <-. cbn [snd] in Hr'.
  destruct (treePart_reads _ _ Hpart) as (Hreads & _ & _).
  assert (Hadded : added (en_chain e) c1 b → sound_engine (mkEngine (en_ledger e) c') ∧
    ∀ y, stored (mkEngine (en_ledger e) c') y ↔ y = pb_Hash b ∨ stored e y).
  { intros ((b1 & Hb1 & Hs1) & Hkeep & Hnew). unfold stored. cbn [en_chain]. split.
    - split; [by exists tl'|]. cbn [en_chain]. intros x b'. rewrite Hreads. intros Hx. destruct (Hnew _ _ Hx) as [->|Hold]; [|by apply (Hhist x)].
      right. exists b. split_and!; [done| |done]. congruence.
    - intros y. rewrite Hreads. split.
      + intros [b' Hy]. destruct (Hnew _ _ Hy) as [->|?]; [by left|right; by exists b'].
      + intros [->|[b' Hy]]; [by exists b1|exists b'; by apply Hkeep]. }
  destruct Hout as [r0 c1 Hno _ _ _ Hst _ _|c1 _ _ Ha|c1 hd _ _ Ha|c1 A D f l _ _ Ha]; cbn; [|by apply Hadded..].
  destruct r0 as [x|er|]; [by destruct (Hno x)| |done]. cbn.
  assert (Hsame : ∀ x, blockAt (bc_store c') x = blockAt (bc_store (en_chain e)) x) by (intros x; by rewrite Hreads, Hst).
  split; [|intros y; unfold stored; cbn; by rewrite Hsame]. apply sound_chain; [done|by exists tl'|]. intros x b'. by rewrite Hsame.
Qed.

#[export] Instance engine_promise : ChainPromise sound_engine stored cleared pool.
Proof.
  split.
  - intros x h e r e' He [= <- <-]. pose proof He as [(tl & (Hc & _) & _) _]. eexists. split_and!; [done..|]. by eapply best_is_stored.
  - intros x e r e' He. pose proof He as [(tl & Hr) _]. pose proof Hr as [(Hc & _) _]. pose proof (ok_tree _ _ Hc) as Ht.
    cbn. unfold onEngine.
    destruct (GetBlockByHash_spec (en_chain e) x (tr_tables _ _ Ht) (tr_zero _ _ Ht) (ok_hash _ _ Hc)) as (k & -> & Hk).
    intros [= <- <-]. eexists. split_and!; [done| |done|done]. apply sound_chain; [done| |done]. exists tl. by apply running_hashBlock.
  - apply engine_verify.
  - intros b gsdb e r e'. apply engine_insert.
Qed.

(** A node that was reset to the genesis block is sound. *)
Lemma reset_sound kvs db c l : wf_genesis g → ResetChainState g kvs (newChain db g) = (Ok tt, c) → sound_engine (mkEngine l c).
Proof.
  intros Hg Hrun. destruct (reset_indexed g kvs db c Hg Hrun) as (Hi & Hgen & _). split; cbn [en_chain].
  { exists []. split; [done|]. by rewrite Hgen. }
  intros x b Hb. left. destruct (reset_store g kvs db c Hg Hrun) as (tries & Hst & _). rewrite Hst in Hb.
  change (blockAt (withBlock g (CalcTotalDifficulty NewPovTD (pb_Header g)) (db_with_tries emptyPovDB tries)) x = Some b) in Hb.
  rewrite blockAt_withBlock in Hb. case_decide; [by injection Hb as <-|]. unfold blockAt in Hb. cbn in Hb. by rewrite lookup_empty in Hb.
Qed.

(** C2: a node on which the processor, the verifier, the state and the chain work together
    follows the heaviest chain of verified blocks: after any handlers, in any order and
    whatever blocks they were given, the best chain is a branch from the genesis block to
    the heaviest stored block, and every stored block other than the genesis block was
    accepted by the verifier at a time when its parent was stored.  Assumed of the given
    blocks that the verifier accepts, of no others: none has the hash of the genesis block,
    two of the same hash are the same block, heights are below 2^64 - 1 and targets between
    0 and 2^256. *)
Theorem engine_follows_verified_chain W s bs :
  reach (good := sound_engine) (known := stored) (pool := pool) W s bs →
  onHeaviest g (en_chain (bp_chain s)) ∧
  ∀ x b, blockAt (bc_store (en_chain (bp_chain s))) x = Some b → same g b ∨ ∃ b0, pool b0 ∧ same b0 b ∧ wasVerified b0.
Proof.
  intros Hre. destruct (reach_wf (verified := cleared) W s bs Hre) as [Hwf _].
  destruct (wf_chain _ Hwf) as [(tl & Hr) Hhist]. split; [by eapply running_onHeaviest|exact Hhist].
Qed.
End promises.
End engine.
