(* ===== verification/Election.v ===== *)
(** * Elections: [consensus/dpos/votes.go], [election.go], [active_transactions.go]

    Blocks that extend the same account at the same place compete in an election.
    Representatives vote with the weight delegated to them; a block whose votes weigh
    more than half of the supply is processed and its rivals are rolled back.  The file
    models the handlers; what they guarantee is in [ElectionFacts.v].

    An election is shared by the map of roots and the map from block hashes to
    elections, so elections live in a heap and the maps hold references.  The maps are
    [sync.Map]s whose iteration order is not specified: the model iterates in an order
    given by [rangeVotes], [rangeTotals] and [rangeBlocks].  Messages to channels and to
    the event bus are appended to [d_out]. *)

From S2P Require Import Prelude Types Cache Storage Ledger Contract GoBytes Check Process Rollback Unchecked.

(** ** Votes *)
Record voteInfo := mkVoteInfo { vi_account : Address; vi_hash : Hash }.

Inductive tallyResult := TallyVote | TallyChanged | TallyConfirm.

(** [voteStatus] on the map of votes, with the map it leaves. *)
Definition voteStatus (repVotes : gmap Address Hash) (vi : voteInfo) : tallyResult * gmap Address Hash :=
  match repVotes !! vi_account vi with
  | None => (TallyVote, <[vi_account vi:=vi_hash vi]> repVotes)
  | Some h =>
      if h =? vi_hash vi then (TallyConfirm, repVotes)
      else (TallyChanged, <[vi_account vi:=vi_hash vi]> repVotes)
  end.

(** ** State *)
Record BlockReceivedVotes := mkBRV { brv_block : StateBlock; brv_balance : Balance }.

Record Election := mkElection {
  el_id : Hash;                          (* vote.id *)
  el_repVotes : gmap Address Hash;       (* vote.repVotes *)
  el_winner : StateBlock;                (* status.winner *)
  el_loser : list StateBlock;            (* status.loser *)
  el_lastTime : Z;
  el_voteHash : Hash;
  el_blocks : gmap Hash StateBlock;
  el_frontier : gset Hash;
  el_valid : bool;
}.

Inductive frontierStatus :=
| frontierInvalid | frontierWaitingForVote | frontierConfirmed | frontierChainConfirmed
| frontierChainFinished.

#[global] Instance frontierStatus_eq_dec : EqDecision frontierStatus.
Proof. solve_decision. Defined.

(** What the handlers send. *)
Inductive Action :=
| SubAck (hash : Hash)
| BatchVote (hash : Hash)
| VoteInc (hash : Hash) (account : Address)
| AckedNotify (index : Z) (hash : Hash)
| PublishNotify (index : Z) (hash : Hash)
| TokenNotify (index : Z) (hash : Hash)
| ConfirmReqs (bs : list StateBlock)
| FrontierQueued (b : StateBlock)
| ConfirmedBlock (b : StateBlock)
| SyncAcked (hash : Hash)
| AckQueued (vi : voteInfo)
| PublishReq (b : StateBlock)
| GapHeightMsg (height : Z)
| CheckFinish.

Record DPoS := mkDPoS {
  d_ledger : Ledger;
  d_heap : gmap nat Election;
  d_roots : gmap Hash nat;
  d_hash2el : gmap Hash nat;
  d_localRep : list Address;             (* localRepAccount *)
  d_online : gset Address;               (* isOnline *)
  d_minVoteWeight : Balance;
  d_voteThreshold : Balance;
  d_totalVote : gmap Address Balance;
  d_frontiersStatus : gmap Hash frontierStatus;
  d_confirmedChain : gmap Hash bool;
  d_out : list Action;
}.

Definition with_ledger (s : DPoS) (l : Ledger) : DPoS :=
  mkDPoS l (d_heap s) (d_roots s) (d_hash2el s) (d_localRep s) (d_online s) (d_minVoteWeight s)
    (d_voteThreshold s) (d_totalVote s) (d_frontiersStatus s) (d_confirmedChain s) (d_out s).
Definition with_heap (s : DPoS) (h : gmap nat Election) : DPoS :=
  mkDPoS (d_ledger s) h (d_roots s) (d_hash2el s) (d_localRep s) (d_online s) (d_minVoteWeight s)
    (d_voteThreshold s) (d_totalVote s) (d_frontiersStatus s) (d_confirmedChain s) (d_out s).
Definition with_roots (s : DPoS) (r : gmap Hash nat) : DPoS :=
  mkDPoS (d_ledger s) (d_heap s) r (d_hash2el s) (d_localRep s) (d_online s) (d_minVoteWeight s)
    (d_voteThreshold s) (d_totalVote s) (d_frontiersStatus s) (d_confirmedChain s) (d_out s).
Definition with_hash2el (s : DPoS) (r : gmap Hash nat) : DPoS :=
  mkDPoS (d_ledger s) (d_heap s) (d_roots s) r (d_localRep s) (d_online s) (d_minVoteWeight s)
    (d_voteThreshold s) (d_totalVote s) (d_frontiersStatus s) (d_confirmedChain s) (d_out s).
Definition with_frontiers (s : DPoS) (f : gmap Hash frontierStatus) (c : gmap Hash bool) : DPoS :=
  mkDPoS (d_ledger s) (d_heap s) (d_roots s) (d_hash2el s) (d_localRep s) (d_online s) (d_minVoteWeight s)
    (d_voteThreshold s) (d_totalVote s) f c (d_out s).
Definition with_totalVote (s : DPoS) (t : gmap Address Balance) : DPoS :=
  mkDPoS (d_ledger s) (d_heap s) (d_roots s) (d_hash2el s) (d_localRep s) (d_online s) (d_minVoteWeight s)
    (d_voteThreshold s) t (d_frontiersStatus s) (d_confirmedChain s) (d_out s).
Definition add_out (s : DPoS) (a : Action) : DPoS :=
  mkDPoS (d_ledger s) (d_heap s) (d_roots s) (d_hash2el s) (d_localRep s) (d_online s) (d_minVoteWeight s)
    (d_voteThreshold s) (d_totalVote s) (d_frontiersStatus s) (d_confirmedChain s) (d_out s ++ [a]).

Definition set_votes (el : Election) (v : gmap Address Hash) : Election :=
  mkElection (el_id el) v (el_winner el) (el_loser el) (el_lastTime el) (el_voteHash el)
    (el_blocks el) (el_frontier el) (el_valid el).
Definition set_loser (el : Election) (l : list StateBlock) : Election :=
  mkElection (el_id el) (el_repVotes el) (el_winner el) l (el_lastTime el) (el_voteHash el)
    (el_blocks el) (el_frontier el) (el_valid el).
Definition set_voteHash (el : Election) (h : Hash) : Election :=
  mkElection (el_id el) (el_repVotes el) (el_winner el) (el_loser el) (el_lastTime el) h
    (el_blocks el) (el_frontier el) (el_valid el).
Definition set_blocks (el : Election) (b : gmap Hash StateBlock) : Election :=
  mkElection (el_id el) (el_repVotes el) (el_winner el) (el_loser el) (el_lastTime el) (el_voteHash el)
    b (el_frontier el) (el_valid el).
Definition set_frontier (el : Election) (f : gset Hash) : Election :=
  mkElection (el_id el) (el_repVotes el) (el_winner el) (el_loser el) (el_lastTime el) (el_voteHash el)
    (el_blocks el) f (el_valid el).
Definition set_valid (el : Election) (v : bool) : Election :=
  mkElection (el_id el) (el_repVotes el) (el_winner el) (el_loser el) (el_lastTime el) (el_voteHash el)
    (el_blocks el) (el_frontier el) v.

Definition out (a : Action) : M DPoS unit := modifyS (λ s, add_out s a).

(** A reference is always one that [newElection] returned. *)
Definition getEl (id : nat) : M DPoS Election :=
  readS (λ s, match d_heap s !! id with Some el => Ok el | None => Panic end).
Definition setEl (id : nat) (el : Election) : M DPoS unit :=
  modifyS (λ s, with_heap s (<[id:=el]> (d_heap s))).

(** Calls into the ledger.  A call that waits for room in the write cache never
    returns here. *)
Definition onLedger {A} (m : M Ledger A) : M DPoS A := λ s,
  let '(r, l) := m (d_ledger s) in (r, with_ledger s l).
Definition onCache (f : Ledger → option (res unit * Ledger)) : M DPoS unit := λ s,
  match f (d_ledger s) with
  | Some (r, l) => (r, with_ledger s l)
  | None => (Err OutOfFuel, s)
  end.

(** An error that is only logged. *)
Definition logged (m : M DPoS unit) : M DPoS unit := λ s,
  match m s with
  | (Err OutOfFuel, s') => (Err OutOfFuel, s')
  | (Err _, s') => (Ok tt, s')
  | r => r
  end.

Fixpoint iterD {A} (f : A → M DPoS unit) (xs : list A) : M DPoS unit :=
  match xs with [] => mret tt | x :: xs' => f x;; iterD f xs' end.

(** What the code around the elections gives: the number of processors, the blocks that
    the proof-of-value chain has packed, and the decoding of contract calls. *)
Class Consensus := {
  processorNum : Z;
  HasPovTxLookup : Ledger → Hash → bool;
  PubKeyDistributionAddress : Address;
  isPKDPublish : list Z → bool;
  isMintage : list Z → bool;
  mintageWithdrawToken : list Z → option Hash;
  pkdOracleHash : list Z → Hash;
}.

Section election.
Context `{Crypto} `{Config} `{Node} `{Unicode} `{Consensus}.
Variables (now : Z) (tick : bool) (queueCap : nat).
Variables (order1 order2 : gmap Hash StateBlock → list StateBlock).
Variables (rangeVotes : gmap Address Hash → list (Address * Hash)).
Variables (rangeTotals : gmap Hash BlockReceivedVotes → list BlockReceivedVotes).
Variables (rangeBlocks : gmap Hash StateBlock → list (Hash * StateBlock)).

Definition getVoteKey (block : StateBlock) : Hash :=
  if SB.IsOpen block then HashBytes [hash_bytes (sb_Address block); hash_bytes (sb_Token block)]
  else sb_Previous block.

Definition getProcessorIndex (address : Address) : Z := address mod 256 mod processorNum.

(** ** The tally *)
Definition weightOf (s : DPoS) (isSync : bool) (rep : Address) : res Balance :=
  if isSync then
    match d_totalVote s !! rep with
    | Some w => Ok w
    | None => Weight (d_ledger s) rep
    end
  else Weight (d_ledger s) rep.

Definition tallyStep (weight : Address → res Balance) (blocks : gmap Hash StateBlock)
    (acc : res (gmap Hash BlockReceivedVotes)) (v : Address * Hash) : res (gmap Hash BlockReceivedVotes) :=
  totals ← acc;
  let '(rep, hash) := v in
  let entry :=
    match totals !! hash with
    | Some x => Some x
    | None => (λ b, mkBRV b Bal.ZeroBalance) <$> blocks !! hash
    end in
  match entry with
  | None => Ok totals
  | Some x =>
      w ← weight rep;
      balance ← Bal.Add (brv_balance x) w;
      Ok (<[hash := mkBRV (brv_block x) balance]> totals)
  end.

Definition tally (weight : Address → res Balance) (el : Election) : res (gmap Hash BlockReceivedVotes) :=
  foldl (tallyStep weight (el_blocks el)) (Ok ∅) (rangeVotes (el_repVotes el)).

(** The loop over the totals: the first entry with the greatest weight. *)
Definition bestStep (acc : res (Balance * StateBlock)) (v : BlockReceivedVotes) : res (Balance * StateBlock) :=
  a ← acc;
  c ← Bal.Compare a.1 (brv_balance v);
  Ok (if bool_decide (c = BalanceCompSmaller) then (brv_balance v, brv_block v) else a).

Definition best (t : gmap Hash BlockReceivedVotes) : res (Balance * StateBlock) :=
  foldl bestStep (Ok (Bal.ZeroBalance, emptyBlock)) (rangeTotals t).

Definition exceeds (b threshold : Balance) : res bool :=
  c ← Bal.Compare b threshold; Ok (bool_decide (c = BalanceCompBigger)).

(** [atomic.CompareAndSwapInt32(&el.valid, 1, 0)]. *)
Definition ifValidAndSetInvalid (id : nat) : M DPoS bool :=
  el ← getEl id;
  if el_valid el then setEl id (set_valid el false);; mret true else mret false.

Definition rootsDelete (key : Hash) : M DPoS unit :=
  modifyS (λ s, with_roots s (delete key (d_roots s))).

(** [unsubAckDo] does nothing. *)
Definition cleanBlockInfo (id : nat) : M DPoS unit :=
  el ← getEl id;
  modifyS (λ s, with_hash2el s (foldr (λ e m, delete e.1 m) (d_hash2el s) (rangeBlocks (el_blocks el)))).

(** ** Effects on the ledger *)
Definition rollBackOne (v : StateBlock) : M DPoS unit :=
  let hash := SB.GetHash v in
  s ← getS;
  if HasStateBlock (d_ledger s) hash
  then logged (onCache (Rollback now queueCap order1 order2 tick hash))
  else mret tt.

Definition rollBack (blocks : list StateBlock) : M DPoS unit := iterD rollBackOne blocks.

(** The counters of confirmed blocks are left out. *)
Definition addWinner2Ledger (block : StateBlock) : M DPoS unit :=
  s ← getS;
  if HasStateBlockConfirmed (d_ledger s) (SB.GetHash block) then mret tt
  else logged (onCache (BlockProcess now tick block)).

Definition chainFinished (hash : Hash) : M DPoS unit :=
  s ← getS;
  match d_frontiersStatus s !! hash with
  | Some _ =>
      putS (with_frontiers s (<[hash:=frontierChainFinished]> (d_frontiersStatus s)) (d_confirmedChain s));;
      out CheckFinish
  | None => mret tt
  end.

Definition addSyncBlock2Ledger (block : StateBlock) : M DPoS unit :=
  addWinner2Ledger block;; chainFinished (SB.GetHash block).

(** ** Notifying the processors of a confirmed block *)
Definition notifyOther (localIndex : Z) (address : Address) (hash : Hash) : M DPoS unit :=
  let index := getProcessorIndex address in
  if localIndex =? index then mret tt else out (AckedNotify index hash).

(** A publication is announced to every other processor. *)
Definition dispatchContractSend (blk : StateBlock) (hash : Hash) (localIndex : Z) : M DPoS unit :=
  if SB.IsPrivate blk && negb (SB.IsRecipient blk)
  then logged (onLedger (DeleteUncheckedBlock hash UncheckedKindLink))
  else
    s ← getS;
    match GetChainContract (sb_Link blk) (SB.GetPayload blk) with
    | Some c =>
        match NewVMContextWithBlock (d_ledger s) blk with
        | None => mret false
        | Some ctx =>
            dstAddr ← liftR match GetTargetReceiver c (d_ledger s) ctx blk with
                            | Err _ => Ok 0
                            | r => r
                            end;
            (if dstAddr =? 0 then mret tt else notifyOther localIndex dstAddr hash);;
            mret true
        end
    | None => mret true
    end ≫= λ continues,
    if (continues : bool) && (sb_Link blk =? PubKeyDistributionAddress) && isPKDPublish (SB.GetPayload blk)
    then iterD (λ i, if localIndex =? i then mret tt else out (PublishNotify i hash)) (seqZ 0 processorNum)
    else mret tt.

Definition dispatchContractReward (blk : StateBlock) (hash : Hash) (localIndex : Z) : M DPoS unit :=
  if SB.IsPrivate blk && negb (SB.IsRecipient blk) then mret tt
  else
    s ← getS;
    match GetStateBlockConfirmed (d_ledger s) None (sb_Link blk) with
    | Panic => liftR Panic
    | Err _ => mret tt
    | Ok input =>
        if (sb_Link input =? MintageAddress) && isMintage (SB.GetPayload input) then
          let index := getProcessorIndex (sb_Address input) in
          if localIndex =? index then mret tt else out (TokenNotify index hash)
        else mret tt
    end.

Definition dispatchAckedBlock (blk : StateBlock) (hash : Hash) (localIndex : Z) : M DPoS unit :=
  localIndex ← (if localIndex =? -1
                then let i := getProcessorIndex (sb_Address blk) in out (AckedNotify i hash);; mret i
                else mret localIndex);
  match sb_Type blk with
  | Send => notifyOther localIndex (sb_Link blk) hash
  | ContractSend => dispatchContractSend blk hash localIndex
  | ContractReward => dispatchContractReward blk hash localIndex
  | _ => mret tt
  end.

(** ** An election *)
Definition updateVoteStatistic (id : nat) (confirmedHash : Hash) : M DPoS unit :=
  el ← getEl id;
  iterD (λ v, if (v.2 : Hash) =? confirmedHash then out (VoteInc confirmedHash v.1) else mret tt)
    (rangeVotes (el_repVotes el)).

(** The losers: the first block of the election and every block with votes, unless
    confirmed. *)
Definition losers (el : Election) (t : gmap Hash BlockReceivedVotes) (confirmedHash : Hash) : list StateBlock :=
  el_loser el ++
  (if SB.GetHash (el_winner el) =? confirmedHash then [] else [el_winner el]) ++
  filter (λ b, SB.GetHash b ≠ confirmedHash) (brv_block <$> rangeTotals t).

(** The block with the quorum replaces its rivals. *)
Definition confirmWinner (id : nat) (t : gmap Hash BlockReceivedVotes) (blk : StateBlock) : M DPoS unit :=
  let confirmedHash := SB.GetHash blk in
  el ← getEl id;
  rootsDelete (el_id el);;
  setEl id (set_loser el (losers el t confirmedHash));;
  rollBack (losers el t confirmedHash);;
  addWinner2Ledger blk;;
  updateVoteStatistic id confirmedHash;;
  dispatchAckedBlock blk confirmedHash (-1);;
  out (ConfirmedBlock blk);;
  cleanBlockInfo id.

Definition haveQuorum (id : nat) : M DPoS unit :=
  s ← getS;
  el ← getEl id;
  t ← liftR (tally (weightOf s false) el);
  if (size t =? 0)%nat then mret tt
  else
    top ← liftR (best t);
    quorum ← liftR (exceeds top.1 (d_voteThreshold s));
    if (quorum : bool) then
      valid ← ifValidAndSetInvalid id;
      if (valid : bool) then confirmWinner id t top.2 else mret tt
    else mret tt.

Definition voteAction (id : nat) (vi : voteInfo) : M DPoS unit :=
  el ← getEl id;
  if negb (el_valid el) then mret tt
  else
    let '(result, votes) := voteStatus (el_repVotes el) vi in
    setEl id (set_votes el votes);;
    match result with TallyConfirm => mret tt | _ => haveQuorum id end.

(** The greatest weight alone decides; the losers are the blocks other than the one
    voted for last. *)
Definition voteFrontier (id : nat) (vi : voteInfo) : M DPoS bool :=
  el ← getEl id;
  if negb (el_valid el) then mret false
  else
    let '(result, votes) := voteStatus (el_repVotes el) vi in
    setEl id (set_votes el votes);;
    match result with
    | TallyConfirm => mret false
    | _ =>
        s ← getS;
        el ← getEl id;
        t ← liftR (tally (weightOf s true) el);
        if (size t =? 0)%nat then mret false
        else
          top ← liftR (best t);
          quorum ← liftR (exceeds top.1 (d_voteThreshold s));
          if (quorum : bool) then
            valid ← ifValidAndSetInvalid id;
            if negb valid then mret true
            else
              cleanBlockInfo id;;
              rollBack (snd <$> filter (λ e, e.1 ≠ vi_hash vi) (rangeBlocks (el_blocks el)));;
              rootsDelete (el_id el);;
              mret true
          else mret false
    end.

(** ** The active elections *)
Definition newElection (block : StateBlock) : M DPoS nat :=
  s ← getS;
  let id := fresh (dom (d_heap s)) in
  let hash := SB.GetHash block in
  let el := mkElection (getVoteKey block) ∅ block [] now 0 {[hash := block]} ∅ true in
  putS (with_hash2el (with_heap s (<[id:=el]> (d_heap s))) (<[hash:=id]> (d_hash2el s)));;
  mret id.

Definition addToRoots (block : StateBlock) : M DPoS bool :=
  let vk := getVoteKey block in
  s ← getS;
  match d_roots s !! vk with
  | None => id ← newElection block; modifyS (λ s, with_roots s (<[vk:=id]> (d_roots s)));; mret true
  | Some _ => mret false
  end.

Definition getVoteInfo (block : StateBlock) : M DPoS (option nat) :=
  s ← getS; mret (d_roots s !! getVoteKey block).

Definition isVoting (s : DPoS) (block : StateBlock) : bool :=
  match d_roots s !! getVoteKey block with Some _ => true | None => false end.

Definition setVoteHash (block : StateBlock) : M DPoS unit :=
  r ← getVoteInfo block;
  match r with
  | Some id => el ← getEl id; setEl id (set_voteHash el (SB.GetHash block))
  | None => mret tt
  end.

Definition act_vote (vi : voteInfo) : M DPoS unit :=
  s ← getS;
  match d_hash2el s !! vi_hash vi with
  | Some id => voteAction id vi
  | None => mret tt
  end.

Definition act_voteFrontier (vi : voteInfo) : M DPoS bool :=
  s ← getS;
  match d_hash2el s !! vi_hash vi with
  | Some id => voteFrontier id vi
  | None => mret false
  end.

Definition waitingVoteMaxTime : Z := 180.

(** One round of [checkVotes] for one root: an election without a decision for three
    minutes is dropped with the blocks that wait for its first block. *)
Definition checkVotesOne (e : Hash * nat) : M DPoS unit :=
  el ← getEl e.2;
  if now - el_lastTime el <? waitingVoteMaxTime then mret tt
  else
    let hash := SB.GetHash (el_winner el) in
    valid ← ifValidAndSetInvalid e.2;
    if (valid : bool) then
      rootsDelete (el_id el);;
      cleanBlockInfo e.2;;
      s ← getS;
      onLedger (RollbackUnchecked (uncheckedFuel (d_ledger s)) hash)
    else mret tt.

Definition checkVotes : M DPoS unit :=
  s ← getS; iterD checkVotesOne (map_to_list (d_roots s)).

(** The first root whose election holds the frontier loses it, and goes when it was
    the last block. *)
Definition cleanFrontierOne (fHash : Hash) : M DPoS unit :=
  modifyS (λ s, with_hash2el s (delete fHash (d_hash2el s)));;
  s ← getS;
  match list_find (λ e, is_Some (d_heap s !! e.2 ≫= λ el, el_blocks el !! fHash)) (map_to_list (d_roots s)) with
  | None => mret tt
  | Some (_, (_, id)) =>
      el ← getEl id;
      setEl id (set_blocks el (delete fHash (el_blocks el)));;
      if bool_decide (delete fHash (el_blocks el) = ∅) then rootsDelete (el_id el) else mret tt
  end.

Definition cleanFrontierVotes : M DPoS unit :=
  s ← getS; iterD cleanFrontierOne (map_to_list (d_frontiersStatus s)).*1.
End election.
