(* ===== verification/Processor.v ===== *)
(** * The DPoS message handlers: [consensus/dpos/processor.go], [dpos_impl.go]

    A processor checks the blocks and votes it is given, opens elections, has the local
    representatives vote, confirms the blocks of a synchronized chain, and parks blocks
    that wait for another.  Each handler is a run over the state of [Election.v]; the
    channels between them are [d_out]. *)

From S2P Require Import Prelude Types Cache Storage Ledger Contract GoBytes Check Process Rollback Unchecked.
From S2P Require Import Election.

Inductive MsgType := MsgPublishReq | MsgConfirmReq | MsgConfirmAck | MsgSync | MsgGenerateBlock.

#[global] Instance MsgType_eq_dec : EqDecision MsgType.
Proof. solve_decision. Defined.
#[global] Instance SynchronizedKind_eq_dec : EqDecision SynchronizedKind.
Proof. solve_decision. Defined.

Record BlockSource := mkBlockSource {
  bs_Block : StateBlock;
  bs_BlockFrom : SynchronizedKind;
  bs_Type : MsgType;
}.

Definition SetFromSync (b : StateBlock) : StateBlock :=
  SB.with_local b (Z.lor (sb_Flag b) 1) (sb_PrivateRecvRsp b) (sb_PrivatePayload b).

Section processor.
Context `{Crypto} `{Config} `{Node} `{Unicode} `{Consensus}.
Variables (now : Z) (tick : bool) (queueCap : nat).
Variables (order1 order2 : gmap Hash StateBlock → list StateBlock).
Variables (rangeVotes : gmap Address Hash → list (Address * Hash)).
Variables (rangeTotals : gmap Hash BlockReceivedVotes → list BlockReceivedVotes).
Variables (rangeBlocks : gmap Hash StateBlock → list (Hash * StateBlock)).
(** The index of the processor that runs the handler. *)
Variable index : Z.

#[local] Abbreviation act_vote' :=
  (act_vote now tick queueCap order1 order2 rangeVotes rangeTotals rangeBlocks) (only parsing).
#[local] Abbreviation act_voteFrontier' :=
  (act_voteFrontier now tick queueCap order1 order2 rangeVotes rangeTotals rangeBlocks) (only parsing).
#[local] Abbreviation rollBack' := (rollBack now tick queueCap order1 order2) (only parsing).
#[local] Abbreviation rollbackHash := (Rollback now queueCap order1 order2 tick) (only parsing).

(** ** Voting with the local representatives *)

(** Whether a representative has the weight to vote. *)
Definition mayVote (s : DPoS) (address : Address) : res bool :=
  weight ← Weight (d_ledger s) address;
  c ← Bal.Compare weight (d_minVoteWeight s);
  Ok (negb (bool_decide (c = BalanceCompSmaller))).

Fixpoint localVotes (block : StateBlock) (reps : list Address) : M DPoS unit :=
  match reps with
  | [] => mret tt
  | address :: reps' =>
      s ← getS;
      may ← liftR (mayVote s address);
      if negb may then localVotes block reps'
      else if bool_decide (sb_Type block = Online) &&
              negb (HasStateBlockConfirmed (d_ledger s) (SB.GetHash block)) &&
              negb (bool_decide (sb_Address block ∈ d_online s))
      then mret tt
      else
        act_vote' (mkVoteInfo address (SB.GetHash block));;
        setVoteHash block;;
        out (BatchVote (SB.GetHash block));;
        localVotes block reps'
  end.

Definition localRepVote (block : StateBlock) : M DPoS unit :=
  s ← getS; localVotes block (d_localRep s).

(** The votes of the local representatives on a frontier are queued, not counted; the
    queue is taken to have room. *)
Fixpoint localFrontierVotes (block : StateBlock) (reps : list Address) : M DPoS unit :=
  match reps with
  | [] => mret tt
  | address :: reps' =>
      s ← getS;
      may ← liftR (mayVote s address);
      if negb may then localFrontierVotes block reps'
      else if bool_decide (sb_Type block = Online) && negb (bool_decide (sb_Address block ∈ d_online s))
      then mret tt
      else
        out (AckQueued (mkVoteInfo address (SB.GetHash block)));;
        setVoteHash block;;
        localFrontierVotes block reps'
  end.

Definition localRepVoteFrontier (block : StateBlock) : M DPoS unit :=
  s ← getS; localFrontierVotes block (d_localRep s).

(** ** Votes received *)
Definition isConfirmedFrontier (s : DPoS) (hash : Hash) : bool :=
  bool_decide (d_frontiersStatus s !! hash = Some frontierConfirmed) &&
  HasUnconfirmedSyncBlock (d_ledger s) hash.

Definition processAckedSync (hash : Hash) : M DPoS unit :=
  modifyS (λ s,
    if isConfirmedFrontier s hash then
      with_frontiers s (<[hash:=frontierChainConfirmed]> (d_frontiersStatus s))
        match d_confirmedChain s !! hash with
        | Some _ => d_confirmedChain s
        | None => <[hash:=false]> (d_confirmedChain s)
        end
    else s);;
  out (SyncAcked hash).

Definition processAck (vi : voteInfo) : M DPoS unit :=
  s ← getS;
  match d_hash2el s !! vi_hash vi with
  | None => mret tt
  | Some id =>
      el ← getEl id;
      if bool_decide (vi_hash vi ∈ el_frontier el) then
        confirmed ← act_voteFrontier' vi;
        if (confirmed : bool) then
          modifyS (λ s, with_frontiers s (<[vi_hash vi:=frontierConfirmed]> (d_frontiersStatus s))
                          (d_confirmedChain s));;
          processAckedSync (vi_hash vi)
        else mret tt
      else if HasStateBlockConfirmed (d_ledger s) (vi_hash vi)
      then out (VoteInc (vi_hash vi) (vi_account vi))
      else act_vote' vi
  end.

(** ** Frontiers of a peer *)

(** [el.blocks.Store(hash, block)] with the entry of [hash2el]. *)
Definition joinElection (id : nat) (block : StateBlock) : M DPoS unit :=
  el ← getEl id;
  setEl id (set_blocks el (<[SB.GetHash block:=block]> (el_blocks el)));;
  modifyS (λ s, with_hash2el s (<[SB.GetHash block:=id]> (d_hash2el s))).

Definition markFrontier (id : nat) (hash : Hash) : M DPoS unit :=
  el ← getEl id; setEl id (set_frontier el ({[hash]} ∪ el_frontier el)).

Definition blockCheck (block : StateBlock) : M DPoS ProcessResult :=
  readS (λ s, match BlockCheck (d_ledger s) block with
              | Verdict r _ => Ok r
              | CheckPanic => Panic
              end).

Definition processFrontier (block : StateBlock) : M DPoS unit :=
  let hash := SB.GetHash block in
  out (SubAck hash);;
  added ← addToRoots now block;
  r ← getVoteInfo block;
  match r with
  | Some id => (if (added : bool) then mret tt else joinElection id block);; markFrontier id hash
  | None => mret tt
  end;;
  result ← blockCheck block;
  if bool_decide (result = Progress) then localRepVoteFrontier block else mret tt.

(** The weights of the representatives as the frontiers of a peer give them. *)
Definition blockWeight (b : StateBlock) : res Balance :=
  x ← Bal.Add (SB.GetBalance b) (SB.GetVote b);
  x ← Bal.Add x (SB.GetOracle b);
  x ← Bal.Add x (SB.GetNetwork b);
  Bal.Add x (SB.GetStorage b).

Definition addTotalVote (acc : res (gmap Address Balance)) (b : StateBlock) : res (gmap Address Balance) :=
  m ← acc;
  if sb_Token b =? ChainToken then
    w ← match m !! sb_Representative b with
        | Some w0 =>
            x ← Bal.Add w0 (SB.GetBalance b);
            x ← Bal.Add x (SB.GetVote b);
            x ← Bal.Add x (SB.GetOracle b);
            x ← Bal.Add x (SB.GetNetwork b);
            Bal.Add x (SB.GetStorage b)
        | None => blockWeight b
        end;
    Ok (<[sb_Representative b := w]> m)
  else Ok m.

Definition queueFrontier (block : StateBlock) (unconfirmed : list StateBlock) : M DPoS (list StateBlock) :=
  let hash := SB.GetHash block in
  s ← getS;
  match d_frontiersStatus s !! hash with
  | Some _ => mret unconfirmed
  | None =>
      if HasStateBlockConfirmed (d_ledger s) hash then mret unconfirmed
      else
        modifyS (λ s, with_frontiers s (<[hash:=frontierWaitingForVote]> (d_frontiersStatus s))
                        (d_confirmedChain s));;
        out (FrontierQueued block);;
        mret (unconfirmed ++ [block])
  end.

Fixpoint queueFrontiers (blocks unconfirmed : list StateBlock) : M DPoS (list StateBlock) :=
  match blocks with
  | [] => mret unconfirmed
  | block :: blocks' => u ← queueFrontier block unconfirmed; queueFrontiers blocks' u
  end.

(** The requests are broadcast in slices of [blockNumPerReq] blocks. *)
Definition blockNumPerReq : nat := 128.

Fixpoint broadcastSlices (fuel : nat) (blocks : list StateBlock) : M DPoS unit :=
  match fuel, blocks with
  | S fuel, _ :: _ =>
      out (ConfirmReqs (take blockNumPerReq blocks));;
      broadcastSlices fuel (drop blockNumPerReq blocks)
  | _, _ => mret tt
  end.

Definition onGetFrontier (blocks : list StateBlock) : M DPoS unit :=
  s ← getS;
  t ← liftR (foldl addTotalVote (Ok (d_totalVote s)) blocks);
  modifyS (λ s, with_totalVote s t);;
  unconfirmed ← queueFrontiers blocks [];
  broadcastSlices (length unconfirmed) unconfirmed.

(** ** Confirming and forking *)

(** [p.ackedBlockNotify(hash)], then the rest of the nodes' bookkeeping. *)
Definition announce (blk : StateBlock) : M DPoS unit :=
  let hash := SB.GetHash blk in
  addSyncBlock2Ledger now tick blk;;
  out (AckedNotify index hash);;
  dispatchAckedBlock blk hash index;;
  out (ConfirmedBlock blk).

Definition confirmBlock (blk : StateBlock) : M DPoS unit :=
  let hash := SB.GetHash blk in
  s ← getS;
  match d_roots s !! getVoteKey blk with
  | Some id =>
      valid ← ifValidAndSetInvalid id;
      if negb valid then mret tt
      else
        el ← getEl id;
        rootsDelete (el_id el);;
        cleanBlockInfo rangeBlocks id;;
        rollBack' (snd <$> filter (λ e, e.1 ≠ hash) (rangeBlocks (el_blocks el)));;
        announce blk
  | None => announce blk
  end.

(** The block on the chain that [block] forks from; [block] itself when it cannot be
    read. *)
Definition findAnotherForkedBlock (l : Ledger) (block : StateBlock) : res StateBlock :=
  let forkedHash :=
    if SB.IsOpen block then tm ← GetTokenMeta l (sb_Address block) (sb_Token block); Ok (tm_OpenBlock tm)
    else GetBlockChild l None (SB.Parent block) in
  match (h ← forkedHash; GetStateBlock l None h) with
  | Err _ => Ok block
  | r => r
  end.

Definition processFork (bs : BlockSource) : M DPoS unit :=
  let newBlock := bs_Block bs in
  let newHash := SB.GetHash newBlock in
  confirmedBlock ← readS (λ s, findAnotherForkedBlock (d_ledger s) newBlock);
  s ← getS;
  if bool_decide (bs_Type bs = MsgGenerateBlock) then logged (onCache (rollbackHash newHash))
  else if HasPovTxLookup (d_ledger s) (SB.GetHash confirmedBlock) then mret tt
  else
    let join :=
      r ← getVoteInfo confirmedBlock;
      match r with Some id => joinElection id newBlock | None => mret tt end in
    added ← addToRoots now confirmedBlock;
    if (added : bool) then
      out (ConfirmReqs [confirmedBlock]);;
      out (SubAck (SB.GetHash confirmedBlock));;
      out (SubAck newHash);;
      join;;
      localRepVote confirmedBlock
    else
      out (SubAck newHash);;
      join.

(** ** Blocks that wait *)

(** An error other than "exists already" is logged as well. *)
Definition park (m : M Ledger unit) : M DPoS unit := logged (onLedger m).

(** [gapInfo.(T)] panics on another type; an unexpected gap is only logged. *)
Definition parkContractGap (bs : BlockSource) (add : GapInfo → M DPoS unit) : M DPoS unit :=
  let blk := bs_Block bs in
  if SB.IsPrivate blk && negb (SB.IsRecipient blk) then mret tt
  else match GetChainContract (sb_Link blk) (SB.GetPayload blk) with
  | None => mret tt
  | Some c =>
      if specVer (GetDescribe c) =? SpecVer2 then
        s ← getS;
        match NewVMContextWithBlock (d_ledger s) blk with
        | None => mret tt
        | Some vmCtx =>
            match DoGap c (d_ledger s) vmCtx blk with
            | (Panic, _, _) => liftR Panic
            | (Err _, _, _) => add GapNone
            | (Ok (_, gapInfo), _, _) => add gapInfo
            end
        end
      else mret tt
  end.

Definition enqueueUncheckedToDb (result : ProcessResult) (bs : BlockSource) : M DPoS unit :=
  let blk := bs_Block bs in
  let from := bs_BlockFrom bs in
  match result with
  | GapPrevious => park (AddUncheckedBlock (sb_Previous blk) blk UncheckedKindPrevious from)
  | GapSource => park (AddUncheckedBlock (sb_Link blk) blk UncheckedKindLink from)
  | GapTokenInfo =>
      s ← getS;
      match GetStateBlock (d_ledger s) None (sb_Link blk) with
      | Panic => liftR Panic
      | Err _ => mret tt
      | Ok input =>
          match mintageWithdrawToken (sb_Data input) with
          | None => mret tt
          | Some tokenId => park (AddUncheckedBlock tokenId blk UncheckedKindTokenInfo from)
          end
      end
  | GapPublish => park (AddGapPublishBlock (pkdOracleHash (sb_Data blk)) blk from)
  | GapPovHeight =>
      parkContractGap bs (λ g,
        match g with
        | GapHeight height =>
            if 0 <? height then park (AddGapPovBlock height blk from);; out (GapHeightMsg height)
            else mret tt
        | _ => liftR Panic
        end)
  | GapDoDSettleState =>
      parkContractGap bs (λ g,
        match g with
        | GapHash internalId =>
            if hash_IsZero internalId then mret tt
            else park (AddGapDoDSettleStateBlock internalId blk from)
        | _ => liftR Panic
        end)
  | _ => mret tt
  end.

Definition enqueueUnchecked (result : ProcessResult) (bs : BlockSource) : M DPoS unit :=
  if bool_decide (bs_Type bs = MsgConfirmReq) then mret tt else enqueueUncheckedToDb result bs.

(** ** A block received *)
Definition processResult (result : ProcessResult) (bs : BlockSource) : M DPoS unit :=
  let blk := bs_Block bs in
  match result with
  | Progress =>
      match bs_BlockFrom bs with
      | Synchronized => confirmBlock blk
      | UnSynchronized =>
          added ← addToRoots now blk;
          (if added && negb (bool_decide (bs_Type bs = MsgConfirmReq)) then localRepVote blk else mret tt);;
          out (SubAck (SB.GetHash blk))
      | InvalidSynchronized => mret tt
      end
  | Fork => processFork bs
  | GapPrevious | GapSource | GapTokenInfo | GapPovHeight | GapPublish | GapDoDSettleState =>
      enqueueUnchecked result bs
  | _ => mret tt
  end.

(** What is done after [processResult], by the kind of the message. *)
Definition afterResult (result : ProcessResult) (bs : BlockSource) : M DPoS unit :=
  let hash := SB.GetHash (bs_Block bs) in
  match bs_Type bs with
  | MsgConfirmReq =>
      match result with
      | Progress =>
          r ← getVoteInfo (bs_Block bs);
          match r with
          | Some id =>
              el ← getEl id;
              if hash_IsZero (el_voteHash el) || (hash =? el_voteHash el)
              then localRepVote (bs_Block bs) else mret tt
          | None => mret tt
          end
      | Old => localRepVote (bs_Block bs)
      | _ => mret tt
      end
  | MsgGenerateBlock =>
      match result with
      | Progress =>
          r ← getVoteInfo (bs_Block bs);
          match r with
          | Some id =>
              el ← getEl id;
              if SB.GetHash (el_winner el) =? hash then mret tt
              else logged (onCache (rollbackHash hash))
          | None => mret tt
          end
      | _ => mret tt
      end
  | _ => mret tt
  end.

Definition fromSync (bs : BlockSource) : BlockSource :=
  match bs_BlockFrom bs with
  | Synchronized => mkBlockSource (SetFromSync (bs_Block bs)) Synchronized (bs_Type bs)
  | _ => bs
  end.

Definition processMsgDo (bs : BlockSource) : M DPoS unit :=
  match SB.CheckPrivateRecvRsp (bs_Block bs) with
  | Ok _ =>
      let bs := fromSync bs in
      result ← blockCheck (bs_Block bs);
      if bool_decide (result = Other) then mret tt
      else processResult result bs;; afterResult result bs
  | _ => mret tt
  end.

(** ** Taking parked blocks out *)
Definition processUncheckedBlock (bs : BlockSource) : M DPoS unit :=
  s ← getS;
  (if HasBlockCache (d_ledger s) (SB.GetHash (bs_Block bs)) then out (PublishReq (bs_Block bs)) else mret tt);;
  let bs := fromSync bs in
  result ← blockCheck (bs_Block bs);
  processResult result bs.

(** One table of [dequeueUncheckedFromDb]; the message kind of a parked block is not
    kept, and reads as a publication. *)
Definition dequeueKind (hash : Hash) (kind : UncheckedKind) : M DPoS unit :=
  s ← getS;
  match GetUncheckedBlock (d_ledger s) hash kind with
  | Ok (blk, bf) =>
      if getProcessorIndex (sb_Address blk) =? index then
        processUncheckedBlock (mkBlockSource blk bf MsgPublishReq);;
        logged (onLedger (DeleteUncheckedBlock hash kind))
      else mret tt
  | _ => mret tt
  end.

Definition dequeueUncheckedFromDb (hash : Hash) : M DPoS unit :=
  s ← getS;
  if HasStateBlockConfirmed (d_ledger s) hash
  then dequeueKind hash UncheckedKindLink;; dequeueKind hash UncheckedKindPrevious
  else out (AckedNotify index hash).
End processor.
