(* ===== verification/Handlers.v ===== *)
(** * What the handlers of a node keep

    A handler is a run over the state of [Election.v].  The file proves once, for every
    relation between states that the elementary changes respect ([NodeRel]), that all
    handlers of [Election.v] and [Processor.v] respect it, and then instantiates it: the
    references between roots, hashes and elections stay consistent and a decided election
    is frozen ([evolves]). *)

From S2P Require Import Prelude Types Cache Storage Ledger Contract GoBytes Check Process Rollback Unchecked Election Processor.

(** The changes a handler makes to one election: the identity, the first block and the
    candidates stay; a decided election keeps its votes. *)
Record refines (el el' : Election) : Prop := {
  rf_id : el_id el' = el_id el;
  rf_winner : el_winner el' = el_winner el;
  rf_blocks : el_blocks el' = el_blocks el;
  rf_frozen : el_valid el = false → el_valid el' = false ∧ el_repVotes el' = el_repVotes el;
}.

Class NodeRel `{Crypto} (R : DPoS → DPoS → Prop) := {
  nr_order :: PreOrder R;
  nr_ledger : ∀ s l, R s (with_ledger s l);
  nr_frontiers : ∀ s f c, R s (with_frontiers s f c);
  nr_totalVote : ∀ s t, R s (with_totalVote s t);
  nr_out : ∀ s a, (∀ b, a ≠ ConfirmedBlock b) → R s (add_out s a);
  nr_roots : ∀ s k, R s (with_roots s (delete k (d_roots s)));
  nr_hash2el : ∀ s hs, R s (with_hash2el s (foldr (λ e m, delete e m) (d_hash2el s) hs));
  nr_setEl : ∀ s id el el', d_heap s !! id = Some el → refines el el' →
    R s (with_heap s (<[id:=el']> (d_heap s)));
  nr_new : ∀ now s b id, d_heap s !! id = None →
    R s (with_hash2el
      (with_heap s (<[id := mkElection (getVoteKey b) ∅ b [] now 0 {[SB.GetHash b := b]} ∅ true]> (d_heap s)))
      (<[SB.GetHash b:=id]> (d_hash2el s)));
  nr_root : ∀ s b id el, d_heap s !! id = Some el → el_id el = getVoteKey b →
    R s (with_roots s (<[getVoteKey b:=id]> (d_roots s)));
  nr_join : ∀ s b id el, d_heap s !! id = Some el →
    R s (with_hash2el
      (with_heap s (<[id := set_blocks el (<[SB.GetHash b:=b]> (el_blocks el))]> (d_heap s)))
      (<[SB.GetHash b:=id]> (d_hash2el s)));
  nr_forget : ∀ s h id el, d_heap s !! id = Some el → d_hash2el s !! h = None →
    R s (with_heap s (<[id := set_blocks el (delete h (el_blocks el))]> (d_heap s)));
}.

Create HintDb handlers.

(** ** The calculus *)
Section calculus.
Context `{Crypto} (R : DPoS → DPoS → Prop) `{!NodeRel R}.

Definition respects {A} (m : M DPoS A) : Prop := ∀ s, R s (m s).2.

Lemma respects_ret {A} (a : A) : respects (mret a).
Proof. intros s. reflexivity. Qed.

Lemma respects_bind_at {A B} (m : M DPoS A) (f : A → M DPoS B) s :
  R s (m s).2 → (∀ a, (m s).1 = Ok a → R (m s).2 (f a (m s).2).2) → R s ((m ≫= f) s).2.
Proof.
  intros Hm Hf. unfold mbind, M_bind. destruct (m s) as [[a|e|] s1]; cbn in *; [|done..].
  etransitivity; [exact Hm|by apply Hf].
Qed.

Lemma respects_bind {A B} (m : M DPoS A) (f : A → M DPoS B) :
  respects m → (∀ a, respects (f a)) → respects (m ≫= f).
Proof. intros Hm Hf s. apply respects_bind_at; [apply Hm|intros; apply Hf]. Qed.

Lemma respects_liftR {A} (r : res A) : respects (liftR r).
Proof. intros s. reflexivity. Qed.

Lemma respects_readS {A} (f : DPoS → res A) : respects (readS f).
Proof. intros s. reflexivity. Qed.

Lemma respects_getS : respects getS.
Proof. intros s. reflexivity. Qed.

Lemma respects_getEl id : respects (getEl id).
Proof. intros s. reflexivity. Qed.

Lemma respects_if {A} (b : bool) (m m' : M DPoS A) :
  respects m → respects m' → respects (if b then m else m').
Proof. by destruct b. Qed.

Lemma respects_opt {A B} (o : option B) (f : B → M DPoS A) (m : M DPoS A) :
  (∀ x, respects (f x)) → respects m → respects (match o with Some x => f x | None => m end).
Proof. intros. destruct o; auto. Qed.

Lemma respects_out a : (∀ b, a ≠ ConfirmedBlock b) → respects (out a).
Proof. intros Ha s. by apply nr_out. Qed.

Lemma respects_onLedger {A} (m : M Ledger A) : respects (onLedger m).
Proof. intros s. unfold onLedger. destruct (m (d_ledger s)). apply nr_ledger. Qed.

Lemma respects_onCache f : respects (onCache f).
Proof. intros s. unfold onCache. destruct (f (d_ledger s)) as [[r l]|]; [apply nr_ledger|reflexivity]. Qed.

Lemma respects_logged m : respects m → respects (logged m).
Proof.
  intros Hm s. specialize (Hm s). unfold logged. destruct (m s) as [[a|e|] s1]; [done| |done].
  by destruct e.
Qed.

Lemma respects_iterD {A} (f : A → M DPoS unit) xs : (∀ x, respects (f x)) → respects (iterD f xs).
Proof. intros Hf. induction xs; [apply respects_ret|]. by apply respects_bind. Qed.

Lemma respects_frontiers (f : DPoS → gmap Hash frontierStatus) (c : DPoS → gmap Hash bool) :
  respects (modifyS (λ s, with_frontiers s (f s) (c s))).
Proof. intros s. apply nr_frontiers. Qed.

Lemma respects_rootsDelete k : respects (rootsDelete k).
Proof. intros s. apply nr_roots. Qed.

(** An election read from the heap is the one there. *)
Lemma respects_el {A} id (f : Election → M DPoS A) :
  (∀ s el, d_heap s !! id = Some el → R s (f el s).2) → respects (getEl id ≫= f).
Proof.
  intros Hf s. unfold getEl, readS, mbind, M_bind. destruct (d_heap s !! id) as [el|] eqn:E; [by apply Hf|].
  reflexivity.
Qed.

Lemma respects_set_then {A} id el el' (m : M DPoS A) s :
  d_heap s !! id = Some el → refines el el' → respects m → R s ((setEl id el';; m) s).2.
Proof. intros Hl Hr Hm. etransitivity; [by eapply nr_setEl|apply Hm]. Qed.

Lemma respects_setEl id el el' s :
  d_heap s !! id = Some el → refines el el' → R s (setEl id el' s).2.
Proof. intros Hl Hr. by eapply nr_setEl. Qed.
End calculus.

#[export] Hint Extern 1 (refines _ _) => split; cbn; (done || tauto) : handlers.

(** The rules by the shape of the handler, case analysis on what it branches on, and the
    handlers proved before. *)
Ltac handler_step :=
  match goal with
  | |- ∀ _, _ => intro
  | |- respects _ _ => solve [auto with handlers nocore]
  | |- respects ?R (mret _) => apply (respects_ret R)
  | |- respects ?R (liftR _) => apply (respects_liftR R)
  | |- respects ?R (readS _) => apply (respects_readS R)
  | |- respects ?R getS => apply (respects_getS R)
  | |- respects ?R (getEl _) => apply (respects_getEl R)
  | |- respects ?R (out _) => apply (respects_out R); intros ?; discriminate
  | |- respects ?R (onLedger _) => apply (respects_onLedger R)
  | |- respects ?R (onCache _) => apply (respects_onCache R)
  | |- respects ?R (logged _) => apply (respects_logged R)
  | |- respects ?R (iterD _ _) => apply (respects_iterD R)
  | |- respects ?R (rootsDelete _) => apply (respects_rootsDelete R)
  | |- respects ?R (modifyS (λ s, with_frontiers s _ _)) => apply (respects_frontiers R)
  | |- respects ?R (_ ≫= _) => apply (respects_bind R)
  | |- respects _ (match ?x with _ => _ end) => destruct x
  | |- respects _ (let _ := _ in _) => cbv zeta
  end.
Ltac handler := repeat handler_step.

(** ** The handlers of elections *)
Section handlers.
Context `{Crypto} `{Config} `{Node} `{Unicode} `{Consensus} (R : DPoS → DPoS → Prop) `{!NodeRel R}.
Variables (now : Z) (tick : bool) (queueCap : nat).
Variables (order1 order2 : gmap Hash StateBlock → list StateBlock).
Variables (rangeVotes : gmap Address Hash → list (Address * Hash)).
Variables (rangeTotals : gmap Hash BlockReceivedVotes → list BlockReceivedVotes).
Variables (rangeBlocks : gmap Hash StateBlock → list (Hash * StateBlock)).
(** Whether the relation allows an announcement. *)
Hypothesis (Hann : ∀ b, respects R (out (ConfirmedBlock b))).

#[local] Hint Resolve Hann : handlers.

Lemma respects_ifValid id : respects R (ifValidAndSetInvalid id).
Proof.
  unfold ifValidAndSetInvalid. apply (respects_el R). intros s el Hl. destruct (el_valid el) eqn:Ev; [|reflexivity].
  eapply (respects_set_then R); [exact Hl| |handler].
  by split.
Qed.

Lemma foldr_delete_fst (m : gmap Hash nat) (es : list (Hash * StateBlock)) :
  foldr (λ e m, delete e.1 m) m es = foldr (λ e m, delete e m) m es.*1.
Proof. induction es as [|e es IH]; [done|]. cbn. by rewrite IH. Qed.

Lemma respects_cleanBlockInfo id : respects R (cleanBlockInfo rangeBlocks id).
Proof.
  unfold cleanBlockInfo. apply (respects_el R). intros s el _. cbn. rewrite foldr_delete_fst. apply nr_hash2el.
Qed.

Lemma respects_rollBack bs : respects R (rollBack now tick queueCap order1 order2 bs).
Proof. unfold rollBack, rollBackOne. handler. Qed.

Lemma respects_addWinner b : respects R (addWinner2Ledger now tick b).
Proof. unfold addWinner2Ledger. handler. Qed.

Lemma respects_chainFinished h : respects R (chainFinished h).
Proof.
  intros s. unfold chainFinished. apply (respects_bind_at R); [reflexivity|]. intros s0 [= <-].
  destruct (d_frontiersStatus s !! h); [|reflexivity].
  etransitivity; [apply nr_frontiers|]. by apply (respects_out R).
Qed.

Lemma respects_dispatch b h i : respects R (dispatchAckedBlock b h i).
Proof.
  unfold dispatchAckedBlock, dispatchContractSend, dispatchContractReward, notifyOther. handler.
Qed.

Lemma respects_statistic id h : respects R (updateVoteStatistic rangeVotes id h).
Proof. unfold updateVoteStatistic. handler. Qed.
#[local] Hint Resolve respects_ifValid respects_cleanBlockInfo respects_rollBack respects_addWinner
  respects_chainFinished respects_dispatch respects_statistic : handlers.

Lemma respects_confirmWinner id t b :
  respects R (confirmWinner now tick queueCap order1 order2 rangeVotes rangeTotals rangeBlocks id t b).
Proof.
  unfold confirmWinner. apply (respects_el R). intros s el Hl.
  etransitivity; [apply nr_roots|]. cbn [rootsDelete modifyS mbind M_bind].
  eapply (respects_set_then R); [exact Hl|auto with handlers|handler].
Qed.
#[local] Hint Resolve respects_confirmWinner : handlers.

Lemma respects_haveQuorum id :
  respects R (haveQuorum now tick queueCap order1 order2 rangeVotes rangeTotals rangeBlocks id).
Proof. unfold haveQuorum. handler. Qed.
#[local] Hint Resolve respects_haveQuorum : handlers.

Lemma refines_votes el v : el_valid el = true → refines el (set_votes el v).
Proof. intros Hv. split; cbn; try done. by rewrite Hv. Qed.

Lemma respects_voteAction id vi :
  respects R (voteAction now tick queueCap order1 order2 rangeVotes rangeTotals rangeBlocks id vi).
Proof.
  unfold voteAction. apply (respects_el R). intros s el Hl.
  destruct (el_valid el) eqn:Ev; cbn [negb]; [|reflexivity]. destruct (voteStatus _ _) as [r votes].
  eapply (respects_set_then R); [exact Hl|by apply refines_votes|handler].
Qed.

Lemma respects_voteFrontier id vi :
  respects R (voteFrontier now tick queueCap order1 order2 rangeVotes rangeTotals rangeBlocks id vi).
Proof.
  unfold voteFrontier. apply (respects_el R). intros s el Hl.
  destruct (el_valid el) eqn:Ev; cbn [negb]; [|reflexivity]. destruct (voteStatus _ _) as [r votes].
  eapply (respects_set_then R); [exact Hl|by apply refines_votes|handler].
Qed.
#[local] Hint Resolve respects_voteAction respects_voteFrontier : handlers.

Lemma respects_act_vote vi :
  respects R (act_vote now tick queueCap order1 order2 rangeVotes rangeTotals rangeBlocks vi).
Proof. unfold act_vote. handler. Qed.

Lemma respects_act_voteFrontier vi :
  respects R (act_voteFrontier now tick queueCap order1 order2 rangeVotes rangeTotals rangeBlocks vi).
Proof. unfold act_voteFrontier. handler. Qed.

Lemma respects_setVoteHash b : respects R (setVoteHash b).
Proof.
  unfold setVoteHash. apply (respects_bind R); [unfold getVoteInfo; handler|]. intros [id|]; [|handler].
  apply (respects_el R). intros s el Hl. eapply (respects_setEl R); [exact Hl|auto with handlers].
Qed.

Lemma respects_addToRoots b : respects R (addToRoots now b).
Proof.
  intros s. unfold addToRoots. apply (respects_bind_at R); [reflexivity|]. intros s0 [= <-].
  cbn [getS snd]. destruct (d_roots s !! getVoteKey b) as [id|] eqn:Er; [reflexivity|].
  set (id := fresh (dom (d_heap s))).
  assert (Hid : d_heap s !! id = None) by (apply not_elem_of_dom, is_fresh).
  etransitivity; [apply (nr_new now s b id Hid)|]. eapply nr_root; [apply lookup_insert_eq|done].
Qed.

Lemma respects_joinElection id b : respects R (joinElection id b).
Proof. unfold joinElection. apply (respects_el R). intros s el Hl. exact (nr_join s b id el Hl). Qed.

Lemma respects_markFrontier id h : respects R (markFrontier id h).
Proof. unfold markFrontier. apply (respects_el R). intros s el Hl. eapply (respects_setEl R); [exact Hl|auto with handlers]. Qed.

Lemma respects_checkVotes : respects R (checkVotes now rangeBlocks).
Proof. unfold checkVotes, checkVotesOne. handler. Qed.

Lemma respects_cleanFrontierOne h : respects R (cleanFrontierOne h).
Proof.
  intros s. etransitivity; [apply (nr_hash2el s [h])|]. unfold cleanFrontierOne. cbn [foldr].
  unfold mbind at 1, M_bind at 1. cbn [modifyS]. set (s1 := with_hash2el s _).
  unfold mbind at 1, M_bind at 1. cbn [getS].
  destruct (list_find _ _) as [[i [k id]]|]; [|reflexivity].
  generalize (eq_refl : d_hash2el s1 = delete h (d_hash2el s)). intros Hh. clearbody s1. revert s1 Hh.
  intros s1 Hh. unfold mbind at 1, M_bind at 1, getEl, readS.
  destruct (d_heap s1 !! id) as [el|] eqn:Hl; [|reflexivity].
  etransitivity; [apply (nr_forget s1 h id el Hl); rewrite Hh; apply lookup_delete_eq|].
  unfold setEl. cbn [modifyS mbind M_bind]. destruct (bool_decide _); [apply nr_roots|reflexivity].
Qed.

Lemma respects_cleanFrontierVotes : respects R cleanFrontierVotes.
Proof. unfold cleanFrontierVotes. pose proof respects_cleanFrontierOne. handler. Qed.
#[local] Hint Resolve respects_act_vote respects_act_voteFrontier respects_setVoteHash respects_addToRoots
  respects_joinElection respects_markFrontier respects_checkVotes respects_cleanFrontierVotes : handlers.

(** ** The handlers of a processor *)
Variable index : Z.

Lemma respects_localRepVote b :
  respects R (localRepVote now tick queueCap order1 order2 rangeVotes rangeTotals rangeBlocks b).
Proof.
  unfold localRepVote. apply (respects_bind R); [handler|]. intros s.
  induction (d_localRep s) as [|a reps IH]; cbn [localVotes]; handler.
Qed.

Lemma respects_localRepVoteFrontier b : respects R (localRepVoteFrontier b).
Proof.
  unfold localRepVoteFrontier. apply (respects_bind R); [handler|]. intros s.
  induction (d_localRep s) as [|a reps IH]; cbn [localFrontierVotes]; handler.
Qed.

Lemma respects_processAckedSync h : respects R (processAckedSync h).
Proof.
  unfold processAckedSync. apply (respects_bind R); [|handler]. intros s. cbn.
  destruct (isConfirmedFrontier s h); [apply nr_frontiers|reflexivity].
Qed.
#[local] Hint Resolve respects_localRepVote respects_localRepVoteFrontier respects_processAckedSync : handlers.

Lemma respects_processAck vi :
  respects R (processAck now tick queueCap order1 order2 rangeVotes rangeTotals rangeBlocks vi).
Proof. unfold processAck. handler. Qed.

Lemma respects_processFrontier b : respects R (processFrontier now b).
Proof. unfold processFrontier, blockCheck, getVoteInfo. handler. Qed.

Lemma respects_onGetFrontier bs : respects R (onGetFrontier bs).
Proof.
  unfold onGetFrontier. apply (respects_bind R); [handler|intros s].
  apply (respects_bind R); [handler|intros t]. apply (respects_bind R); [intros s'; apply nr_totalVote|intros _].
  apply (respects_bind R).
  - generalize (@nil StateBlock). induction bs as [|b bs IH]; intros u; cbn [queueFrontiers]; [handler|].
    unfold queueFrontier. handler.
  - intros u. generalize (length u). intros n. revert u.
    induction n as [|n IH]; intros [|b u]; cbn [broadcastSlices]; handler.
Qed.

Lemma respects_announce b : respects R (announce now tick index b).
Proof. unfold announce, addSyncBlock2Ledger. handler. Qed.
#[local] Hint Resolve respects_announce : handlers.

Lemma respects_confirmBlock b :
  respects R (confirmBlock now tick queueCap order1 order2 rangeBlocks index b).
Proof. unfold confirmBlock. handler. Qed.

Lemma respects_processFork bs :
  respects R (processFork now tick queueCap order1 order2 rangeVotes rangeTotals rangeBlocks bs).
Proof. unfold processFork, getVoteInfo. handler. Qed.

Lemma respects_enqueueUnchecked r bs : respects R (enqueueUnchecked r bs).
Proof. unfold enqueueUnchecked, enqueueUncheckedToDb, parkContractGap, park. handler. Qed.
#[local] Hint Resolve respects_confirmBlock respects_processFork respects_enqueueUnchecked : handlers.

Lemma respects_processResult r bs :
  respects R (processResult now tick queueCap order1 order2 rangeVotes rangeTotals rangeBlocks index r bs).
Proof. unfold processResult. handler. Qed.
#[local] Hint Resolve respects_processResult : handlers.

Lemma respects_processMsgDo bs :
  respects R (processMsgDo now tick queueCap order1 order2 rangeVotes rangeTotals rangeBlocks index bs).
Proof. unfold processMsgDo, afterResult, blockCheck, getVoteInfo. handler. Qed.

Lemma respects_dequeue h :
  respects R (dequeueUncheckedFromDb now tick queueCap order1 order2 rangeVotes rangeTotals rangeBlocks index h).
Proof. unfold dequeueUncheckedFromDb, dequeueKind, processUncheckedBlock, blockCheck. handler. Qed.
End handlers.

(** ** Elections are consistent *)
Section consistent.
Context `{Crypto} `{Config} `{Node} `{Unicode} `{Consensus}.

(** A root leads to an election with that root, opened by a block that belongs there; a
    hash leads to an election in which it stands; the candidates are stored under their
    hashes. *)
Record elections_ok (s : DPoS) : Prop := {
  eo_roots : ∀ k id, d_roots s !! k = Some id → ∃ el, d_heap s !! id = Some el ∧ el_id el = k;
  eo_hash2el : ∀ h id, d_hash2el s !! h = Some id →
    ∃ el b, d_heap s !! id = Some el ∧ el_blocks el !! h = Some b;
  eo_blocks : ∀ id el h b, d_heap s !! id = Some el → el_blocks el !! h = Some b → SB.GetHash b = h;
  eo_winner : ∀ id el, d_heap s !! id = Some el → el_id el = getVoteKey (el_winner el);
}.

(** An election is never removed, keeps its root and its first block, and once decided
    stays decided with the votes it had. *)
Definition kept (s s' : DPoS) : Prop := ∀ id el, d_heap s !! id = Some el →
  ∃ el', d_heap s' !! id = Some el' ∧ el_id el' = el_id el ∧ el_winner el' = el_winner el ∧
    (el_valid el = false → el_valid el' = false ∧ el_repVotes el' = el_repVotes el).

Definition evolves (s s' : DPoS) : Prop := (elections_ok s → elections_ok s') ∧ kept s s'.

Lemma kept_same s s' : d_heap s' = d_heap s → kept s s'.
Proof. intros E id el Hl. rewrite E. by exists el. Qed.

Lemma evolves_same s s' :
  d_heap s' = d_heap s → d_roots s' = d_roots s → d_hash2el s' = d_hash2el s → evolves s s'.
Proof.
  intros E1 E2 E3. split; [|by apply kept_same].
  intros [H1' H2' H3' H4']. split; rewrite ?E1, ?E2, ?E3; done.
Qed.

#[global] Instance evolves_preorder : PreOrder evolves.
Proof.
  split.
  - intros s. by apply evolves_same.
  - intros s1 s2 s3 [O1 K1] [O2 K2]. split; [auto|]. intros id el Hl.
    destruct (K1 id el Hl) as (el1 & Hl1 & E1 & E2 & Hf1). destruct (K2 id el1 Hl1) as (el2 & Hl2 & E3 & E4 & Hf2).
    exists el2. split; [done|]. split; [congruence|]. split; [congruence|].
    intros [E5 E6]%Hf1. destruct (Hf2 E5) as [? E7]. by rewrite E7.
Qed.

Lemma foldr_delete_lookup (m : gmap Hash nat) hs h id :
  foldr (λ e m, delete e m) m hs !! h = Some id → m !! h = Some id.
Proof. induction hs as [|e hs IH]; [done|]. cbn. intros [_ Hl]%lookup_delete_Some. auto. Qed.

(** One election replaced by a later version of itself. *)
Lemma evolves_heap s s' id el el' :
  d_heap s !! id = Some el → d_heap s' = <[id:=el']> (d_heap s) → d_roots s' = d_roots s →
  el_id el' = el_id el → el_winner el' = el_winner el →
  (el_valid el = false → el_valid el' = false ∧ el_repVotes el' = el_repVotes el) →
  (∀ h b, el_blocks el' !! h = Some b → el_blocks el !! h = Some b ∨ SB.GetHash b = h) →
  (∀ h i, d_hash2el s' !! h = Some i →
     (d_hash2el s !! h = Some i ∧ (i = id → el_blocks el !! h = el_blocks el' !! h)) ∨
     (i = id ∧ is_Some (el_blocks el' !! h))) →
  evolves s s'.
Proof.
  intros Hl Eh Er Ei Ew Hf Hb Hh2. split.
  - intros [H1' H2' H3' H4']. split.
    + intros k i Hk. rewrite Er in Hk. destruct (H1' k i Hk) as (e & He & <-). rewrite Eh.
      destruct (decide (i = id)) as [->|Hne].
      * exists el'. rewrite lookup_insert_eq. split; [done|congruence].
      * exists e. by rewrite lookup_insert_ne.
    + intros h i Hh. rewrite Eh. destruct (Hh2 h i Hh) as [[Hh' Hs]|[-> [b Hb']]].
      * destruct (H2' h i Hh') as (e & b & He & Hbe). destruct (decide (i = id)) as [->|Hne].
        -- rewrite He in Hl. injection Hl as ->. exists el', b. rewrite lookup_insert_eq. split; [done|].
           by rewrite <- Hs.
        -- exists e, b. by rewrite lookup_insert_ne.
      * exists el', b. by rewrite lookup_insert_eq.
    + intros i e h b. rewrite Eh, lookup_insert_Some. intros [[<- <-]|[_ He]] Hbe; [|by eapply H3'].
      destruct (Hb h b Hbe); [by eapply H3'|done].
    + intros i e. rewrite Eh, lookup_insert_Some. intros [[<- <-]|[_ He]]; [|by eapply H4'].
      rewrite Ei, Ew. by eapply H4'.
  - intros i e He. rewrite Eh. destruct (decide (i = id)) as [->|Hne].
    + exists el'. rewrite lookup_insert_eq. by rewrite He in Hl; injection Hl as ->.
    + exists e. by rewrite lookup_insert_ne.
Qed.

#[global] Instance evolves_rel : NodeRel evolves.
Proof.
  split; try (intros; by apply evolves_same).
  - apply _.
  - intros s k. split; [|by apply kept_same]. intros [H1' H2' H3' H4']. split; try done.
    cbn. intros k' id [_ Hk]%lookup_delete_Some. by apply H1'.
  - intros s hs. split; [|by apply kept_same]. intros [H1' H2' H3' H4']. split; try done.
    cbn. intros h id Hh%foldr_delete_lookup. by apply H2'.
  - intros s id el el' Hl [E1 E2 E3 Hf]. eapply evolves_heap; cbn; try done.
    + intros h b. rewrite E3. by left.
    + intros h i Hh. left. split; [done|]. by rewrite E3.
  - intros now s b id Hid. split.
    + intros [H1' H2' H3' H4']. split; cbn.
      * intros k i Hk. destruct (H1' k i Hk) as (e & He & <-). exists e. rewrite lookup_insert_ne; [done|congruence].
      * intros h i. rewrite lookup_insert_Some. intros [[<- <-]|[_ Hh]].
        -- eexists _, b. rewrite lookup_insert_eq. split; [done|]. apply lookup_singleton_eq.
        -- destruct (H2' h i Hh) as (e & b' & He & Hb). exists e, b'. rewrite lookup_insert_ne; [done|congruence].
      * intros i e h b'. rewrite lookup_insert_Some. intros [[<- <-]|[_ He]] Hb; [|by eapply H3'].
        cbn in Hb. by apply lookup_singleton_Some in Hb as [<- <-].
      * intros i e. rewrite lookup_insert_Some. intros [[<- <-]|[_ He]]; [done|by eapply H4'].
    + intros i e He. exists e. cbn. rewrite lookup_insert_ne; [done|congruence].
  - intros s b id el Hl Ek. split; [|by apply kept_same]. intros [H1' H2' H3' H4']. split; try done.
    intros k i. cbn. rewrite lookup_insert_Some. intros [[<- <-]|[_ Hk]]; [by exists el|by apply H1'].
  - intros s b id el Hl. eapply evolves_heap; cbn; try (done || tauto); cbn.
    + intros h b'. rewrite lookup_insert_Some. intros [[<- <-]|[_ ?]]; [by right|by left].
    + intros h i. rewrite lookup_insert_Some. intros [[<- <-]|[Hne Hh]].
      * right. split; [done|]. rewrite lookup_insert_eq. by eexists.
      * left. split; [done|]. by rewrite lookup_insert_ne.
  - intros s h id el Hl Hh. eapply evolves_heap; cbn; try (done || tauto); cbn.
    + intros h' b [_ ?]%lookup_delete_Some. by left.
    + intros h' i Hi. left. split; [done|]. rewrite lookup_delete_ne by congruence. done.
Qed.

(** ** Runs *)

(** The messages and timers a node reacts to.  The clock, the cache's timer, the queue
    and the iteration orders may differ from one event to the next. *)
Inductive event :=
| EvBlock (bs : BlockSource)             (* processMsgDo *)
| EvAck (vi : voteInfo)                  (* processAck *)
| EvFrontier (b : StateBlock)            (* processFrontier *)
| EvFrontiers (bs : list StateBlock)     (* onGetFrontier *)
| EvConfirmed (b : StateBlock)           (* confirmBlock *)
| EvDequeue (hash : Hash)                (* dequeueUncheckedFromDb *)
| EvCheckVotes                           (* checkVotes *)
| EvCleanFrontiers.                      (* cleanFrontierVotes *)

Record environment := {
  env_now : Z;
  env_tick : bool;
  env_queueCap : nat;
  env_order1 : gmap Hash StateBlock → list StateBlock;
  env_order2 : gmap Hash StateBlock → list StateBlock;
  env_rangeVotes : gmap Address Hash → list (Address * Hash);
  env_rangeTotals : gmap Hash BlockReceivedVotes → list BlockReceivedVotes;
  env_rangeBlocks : gmap Hash StateBlock → list (Hash * StateBlock);
  env_index : Z;
}.

Definition react (e : environment) (ev : event) : M DPoS unit :=
  let '(Build_environment now tick queueCap order1 order2 rangeVotes rangeTotals rangeBlocks index) := e in
  match ev with
  | EvBlock bs => processMsgDo now tick queueCap order1 order2 rangeVotes rangeTotals rangeBlocks index bs
  | EvAck vi => processAck now tick queueCap order1 order2 rangeVotes rangeTotals rangeBlocks vi
  | EvFrontier b => processFrontier now b
  | EvFrontiers bs => onGetFrontier bs
  | EvConfirmed b => confirmBlock now tick queueCap order1 order2 rangeBlocks index b
  | EvDequeue h =>
      dequeueUncheckedFromDb now tick queueCap order1 order2 rangeVotes rangeTotals rangeBlocks index h
  | EvCheckVotes => checkVotes now rangeBlocks
  | EvCleanFrontiers => cleanFrontierVotes
  end.

(** A run of a node: whatever a handler returns, the next one starts from the state it
    left. *)
Inductive node_run : DPoS → DPoS → Prop :=
| run_nil s : node_run s s
| run_step s e ev s1 s2 : (react e ev s).2 = s1 → node_run s1 s2 → node_run s s2.

Lemma react_respects (R : DPoS → DPoS → Prop) `{!NodeRel R} e ev :
  (∀ b, respects R (out (ConfirmedBlock b))) → respects R (react e ev).
Proof.
  intros Ho. destruct e, ev; cbn [react];
    first [apply (respects_processMsgDo R)|apply (respects_processAck R)|apply (respects_processFrontier R)
      |apply (respects_onGetFrontier R)|apply (respects_confirmBlock R)|apply (respects_dequeue R)
      |apply (respects_checkVotes R)|apply (respects_cleanFrontierVotes R)]; done.
Qed.

Lemma node_run_evolves s s' : node_run s s' → evolves s s'.
Proof.
  induction 1 as [s|s e ev s1 s2 <- _ IH]; [reflexivity|]. etransitivity; [|exact IH].
  apply (react_respects evolves). intros b s0. by apply evolves_same.
Qed.

(** C18: the elections of a node stay well formed.  In any run from a well-formed state,
    through every handler and whatever each of them returns, every root leads to an
    election of that root, every hash to an election it stands in, every candidate is
    stored under its own hash, and an election once decided stays decided and keeps its
    votes. *)
Theorem elections_stay_consistent s s' :
  elections_ok s → node_run s s' →
  elections_ok s' ∧
  ∀ id el, d_heap s !! id = Some el → el_valid el = false →
    ∃ el', d_heap s' !! id = Some el' ∧ el_valid el' = false ∧ el_repVotes el' = el_repVotes el.
Proof.
  intros Hs Hrun. destruct (node_run_evolves _ _ Hrun) as [Hok Hk]. split; [by apply Hok|].
  intros id el Hl Hv. destruct (Hk id el Hl) as (el' & Hl' & _ & _ & Hf). exists el'. split; [done|by apply Hf].
Qed.
End consistent.
