(* ===== verification/ElectionFacts.v ===== *)
(** * What elections guarantee

    The tally is the sum of the weights of the voters, whatever the order in which the
    votes and the totals are visited; with the weights of [Weights.v] at most one block
    has more than half of the coins behind it, so the block an election confirms does
    not depend on that order.  Two nodes that confirm rivals share a representative that
    voted for both. *)

From S2P Require Import Prelude Types Cache Storage Ledger LedgerFacts Contract GoBytes Check Process ProcessFacts Supply Weights Rollback Unchecked Election Processor Handlers.

(** ** Sums over votes *)
Definition support (w : Address → Z) (h : Hash) (votes : gmap Address Hash) : Z :=
  map_sum (λ rep h', if h' =? h then w rep else 0) votes.

Definition turnout (w : Address → Z) (votes : gmap Address Hash) : Z := map_sum (λ rep _, w rep) votes.

(** The same sums over a list of votes. *)
Fixpoint votes_for (w : Address → Z) (h : Hash) (vs : list (Address * Hash)) : Z :=
  match vs with [] => 0 | v :: vs' => (if v.2 =? h then w v.1 else 0) + votes_for w h vs' end.
Fixpoint votes_all (w : Address → Z) (vs : list (Address * Hash)) : Z :=
  match vs with [] => 0 | v :: vs' => w v.1 + votes_all w vs' end.

Lemma votes_for_perm w h vs vs' : vs ≡ₚ vs' → votes_for w h vs = votes_for w h vs'.
Proof. induction 1; cbn; congruence || lia. Qed.

Lemma votes_all_perm w vs vs' : vs ≡ₚ vs' → votes_all w vs = votes_all w vs'.
Proof. induction 1; cbn; congruence || lia. Qed.

Lemma votes_for_app w h vs vs' : votes_for w h (vs ++ vs') = votes_for w h vs + votes_for w h vs'.
Proof. induction vs; cbn; lia. Qed.

Lemma votes_all_app w vs vs' : votes_all w (vs ++ vs') = votes_all w vs + votes_all w vs'.
Proof. induction vs; cbn; lia. Qed.

Lemma support_votes w h m : support w h m = votes_for w h (map_to_list m).
Proof.
  unfold support, map_sum. rewrite map_fold_foldr.
  induction (map_to_list m) as [|[r x] vs IH]; [done|]. cbn. by rewrite IH.
Qed.

Lemma turnout_votes w m : turnout w m = votes_all w (map_to_list m).
Proof.
  unfold turnout, map_sum. rewrite map_fold_foldr.
  induction (map_to_list m) as [|[r x] vs IH]; [done|]. cbn. by rewrite IH.
Qed.

Section sums.
Context (w : Address → Z) (votes : gmap Address Hash).
Hypothesis (Hw : ∀ rep h, votes !! rep = Some h → 0 ≤ w rep).

Lemma support_nonneg h : 0 ≤ support w h votes.
Proof. apply map_sum_nonneg. intros r x Hr. pose proof (Hw r x Hr). destruct (_ =? _); lia. Qed.

Lemma support_le_turnout h : support w h votes ≤ turnout w votes.
Proof. apply map_sum_le. intros r x Hr. pose proof (Hw r x Hr). destruct (_ =? _); lia. Qed.

Lemma support_disjoint h h' : h ≠ h' → support w h votes + support w h' votes ≤ turnout w votes.
Proof.
  intros Hne. unfold support, turnout. rewrite <- map_sum_plus. apply map_sum_le.
  intros r x Hr. pose proof (Hw r x Hr).
  destruct (Z.eqb_spec x h), (Z.eqb_spec x h'); subst; done || lia.
Qed.

Lemma support_voter h : 0 < support w h votes → ∃ rep, votes !! rep = Some h.
Proof.
  intros Hs. destruct (decide (map_Exists (λ _ x, x = h) votes)) as [(r & x & Hr & ->)|Hn]; [by exists r|].
  exfalso. enough (support w h votes = 0) by lia. unfold support.
  rewrite (map_sum_ext _ (λ _ _, 0)); [apply map_sum_zero|].
  intros r x Hr. destruct (Z.eqb_spec x h) as [->|]; [|done]. exfalso. apply Hn. by exists r, h.
Qed.

Lemma support_none h : (∀ rep, votes !! rep ≠ Some h) → support w h votes = 0.
Proof.
  intros Hn. pose proof (support_nonneg h). destruct (decide (0 < support w h votes)) as [Hp|]; [|lia].
  apply support_voter in Hp as [rep Hr]. by apply Hn in Hr.
Qed.

(** The votes for one block. *)
Definition camp (h : Hash) : gmap Address Hash := filter (λ v, v.2 = h) votes.

Lemma turnout_camp h : turnout w (camp h) = support w h votes.
Proof.
  unfold turnout, support, camp. clear Hw. induction votes as [|r x m Hr IH] using map_ind; [done|].
  rewrite map_sum_insert_new by done. destruct (Z.eqb_spec x h) as [->|Hne].
  - rewrite map_filter_insert_True, map_sum_insert_new, IH by (done || by apply map_lookup_filter_None_2; left).
    done.
  - rewrite map_filter_insert_False, delete_id, IH by done. done.
Qed.
End sums.

Lemma turnout_union w (votes votes' : gmap Address Hash) :
  votes ##ₘ votes' → turnout w (votes ∪ votes') = turnout w votes + turnout w votes'.
Proof. apply map_sum_union. Qed.

(** Two camps, in different polls, without a common member. *)
Lemma camps_disjoint (votes votes' : gmap Address Hash) h h' :
  (∀ rep, votes !! rep = Some h → votes' !! rep = Some h' → False) → camp votes h ##ₘ camp votes' h'.
Proof.
  intros Hno. apply map_disjoint_spec. intros rep x x'.
  intros [Hx Ex]%map_lookup_filter_Some [Hx' Ex']%map_lookup_filter_Some. cbn in Ex, Ex'. subst. by eapply Hno.
Qed.

(** ** The tally *)
Section tally.
Context `{Crypto} `{Config} `{Node} `{Unicode} `{Consensus}.
Context (weight : Address → res Balance) (w : Address → Z) (blocks : gmap Hash StateBlock).

(** What the totals hold after the votes [vs]. *)
Definition totals_of (vs : list (Address * Hash)) (t : gmap Hash BlockReceivedVotes) : Prop :=
  ∀ h, t !! h = (if decide (h ∈ vs.*2)
                 then (λ b, mkBRV b (Some (votes_for w h vs))) <$> blocks !! h else None).

Lemma votes_for_none h vs : h ∉ vs.*2 → votes_for w h vs = 0.
Proof.
  induction vs as [|[r x] vs IH]; [done|]. cbn. rewrite list.not_elem_of_cons. intros [Hne Hn].
  rewrite IH by done. destruct (Z.eqb_spec x h); [by subst|lia].
Qed.

Lemma votes_for_bounds h vs :
  (∀ v, v ∈ vs → 0 ≤ w v.1) → 0 ≤ votes_for w h vs ≤ votes_all w vs.
Proof.
  induction vs as [|[r x] vs IH]; intros Hw; [done|]. cbn.
  pose proof (Hw (r, x) ltac:(left)). assert (0 ≤ votes_for w h vs ≤ votes_all w vs).
  { apply IH. intros v Hv. apply Hw. by right. }
  cbn in *. destruct (_ =? _); lia.
Qed.

Lemma tallyStep_totals vs v t :
  totals_of vs t → (∀ x, x ∈ vs ++ [v] → weight x.1 = Ok (Some (w x.1)) ∧ 0 ≤ w x.1) →
  votes_all w (vs ++ [v]) < 2 ^ 64 →
  ∃ t', tallyStep weight blocks (Ok t) v = Ok t' ∧ totals_of (vs ++ [v]) t'.
Proof.
  intros Ht Hw Hb. destruct v as [rep hash].
  destruct (Hw (rep, hash)) as [Hr Hr0]; [set_solver|]. cbn in Hr, Hr0.
  assert (Hvs : ∀ v, v ∈ vs → 0 ≤ w v.1) by (intros v Hv; apply Hw; set_solver).
  pose proof (votes_for_bounds hash vs Hvs) as Hbd.
  rewrite votes_all_app in Hb. cbn in Hb. unfold tallyStep. cbn -[Bal.Add].
  assert (Hent : match t !! hash with
                 | Some x => Some x
                 | None => (λ b, mkBRV b Bal.ZeroBalance) <$> blocks !! hash
                 end = (λ b, mkBRV b (Some (votes_for w hash vs))) <$> blocks !! hash).
  { rewrite Ht. destruct (decide _) as [|Hn]; destruct (blocks !! hash); cbn; try done.
    by rewrite votes_for_none. }
  assert (Hother : ∀ h, h ≠ hash → (h ∈ (vs ++ [(rep, hash)]).*2 ↔ h ∈ vs.*2) ∧
                        votes_for w h (vs ++ [(rep, hash)]) = votes_for w h vs).
  { intros h Hne. rewrite fmap_app, votes_for_app. cbn. destruct (Z.eqb_spec hash h); [done|].
    split; [set_solver|lia]. }
  rewrite Hent. destruct (blocks !! hash) as [b|] eqn:Eb; cbn -[Bal.Add].
  - rewrite Hr. cbn -[Bal.Add]. rewrite BalFacts.Add_no_overflow by lia. cbn. eexists; split; [done|]. intros h.
    destruct (decide (h = hash)) as [->|Hne].
    + rewrite lookup_insert_eq, decide_True by (rewrite fmap_app; set_solver).
      rewrite Eb, votes_for_app. cbn. rewrite Z.eqb_refl. do 3 f_equal. lia.
    + rewrite lookup_insert_ne by done. destruct (Hother h Hne) as [Hiff ->].
      rewrite Ht. repeat case_decide; tauto.
  - eexists; split; [done|]. intros h. destruct (decide (h = hash)) as [->|Hne].
    + rewrite Ht, Eb. by repeat case_decide.
    + destruct (Hother h Hne) as [Hiff ->]. rewrite Ht. repeat case_decide; tauto.
Qed.

Lemma tally_list vs :
  (∀ v, v ∈ vs → weight v.1 = Ok (Some (w v.1)) ∧ 0 ≤ w v.1) → votes_all w vs < 2 ^ 64 →
  ∃ t, foldl (tallyStep weight blocks) (Ok ∅) vs = Ok t ∧ totals_of vs t.
Proof.
  induction vs as [|v vs IH] using rev_ind; intros Hw Hb; [by exists ∅|].
  destruct IH as (t & Hf & Ht); [intros x Hx; apply Hw; set_solver| |].
  { rewrite votes_all_app in Hb. cbn in Hb. destruct (Hw v); [set_solver|]. lia. }
  rewrite foldl_app. cbn. rewrite Hf. by apply tallyStep_totals.
Qed.
End tally.

(** ** The weight of all voters *)
Section turnout.
Context `{Crypto} `{Config}.

Lemma turnout_swap F v votes :
  turnout (λ rep, delegated F rep v) votes = acct_sum (λ am, turnout (λ rep, delegation F rep am) votes) v.
Proof.
  unfold turnout. induction votes as [|r h votes Hr IH] using map_ind.
  - unfold acct_sum. rewrite map_sum_empty, (map_sum_ext _ (λ _ _, 0)); [by rewrite map_sum_zero|].
    intros k x _. unfold acct_entry. destruct k; try done; destruct x; try done.
  - rewrite map_sum_insert_new, IH by done. unfold delegated, acct_sum. rewrite <- map_sum_plus.
    apply map_sum_ext. intros k x _. unfold acct_entry. destruct k; try done; destruct x; try done.
    by rewrite map_sum_insert_new.
Qed.

(** An account has one representative. *)
Lemma turnout_account F am votes :
  turnout (λ rep, delegation F rep am) votes = 0 ∨
  ∃ r, turnout (λ rep, delegation F rep am) votes = delegation F r am.
Proof.
  unfold turnout, delegation, delegates. destruct (AM.Token am ChainToken) as [tm|].
  - rewrite (map_sum_point _ votes (tm_Representative tm)).
    + unfold entry_sum. destruct (votes !! _); [right; by eexists|by left].
    + intros r h _ Hne. destruct (Z.eqb_spec (tm_Representative tm) r); [congruence|done].
  - left. apply map_sum_zero.
Qed.

Lemma turnout_le_coins v votes :
  wf_view v → coins_ok v → turnout (λ rep, delegated FTotal rep v) votes ≤ coins v.
Proof.
  intros Hwf Hc. rewrite turnout_swap. apply acct_sum_le_coins; [done..|]. intros a am Hl.
  destruct (turnout_account FTotal am votes) as [->|[r ->]].
  - etransitivity; apply (delegation_bounds v a am FTotal 0 Hwf Hc Hl).
  - apply (delegation_bounds v a am FTotal r Hwf Hc Hl).
Qed.
End turnout.

(** ** The block with the most votes *)
Definition bal_of (v : BlockReceivedVotes) : Z := Bal.amount (brv_balance v).

Lemma best_from l a0 b0 :
  Forall (λ v, ∃ n, brv_balance v = Some n) l →
  ∃ m b, foldl bestStep (Ok (Some a0, b0)) l = Ok (Some m, b) ∧ a0 ≤ m ∧
    (∀ v, v ∈ l → bal_of v ≤ m) ∧
    ((m, b) = (a0, b0) ∨ ∃ v, v ∈ l ∧ brv_balance v = Some m ∧ brv_block v = b).
Proof.
  revert a0 b0. induction l as [|v l IH]; intros a0 b0 Hl.
  - exists a0, b0. repeat split; [lia|by intros ? ?%elem_of_nil|by left].
  - apply Forall_cons_iff in Hl as [[n Hn] Hl]. cbn [foldl]. unfold bestStep at 2.
    cbn [mbind res_bind fst]. rewrite Hn, BalFacts.Compare_Some. cbn [mbind res_bind].
    set (smaller := bool_decide _).
    assert (Hs : smaller = (a0 <? n)).
    { unfold smaller. destruct (Z.eqb_spec a0 n); [subst|]; [by rewrite Z.ltb_irrefl|].
      destruct (Z.ltb_spec n a0), (Z.ltb_spec a0 n); try lia; done. }
    rewrite Hs. clear smaller Hs. assert (Hb : bal_of v = n) by (unfold bal_of; by rewrite Hn).
    destruct (Z.ltb_spec a0 n).
    + destruct (IH n (brv_block v) Hl) as (m & b & -> & Hm & Hall & Hor). exists m, b. split; [done|].
      split; [lia|]. split.
      * intros v' [->|Hv']%list.elem_of_cons; [lia|auto].
      * right. destruct Hor as [[= -> ->]|(v' & ? & ? & ?)]; [exists v|exists v']; set_solver.
    + destruct (IH a0 b0 Hl) as (m & b & -> & Hm & Hall & Hor). exists m, b. split; [done|].
      split; [lia|]. split.
      * intros v' [->|Hv']%list.elem_of_cons; [lia|auto].
      * destruct Hor as [Hor|(v' & ? & ? & ?)]; [by left|right; exists v'; set_solver].
Qed.

Lemma exceeds_Some a t : exceeds (Some a) (Some t) = Ok (t <? a).
Proof.
  unfold exceeds. rewrite BalFacts.Compare_Some. cbn [mbind res_bind]. f_equal.
  destruct (Z.eqb_spec a t); [subst; by rewrite Z.ltb_irrefl|]. by destruct (t <? a).
Qed.

(** ** Deciding an election *)
Section quorum.
Context `{Crypto} `{Config} `{Node} `{Unicode} `{Consensus}.
Variables (now : Z) (tick : bool) (queueCap : nat).
Variables (order1 order2 : gmap Hash StateBlock → list StateBlock).
Variables (rangeVotes : gmap Address Hash → list (Address * Hash)).
Variables (rangeTotals : gmap Hash BlockReceivedVotes → list BlockReceivedVotes).
Variables (rangeBlocks : gmap Hash StateBlock → list (Hash * StateBlock)).
(** A range over a map visits every entry once, in some order. *)
Hypothesis (HrangeVotes : ∀ m, rangeVotes m ≡ₚ map_to_list m).
Hypothesis (HrangeTotals : ∀ t, rangeTotals t ≡ₚ (map_to_list t).*2).

(** The weight behind a representative, and behind a block. *)
Definition stake_of (s : DPoS) (rep : Address) : Z := delegated FTotal rep (lview (d_ledger s)).
Definition behind (s : DPoS) (el : Election) (h : Hash) : Z := support (stake_of s) h (el_repVotes el).

(** The ledger's weights are exact, the threshold is at least half of the coins rounded
    down, and nobody votes as the zero address. *)
Record voting (s : DPoS) (el : Election) (T : Z) : Prop := {
  vt_ledger : weighed (d_ledger s);
  vt_threshold : d_voteThreshold s = Some T;
  vt_half : coins (lview (d_ledger s)) ≤ 2 * T + 1;
  vt_voters : el_repVotes el !! 0 = None;
}.

Definition exact_totals (s : DPoS) (el : Election) (t : gmap Hash BlockReceivedVotes) : Prop :=
  ∀ h, t !! h = (if decide (map_Exists (λ _ x, x = h) (el_repVotes el))
                 then (λ b, mkBRV b (Some (behind s el h))) <$> el_blocks el !! h else None).

Section voting.
Context (s : DPoS) (el : Election) (T : Z) (Hv : voting s el T).

Lemma voter_weight rep h :
  el_repVotes el !! rep = Some h →
  weightOf s false rep = Ok (Some (stake_of s rep)) ∧ 0 ≤ stake_of s rep.
Proof.
  intros Hr. destruct Hv as [[Hok Hwf Hc Hw Hbd] _ _ Hz]. assert (rep ≠ 0) by congruence.
  split; [|by apply delegated_bounds]. unfold weightOf. rewrite Weight_rep_of by (done || apply Hwf).
  f_equal. by apply (Hw rep FTotal).
Qed.

Lemma turnout_bound : turnout (stake_of s) (el_repVotes el) ≤ coins (lview (d_ledger s)).
Proof. destruct Hv as [[Hok Hwf Hc _ _] _ _ _]. by apply turnout_le_coins. Qed.

Lemma threshold_nonneg : 0 ≤ T.
Proof.
  destruct Hv as [[_ Hwf Hc _ _] _ Hh _].
  pose proof (delegated_bounds (lview (d_ledger s)) FTotal 0 Hwf Hc). lia.
Qed.

Lemma one_quorum h h' : T < behind s el h → T < behind s el h' → h = h'.
Proof.
  intros H1' H2'. destruct (decide (h = h')) as [|Hne]; [done|]. exfalso.
  pose proof (support_disjoint (stake_of s) (el_repVotes el) (λ r x Hr, proj2 (voter_weight r x Hr)) h h' Hne).
  pose proof turnout_bound. pose proof (vt_half _ _ _ Hv). unfold behind in *. lia.
Qed.

Lemma tally_exact : ∃ t, tally rangeVotes (weightOf s false) el = Ok t ∧ exact_totals s el t.
Proof.
  pose proof (HrangeVotes (el_repVotes el)) as Hp.
  destruct (tally_list (weightOf s false) (stake_of s) (el_blocks el) (rangeVotes (el_repVotes el)))
    as (t & Ht & Htot).
  - intros [r x] Hin. rewrite Hp, elem_of_map_to_list in Hin. by eapply voter_weight.
  - rewrite (votes_all_perm _ _ _ Hp), <- turnout_votes.
    pose proof turnout_bound. pose proof (wl_bound _ (vt_ledger _ _ _ Hv)). lia.
  - exists t. split; [done|]. intros h. rewrite Htot, (votes_for_perm _ _ _ _ Hp), <- support_votes.
    enough (Hiff : h ∈ (rangeVotes (el_repVotes el)).*2 ↔ map_Exists (λ _ x, x = h) (el_repVotes el))
      by (repeat case_decide; tauto).
    rewrite Hp, list_elem_of_fmap. split.
    + intros ([r x] & -> & Hin%elem_of_map_to_list). by exists r, x.
    + intros (r & x & Hin & ->). exists (r, h). by rewrite elem_of_map_to_list.
Qed.

Lemma totals_elem t v :
  exact_totals s el t → v ∈ rangeTotals t →
  ∃ h, el_blocks el !! h = Some (brv_block v) ∧ brv_balance v = Some (behind s el h).
Proof.
  intros Ht. rewrite (HrangeTotals t), list_elem_of_fmap.
  intros ([h v'] & -> & Hin%elem_of_map_to_list). exists h. rewrite Ht in Hin.
  case_decide; [|done]. destruct (el_blocks el !! h) as [b|]; [|done]. injection Hin as <-. done.
Qed.

(** The outcome of the two loops: the block with the quorum, or none. *)
Lemma best_decides t :
  exact_totals s el t →
  ∃ m b, best rangeTotals t = Ok (Some m, b) ∧
    if T <? m then ∃ h, el_blocks el !! h = Some b ∧ m = behind s el h
    else ∀ h b', el_blocks el !! h = Some b' → behind s el h ≤ T.
Proof.
  intros Ht. destruct (best_from (rangeTotals t) 0 emptyBlock) as (m & b & Hb & Hm & Hall & Hor).
  { apply list.Forall_forall. intros v (h & _ & ->)%totals_elem; [by eexists|done]. }
  exists m, b. split; [exact Hb|]. pose proof threshold_nonneg as HT. destruct (Z.ltb_spec T m).
  - destruct Hor as [[= -> ->]|(v & Hin & Hbal & <-)]; [lia|].
    apply totals_elem in Hin as (h & Hbl & Hb'); [|done]. exists h. split; [done|congruence].
  - intros h b' Hbl. destruct (decide (map_Exists (λ _ x, x = h) (el_repVotes el))) as [He|Hn].
    + etransitivity; [|done]. set (v := mkBRV b' (Some (behind s el h))).
      apply (Hall v). rewrite (HrangeTotals t), list_elem_of_fmap. exists (h, v). split; [done|].
      apply elem_of_map_to_list. rewrite Ht, decide_True by done. by rewrite Hbl.
    + unfold behind. rewrite support_none; [done|intros r x Hr; by eapply voter_weight|].
      intros r Hr. apply Hn. by exists r, h.
Qed.
End voting.

#[local] Abbreviation haveQuorum' :=
  (haveQuorum now tick queueCap order1 order2 rangeVotes rangeTotals rangeBlocks) (only parsing).
#[local] Abbreviation confirmWinner' :=
  (confirmWinner now tick queueCap order1 order2 rangeVotes rangeTotals rangeBlocks) (only parsing).

Definition decided (s : DPoS) (id : nat) (el : Election) : DPoS :=
  with_heap s (<[id := set_valid el false]> (d_heap s)).

Lemma haveQuorum_outcome s id el T :
  voting s el T → d_heap s !! id = Some el → el_valid el = true →
  (∃ t h b, exact_totals s el t ∧ el_blocks el !! h = Some b ∧ T < behind s el h ∧
     haveQuorum' id s = confirmWinner' id t b (decided s id el)) ∨
  ((∀ h b, el_blocks el !! h = Some b → behind s el h ≤ T) ∧ haveQuorum' id s = (Ok tt, s)).
Proof.
  intros Hv Hl Hval. destruct (tally_exact s el T Hv) as (t & Ht & Hex).
  destruct (best_decides s el T Hv t Hex) as (m & b & Hb & Hm).
  assert (Heq : haveQuorum' id s = if (size t =? 0)%nat then (Ok tt, s) else
    if T <? m then confirmWinner' id t b (decided s id el) else (Ok tt, s)).
  { unfold haveQuorum, getEl, readS, getS, liftR, mbind, M_bind. rewrite Hl, Ht. destruct (size t =? 0)%nat; [done|]. rewrite Hb. cbn [fst snd].
    rewrite (vt_threshold _ _ _ Hv), exceeds_Some. destruct (T <? m); [|done].
    unfold ifValidAndSetInvalid, getEl, readS, setEl, modifyS, mbind, M_bind. rewrite Hl. by rewrite Hval. }
  rewrite Heq. destruct (Z.ltb_spec T m) as [Hlt|Hle].
  - destruct Hm as (h & Hbl & ->). left. exists t, h, b. repeat split; try done.
    assert (Hs : size t ≠ 0%nat); [|by apply Nat.eqb_neq in Hs as ->].
    intros E%map_size_empty_inv. pose proof (threshold_nonneg s el T Hv).
    destruct (support_voter (stake_of s) (el_repVotes el) h) as [r Hr]; [unfold behind in Hlt; lia|].
    pose proof (Hex h) as Hh. rewrite E, lookup_empty, decide_True, Hbl in Hh by by exists r, h. done.
  - right. split; [exact Hm|]. by destruct (size t =? 0)%nat.
Qed.

(** C7: an election is decided by weight alone.  With exact weights, a threshold of half
    of the coins and whatever order the votes and totals are visited in, no two candidates
    exceed the threshold; the candidate that does is the one that is confirmed, and
    without one the node does nothing. *)
Theorem quorum_decides s id el T :
  voting s el T → d_heap s !! id = Some el → el_valid el = true →
  (∀ h h', T < behind s el h → T < behind s el h' → h = h') ∧
  (∀ h b, el_blocks el !! h = Some b → T < behind s el h →
     ∃ t, exact_totals s el t ∧ haveQuorum' id s = confirmWinner' id t b (decided s id el)) ∧
  ((∀ h b, el_blocks el !! h = Some b → behind s el h ≤ T) → haveQuorum' id s = (Ok tt, s)).
Proof.
  intros Hv Hl Hval. split; [|split].
  - intros h h'. by apply (one_quorum s el T).
  - intros h b Hb Hq. destruct (haveQuorum_outcome s id el T Hv Hl Hval) as [(t & h' & b' & Hex & Hb' & Hq' & He)|[Hn _]].
    + rewrite (one_quorum s el T Hv h h' Hq Hq') in Hb. rewrite Hb in Hb'. injection Hb' as <-. by exists t.
    + specialize (Hn h b Hb). lia.
  - intros Hn. destruct (haveQuorum_outcome s id el T Hv Hl Hval) as [(t & h & b & _ & Hb & Hq & _)|[_ He]]; [|done].
    specialize (Hn h b Hb). lia.
Qed.
End quorum.

(** ** Announcements *)
Definition confirmed (s : DPoS) : list StateBlock :=
  omap (λ a, match a with ConfirmedBlock b => Some b | _ => None end) (d_out s).

Definition quiet (s s' : DPoS) : Prop := confirmed s' = confirmed s.

Lemma confirmed_out s a :
  confirmed (add_out s a) = confirmed s ++ (match a with ConfirmedBlock b => [b] | _ => [] end).
Proof. unfold confirmed. cbn. rewrite omap_app. by destruct a. Qed.

#[global] Instance quiet_rel `{Crypto} : NodeRel quiet.
Proof.
  split; try done.
  - split; [done|]. intros s1 s2 s3 E1 E2. unfold quiet in *. congruence.
  - intros s a Ha. unfold quiet. rewrite confirmed_out. destruct a; try by rewrite app_nil_r.
    by destruct (Ha b).
Qed.

(** At most the block [b] is announced. *)
Definition says {A} (b : StateBlock) (m : M DPoS A) : Prop := ∀ s,
  confirmed (m s).2 = confirmed s ∨ confirmed (m s).2 = confirmed s ++ [b].

Lemma says_bind {A B} b (m : M DPoS A) (f : A → M DPoS B) :
  respects quiet m → (∀ a, says b (f a)) → says b (m ≫= f).
Proof.
  intros Hm Hf s. specialize (Hm s). unfold quiet, mbind, M_bind in *.
  destruct (m s) as [[a|e|] s1]; cbn [snd] in *; rewrite <- Hm; [apply Hf|by left..].
Qed.

Lemma says_out {B} b (m : M DPoS B) : respects quiet m → says b (out (ConfirmedBlock b);; m).
Proof.
  intros Hm s. right. unfold out, modifyS, mbind, M_bind. rewrite (Hm (add_out s (ConfirmedBlock b))).
  apply confirmed_out.
Qed.

(** ** Two nodes *)
Section nodes.
Context `{Crypto} `{Config} `{Node} `{Unicode} `{Consensus}.

(** The handlers of elections in an environment. *)
Definition confirm_in (e : environment) (id : nat) (t : gmap Hash BlockReceivedVotes) (b : StateBlock) : M DPoS unit :=
  confirmWinner (env_now e) (env_tick e) (env_queueCap e) (env_order1 e) (env_order2 e)
    (env_rangeVotes e) (env_rangeTotals e) (env_rangeBlocks e) id t b.

Definition vote_in (e : environment) (vi : voteInfo) : M DPoS unit :=
  act_vote (env_now e) (env_tick e) (env_queueCap e) (env_order1 e) (env_order2 e)
    (env_rangeVotes e) (env_rangeTotals e) (env_rangeBlocks e) vi.

Record fair (e : environment) : Prop := {
  fair_votes : ∀ m, env_rangeVotes e m ≡ₚ map_to_list m;
  fair_totals : ∀ t, env_rangeTotals e t ≡ₚ (map_to_list t).*2;
}.

Lemma confirm_says e id t b : says b (confirm_in e id t b).
Proof.
  unfold confirm_in, confirmWinner.
  apply says_bind; [apply (respects_getEl quiet)|intros el].
  apply says_bind; [apply (respects_rootsDelete quiet)|intros _].
  apply says_bind; [by intros s|intros _].
  apply says_bind; [apply (respects_rollBack quiet)|intros _].
  apply says_bind; [apply (respects_addWinner quiet)|intros _].
  apply says_bind; [apply (respects_statistic quiet)|intros _].
  apply says_bind; [apply (respects_dispatch quiet)|intros _].
  apply says_out, (respects_cleanBlockInfo quiet).
Qed.

(** A node whose elections can be decided: see [voting]. *)
Record voting_node (s : DPoS) (T : Z) : Prop := {
  vn_ledger : weighed (d_ledger s);
  vn_threshold : d_voteThreshold s = Some T;
  vn_half : coins (lview (d_ledger s)) ≤ 2 * T + 1;
  vn_voters : ∀ id el, d_heap s !! id = Some el → el_repVotes el !! 0 = None;
  vn_elections : elections_ok s;
}.

Lemma voteStatus_voters votes vi r votes' :
  votes !! 0 = None → vi_account vi ≠ 0 → voteStatus votes vi = (r, votes') → votes' !! 0 = None.
Proof.
  unfold voteStatus. intros H0' Hne. destruct (votes !! vi_account vi) as [h|];
    [destruct (h =? vi_hash vi)|]; intros [= <- <-]; by rewrite ?lookup_insert_ne.
Qed.

(** The state in which a vote's election is decided. *)
Definition voted (s : DPoS) (id : nat) (el : Election) (votes : gmap Address Hash) : DPoS :=
  decided (with_heap s (<[id:=set_votes el votes]> (d_heap s))) id (set_votes el votes).

Lemma vote_outcome e vi s T :
  fair e → voting_node s T → vi_account vi ≠ 0 →
  confirmed (vote_in e vi s).2 = confirmed s ∨
  ∃ id el votes t h b, d_heap s !! id = Some el ∧ el_blocks el !! h = Some b ∧
    T < support (stake_of s) h votes ∧ vote_in e vi s = confirm_in e id t b (voted s id el votes).
Proof.
  intros [Hf1 Hf2] [Hled Hthr Hhalf Hvot Hok] Hne. unfold vote_in, act_vote, getS. unfold mbind, M_bind.
  destruct (d_hash2el s !! vi_hash vi) as [id|] eqn:Eh; [|by left].
  destruct (eo_hash2el _ Hok _ _ Eh) as (el & b0 & Hl & Hb0).
  unfold voteAction, getEl, readS. unfold mbind, M_bind. rewrite Hl.
  destruct (el_valid el) eqn:Hval; cbn [negb]; [|by left].
  destruct (voteStatus (el_repVotes el) vi) as [r votes] eqn:Evs.
  pose proof (voteStatus_voters _ _ _ _ (Hvot _ _ Hl) Hne Evs) as Hz.
  unfold setEl, modifyS. set (el1 := set_votes el votes). set (s1 := with_heap s _).
  assert (Hl1 : d_heap s1 !! id = Some el1) by apply lookup_insert_eq.
  assert (Hv1 : voting s1 el1 T) by (by split).
  assert (Hq : ∀ m : M DPoS unit, m s1 = (Ok tt, s1) ∨ (∃ t h b, el_blocks el !! h = Some b ∧
      T < support (stake_of s) h votes ∧ m s1 = confirm_in e id t b (voted s id el votes)) →
    confirmed (m s1).2 = confirmed s ∨ ∃ id el votes t h b, d_heap s !! id = Some el ∧
      el_blocks el !! h = Some b ∧ T < support (stake_of s) h votes ∧
      m s1 = confirm_in e id t b (voted s id el votes)).
  { intros m [->|(t & h & b & Hb & Hs & ->)]; [by left|right; by exists id, el, votes, t, h, b]. }
  destruct (haveQuorum_outcome (env_now e) (env_tick e) (env_queueCap e) (env_order1 e) (env_order2 e)
    _ _ (env_rangeBlocks e) Hf1 Hf2 s1 id el1 T Hv1 Hl1 Hval) as [(t & h & b & _ & Hb & Hs & He)|[_ He]];
    apply Hq; destruct r; eauto 10.
Qed.

(** A vote that has a block announced: the block has the quorum, in an election that
    keeps its votes. *)
Lemma vote_confirms e vi s T b :
  fair e → voting_node s T → vi_account vi ≠ 0 →
  confirmed (vote_in e vi s).2 = confirmed s ++ [b] →
  ∃ id el, d_heap (vote_in e vi s).2 !! id = Some el ∧
    T < support (stake_of s) (SB.GetHash b) (el_repVotes el).
Proof.
  intros Hf Hn Hne Hc. assert (Hself : confirmed s ≠ confirmed s ++ [b]).
  { intros E%(f_equal length). rewrite length_app in E. cbn in E. lia. }
  destruct (vote_outcome e vi s T Hf Hn Hne) as [E|(id & el & votes & t & h & b' & Hl & Hb & Hs & E)];
    [congruence|].
  rewrite E in Hc |- *. assert (b' = b) as ->.
  { destruct (confirm_says e id t b' (voted s id el votes)) as [E'|E']; rewrite Hc in E';
      [by symmetry in E'|by apply app_inj_tail in E' as [_ ->]]. }
  assert (Hbh : SB.GetHash b = h) by (by apply (eo_blocks _ (vn_elections _ _ Hn) id el h b)).
  destruct (respects_confirmWinner evolves (env_now e) (env_tick e) (env_queueCap e) (env_order1 e)
    (env_order2 e) (env_rangeVotes e) (env_rangeTotals e) (env_rangeBlocks e)
    ltac:(intros b1 s0; by apply evolves_same) id t b (voted s id el votes)) as [_ Hk].
  destruct (Hk id (set_valid (set_votes el votes) false)) as (el2 & Hl2 & _ & _ & Hfr); [apply lookup_insert_eq|].
  destruct (Hfr eq_refl) as [_ Hv2]. exists id, el2. split; [exact Hl2|]. rewrite Hbh, Hv2. exact Hs.
Qed.

(** C9: rival confirmations are somebody's fault.  Two nodes have exact weights, agree on
    them, and have half of all coins as their threshold.  If each confirms, by a vote,
    one of two different blocks, then some representative has voted for one block on one
    node and for the other block on the other. *)
Theorem rival_confirmations_share_a_voter e1 e2 vi1 vi2 s1 s2 T b1 b2 :
  fair e1 → fair e2 → voting_node s1 T → voting_node s2 T → vi_account vi1 ≠ 0 → vi_account vi2 ≠ 0 →
  (∀ rep, stake_of s1 rep = stake_of s2 rep) →
  confirmed (vote_in e1 vi1 s1).2 = confirmed s1 ++ [b1] →
  confirmed (vote_in e2 vi2 s2).2 = confirmed s2 ++ [b2] →
  ∃ rep id1 el1 id2 el2,
    d_heap (vote_in e1 vi1 s1).2 !! id1 = Some el1 ∧ el_repVotes el1 !! rep = Some (SB.GetHash b1) ∧
    d_heap (vote_in e2 vi2 s2).2 !! id2 = Some el2 ∧ el_repVotes el2 !! rep = Some (SB.GetHash b2).
Proof.
  intros Hf1 Hf2 Hn1 Hn2 Hz1 Hz2 Hw Hc1 Hc2.
  destruct (vote_confirms e1 vi1 s1 T b1 Hf1 Hn1 Hz1 Hc1) as (id1 & el1 & Hl1 & Hq1).
  destruct (vote_confirms e2 vi2 s2 T b2 Hf2 Hn2 Hz2 Hc2) as (id2 & el2 & Hl2 & Hq2).
  set (P := λ rep x, x = SB.GetHash b1 ∧ el_repVotes el2 !! rep = Some (SB.GetHash b2)).
  destruct (decide (map_Exists P (el_repVotes el1))) as [(rep & x & Hx & -> & Hr2)|Hno];
    [by exists rep, id1, el1, id2, el2|].
  exfalso. pose proof (camps_disjoint (el_repVotes el1) (el_repVotes el2) (SB.GetHash b1) (SB.GetHash b2)) as Hd.
  pose proof (turnout_le_coins (lview (d_ledger s1))
    (camp (el_repVotes el1) (SB.GetHash b1) ∪ camp (el_repVotes el2) (SB.GetHash b2))) as Hle.
  rewrite turnout_union in Hle.
  2:{ apply Hd. intros rep Hr1 Hr2. apply Hno. by exists rep, (SB.GetHash b1). }
  rewrite !turnout_camp in Hle. destruct Hn1 as [[_ Hwf Hc _ _] _ Hh _ _].
  specialize (Hle Hwf Hc). change (λ rep, delegated FTotal rep (lview (d_ledger s1))) with (stake_of s1) in Hle.
  unfold support in *.
  rewrite (map_sum_ext (λ rep h', if h' =? SB.GetHash b2 then stake_of s2 rep else 0)
    (λ rep h', if h' =? SB.GetHash b2 then stake_of s1 rep else 0)) in Hq2 by (intros; by rewrite Hw).
  lia.
Qed.
End nodes.
