(* ===== verification/Sample.v ===== *)
(** * A sample environment and ledger

    Concrete primitives, a genesis ledger with one account, and a few signed
    blocks, on which the definitions are evaluated.  The digest is a simple
    polynomial hash, a signature is valid when it repeats the signed message. *)

From S2P Require Import Trie TrieIter TrieStore.
From S2P Require Import Prelude Types Cache Storage Ledger LedgerFacts Contract GoBytes Check.
From S2P Require Import Process ProcessFacts Supply Weights Chain Progress Rollback RollbackFacts Undo Unconfirmed.

Module Sample.
#[export] Instance crypto : Crypto :=
  {| blake2b256 := foldl (λ acc x, (acc * 257 + x + 1) mod 1000003) 7;
     blake2b64 := λ _, replicate 8 255;
     ed25519_Verify := λ _ m sig, bool_decide (sig = m) |}.

#[export] Instance config : Config :=
  {| ChainToken := 1; genesisMintageHash := 2; genesisBlockHash := 3;
     gasMintageHash := 4; gasBlockHash := 5 |}.

(** A record is encoded as one number. *)
Definition msgTuple (tn : TrieNodeMsg) :=
  (tn_Hash tn, tn_Type tn, tn_Children tn, tn_Key tn, tn_Child tn, tn_Value tn).

#[export] Instance codec : TrieCodec :=
  {| MarshalMsg := λ tn, Ok [Z.pos (encode (msgTuple tn))];
     UnmarshalMsg := λ bs,
       match bs with
       | [Z.pos p] =>
           match decode p with
           | Some (h, ty, cs, k, c, v) => Ok (mkTrieNodeMsg h ty cs k c v)
           | None => Err (Errorf "msgp")
           end
       | _ => Err (Errorf "msgp")
       end |}.

#[export] Instance codec_laws : TrieCodecLaws.
Proof.
  intros tn. exists [Z.pos (encode (msgTuple tn))]. split_and!; [done..|]. cbn.
  by rewrite decode_encode; destruct tn.
Qed.

#[export] Instance node : Node :=
  {| node_codec := codec; defaultStore := true; qlcAllChainContracts := ∅; MintageAddress := 6; rewardContracts := [];
     relationMap := []; mintageUnpack := λ _, true;
     GetLatestPovHeader := Ok 0; GetPovHeaderByHeight := Ok |}.

#[export] Instance unicode : Unicode := {| SimpleFold := id |}.

Definition alice : Address := 11.
Definition bob : Address := 12.
Definition rep1 : Address := 13.
Definition rep2 : Address := 14.

Definition unsigned (ty : BlockType) (addr : Address) (bal : Z) (prev link : Hash) (rep : Address)
  : StateBlock :=
  {| sb_Type := ty; sb_Token := ChainToken; sb_Address := addr; sb_Balance := Some bal;
     sb_Vote := Some 0; sb_Network := Some 0; sb_Storage := Some 0; sb_Oracle := Some 0;
     sb_Previous := prev; sb_Link := link; sb_Sender := []; sb_Receiver := [];
     sb_Message := 0; sb_Data := []; sb_PoVHeight := 0; sb_Timestamp := 0; sb_Extra := 0;
     sb_Representative := rep; sb_PrivateFrom := []; sb_PrivateFor := []; sb_PrivateGroupID := [];
     sb_Work := 0; sb_Signature := []; sb_Flag := 0; sb_PrivateRecvRsp := false;
     sb_PrivatePayload := [] |}.

Definition sign (b : StateBlock) : StateBlock :=
  {| sb_Type := sb_Type b; sb_Token := sb_Token b; sb_Address := sb_Address b;
     sb_Balance := sb_Balance b; sb_Vote := sb_Vote b; sb_Network := sb_Network b;
     sb_Storage := sb_Storage b; sb_Oracle := sb_Oracle b; sb_Previous := sb_Previous b;
     sb_Link := sb_Link b; sb_Sender := sb_Sender b; sb_Receiver := sb_Receiver b;
     sb_Message := sb_Message b; sb_Data := sb_Data b; sb_PoVHeight := sb_PoVHeight b;
     sb_Timestamp := sb_Timestamp b; sb_Extra := sb_Extra b;
     sb_Representative := sb_Representative b; sb_PrivateFrom := sb_PrivateFrom b;
     sb_PrivateFor := sb_PrivateFor b; sb_PrivateGroupID := sb_PrivateGroupID b;
     sb_Work := sb_Work b; sb_Signature := hash_bytes (SB.GetHash b); sb_Flag := sb_Flag b;
     sb_PrivateRecvRsp := sb_PrivateRecvRsp b; sb_PrivatePayload := sb_PrivatePayload b |}.

Definition block ty addr bal prev link rep : StateBlock := sign (unsigned ty addr bal prev link rep).

(** Alice holds 100 units of the chain token. *)
Definition genesis : StateBlock := block Open alice 100 0 99 rep1.

(** Hashes of the blocks, as numbers. *)
Definition hash0 : Hash := Eval vm_compute in SB.GetHash genesis.

Definition aliceMeta : AccountMeta :=
  {| am_Address := alice; am_CoinBalance := Some 100; am_CoinVote := Some 0;
     am_CoinNetwork := Some 0; am_CoinStorage := Some 0; am_CoinOracle := Some 0;
     am_Tokens := [{| tm_Type := ChainToken; tm_Header := hash0; tm_Representative := rep1;
                      tm_OpenBlock := hash0; tm_Balance := Some 100; tm_BelongTo := alice;
                      tm_Modified := 0; tm_BlockCount := 1 |}] |}.

Definition weight (n : Z) : Benefit :=
  {| bn_Balance := Some n; bn_Vote := Some 0; bn_Network := Some 0; bn_Storage := Some 0;
     bn_Oracle := Some 0; bn_Total := Some n |}.

Definition store0 : gmap Key Value :=
  <[KBlock hash0 := VBlock genesis]>
  (<[KAccount alice := VAccount aliceMeta]>
  (<[KFrontier hash0 := VHash hash0]>
  (<[KRepresentation rep1 := VBenefit (weight 100)]> ∅))).

Definition l0 : Ledger := mkLedger store0 NewMemoryCache ∅ [] [] [].

(** Process a block that is expected to pass. *)
Definition step (l : Ledger) (b : StateBlock) : Ledger :=
  match Process 0 false b l with Some (_, l') => l' | None => l end.

(** Alice sends 30 to Bob, who opens his account with it; Alice changes her
    representative, Bob sends 10 back and Alice receives it. *)
Definition send1 : StateBlock := block Send alice 70 hash0 bob rep1.
Definition hash1 : Hash := Eval vm_compute in SB.GetHash send1.
Definition open1 : StateBlock := block Open bob 30 0 hash1 rep1.
Definition hash2 : Hash := Eval vm_compute in SB.GetHash open1.
Definition change1 : StateBlock := block Change alice 70 hash1 0 rep2.
Definition hash3 : Hash := Eval vm_compute in SB.GetHash change1.
Definition send2 : StateBlock := block Send bob 20 hash2 alice rep1.
Definition hash4 : Hash := Eval vm_compute in SB.GetHash send2.
Definition receive2 : StateBlock := block Receive alice 80 hash3 hash4 rep2.

Definition l1 : Ledger := step l0 send1.
Definition l2 : Ledger := step l1 open1.
Definition l3 : Ledger := step l2 change1.
Definition l4 : Ledger := step l3 send2.
Definition l5 : Ledger := step l4 receive2.

(** Mallory, who has no account, sends from the head of Alice's chain. *)
Definition mallory : Address := 15.
Definition forged : StateBlock := block Send mallory 60 hash0 16 rep1.

(** ** The sample ledger satisfies the invariant *)
Lemma l0_ok : db_ok l0.
Proof. apply NewMemoryCache_ok. Qed.

Lemma l0_view : lview l0 = store0.
Proof.
  apply view_all_empty; [done..|]. intros i Hi. unfold slot; cbn [l0 l_cache NewMemoryCache caches].
  by rewrite lookup_replicate_2 by (unfold cacheCount in *; lia).
Qed.

(** A lookup in the genesis store gives one of its four records. *)
Lemma store0_lookup k x :
  store0 !! k = Some x →
  (k = KBlock hash0 ∧ x = VBlock genesis) ∨ (k = KAccount alice ∧ x = VAccount aliceMeta) ∨
  (k = KFrontier hash0 ∧ x = VHash hash0) ∨
  (k = KRepresentation rep1 ∧ x = VBenefit (weight 100)).
Proof.
  unfold store0. rewrite !lookup_insert_Some, lookup_empty. naive_solver.
Qed.

Lemma l0_wf : wf_view (lview l0).
Proof.
  rewrite l0_view. split.
  - intros a x Hx. apply store0_lookup in Hx as [[? _]|[[[= ->] ->]|[[? _]|[? _]]]]; try done.
    exists aliceMeta. split; [done|]. split_and!; [done|vm_compute; reflexivity|apply NoDup_singleton|].
    constructor; [|constructor]. split_and!; [split; vm_compute; congruence|done|]. exists genesis.
    split_and!; [apply lookup_insert_eq|done..].
  - intros pk x Hx. apply store0_lookup in Hx as [[? _]|[[? _]|[[? _]|[? _]]]]; done.
  - intros h x Hx. apply store0_lookup in Hx as [[[= ->] ->]|[[? _]|[[? _]|[? _]]]]; try done.
    exists genesis. split_and!; [done|vm_compute; reflexivity|vm_compute; reflexivity].
  - intros a x Hx. apply store0_lookup in Hx as [[? _]|[[? _]|[[? _]|[_ ->]]]]; try done.
    exists (weight 100). split; [done|vm_compute; reflexivity].
Qed.

(** An accepted block, and the ledger [step] gives for it. *)
Definition accepts (l : Ledger) (b : StateBlock) : bool :=
  match Process 0 false b l with Some (Verdict Progress None, _) => true | _ => false end.

Lemma accepts_step l b : accepts l b = true → Process 0 false b l = Some (pass, step l b).
Proof. unfold accepts, step. by destruct (Process 0 false b l) as [[[[] [|]|] ?]|]. Qed.

Definition hasToken (l : Ledger) (b : StateBlock) : bool :=
  match GetTokenMetaConfirmed l (sb_Address b) (sb_Token b) with Ok _ => true | _ => false end.

Definition regularb (l : Ledger) (b : StateBlock) : bool :=
  plain b && match sb_Balance b with Some x => (0 <=? x) && (x <? 2 ^ 64) | None => false end &&
  negb (existsb (Z.eqb (SB.GetHash b)) (l_verifiedData l)) &&
  (bool_decide (sb_Type b = Open) || hasToken l b).

Lemma regularb_regular l b : regularb l b = true → regular l b.
Proof.
  unfold regularb, regular. rewrite !andb_true_iff, orb_true_iff, negb_true_iff.
  intros [[[Hp Hb] Hv] Ho]. split_and!; [done| | |].
  - destruct (sb_Balance b); [|done]. cbn. lia.
  - intros Hin. apply list_elem_of_In in Hin. apply not_true_iff_false in Hv. apply Hv.
    apply existsb_exists. exists (SB.GetHash b). by rewrite Z.eqb_refl.
  - intros Hn. destruct Ho as [Ho|Ho]; [by apply bool_decide_eq_true in Ho|].
    unfold hasToken in Ho. destruct (GetTokenMetaConfirmed _ _ _); eauto; done.
Qed.

Lemma processed_step l b l1 bs l' :
  l1 = step l b → regularb l b && accepts l b = true → processed l1 bs l' → processed l (b :: bs) l'.
Proof.
  rewrite andb_true_iff. intros -> [Hr Ha] Hp.
  eapply processed_cons; [by apply regularb_regular|by apply accepts_step|done].
Qed.

Lemma sample_run4 : processed l0 [send1; open1; change1; send2] l4.
Proof.
  apply (processed_step _ _ l1); [unfold l1; reflexivity|vm_compute; reflexivity|].
  apply (processed_step _ _ l2); [unfold l2; reflexivity|vm_compute; reflexivity|].
  apply (processed_step _ _ l3); [unfold l3; reflexivity|vm_compute; reflexivity|].
  apply (processed_step _ _ l4); [unfold l4; reflexivity|vm_compute; reflexivity|].
  apply processed_nil.
Qed.

Lemma processed_app l bs l1 bs' l2 : processed l bs l1 → processed l1 bs' l2 → processed l (bs ++ bs') l2.
Proof. induction 1; [done|]. intros. eapply processed_cons; eauto. Qed.

Lemma sample_run : processed l0 [send1; open1; change1; send2; receive2] l5.
Proof.
  apply (processed_app _ _ _ [receive2] _ sample_run4).
  apply (processed_step _ _ l5); [unfold l5; reflexivity|vm_compute; reflexivity|apply processed_nil].
Qed.

(** ** Witnesses *)
Lemma accepted_blocks_conserve_supply_witness : supply ChainToken (lview l5) = 100.
Proof.
  destruct (accepted_blocks_conserve_supply l0 _ l5 l0_ok l0_wf sample_run) as [_ Hs].
  rewrite Hs, l0_view. vm_compute. reflexivity.
Defined.

Lemma foreign_previous_mints_witness :
  supply ChainToken (lview l0) = 100 ∧ supply ChainToken (lview (step l0 forged)) = 200.
Proof.
  assert (H100 : supply ChainToken (lview l0) = 100) by (rewrite l0_view; vm_compute; reflexivity).
  split; [exact H100|]. change ChainToken with (sb_Token forged) in *.
  rewrite (foreign_previous_mints 0 false forged l0 (step l0 forged) genesis 100 ErrAccountNotFound l0_ok l0_wf),
    H100; [reflexivity|reflexivity|vm_compute; split; congruence|vm_compute; reflexivity..|].
  apply accepts_step. vm_compute. reflexivity.
Defined.

(** The checks accept the sample blocks, so what they establish holds of them. *)
Lemma send_accepted_witness :
  ∃ previous, GetStateBlockConfirmed l0 None (sb_Previous send1) = Ok previous ∧
    decreases previous send1.
Proof.
  destruct (proj1 (send_accepted l0 send1 eq_refl)) as (_ & _ & previous & Hp & _ & Hd & _);
    [vm_compute; reflexivity|]. exists previous. split; [exact Hp|exact Hd].
Defined.

Lemma change_accepted_witness : sb_Link change1 = ZeroHash ∧ authentic change1.
Proof.
  destruct (proj1 (change_accepted l2 change1 eq_refl)) as (Hl & _ & _ & Ha & _);
    [vm_compute; reflexivity|]. split; [exact Hl|exact Ha].
Defined.

Lemma receive_accepted_witness : ∃ p, pendingFor l4 receive2 p.
Proof.
  destruct (proj1 (receive_accepted l4 receive2 eq_refl))
    as (_ & _ & _ & previous & _ & _ & _ & p & tm & a & Hp & _); [vm_compute; reflexivity|].
  exists p. exact Hp.
Defined.

Lemma open_accepted_witness : ∃ p, pendingFor l1 open1 p.
Proof.
  destruct (proj1 (open_accepted l1 open1 eq_refl))
    as (_ & _ & _ & _ & _ & (p & a & Hp & _) & _); [vm_compute; reflexivity|].
  exists p. exact Hp.
Defined.

(** ** Weights of the sample ledger *)
Lemma l0_delegated F a : delegated F a store0 = if rep1 =? a then am_field F aliceMeta else 0.
Proof.
  unfold delegated, store0. rewrite acct_sum_insert_other by done.
  unfold acct_sum. rewrite map_sum_insert. cbn [acct_entry]. unfold entry_sum. other_key.
  rewrite lookup_empty. fold (acct_sum (delegation F a) (<[KFrontier hash0:=VHash hash0]>
    (<[KRepresentation rep1:=VBenefit (weight 100)]> ∅))).
  rewrite !acct_sum_insert_other by done. unfold acct_sum. rewrite map_sum_empty.
  change (delegation F a aliceMeta) with (if rep1 =? a then am_field F aliceMeta else 0). lia.
Qed.

Lemma l0_weighed : weighed l0.
Proof.
  split; [exact l0_ok|exact l0_wf|..]; rewrite l0_view.
  - intros a am Hl. apply store0_lookup in Hl as [[? _]|[[_ [= ->]]|[[? _]|[? _]]]]; try done.
    intros tm Htm. vm_compute in Htm. injection Htm as <-. split_and!; [done| |].
    + repeat constructor; by exists 0.
    + exists genesis. split; [apply lookup_insert_eq|done].
  - intros a F Ha. rewrite l0_delegated. unfold rep_of. destruct (Z.eqb_spec rep1 a) as [<-|Hne].
    + destruct F; vm_compute; reflexivity.
    + destruct (store0 !! KRepresentation a) as [x|] eqn:E; [|by destruct F].
      apply store0_lookup in E as [[? _]|[[? _]|[[? _]|[Hk _]]]]; try done. by injection Hk as ->.
  - vm_compute. reflexivity.
Qed.

Lemma reported_weights_are_delegated_witness : Weight l5 rep2 = Ok (Some 80) ∧ Weight l5 rep1 = Ok (Some 20).
Proof.
  destruct (reported_weights_are_delegated l0 _ l5 rep2 l0_weighed sample_run) as [H2 _]; [done|].
  destruct (reported_weights_are_delegated l0 _ l5 rep1 l0_weighed sample_run) as [H1 _]; [done|].
  rewrite H1, H2. split; vm_compute; reflexivity.
Defined.

(** ** Chain heads of the sample ledger *)
Lemma l0_token_of a t tm :
  token_of store0 a t tm → tm_Header tm = hash0 ∧ tm_OpenBlock tm = hash0 ∧ tm_Representative tm = rep1.
Proof.
  intros (am & Hl & Ht). apply store0_lookup in Hl as [[? _]|[[_ [= ->]]|[[? _]|[? _]]]]; try done.
  unfold AM.Token, aliceMeta in Ht. cbn [am_Tokens AM.find_token tm_Type] in Ht.
  destruct (_ =? _); [|done]. injection Ht as <-. done.
Qed.

Lemma l0_sound : sound l0.
Proof.
  split; [exact l0_ok|exact l0_wf|..|by intros h x Hx]; rewrite l0_view.
  - split.
    + intros a t tm (-> & -> & _)%l0_token_of. split; vm_compute; reflexivity.
    + intros h x Hx. apply store0_lookup in Hx as [[? _]|[[? _]|[[[= ->] ->]|[? _]]]]; try done.
      eexists alice, ChainToken, _. split_and!; [exists aliceMeta; split; vm_compute; reflexivity|done|done].
    + intros h x Hx. apply store0_lookup in Hx as [[? _]|[[? _]|[[? _]|[? _]]]]; done.
  - intros a tm (_ & _ & ->)%l0_token_of. vm_compute. eauto.
Qed.

Lemma accepted_block_is_processed_witness :
  ∃ l', Process 0 false send1 l0 = Some (pass, l') ∧ sound l'.
Proof.
  apply (accepted_block_is_processed 0 false send1 l0 l0_sound).
  - apply regularb_regular. vm_compute. reflexivity.
  - reflexivity.
  - vm_compute. reflexivity.
Defined.

Lemma frontiers_are_heads_witness : ∃ o, GetFrontier l5 None (SB.GetHash receive2) = Ok (mkFrontier (SB.GetHash receive2) o).
Proof.
  exists hash0. apply (frontiers_are_heads l0 _ l5 _ _ l0_sound sample_run).
  eexists alice, ChainToken, _. split_and!; [eexists; split; vm_compute; reflexivity|vm_compute; reflexivity|vm_compute; reflexivity].
Defined.

(** ** Rollbacks on the sample ledger *)
Definition valuesOf (m : gmap Hash StateBlock) : list StateBlock := (map_to_list m).*2.
Definition rollback (l : Ledger) (h : Hash) : option (res unit * Ledger) :=
  Rollback 0 511 valuesOf valuesOf false h l.

Lemma unreceived_send_blocks_rollback_witness :
  rollback l1 hash1 = Some (Err (Errorf "can not get link hash %s"), l1).
Proof.
  unfold rollback. eapply (unreceived_send_blocks_rollback 0 511 valuesOf valuesOf false l1 hash1).
  - unfold l1. destruct (Process_regular 0 false send1 l0 (step l0 send1) 0 l0_ok l0_wf) as [Hok _];
      [apply regularb_regular; vm_compute; reflexivity|apply accepts_step; vm_compute; reflexivity|exact Hok].
  - lia.
  - vm_compute; reflexivity.
  - vm_compute; reflexivity.
  - vm_compute; reflexivity.
  - vm_compute; reflexivity.
  - vm_compute; reflexivity.
  - vm_compute; reflexivity.
  - vm_compute; reflexivity.
Defined.

Lemma is_Some_true {A} (x : option A) : match x with Some _ => true | None => false end = true → is_Some x.
Proof. destruct x; [eauto|done]. Qed.

Lemma rollback_undoes_process_witness :
  ∃ l', rollback l5 (SB.GetHash receive2) = Some (Ok tt, l') ∧ restored 0 receive2 (lview l4) (lview l').
Proof.
  unfold rollback. eapply (rollback_undoes_process 0 0 511 valuesOf valuesOf false false l4 receive2 l5).
  - exact (processed_sound l0 _ l4 l0_sound sample_run4).
  - exact (proj1 (processed_weighed l0 _ l4 l0_weighed sample_run4)).
  - vm_compute; reflexivity.
  - vm_compute; reflexivity.
  - vm_compute; reflexivity.
  - apply regularb_regular. vm_compute; reflexivity.
  - split; [right; right; reflexivity|]. intros tm Htm _. vm_compute in Htm. injection Htm as <-.
    split; [discriminate|]. split; [discriminate|]. intros _. reflexivity.
  - apply accepts_step. vm_compute; reflexivity.
  - intros _ link Hlink. vm_compute in Hlink. injection Hlink as <-. vm_compute; reflexivity.
  - split; vm_compute; reflexivity.
  - vm_compute; reflexivity.
  - lia.
  - intros m. reflexivity.
  - intros m. reflexivity.
  - apply is_Some_true. vm_compute; reflexivity.
Defined.

(** ** What the conditions of the rollback theorem rule out *)

(** Alice receives and changes her representative in the same block. *)
Definition receive2' : StateBlock := block Receive alice 80 hash3 hash4 rep1.

Definition weights (l : Ledger) : list Balance := (λ a, bn_Total (rep_of (lview l) a)) <$> [rep1; rep2].

Definition after {A} (r : option (res unit * Ledger)) (f : Ledger → A) : option A :=
  match r with Some (Ok _, l') => Some (f l') | _ => None end.

(** A receive block that changes the representative is not undone: only the
    difference of the balances is taken from the new representative and nothing is
    given back to the old one.  In the sample the weights 20 and 70 become 90 and 0. *)
Example rollback_loses_delegation :
  weights l4 = [Some 20; Some 70] ∧
  after (rollback (step l4 receive2') (SB.GetHash receive2')) weights = Some [Some 90; Some 0].
Proof. split; vm_compute; reflexivity. Qed.

(** Rolling back an open block restores its pending transfer with the balance of the
    chain's head instead of the amount received.  In the sample Bob opened with 30 and
    sent 10 on; after the rollback 20 are pending and 10 of 100 units are gone. *)
Example open_rollback_destroys_coins :
  supply ChainToken (lview l5) = 100 ∧
  after (rollback l5 hash2) (λ l', supply ChainToken (lview l')) = Some 90.
Proof. split; vm_compute; reflexivity. Qed.

(** Rolling back an open block deletes a child record of another chain: the block's
    parent is its link, the send block it received, whose recorded child is the
    sender's next block. *)
Example open_rollback_drops_foreign_child :
  GetBlockChild l3 None hash1 = Ok hash3 ∧
  after (rollback l3 hash2) (λ l', match GetBlockChild l' None hash1 with Ok _ => true | _ => false end) = Some false ∧
  after (rollback l3 hash2) (λ l', HasStateBlockConfirmed l' hash3) = Some true.
Proof. split; [|split]; vm_compute; reflexivity. Qed.

(** ** More witnesses *)
Definition oversized : StateBlock := block Receive alice (80 + 1 * 2 ^ 64) hash3 hash4 rep2.

Lemma oversized_receive_mints_witness :
  supply ChainToken (lview l4) = 100 ∧ supply ChainToken (lview (step l4 oversized)) = 100 + 2 ^ 64.
Proof.
  destruct (processed_weighed l0 _ l4 l0_weighed sample_run4) as [Hw _].
  assert (H100 : supply ChainToken (lview l4) = 100) by (vm_compute; reflexivity).
  split; [exact H100|]. change ChainToken with (sb_Token oversized) in *.
  rewrite (oversized_receive_mints 0 false oversized l4 (step l4 oversized) 80 1 (wl_db _ Hw) (wl_wf _ Hw)), H100;
    [reflexivity|reflexivity| |reflexivity|lia|lia|].
  - intros Hin. apply list_elem_of_In in Hin. vm_compute in Hin. exact Hin.
  - apply accepts_step. vm_compute. reflexivity.
Defined.

Lemma hash_data_ambiguous_witness :
  SB.GetHash (SBFacts.with_amounts send1 (Some 258) (Some 0)) = SB.GetHash (SBFacts.with_amounts send1 (Some 1) (Some 2)).
Proof. apply (SBFacts.hash_data_ambiguous send1 1 2); lia. Defined.

Lemma unconfirmed_block_recorded_witness :
  ∃ l', BlockCacheProcess 0 send1 l0 = (Ok tt, l') ∧ GetBlockCache l' hash1 = Ok (SB.wire send1).
Proof.
  destruct (unconfirmed_block_recorded 0 send1 l0 l0_ok) as (l' & Hr & Hb & _).
  - intros am Ham. vm_compute in Ham. injection Ham as <-. reflexivity.
  - vm_compute; reflexivity.
  - left. eexists. vm_compute. reflexivity.
  - exists l'. split; [exact Hr|exact Hb].
Defined.

(** A ledger in which Alice's send is still unconfirmed. *)
Definition l1u : Ledger := (BlockCacheProcess 0 send1 l0).2.

Lemma merged_token_is_newer_witness :
  ∃ tm, GetTokenMeta l1u alice ChainToken = Ok tm ∧ tm_Header tm = hash1.
Proof.
  pose (u := match GetAccountMeteCache l1u ∅ alice with Ok a => a | _ => aliceMeta end).
  rewrite (merged_token_is_newer l1u alice u aliceMeta ChainToken);
    [|vm_compute; reflexivity|vm_compute; reflexivity|apply NoDup_singleton].
  eexists. split; vm_compute; reflexivity.
Defined.

(** ** A contract that generates one reward of 5 units for Bob with the data 128 *)
Definition with_data (b : StateBlock) (data : list Z) : StateBlock :=
  {| sb_Type := sb_Type b; sb_Token := sb_Token b; sb_Address := sb_Address b;
     sb_Balance := sb_Balance b; sb_Vote := sb_Vote b; sb_Network := sb_Network b;
     sb_Storage := sb_Storage b; sb_Oracle := sb_Oracle b; sb_Previous := sb_Previous b;
     sb_Link := sb_Link b; sb_Sender := sb_Sender b; sb_Receiver := sb_Receiver b;
     sb_Message := sb_Message b; sb_Data := data; sb_PoVHeight := sb_PoVHeight b;
     sb_Timestamp := sb_Timestamp b; sb_Extra := sb_Extra b;
     sb_Representative := sb_Representative b; sb_PrivateFrom := sb_PrivateFrom b;
     sb_PrivateFor := sb_PrivateFor b; sb_PrivateGroupID := sb_PrivateGroupID b;
     sb_Work := sb_Work b; sb_Signature := sb_Signature b; sb_Flag := sb_Flag b;
     sb_PrivateRecvRsp := sb_PrivateRecvRsp b; sb_PrivatePayload := sb_PrivatePayload b |}.

Definition contractAddress : Address := 17.
Definition call : StateBlock := block ContractSend alice 95 hash0 contractAddress rep1.
Definition reward (data : list Z) : StateBlock :=
  with_data (unsigned ContractReward bob 5 0 hash0 rep1) data.

Definition rewarder : Contract :=
  {| GetDescribe := mkDescribe SpecVer2 false false false false;
     DoPending := λ _, Ok None;
     DoSend := λ _ v b, (Ok tt, v, b);
     ProcessSend := λ _ v b, (Ok None, v, b);
     DoReceive := λ _ _ _ _, Ok [mkContractBlock None (reward [128]) bob ContractReward (Some 5) ChainToken [128]];
     DoGap := λ _ v b, (Ok (ContractNoGap, GapNone), v, b);
     GetTargetReceiver := λ _ _ _, Ok 0 |}.

Definition node' : Node :=
  {| node_codec := codec; defaultStore := true;
     qlcAllChainContracts := {[contractAddress := mkChainContract (λ _, Some "call"%string) {["call"%string := rewarder]}]};
     MintageAddress := 6; rewardContracts := [];
     relationMap := []; mintageUnpack := λ _, true;
     GetLatestPovHeader := Ok 0; GetPovHeaderByHeight := Ok |}.

Lemma reward_data_folded_witness :
  @checkContractReceiveBlock crypto config node' unicode l0 (reward [193]) call = pass ∧ [193] ≠ [128].
Proof.
  split; [|discriminate]. eapply (@reward_data_folded crypto config node' unicode).
  - vm_compute; reflexivity.
  - vm_compute; reflexivity.
  - vm_compute; reflexivity.
  - vm_compute; reflexivity.
  - reflexivity.
  - reflexivity.
  - reflexivity.
  - repeat constructor; lia.
  - repeat constructor; lia.
  - reflexivity.
Defined.
End Sample.
