(* ===== verification/TrieSample.v ===== *)
(** * Tries evaluated

    The theorems on tries applied to concrete tries, and two runs that show what
    records kept under one hash do: leaves confused after a reload, and a trie broken
    by the removal of another. *)

From S2P Require Import Trie TrieIter TrieStore.
From S2P Require Import Prelude Types Cache Storage Ledger Contract Rollback RollbackFacts Sample.
Import Sample.

Module TrieSample.
Definition long : list Z := replicate 33 5.
Definition pairs : list (list Z * list Z) := [([1; 2], [7]); ([1; 3], long); ([4], [8])].

Lemma digest_wf d : wf_hash (HashData d).
Proof.
  unfold HashData. cbn. unfold wf_hash. destruct d as [|x d _] using rev_ind; [by vm_compute|].
  rewrite foldl_app. cbn [foldl]. pose proof (Z.mod_pos_bound
    (foldl (λ acc x, (acc * 257 + x + 1) mod 1000003) 7 d * 257 + x + 1) 1000003). lia.
Qed.

Lemma pairs_nodup : NoDup pairs.*1.
Proof. apply (bool_decide_unpack _). by vm_compute. Qed.

Lemma pairs_nocol : noCollision pairs.*2.
Proof.
  intros v v' Hv Hv' Hl Hl' _. repeat (apply elem_of_cons in Hv as [-> |Hv]; [try discriminate Hl|]);
    try (by apply elem_of_nil in Hv).
  repeat (apply elem_of_cons in Hv' as [-> |Hv']; [try discriminate Hl'; reflexivity|]).
  by apply elem_of_nil in Hv'.
Qed.

Lemma insertion_order_witness :
  ∃ t t', SetValues emptyTrie pairs = Ok t ∧ SetValues emptyTrie (reverse pairs) = Ok t' ∧
    tr_Root t = tr_Root t' ∧ Trie_Hash t = Trie_Hash t'.
Proof. apply (insertion_order_irrelevant pairs); [apply pairs_nodup|symmetry; apply reverse_Permutation]. Defined.

Lemma GetValue_SetValues_witness :
  ∃ t, SetValues emptyTrie pairs = Ok t ∧
    ∀ k, GetValue None t k = Ok (default [] ((list_to_map pairs : gmap (list Z) (list Z)) !! k)).
Proof. apply (GetValue_SetValues digest_wf); [apply pairs_nodup|apply pairs_nocol]. Defined.

Lemma overwrite_loses_witness :
  ∃ t, SetValues emptyTrie [([1], long); ([2], long); ([2], [9])] = Ok t ∧
    mapSet ∅ [([1], long); ([2], long); ([2], [9])] !! [1] = Some long ∧ GetValue None t [1] = Ok [].
Proof. apply (overwrite_loses_shared_value digest_wf); reflexivity. Defined.

Lemma leaf_hash_ambiguous_witness :
  ∃ t t', SetValue emptyTrie [1] long = Ok t ∧ SetValue emptyTrie [1] (hash_bytes (HashData long)) = Ok t' ∧
    Trie_Hash t = Trie_Hash t' ∧ GetValue None t [1] = Ok long ∧
    GetValue None t' [1] = Ok (hash_bytes (HashData long)).
Proof. apply (leaf_hash_ambiguous digest_wf); reflexivity. Defined.

(** The trie of [pairs], or the empty trie. *)
Definition pairsTrie : Trie := match SetValues emptyTrie pairs with Ok t => t | _ => emptyTrie end.

Lemma iterate_complete_witness :
  ∃ kvs, iterate None pairsTrie [1] = Ok kvs ∧ NoDup kvs.*1 ∧
    ∀ k v, (k, v) ∈ kvs ↔
      has_prefix k [1] = true ∧ getLeafNode (tr_Root pairsTrie) k ≠ NilNode ∧ GetValue None pairsTrie k = Ok v.
Proof. apply iterate_complete; [vm_compute; reflexivity|discriminate]. Defined.

(** The records saved for a trie with these pairs. *)
Definition savedPuts (kvs : list (list Z * list Z)) : list (Hash * list Z) :=
  match (t ← SetValues emptyTrie kvs; Save None t) with Ok (puts, _) => puts | _ => [] end.

Lemma nodup_consistent puts : NoDup puts.*1 → consistent puts.
Proof.
  intros Hnd h d d' Hd Hd'. apply (elem_of_list_to_map_1 (M := gmap Hash)) in Hd, Hd'; [|done..]. congruence.
Qed.

(** A store that has a trie with the pairs under [1] in common with [pairs]. *)
Definition earlier : list (list Z * list Z) := [([1; 2], [7]); ([1; 3], long); ([5], [9])].
Definition earlierStore : gmap Hash (list Z) := putAll ∅ (savedPuts earlier).

Fixpoint wholeInb (m : gmap Hash (list Z)) (t : TrieNode) : bool :=
  match m !! hashOf t with Some _ => forallb (λ p, bool_decide (m !! p.1 = Some p.2)) (putsOf t) | None => true end &&
  match t with
  | FullNode cs c =>
      wholeInb m c && (fix go cs := match cs with [] => true | (_, x) :: cs' => wholeInb m x && go cs' end) cs
  | ShortNode _ c => wholeInb m c
  | _ => true
  end.

Lemma wholeInb_sound m t : wholeInb m t = true → wholeIn m t.
Proof.
  assert (Hown : ∀ t, match m !! hashOf t with Some _ => forallb (λ p, bool_decide (m !! p.1 = Some p.2)) (putsOf t) | None => true end = true →
    is_Some (m !! hashOf t) → ∀ h d, (h, d) ∈ putsOf t → m !! h = Some d).
  { intros t' Hb [x Hx]. rewrite Hx in Hb. rewrite forallb_forall in Hb. intros h d Hin%list_elem_of_In.
    by specialize (Hb _ Hin); apply bool_decide_eq_true in Hb. }
  induction t as [|h|cs c Hcs IHc|p c IHc|v|v] using TrieNode_nested_ind; cbn [wholeInb wholeIn]; intros [Hb Hsub]%andb_true_iff;
    (split; [by apply Hown|]); [done|done| |by apply IHc|done|done].
  apply andb_true_iff in Hsub as [Hc Hsub]. split; [by apply IHc|]. clear Hb. induction Hcs as [|[b x] cs Hx _ IH]; [done|].
  apply andb_true_iff in Hsub as [Hb Hsub]. split; [by apply Hx|by apply IH].
Qed.


(** ** Records under one hash *)

(** Load a trie with these pairs from a store and list its pairs. *)
Definition reload (store : gmap Hash (list Z)) (kvs : list (list Z * list Z)) : res (list (list Z * list Z)) :=
  t0 ← SetValues emptyTrie kvs;
  h ← Trie_Hash t0;
  t ← NewTrie (Some (storeGet store)) 10 h;
  iterate (Some (storeGet store)) t [].

Definition confused : list (list Z * list Z) := [([1], long); ([2], hash_bytes (HashData long))].

(** A long value and the 32-byte value that is its hash share a record, so a trie
    with both does not survive saving and loading: the long value is replaced by
    its hash. *)
Example reload_confuses_leaves :
  reload (putAll ∅ (savedPuts confused)) confused
  = Ok [([1], hash_bytes (HashData long)); ([2], hash_bytes (HashData long))].
Proof. by vm_compute. Qed.

(** Two contract calls that store one value in common. *)
Definition first : list (list Z * list Z) := [([1], [7]); ([2], [8])].
Definition second : list (list Z * list Z) := [([1], [7]); ([3], [9])].
Definition removedKeys (kvs : list (list Z * list Z)) : list Hash :=
  match (t ← SetValues emptyTrie kvs; Remove t) with Ok (dels, _) => dels | _ => [] end.
Definition bothSaved : gmap Hash (list Z) := putAll (putAll ∅ (savedPuts first)) (savedPuts second).

(** Removing a trie deletes records that another saved trie still refers to.
    Both tries can be read; after the first is removed, as a rollback does, iterating
    over the second dereferences a nil child and panics. *)
Example remove_breaks_shared_trie :
  reload bothSaved second = Ok second ∧
  reload (foldr delete bothSaved (removedKeys first)) second = Panic.
Proof. split; by vm_compute. Qed.

(** ** A contract block rolled back before its trie is flushed *)
Definition node2 : Node :=
  {| node_codec := codec; defaultStore := false; qlcAllChainContracts := ∅; MintageAddress := 6;
     rewardContracts := []; relationMap := []; mintageUnpack := λ _, true;
     GetLatestPovHeader := Ok 0; GetPovHeaderByHeight := Ok |}.

(** A context that wrote one record, and the ledger with its trie in the write cache. *)
Definition ctx1 : VMContext := mkVMContext (Some 17) 0 {[[1] := [7]]}.
Definition extra1 : Hash :=
  Eval vm_compute in match (t ← ctxTrie ctx1; Trie_Hash t) with Ok (Some h) => h | _ => 0 end.
Definition callBlock : StateBlock :=
  {| sb_Type := ContractSend; sb_Token := 1; sb_Address := alice; sb_Balance := Some 0; sb_Vote := None;
     sb_Network := None; sb_Storage := None; sb_Oracle := None; sb_Previous := 0; sb_Link := 17;
     sb_Sender := []; sb_Receiver := []; sb_Message := 0; sb_Data := []; sb_PoVHeight := 0;
     sb_Timestamp := 0; sb_Extra := extra1; sb_Representative := 0; sb_PrivateFrom := [];
     sb_PrivateFor := []; sb_PrivateGroupID := []; sb_Work := 0; sb_Signature := [];
     sb_Flag := 0; sb_PrivateRecvRsp := false; sb_PrivatePayload := [] |}.
Definition cachedState : LS :=
  (@saveTrie crypto node2 ctx1 (mkLS l0 ∅ ∅)).2.
Definition afterSave : LS :=
  mkLS (set_cache l0 (mkMemoryCache (<[1%nat:=ls_bat cachedState]> (caches NewMemoryCache)) 1 0) (l_store l0)) ∅ ∅.

Lemma cached_contract_data_witness :
  is_Some (lview (ls_led afterSave) !! KTrie extra1) ∧
  @rollBackContractData crypto node2 unicode callBlock afterSave = (Ok tt, afterSave).
Proof.
  split; [apply is_Some_true; vm_compute; reflexivity|].
  apply (@cached_contract_data_not_rolled_back crypto node2 unicode); vm_compute; reflexivity.
Defined.
End TrieSample.
