(* ===== verification/ElectionSample.v ===== *)
(** * Elections evaluated

    The theorems on elections applied to the ledger of [Sample.v], where one
    representative holds all the weight, and a run in which a vote without weight has a
    frontier confirmed. *)

From S2P Require Import Prelude Types Cache Storage Ledger LedgerFacts Check Process Supply Weights Rollback Unchecked.
From S2P Require Import Election Processor Handlers ElectionFacts Sample.
Import Sample.

Module ElectionSample.
#[export] Instance consensus : Consensus :=
  {| processorNum := 2; HasPovTxLookup := λ _ _, false; PubKeyDistributionAddress := 900;
     isPKDPublish := λ _, false; isMintage := λ _, false; mintageWithdrawToken := λ _, None;
     pkdOracleHash := λ _, 0 |}.

Definition env : environment :=
  Build_environment 0 false 511 valuesOf valuesOf map_to_list (λ t, (map_to_list t).*2) map_to_list 0.

(** A node without elections, and two that have opened one for Alice's second block: for
    the block of the sample, and for a rival. *)
Definition idle : DPoS := mkDPoS l0 ∅ ∅ ∅ [] ∅ (Some 1) (Some 50) ∅ ∅ ∅ [].
Definition rival : StateBlock := block Send alice 60 hash0 bob rep1.
Definition node1 : DPoS := (addToRoots 0 send1 idle).2.
Definition node2 : DPoS := (addToRoots 0 rival idle).2.
Definition ballot (b : StateBlock) : voteInfo := mkVoteInfo rep1 (SB.GetHash b).

Lemma env_fair : fair env.
Proof. by split. Qed.

Lemma idle_ok : elections_ok idle.
Proof. by split. Qed.

Lemma node_ok b : elections_ok (addToRoots 0 b idle).2.
Proof. apply (respects_addToRoots evolves), idle_ok. Qed.

Lemma node_ledger b : d_ledger (addToRoots 0 b idle).2 = l0.
Proof. reflexivity. Qed.

Lemma l0_half : coins (lview l0) ≤ 2 * 50 + 1.
Proof. rewrite l0_view. vm_compute. discriminate. Qed.

Lemma node_voting b : voting_node (addToRoots 0 b idle).2 50.
Proof.
  split; [exact l0_weighed|done|exact l0_half| |apply node_ok].
  intros id el. change (d_heap _) with ({[fresh (dom (d_heap idle)) :=
    mkElection (getVoteKey b) ∅ b [] 0 0 {[SB.GetHash b := b]} ∅ true]} : gmap nat Election).
  by intros [_ <-]%lookup_singleton_Some.
Qed.

Lemma elections_stay_consistent_witness :
  elections_ok (react env (EvAck (ballot send1)) node1).2 ∧
  el_valid <$> d_heap (react env (EvAck (ballot send1)) node1).2 !! 0%nat = Some false.
Proof.
  destruct (elections_stay_consistent node1 (react env (EvAck (ballot send1)) node1).2 (node_ok send1)) as [H _].
  - eapply run_step; [reflexivity|apply run_nil].
  - split; [exact H|]. vm_compute. reflexivity.
Defined.

(** Two candidates with a vote each. *)
Definition contested : Election :=
  mkElection hash0 (<[rep1:=hash1]> {[rep2:=SB.GetHash rival]}) send1 [] 0 0
    (<[hash1:=send1]> {[SB.GetHash rival:=rival]}) ∅ true.
Definition node3 : DPoS := with_heap idle {[0%nat:=contested]}.

Lemma contested_voting : voting node3 contested 50.
Proof. split; [exact l0_weighed|done|exact l0_half|vm_compute; reflexivity]. Qed.

Lemma quorum_decides_witness :
  behind node3 contested hash1 = 100 ∧
  ∃ t, exact_totals node3 contested t ∧
    haveQuorum 0 false 511 valuesOf valuesOf map_to_list (λ t, (map_to_list t).*2) map_to_list 0 node3 =
    confirmWinner 0 false 511 valuesOf valuesOf map_to_list (λ t, (map_to_list t).*2) map_to_list 0 t send1
      (decided node3 0 contested).
Proof.
  assert (Hb : behind node3 contested hash1 = 100).
  { unfold behind, stake_of. cbn [node3 with_heap d_ledger idle]. rewrite l0_view. vm_compute. reflexivity. }
  split; [exact Hb|].
  destruct (quorum_decides 0 false 511 valuesOf valuesOf map_to_list (λ t, (map_to_list t).*2) map_to_list
    (λ m, reflexivity _) (λ t, reflexivity _) node3 0 contested 50 contested_voting) as (_ & H & _);
    [reflexivity|reflexivity|].
  apply (H hash1 send1); [vm_compute; reflexivity|lia].
Defined.

Lemma rival_confirmations_witness :
  SB.GetHash send1 ≠ SB.GetHash rival ∧
  ∃ rep id1 el1 id2 el2,
    d_heap (vote_in env (ballot send1) node1).2 !! id1 = Some el1 ∧ el_repVotes el1 !! rep = Some (SB.GetHash send1) ∧
    d_heap (vote_in env (ballot rival) node2).2 !! id2 = Some el2 ∧ el_repVotes el2 !! rep = Some (SB.GetHash rival).
Proof.
  split; [vm_compute; discriminate|].
  apply (rival_confirmations_share_a_voter env env (ballot send1) (ballot rival) node1 node2 50 send1 rival).
  - exact env_fair.
  - exact env_fair.
  - apply node_voting.
  - apply node_voting.
  - discriminate.
  - discriminate.
  - intros rep. unfold stake_of, node1, node2. by rewrite !node_ledger.
  - vm_compute. reflexivity.
  - vm_compute. reflexivity.
Defined.

(** ** Frontiers *)

(** A frontier election between the two blocks, where the first vote weighed nothing when
    it came in.  Since then a peer's frontiers have given its representative the weight. *)
Definition node4 : DPoS :=
  with_totalVote
    (with_hash2el (with_roots
      (with_heap idle {[0%nat := set_frontier (set_votes contested {[rep1:=hash1]}) {[hash1; SB.GetHash rival]}]})
      {[hash0:=0%nat]})
      (<[hash1:=0%nat]> {[SB.GetHash rival:=0%nat]}))
    {[rep1:=Some 100; rep2:=Some 0]}.

(** A frontier is confirmed without votes.  When a vote on a frontier finds that some
    candidate has the quorum, the block voted for is declared confirmed and the others
    are rolled back: here a vote of weight zero for the rival, while the other candidate
    has all the weight. *)
Example weightless_vote_confirms_frontier :
  (react env (EvAck (mkVoteInfo rep2 (SB.GetHash rival))) node4).1 = Ok tt ∧
  tally map_to_list (weightOf node4 true) contested =
    Ok (<[hash1:=mkBRV send1 (Some 100)]> {[SB.GetHash rival:=mkBRV rival (Some 0)]}) ∧
  d_frontiersStatus (react env (EvAck (mkVoteInfo rep2 (SB.GetHash rival))) node4).2 !! SB.GetHash rival =
    Some frontierConfirmed ∧
  d_roots (react env (EvAck (mkVoteInfo rep2 (SB.GetHash rival))) node4).2 = ∅.
Proof. split_and!; vm_compute; reflexivity. Qed.

(** ** Parked blocks *)
Lemma unchecked_first_block_kept_witness :
  let '(r, l') := AddUncheckedBlock 5 open1 UncheckedKindLink UnSynchronized l0 in
  r = Ok tt ∧
  GetUncheckedBlock l' 5 UncheckedKindLink = Ok (withPayload l' (SB.GetHash (SB.wire open1)) (SB.wire open1), UnSynchronized) ∧
  (∀ k, k ≠ uncheckedKey UncheckedKindLink 5 → l_store l' !! k = l_store l0 !! k) ∧
  AddUncheckedBlock 5 send2 UncheckedKindLink Synchronized l' = (Err ErrUncheckedBlockExists, l') ∧
  l_store (DeleteUncheckedBlock 5 UncheckedKindLink l').2 = l_store l0.
Proof.
  apply (unchecked_first_block_kept l0 5 open1 send2 UncheckedKindLink UnSynchronized Synchronized).
  vm_compute. reflexivity.
Defined.

Definition parked : Ledger := (AddGapPublishBlock 5 open1 UnSynchronized l0).2.

Lemma listing_fails_witness : (GetUncheckedBlocks (λ _ _ _ _, mret tt) parked).1 ≠ Ok tt.
Proof.
  eapply (listing_fails_on_gap_publish parked 5 hash2); [done|]. vm_compute. reflexivity.
Defined.
End ElectionSample.
