(* ===== verification/PovSample.v ===== *)
(** * Proof-of-value blocks evaluated

    A block that the verifier accepts, the theorems on verification and Merkle roots
    applied to concrete input, and the target of a cycle shrinking from block to block. *)

From S2P Require Import Prelude Types Cache Storage Ledger Contract Check Merkle Target TrieStore Pov PovFacts Sample.
Import Sample.

Module PovSample.
Lemma repeated_last_witness : CalcMerkleTreeRootHash [1; 2; 3] = CalcMerkleTreeRootHash [1; 2; 3; 3].
Proof. apply (repeated_last_same_root [1; 2] 3); done. Defined.

(** ** A block on top of a header *)
Definition coinbase (state num : Z) : PovCoinBaseTx :=
  mkPovCoinBaseTx 1 [mkPovCoinBaseTxIn 0 0 [1; 2] 0]
    [mkPovCoinBaseTxOut (Some 342465753) alice; mkPovCoinBaseTxOut (Some 228310502) bob] state num.

Definition limitBits : Z := Eval vm_compute in BigToCompact (PovPowLimitInt * 12984).

Definition parent : PovHeader :=
  mkPovHeader ALGO_SCRYPT 0 0 100 limitBits 0 77 5 None (Some (coinbase 7 1)).

#[export] Instance chain : PovChain :=
  {| GetHeaderByHash := λ h, if h =? 77 then Some parent else None;
     tokenStateHash := λ _ a _, if a =? alice then Some hash0 else None;
     repStateVote := λ _ _, None;
     stateTrieExists := λ _, true;
     TransitStateDB := λ _ _ s, Ok (s + 1);
     MinerPledge := Some 0;
     IsContractAddress := λ _, false;
     genesisPovHash := 76;
     ScryptHashData := λ _, 0;
     X11HashData := λ _, 0 |}.

Definition txs : list Hash := Eval vm_compute in
  match PovCoinBaseTx_ComputeHash (coinbase 8 2) with Ok h => [h; hash1] | _ => [] end.
Definition root : Hash := Eval vm_compute in
  match CalcMerkleTreeRootHash txs with Ok h => h | _ => 0 end.
Definition nextBits : Z := Eval vm_compute in
  match calcNextRequiredTarget parent parent with Ok b => b | _ => 0 end.

Definition header (hash : Hash) (aux : option PovAuxHeader) : PovHeader :=
  mkPovHeader ALGO_SCRYPT 77 root 150 nextBits 0 hash 6 aux (Some (coinbase 8 2)).
Definition headerHash : Hash := Eval vm_compute in PovHeader_ComputeHash (header 0 None).
Definition mined : PovBlock := mkPovBlock (header headerHash None) txs.

Lemma VerifyFull_sound_witness :
  VerifyFull 0 l1 mined = pass ∧
  ∃ prev cb bs miner rep state, accepted_pov 0 l1 mined prev cb bs miner rep state.
Proof.
  assert (Hv : VerifyFull 0 l1 mined = pass) by (vm_compute; reflexivity).
  split; [exact Hv|]. exact (VerifyFull_sound 0 l1 mined Hv).
Defined.

Lemma target_moves_witness : CompactToBig nextBits / 12984 ≤ GetNormTargetInt parent.
Proof.
  destruct (target_moves_within_bounds parent parent nextBits) as (_ & _ & Hle).
  - vm_compute. reflexivity.
  - vm_compute. split; discriminate.
  - apply Hle. vm_compute. discriminate.
Defined.

(** The block with an auxiliary header whose parent coinbase has no inputs. *)
Definition emptyTx : PovBtcTx := mkPovBtcTx 1 [] [] 0.
Definition emptyTxHash : Hash := Eval vm_compute in PovBtcTx_ComputeHash emptyTx.
Definition badAux : PovAuxHeader :=
  mkPovAuxHeader [] 0 emptyTx [] 0 (mkPovBtcHeader 0 0 emptyTxHash 0 0 0).

Lemma aux_header_witness : VerifyFull 0 l1 (mkPovBlock (header headerHash (Some badAux)) []) = CheckPanic.
Proof.
  apply (aux_header_without_inputs_panics 0 l1 _ badAux); try (vm_compute; reflexivity); reflexivity.
Defined.

Lemma coinbase_hash_ambiguous_witness :
  PovCoinBaseTx_ComputeHash (mkPovCoinBaseTx 1 [mkPovCoinBaseTxIn 0 0 [] 0]
    [mkPovCoinBaseTxOut (Some (5 * 256 + 9)) 11; mkPovCoinBaseTxOut (Some 0) 12] 8 2) =
  PovCoinBaseTx_ComputeHash (mkPovCoinBaseTx 1 [mkPovCoinBaseTxIn 0 0 [] 0]
    [mkPovCoinBaseTxOut (Some 5) 11; mkPovCoinBaseTxOut (Some (12 mod 256)) (9 * 256 ^ 31 + 12 / 256)] 8 2).
Proof. apply (coinbase_hash_ambiguous 1 0 [] 11 5 9 12 8 2); vm_compute; intuition discriminate. Defined.

(** ** A target that shrinks within a cycle *)

(** A header that repeats another with the bits required of it. *)
Definition follow (bits : Z) : Z :=
  match calcNextRequiredTarget (mkPovHeader ALGO_SCRYPT 77 0 0 bits 0 0 5 None None) parent with
  | Ok b => b
  | _ => 0
  end.

(** The target drifts.  Away from the end of a cycle the required target should stay,
    but dividing by the efficiency of the algorithm and rounding to the compact form loses
    a unit of the mantissa: ten blocks of the scrypt algorithm lower it ten times. *)
Example target_drifts :
  let steps := (λ n, Nat.iter n follow limitBits) <$> seq 0 10 in
  (λ p, p.1 - p.2) <$> zip steps (tail steps) = replicate 9 1.
Proof. vm_compute. reflexivity. Qed.
End PovSample.
