(* ===== verification/PovChainSample.v ===== *)
(** * A proof-of-value chain evaluated

    Caches that keep the entries used last, a genesis block, and a tree of blocks on it:
    two blocks extend the genesis block, and a third block on another branch overtakes
    them.  The theorems on runs of the chain are applied to it. *)

From S2P Require Import Prelude Types Cache Storage Ledger Contract Check Merkle Target Trie TrieStore Pov PovStateDB PovStore PovChain PovTree PovChainFacts PovRuns Sample PovSample.
Import Sample PovSample.

Module PovChainSample.
(** ** A cache of four entries, the last used first *)
Definition assoc {V} (k : Z) (c : list (Z * V)) : option V := snd <$> List.find (λ e, e.1 =? k) c.
Definition without {V} (k : Z) (c : list (Z * V)) : list (Z * V) := List.filter (λ e, negb (e.1 =? k)) c.

#[export] Instance lru : Gcache :=
  {| cache := λ V, list (Z * V);
     newCache := λ V, [];
     cacheGet := λ V k c, match assoc k c with Some v => (Some v, (k, v) :: without k c) | None => (None, c) end;
     cacheHas := λ V k c, bool_decide (is_Some (assoc k c));
     cacheSet := λ V k v c, take 4 ((k, v) :: without k c);
     cacheRemove := λ V k c, without k c |}.

Lemma assoc_cons {V} k e (c : list (Z * V)) : assoc k (e :: c) = if e.1 =? k then Some e.2 else assoc k c.
Proof. unfold assoc. cbn. by destruct (e.1 =? k). Qed.

Lemma assoc_without {V} k j (c : list (Z * V)) : assoc k (without j c) = if j =? k then None else assoc k c.
Proof.
  induction c as [|e c IH]; [by cbn; destruct (j =? k)|].
  cbn [without List.filter]. fold (without j c). destruct (Z.eqb_spec e.1 j) as [<-|]; cbn [negb]; rewrite !assoc_cons, ?IH.
  - by destruct (e.1 =? k).
  - by destruct (Z.eqb_spec e.1 k), (Z.eqb_spec j k); subst.
Qed.

Lemma assoc_take {V} k n (c : list (Z * V)) : assoc k (take n c) = assoc k c ∨ assoc k (take n c) = None.
Proof.
  revert n. induction c as [|e c IH]; intros [|n]; [by left..|by right|]. cbn [take]. rewrite !assoc_cons.
  destruct (e.1 =? k); [by left|]. apply IH.
Qed.

Lemma held_assoc {V} k (c : list (Z * V)) : held k (c : cache V) = assoc k c.
Proof. unfold held. cbn. by destruct (assoc k c). Qed.

#[export] Instance lru_laws : GcacheLaws.
Proof.
  split; intros V; intros *; rewrite ?held_assoc; try done.
  - cbn [cacheGet lru]. destruct (assoc j c) as [v|] eqn:E; [|done]. cbn [snd]. rewrite assoc_cons, assoc_without. cbn.
    by destruct (Z.eqb_spec j k) as [->|].
  - cbn [cacheSet lru take]. rewrite assoc_cons. cbn. by rewrite Z.eqb_refl.
  - intros Hne. cbn [cacheSet lru take]. rewrite assoc_cons. cbn. rewrite (proj2 (Z.eqb_neq j k)) by done.
    destruct (assoc_take k 3 (without j c)) as [->| ->]; [left|by right].
    by rewrite assoc_without, (proj2 (Z.eqb_neq j k)).
  - cbn [cacheRemove lru]. by rewrite assoc_without, Z.eqb_refl.
  - intros Hne. cbn [cacheRemove lru]. rewrite assoc_without. by rewrite (proj2 (Z.eqb_neq j k)).
Qed.

(** The encodings of states: one number each. *)
Definition accTuple (a : PovAccountState) :=
  (pas_Account a, pas_Balance a, pas_Vote a, pas_Network a, pas_Storage a, pas_Oracle a,
   (λ t, (pts_Type t, pts_Hash t, pts_Representative t, pts_Balance t)) <$> pas_TokenStates a).
Definition repTuple (r : PovRepState) :=
  (prs_Account r, prs_Balance r, prs_Vote r, prs_Network r, prs_Storage r, prs_Oracle r, prs_Total r,
   prs_Status r, prs_Height r).

Definition decodeZ {A B} `{Countable A} (f : A → B) (bs : list Z) : res B :=
  match bs with
  | [Z.pos p] => match decode p with Some a => Ok (f a) | None => Err (Errorf "msgp") end
  | _ => Err (Errorf "msgp")
  end.

#[export] Instance stateCodec : StateCodec :=
  {| marshalAccount := λ a, Ok [Z.pos (encode (accTuple a))];
     unmarshalAccount := decodeZ (λ '(a, b, v, n, s, o, ts),
       mkPovAccountState a b v n s o ((λ '(t, h, r, b), mkPovTokenState t h r b) <$> ts));
     marshalRep := λ r, Ok [Z.pos (encode (repTuple r))];
     unmarshalRep := decodeZ (λ '(a, b, v, n, s, o, t, st, h), mkPovRepState a b v n s o t st h);
     marshalContract := λ c, Ok [Z.pos (encode (pcs_StateHash c, pcs_CodeHash c))];
     unmarshalContract := decodeZ (λ '(s, c), mkPovContractState s c) |}.

(** ** The genesis block and its state *)
Definition stateKVs : list (list Z * list Z) := [([102; 101; 1], [7; 7]); ([102; 101; 2], [8])].
Definition stateHash : Hash := Eval vm_compute in
  match SetValues emptyTrie stateKVs with
  | Ok t => match Trie_Hash t with Ok (Some h) => h | _ => 0 end
  | _ => 0
  end.

Definition genesisPov : PovBlock :=
  mkPovBlock (mkPovHeader ALGO_SCRYPT 0 0 100 limitBits 0 500 0 None (Some (coinbase stateHash 1))) [900].

(** A block on the header with hash [prev]; the nonce makes it unique. *)
Definition child (hash prev height bits : Z) (txs : list Hash) : PovBlock :=
  mkPovBlock (mkPovHeader ALGO_SCRYPT prev 0 100 bits 0 hash height None (Some (coinbase stateHash 1))) txs.

Definition hardBits : Z := Eval vm_compute in BigToCompact (PovPowLimitInt * 12984 / 16).

Definition a1 : PovBlock := child 501 500 1 limitBits [901; 1; 2].
Definition a2 : PovBlock := child 502 501 2 limitBits [902; 3].
Definition b1 : PovBlock := child 511 500 1 hardBits [911; 3; 1].

Definition chain0 : PovBlockChain := (ResetChainState genesisPov stateKVs (newChain emptyPovDB genesisPov)).2.
Definition noState : PovGlobalStateDB := mkGSDB None emptyTrie ∅ ∅ ∅ ∅ ∅ ∅ ∅.
Definition inserted (b : PovBlock) (c : PovBlockChain) : PovBlockChain := (InsertBlock true b noState c).2.
Definition chain1 : PovBlockChain := inserted a1 chain0.
Definition chain2 : PovBlockChain := inserted a2 chain1.
Definition chain3 : PovBlockChain := inserted b1 chain2.

(** The longer branch is left for the one with more work. *)
Example fork_followed : (pb_Hash (bc_latest chain2), pb_Hash (bc_latest chain3),
    (λ t, match GetPovTxLookup (bc_store chain3) t with Ok e => txl_BlockHash e | _ => 0 end) <$> [900; 901; 902; 911; 1; 2; 3])
  = (502, 511, [500; 0; 0; 511; 511; 0; 511]).
Proof. vm_compute. reflexivity. Qed.

(** ** The run *)
Lemma admissible_by db b p :
  blockAt db (pb_Previous b) = Some p → pb_Height b = pb_Height p + 1 → pb_Height b < MaxUint64 → pb_Hash b ≠ 0 →
  0 < GetNormTargetInt (pb_Header b) < 2 ^ 256 → blockAt db (pb_Hash b) = None → admissible db b.
Proof. intros Hp Hh Hm Hx Ht Hn. split; [by exists p|done..|]. intros b' Hb'. by rewrite Hn in Hb'. Qed.

Ltac evaluate := first [vm_compute; reflexivity | vm_compute; intuition discriminate | by vm_compute].
Ltac place_block p := apply (admissible_by _ _ p); evaluate.

Definition g' : PovBlock := wireBlock genesisPov.
Definition a1' : PovBlock := wireBlock a1.

Lemma genesis_wf : wf_genesis genesisPov.
Proof. by split. Qed.

Lemma run_chain0 : run genesisPov chain0.
Proof.
  apply (run_reset _ stateKVs emptyPovDB). unfold chain0.
  assert ((ResetChainState genesisPov stateKVs (newChain emptyPovDB genesisPov)).1 = Ok tt) as E by evaluate.
  destruct (ResetChainState genesisPov stateKVs (newChain emptyPovDB genesisPov)) as [r c]. cbn in *. by subst r.
Qed.

Lemma a1_admissible : admissible (bc_store chain0) a1.
Proof. place_block g'. Qed.
Lemma a2_admissible : admissible (bc_store chain1) a2.
Proof. place_block a1'. Qed.
Lemma b1_admissible : admissible (bc_store chain2) b1.
Proof. place_block g'. Qed.

Lemma run_chain2 : run genesisPov chain2.
Proof. apply run_insert; [apply run_insert; [apply run_chain0|apply a1_admissible]|apply a2_admissible]. Qed.
Lemma run_chain3 : run genesisPov chain3.
Proof. apply run_insert; [apply run_chain2|apply b1_admissible]. Qed.

(** ** The theorems applied *)
Lemma best_chain_witness : ∃ hd tl, branch (bc_store chain3) (hd :: tl) ∧ pb_Hash hd = 511.
Proof.
  destruct (best_chain_is_heaviest_branch genesisPov chain3 genesis_wf run_chain3) as (hd & tl & Hbr & Hs & _).
  exists hd, tl. split; [exact Hbr|]. destruct (same_fields _ _ Hs) as (<- & _). vm_compute. reflexivity.
Defined.

Lemma insertion_witness : (InsertBlock true b1 noState chain2).1 = Ok tt.
Proof.
  pose proof (insertion_succeeds_or_fork_too_deep genesisPov chain2 true b1 noState ([], noState)
    genesis_wf run_chain2 b1_admissible ltac:(vm_compute; reflexivity)) as Hi.
  assert ((InsertBlock true b1 noState chain2).1 ≠ Err ErrPovInvalidFork) as Hne by (vm_compute; discriminate).
  destruct (InsertBlock true b1 noState chain2) as [r c']. cbn in *.
  destruct Hi as [[-> _]|[-> _]]; [reflexivity|destruct (Hne eq_refl)].
Defined.

(** No branch of the four stored blocks repeats a transaction. *)
Definition stored3 : list (PovBlock * list PovBlock) :=
  [(g', []); (a1', [g']); (wireBlock a2, [a1'; g']); (wireBlock b1, [g'])].

Lemma stored_hashes db x b (hs : list Hash) :
  Forall (λ p, p.1 ∈ hs) (map_to_list (db_heights db)) → blockAt db x = Some b → x ∈ hs.
Proof.
  intros Hall Hb. unfold blockAt in Hb. apply bind_Some in Hb as (h & Hh & _). apply elem_of_map_to_list in Hh.
  by apply (proj1 (list.Forall_forall _ _) Hall) in Hh.
Qed.

Lemma stored3_hash x b : blockAt (bc_store chain3) x = Some b → x ∈ pb_Hash <$> stored3.*1.
Proof. apply stored_hashes. apply (bool_decide_unpack _). vm_compute. exact I. Qed.

Lemma stored3_tips : Forall (λ p, branch (bc_store chain3) (p.1 :: p.2) ∧ NoDup (concat (pb_Txs <$> p.1 :: p.2))) stored3.
Proof.
  repeat apply list.Forall_cons_2; try apply list.Forall_nil_2;
    (split; [vm_compute; split_and!; reflexivity|apply (bool_decide_unpack _); vm_compute; exact I]).
Qed.

Lemma chain3_unique : unique (bc_store chain3).
Proof.
  intros b l Hbr. apply branch_tip in Hbr as [Hb Ht]. pose proof (stored3_hash _ _ Hb) as Hx.
  apply list_elem_of_fmap in Hx as (b' & Hx & Hin). apply list_elem_of_fmap in Hin as ([b2 l'] & -> & Hin).
  destruct (proj1 (list.Forall_forall _ _) stored3_tips _ Hin) as [Hbr' Hnd]. cbn [fst snd] in *.
  apply branch_tip in Hbr' as [Hb' Ht']. assert (b = b2) as -> by congruence. by rewrite (branch_unique _ _ _ _ Ht Ht').
Qed.

Lemma lookups_witness : GetPovTxLookup (bc_store chain3) 3 = Ok (mkPovTxLookup 511 1 1) ∧
  ∃ b i, GetPovBlockByHeight (bc_store chain3) 1 = Ok b ∧ 511 = pb_Hash b ∧ 1 = Z.of_nat i ∧ pb_Txs b !! i = Some 3.
Proof.
  destruct (lookups_are_the_best_chain genesisPov chain3 3 (mkPovTxLookup 511 1 1) genesis_wf run_chain3) as [Hsound Hall].
  split; [|apply Hsound; vm_compute; reflexivity].
  apply Hall; [exact chain3_unique|]. exists (wireBlock b1), 1%nat. repeat split; vm_compute; reflexivity.
Defined.

Lemma events_witness : ∃ tl tl' es, tip (bc_store chain2) (bc_latest chain2) tl ∧
  bc_events chain3 = bc_events chain2 ++ es ∧
  replay (502 :: (pb_Hash <$> tl)) es = Some (511 :: (pb_Hash <$> tl')).
Proof.
  destruct (events_replay_the_best_chain genesisPov chain2 true b1 noState genesis_wf run_chain2 b1_admissible)
    as (tl & tl' & es & Ht & _ & He & Hr).
  exists tl, tl', es. split; [exact Ht|]. split; [exact He|]. exact Hr.
Defined.

Lemma restart_witness : (Init genesisPov stateKVs (newChain (bc_store chain3) genesisPov)).1 = Ok tt.
Proof.
  destruct (restart_recovers genesisPov stateKVs chain3 genesis_wf run_chain3) as (hd & c' & Hhd & _ & _ & Hi & _).
  assert (match GetLatestPovBlock (bc_store chain3) with Ok hd => openLatestState (bc_store chain3) hd | _ => Panic end = Ok tt)
    as Hopen by (vm_compute; reflexivity).
  rewrite Hhd in Hopen. rewrite Hi. exact Hopen.
Defined.
End PovChainSample.
