(* ===== verification/PovDeliverySample.v ===== *)
(** * The block processor evaluated

    A chain that stores whatever continues a stored block, and the processor on top of it:
    two blocks arrive, the child before its parent, and the parent waits for two
    transactions.  The theorems on runs of the processor are applied to it. *)

From S2P Require Import Prelude Types Cache Storage Ledger Contract Check Merkle Target Trie TrieStore Pov PovStateDB PovStore PovChain PovProcessor PovProcessorFacts PovDelivery Sample PovSample PovRuns PovChainSample.
Import Sample PovSample PovChainSample.

Module PovDeliverySample.
(** The hashes of stored blocks and of confirmed transactions. *)
Record Toy := mkToy { toy_blocks : gset Hash; toy_txs : gset Hash }.

(** The transactions of a block that are not confirmed. *)
Definition missing (c : Toy) (b : PovBlock) : gmap Hash ProcessResult :=
  list_to_map ((λ t, (t, GapTransaction)) <$> List.filter (λ t, negb (bool_decide (t ∈ toy_txs c))) (tail (pb_Txs b))).

#[export] Instance toy : ProcessorChain Toy :=
  {| pc_HasBestBlock := λ x _ c, (Ok (bool_decide (x ∈ toy_blocks c)), c);
     pc_GetBlockByHash := λ x c, (Ok (if bool_decide (x ∈ toy_blocks c) then Some genesisPov else None), c);
     pc_VerifyFull := λ _ b c,
       (Ok (mkStat (if bool_decide (missing c b = ∅) then Progress else GapTransaction) (missing c b) noState), c);
     pc_InsertBlock := λ b _ c, (Ok tt, mkToy ({[pb_Hash b]} ∪ toy_blocks c) (toy_txs c));
     pc_IsConfirmed := λ c t, bool_decide (t ∈ toy_txs c) |}.

Definition good (c : Toy) : Prop := True.
Definition known (c : Toy) (x : Hash) : Prop := x ∈ toy_blocks c.
Definition verified (c : Toy) (b : PovBlock) (g : PovGlobalStateDB) : Prop := True.
Definition pool (b : PovBlock) : Prop := b ∈ [a1; a2].

#[export] Instance toy_promise : ChainPromise good known verified pool.
Proof.
  split.
  - intros x h c r c' _ [= <- <-]. eexists. split_and!; [done..|]. by intros ?%bool_decide_eq_true.
  - intros x c r c' _ [= <- <-]. eexists. split_and!; [done..|]. unfold known. case_bool_decide as Hx; split; try done; by intros [? ?].
  - intros now b c r c' _ _ _ [= <- <-]. right. eexists. cbn. split_and!; [done..| | |done].
    + by case_bool_decide.
    + case_bool_decide as Hm; [done|]. intros _. split; [done|]. intros t x Hx%elem_of_list_to_map_2.
      apply list_elem_of_fmap in Hx as (t' & [= -> ->] & _). done.
  - intros b g c r c' _ _ _ [= <- <-]. split; [done|]. intros y. unfold known. cbn. set_solver.
Qed.

Definition s0 : PovBlockProcessor Toy := NewPovBlockProcessor (mkToy {[500]} {[3]}).
Definition actions : list action :=
  [act_AddBlock a2 PovBlockFromRemoteBroadcast EmptyString; act_norm 10;
   act_AddBlock a1 PovBlockFromRemoteBroadcast EmptyString; act_norm 20].
Definition play (l : list action) (s : PovBlockProcessor Toy) : PovBlockProcessor Toy := foldl (λ s a, (handle a s).2) s l.

(** The child is an orphan and its parent waits for transactions 1 and 2. *)
Definition s1 : PovBlockProcessor Toy := play actions s0.
Example waiting : ((map_to_list (bp_orphanBlocks s1)).*1, (map_to_list (bp_pendingBlocks s1)).*1, elements (toy_blocks (bp_chain s1)))
  = ([502], [501], [500]).
Proof. vm_compute. reflexivity. Qed.

Definition arrivals : list action := [act_addStateBlock 1; act_addStateBlock 2].
(** Outside of the processor the ledger confirms the transactions. *)
Definition s2 : PovBlockProcessor Toy := bp_with_chain s1 (mkToy {[500]} {[1; 2; 3]}).
Definition s3 : PovBlockProcessor Toy := play arrivals s2.
Definition s4 : PovBlockProcessor Toy := play [act_high 30] s3.

Definition window (now : Z) : Prop := 0 ≤ now ≤ 0 + orphanLifetime.

Definition attempt (o : option (PovBlockProcessor Toy)) (a : action) : option (PovBlockProcessor Toy) :=
  o ≫= λ s, match handle a s with (Ok _, s') => Some s' | _ => None end.

Lemma stopped l : foldl attempt None l = None.
Proof. by induction l. Qed.

Lemma play_reach l s bs :
  reach (good := good) (known := known) (pool := pool) window s bs →
  Forall (λ a, Forall pool (brings a) ∧ ∀ now, runsAt a = Some now → window now) l →
  foldl attempt (Some s) l = Some (play l s) →
  reach (good := good) (known := known) (pool := pool) window (play l s) (concat (reverse (brings <$> l)) ++ bs).
Proof.
  revert s bs. induction l as [|a l IH]; intros s bs Hr Hl Hrun; [done|]. apply list.Forall_cons in Hl as [[Hp Hw] Hl].
  rewrite fmap_cons. cbn in Hrun. unfold play. cbn [foldl]. destruct (handle a s) as [[[]|e|] s'] eqn:E.
  - rewrite reverse_cons, concat_app, <- app_assoc. cbn [concat snd]. rewrite app_nil_r. apply IH; [|done|done]. by eapply reach_step.
  - by rewrite stopped in Hrun.
  - by rewrite stopped in Hrun.
Qed.

Lemma actions_fine l : l ∈ [actions; arrivals; [act_high 30]] →
  Forall (λ a, Forall pool (brings a) ∧ ∀ now, runsAt a = Some now → window now) l.
Proof.
  intros Hl. unfold actions, arrivals in Hl. repeat (apply list.elem_of_cons in Hl as [->|Hl]); [..|by apply list.elem_of_nil in Hl].
  all: repeat apply list.Forall_cons_2; try apply list.Forall_nil_2; cbn; (split; [|intros now [= <-]; unfold window, orphanLifetime; lia || done]).
  all: repeat apply list.Forall_cons_2; try apply list.Forall_nil_2; unfold pool; set_solver.
Qed.

Lemma reach1 : reach (good := good) (known := known) (pool := pool) window s1 [a1; a2].
Proof. apply (play_reach actions s0 []); [by apply reach_start|apply actions_fine; set_solver|vm_compute; reflexivity]. Qed.

Lemma reach2 : reach (good := good) (known := known) (pool := pool) window s2 [a1; a2].
Proof. apply reach_outside; [apply reach1|done|]. intros y. vm_compute. done. Qed.

Lemma reach4 : reach (good := good) (known := known) (pool := pool) window s4 [a1; a2].
Proof.
  apply (play_reach [act_high 30] s3 [a1; a2]); [|apply actions_fine; set_solver|vm_compute; reflexivity].
  apply (play_reach arrivals s2 [a1; a2]); [apply reach2|apply actions_fine; set_solver|vm_compute; reflexivity].
Qed.

(** ** The theorems applied *)
Lemma pool_acyclic : acyclic pool.
Proof.
  exists (λ h, Z.to_nat h). intros b Hb. unfold pool in Hb.
  repeat (apply list.elem_of_cons in Hb as [->|Hb]); [cbn; lia..|by apply list.elem_of_nil in Hb].
Qed.

Lemma processor_invariant_witness : bp_deOrphanBlocks s4 = [].
Proof. exact (proj2 (processor_invariant (verified := verified) window s4 [a1; a2] reach4)). Defined.

Lemma handlers_return_witness : (handle act_requestOrphans s1).1 = Ok tt.
Proof.
  destruct (handlers_return window s1 [a1; a2] act_requestOrphans pool_acyclic reach1) as [E|[E|[E _]]].
  - constructor.
  - exact E.
  - exfalso. revert E. vm_compute. discriminate.
  - exfalso. revert E. vm_compute. discriminate.
Defined.

(** The block waits for transaction 2 only. *)
Definition s2a : PovBlockProcessor Toy := play [act_addStateBlock 1] s2.
Definition ref1 : Z := Eval vm_compute in default 0 (bp_pendingBlocks s2a !! 501).
Definition pd1 : PovPendingBlock := Eval vm_compute in
  default (mkPending 0 (mkSource a1 PovBlockFromLocal EmptyString None) ∅) (bp_heap s2a !! ref1).

Lemma reach2a : reach (good := good) (known := known) (pool := pool) window s2a [a1; a2].
Proof.
  apply (play_reach [act_addStateBlock 1] s2 [a1; a2]); [apply reach2| |vm_compute; reflexivity].
  apply list.Forall_singleton. split; [constructor|done].
Qed.

Lemma arrival_releases_witness :
  bp_pendingBlocks (onAddStateBlock 2 s2a).2 !! 501 = None ∧ 501 ∈ queued (onAddStateBlock 2 s2a).2.
Proof.
  destruct (arrival_releases (good := good) (known := known) (verified := verified) window s2a [a1; a2] 2 (onAddStateBlock 2 s2a).2
    501 ref1 pd1 reach2a) as (_ & Hres & _); [vm_compute; reflexivity..|].
  rewrite decide_True in Hres by (vm_compute; reflexivity). exact Hres.
Defined.
End PovDeliverySample.
