(* ===== verification/PovStateSample.v ===== *)
(** * State transition of the proof-of-value chain evaluated

    Accounts of two representatives, and an online block that names another
    representative. *)

From S2P Require Import Prelude Types Cache Storage Ledger Contract Check Merkle Target Trie TrieIter TrieStore Pov PovStateDB PovState PovStateFacts PovChain PovRuns Sample PovSample PovChainSample.
Import Sample PovSample PovChainSample.

Module PovStateSample.
#[export] Instance hooks : PovHooks :=
  {| DoSendOnPov := λ _ _ _ _ _ csdb, (Ok tt, csdb); DoReceiveOnPov := λ _ _ _ _ _ _ csdb, (Ok tt, csdb) |}.

Definition noStore : Hash → res (list Z) := λ _, Err (Errorf "leveldb: not found").

Definition tx (b : StateBlock) : PovTransaction := mkPovTransaction (SB.GetHash b) b.
Definition openAlice : PovTransaction := tx (unsigned Open alice 30 0 9 rep1).
Definition openBob : PovTransaction := tx (unsigned Open bob 50 0 9 rep2).
Definition changeAlice : PovTransaction := tx (unsigned Change alice 30 (tx_Hash openAlice) 0 rep2).

Definition apply (txs : list PovTransaction) : res unit * PovGlobalStateDB := applyAll noStore 0 l0 7 txs noState.

Lemma weights_witness : ∃ A R, refines noStore (apply [openAlice; openBob; changeAlice]).2 A R ∧ weigh A R.
Proof.
  destruct (state_weights_are_delegated noStore 0 l0 7 [openAlice; openBob; changeAlice] noState
    (apply [openAlice; openBob; changeAlice]).2 ∅ ∅) as (R & Hr & Hw).
  - split; reflexivity.
  - split; try (intros ? ? ?; rewrite lookup_empty; discriminate); try (intros ? ?; rewrite lookup_empty; discriminate). reflexivity.
  - split; [|reflexivity]. intros a acc f. rewrite lookup_empty. discriminate.
  - repeat (split; [|]); try exact I; split; try discriminate; try (intros []; eexists; reflexivity).
    all: split; [|vm_compute; reflexivity].
    all: intros a acc f; unfold accountsAfter; rewrite ?lookup_insert_Some, ?lookup_empty.
    all: intros Hin; repeat destruct Hin as [[_ <-]|[_ Hin]]; try discriminate Hin; destruct f; eexists; (split; [vm_compute; reflexivity|lia]).
  - vm_compute. reflexivity.
  - exists (foldl accountsAfter ∅ [openAlice; openBob; changeAlice]), R. split; [exact Hr|exact Hw].
Defined.

(** ** An online block counts twice *)
Definition openRich : PovTransaction := tx (unsigned Open bob 150 0 9 rep2).
Definition online : StateBlock := block Online alice 100 hash0 0 rep2.
Definition back : StateBlock := block Change alice 100 (SB.GetHash online) 0 rep1.

Definition before : PovGlobalStateDB := (apply [tx genesis; openRich]).2.
Definition after : PovGlobalStateDB := (applyAll noStore 0 l0 7 [tx online; tx back] before).2.
Definition coinsOnly (n : Z) (f : field) : Z := match f with fBalance => n | _ => 0 end.

Lemma before_refines : ∃ R, refines noStore before (foldl accountsAfter ∅ [tx genesis; openRich]) R.
Proof.
  destruct (applyAll_spec noStore 0 l0 7 [tx genesis; openRich] noState before ∅ ∅) as (R & Hr & _).
  - split; reflexivity.
  - split; try (intros ? ? ?; rewrite lookup_empty; discriminate); try (intros ? ?; rewrite lookup_empty; discriminate). reflexivity.
  - split; [|reflexivity]. intros a acc f. rewrite lookup_empty. discriminate.
  - repeat (split; [|]); try exact I; split; try discriminate; try (intros []; eexists; reflexivity).
    all: split; [|vm_compute; reflexivity].
    all: intros a acc f; unfold accountsAfter; rewrite ?lookup_insert_Some, ?lookup_empty.
    all: intros Hin; repeat destruct Hin as [[_ <-]|[_ Hin]]; try discriminate Hin; destruct f; eexists; (split; [vm_compute; reflexivity|lia]).
  - vm_compute. reflexivity.
  - by exists R.
Qed.

Lemma view_weighs g A R r w :
  refines noStore g A R → match repView noStore g r with Some rs => ∀ f, repField f rs = Some (w f) | None => False end → weighs R r w.
Proof. intros [_ HR]. rewrite HR. destruct (R !! r) as [rs|] eqn:E; [|done]. intros Hf. by exists rs. Qed.

(** 100 coins delegated to [rep1] and 150 to [rep2] become 200 and 50; the ledger accepts
    both blocks. *)
Lemma online_witness : BlockCheck l0 online = pass ∧ BlockCheck (step l0 online) back = pass ∧
  ∃ A R, refines noStore after A R ∧
    weighs R rep1 (λ f, coinsOnly 100 f + coinsOnly 100 f) ∧ weighs R rep2 (λ f, coinsOnly 150 f - coinsOnly 100 f).
Proof.
  split; [vm_compute; reflexivity|]. split; [vm_compute; reflexivity|].
  destruct before_refines as (R & Hr).
  destruct (online_block_counts_twice noStore 0 l0 7 (tx online) (tx back) before after
    (foldl accountsAfter ∅ [tx genesis; openRich]) R alice
    (default NewPovAccountState (foldl accountsAfter ∅ [tx genesis; openRich] !! alice))
    rep1 rep2 (coinsOnly 100) (coinsOnly 150) (coinsOnly 100) Hr) as (R' & Hr' & H1 & H2 & _).
  - vm_compute. reflexivity.
  - vm_compute. reflexivity.
  - intros []; vm_compute; reflexivity.
  - apply (view_weighs before _ R rep1 _ Hr). vm_compute repView. intros []; reflexivity.
  - apply (view_weighs before _ R rep2 _ Hr). vm_compute repView. intros []; reflexivity.
  - intros []; cbn; lia.
  - discriminate.
  - discriminate.
  - split; try reflexivity. intros []; reflexivity.
  - reflexivity.
  - split; try reflexivity. intros []; reflexivity.
  - discriminate.
  - vm_compute. reflexivity.
  - eexists _, R'. split; [exact Hr'|]. split; [exact H1|exact H2].
Defined.

(** ** Nobody is online at first *)
Definition openRep : PovTransaction := tx (unsigned Open rep2 150 0 9 rep2).
Definition announcement : PovTransaction := tx (unsigned Online rep2 150 (tx_Hash openRep) 0 rep2).

(** The state in which [rep2] announced itself in block 7, committed and saved. *)
Definition announced : PovGlobalStateDB := (TransitStateDB noStore 0 l0 7 [openRep; announcement] noState).2.
Definition announcedHash : Hash := match GetCurHash announced with Ok h => h | _ => 0 end.
Definition announcedStore : Hash → res (list Z) :=
  storeGet (match CommitToDB noStore announced with Ok p => putAll ∅ p.1 | _ => ∅ end).

Definition onlineAt (height : Z) : res (list Address) :=
  match GetAllOnlineRepStates announcedStore 100 (Some 1000) height announcedHash with
  | Ok rss => Ok (prs_Account <$> rss)
  | Err e => Err e
  | Panic => Panic
  end.

Example online_window : onlineAt <$> [7; 118; 119; 126; 127] = [Ok []; Ok []; Ok [rep2]; Ok [rep2]; Ok []].
Proof. vm_compute. reflexivity. Qed.

Lemma nobody_online_witness : GetAllOnlineRepStates announcedStore 100 (Some 1000) 7 announcedHash = Ok [].
Proof.
  assert (Hrun : ∃ rss, GetAllOnlineRepStates announcedStore 100 (Some 1000) 7 announcedHash = Ok rss) by (eexists; vm_compute; reflexivity).
  destruct Hrun as [rss Hrun]. pose proof (nobody_online_early announcedStore 100 (Some 1000) 7 announcedHash rss) as Hn.
  rewrite Hn in Hrun; [exact Hrun|vm_compute; split; [discriminate|reflexivity]|exact Hrun].
Defined.
End PovStateSample.
