(* ===== verification/PovEngineSample.v ===== *)
(** * A node of the proof-of-value chain evaluated

    A node that is reset to a genesis block is given two blocks, the child before its
    parent, the parent with a confirmed transaction.  Both are verified against the state of
    their parents, and the child becomes the head. *)

From S2P Require Import Prelude Types Cache Storage Ledger Contract Check Merkle Target Trie TrieIter TrieStore.
From S2P Require Import Pov PovFacts PovStateDB PovState PovStore PovChain PovTree PovChainFacts PovRuns PovProcessor PovProcessorFacts PovDelivery PovEngine.
From S2P Require Import Sample PovSample PovChainSample PovStateSample.
Import Sample PovSample PovChainSample PovStateSample.

Module PovEngineSample.
Definition node0 : Engine := mkEngine l0 chain0.

(** The block: a coinbase and the first block of an account. *)
Definition nextHash : Hash := Eval vm_compute in
  match gsdb ← transit node0 1 [genesis] stateHash; GetCurHash gsdb with Ok h => h | _ => 0 end.
Definition bits1 : Z := Eval vm_compute in
  match calcNextRequiredTarget (H1 := readerOf chain node0) (pb_Header genesisPov) (pb_Header genesisPov) with Ok b => b | _ => 0 end.
Definition txs1 : list Hash := Eval vm_compute in
  match PovCoinBaseTx_ComputeHash (coinbase nextHash 2) with Ok h => [h; hash0] | _ => [] end.
Definition root1 : Hash := Eval vm_compute in match CalcMerkleTreeRootHash txs1 with Ok h => h | _ => 0 end.
Definition header1 (hash : Hash) : PovHeader :=
  mkPovHeader ALGO_SCRYPT 500 root1 150 bits1 0 hash 1 None (Some (coinbase nextHash 2)).
Definition hash1' : Hash := Eval vm_compute in PovHeader_ComputeHash (header1 0).
Definition m1 : PovBlock := mkPovBlock (header1 hash1') txs1.

Example m1_verified : VerifyFull (H1 := readerOf chain node0) 150 l0 m1 = pass.
Proof. vm_compute. reflexivity. Qed.

(** ** The node with the blocks *)
Definition coins (b : PovBlock) (e : Engine) : bool := true.
#[local] Instance node : ProcessorChain Engine := engine chain coins.

Definition node1 : Engine :=
  match pc_VerifyFull 150 m1 node0 with
  | (Ok stat, e) => (pc_InsertBlock m1 (st_StateDB stat) e).2
  | (_, e) => e
  end.

(** A second block, with a coinbase only. *)
Definition nextHash2 : Hash := Eval vm_compute in
  match gsdb ← transit node1 2 [] nextHash; GetCurHash gsdb with Ok h => h | _ => 0 end.
Definition bits2 : Z := Eval vm_compute in
  match calcNextRequiredTarget (H1 := readerOf chain node1) (pb_Header m1) (pb_Header m1) with Ok b => b | _ => 0 end.
Definition txs2 : list Hash := Eval vm_compute in
  match PovCoinBaseTx_ComputeHash (coinbase nextHash2 1) with Ok h => [h] | _ => [] end.
Definition root2 : Hash := Eval vm_compute in match CalcMerkleTreeRootHash txs2 with Ok h => h | _ => 0 end.
Definition header2 (hash : Hash) : PovHeader :=
  mkPovHeader ALGO_SCRYPT hash1' root2 160 bits2 0 hash 2 None (Some (coinbase nextHash2 1)).
Definition hash2' : Hash := Eval vm_compute in PovHeader_ComputeHash (header2 0).
Definition m2 : PovBlock := mkPovBlock (header2 hash2') txs2.

Example m2_verified : VerifyFull (H1 := readerOf chain node1) 160 l0 m2 = pass.
Proof. vm_compute. reflexivity. Qed.

Definition arrivals : list action :=
  [act_AddBlock m2 PovBlockFromRemoteBroadcast "peer"; act_norm 160;
   act_AddBlock m1 PovBlockFromRemoteBroadcast "peer"; act_norm 170].
Definition play {C} `{ProcessorChain C} (l : list action) (s : PovBlockProcessor C) : PovBlockProcessor C :=
  foldl (λ s a, (handle a s).2) s l.
Definition finished : PovBlockProcessor Engine := play arrivals (NewPovBlockProcessor node0).

Example m2_is_head : GetLatestPovBlock (bc_store (en_chain (bp_chain finished))) = Ok (wireBlock m2).
Proof. vm_compute. reflexivity. Qed.

(** ** The theorems applied *)
Definition pool (b : PovBlock) : Prop := b = m1 ∨ b = m2.

Lemma in_play : inPlay chain genesisPov pool.
Proof.
  split.
  - intros b [->| ->] _; discriminate.
  - intros b b' [->| ->] _ [->| ->] _; (reflexivity || discriminate).
  - intros b [->| ->] _; reflexivity.
  - intros b [->| ->] _; vm_compute; split; reflexivity.
Qed.

Definition window (now : Z) : Prop := 150 ≤ now ≤ 150 + orphanLifetime.

Lemma arrivals_fine : Forall (λ a, Forall pool (brings a) ∧ ∀ now, runsAt a = Some now → window now) arrivals.
Proof.
  unfold window, orphanLifetime.
  repeat apply list.Forall_cons_2; try apply list.Forall_nil_2; cbn; (split; [|intros now [= <-]; lia || done]);
    repeat apply list.Forall_cons_2; try apply list.Forall_nil_2; [by right|by left].
Qed.

Lemma node0_sound : sound_engine chain genesisPov pool node0.
Proof.
  apply (reset_sound _ _ _ stateKVs emptyPovDB); [apply genesis_wf|].
  assert (E : (ResetChainState genesisPov stateKVs (newChain emptyPovDB genesisPov)).1 = Ok tt) by (vm_compute; reflexivity).
  rewrite <- E. unfold chain0. by destruct (ResetChainState _ _ _).
Qed.

(** Steps that return. *)
Definition returns {C} `{ProcessorChain C} (l : list action) (s : PovBlockProcessor C) : bool :=
  (fix go l s := match l with [] => true | a :: l => match handle a s with (Ok _, s') => go l s' | _ => false end end) l s.

Lemma returns_cons {C} `{ProcessorChain C} a l (s : PovBlockProcessor C) :
  returns (a :: l) s = true → handle a s = (Ok tt, (handle a s).2) ∧ returns l (handle a s).2 = true.
Proof. cbn. by destruct (handle a s) as [[[]| |] s']. Qed.

#[local] Abbreviation reached := (reach (good := sound_engine chain genesisPov pool) (known := stored) (pool := pool) window).
#[local] Abbreviation delivered := (deliveries (good := sound_engine chain genesisPov pool) (known := stored) (pool := pool) window).

Lemma engine_play_reach l s bs :
  reached s bs → Forall (λ a, Forall pool (brings a) ∧ ∀ now, runsAt a = Some now → window now) l → returns l s = true →
  reached (play l s) (foldl (λ bs a, brings a ++ bs) bs l).
Proof.
  revert s bs. induction l as [|a l IH]; intros s bs Hr Hl Hret; [done|]. apply list.Forall_cons in Hl as [[Hp Hw] Hl].
  apply returns_cons in Hret as [Ha Hret]. apply (IH (handle a s).2); [|done|done]. by eapply reach_step.
Qed.

Lemma play_delivered l s bs :
  delivered s bs → Forall (λ a, Forall pool (brings a) ∧ ∀ now, runsAt a = Some now → window now) l →
  returns (H := noted) l s = true → delivered (play (H := noted) l s) (foldl (λ bs a, brings a ++ bs) bs l).
Proof.
  revert s bs. induction l as [|a l IH]; intros s bs Hr Hl Hret; [done|]. apply list.Forall_cons in Hl as [[Hp Hw] Hl].
  apply returns_cons in Hret as [Ha Hret]. apply (IH (handle a s).2); [|done|done]. by eapply deliveries_step.
Qed.

Lemma engine_witness : onHeaviest genesisPov (en_chain (bp_chain finished)) ∧
  ∃ b0, pool b0 ∧ same b0 (wireBlock m2) ∧ wasVerified chain genesisPov b0.
Proof.
  destruct (engine_follows_verified_chain chain coins genesisPov pool in_play window finished [m1; m2]) as [Hbest Hver].
  - apply (engine_play_reach arrivals _ [] (reach_start _ _ node0_sound) arrivals_fine). vm_compute. reflexivity.
  - split; [exact Hbest|]. destruct (Hver (pb_Hash m2) (wireBlock m2)) as [Hs|Hb]; [vm_compute; reflexivity| |exact Hb].
    exfalso. apply same_fields in Hs as (_ & Hs & _). discriminate Hs.
Defined.

(** The same node with a note of what was refused. *)
Definition finished' : PovBlockProcessor (Engine * bool) := play (H := noted) arrivals (NewPovBlockProcessor (node0, true)).

Lemma hashes_commit : collisionFree (pool := pool).
Proof. intros b b' [->| ->] [->| ->]; (reflexivity || discriminate). Qed.

Lemma delivered_witness : stored (bp_chain finished').1 hash2'.
Proof.
  pose proof (play_delivered arrivals _ [] (deliveries_start _ node0 node0_sound) arrivals_fine) as Hdel.
  pose proof (engine_promise chain coins genesisPov pool in_play) as Hpromise.
  apply (delivered_blocks_are_stored (verified := cleared chain genesisPov) 150 finished' [m1; m2] m2 hashes_commit
    (Hdel ltac:(vm_compute; reflexivity))); [vm_compute; reflexivity..|].
  apply (connected_given _ _ m2 m1); [right; left|reflexivity|].
  apply connected_stored; [left|]. exists (wireBlock genesisPov). vm_compute. reflexivity.
Defined.
End PovEngineSample.
