(* ===== verification/SignatureSample.v ===== *)
(** * Sample digests for the signature theorems

    Concrete functions for the digests of package [blake2b], on which the theorems of
    [Ed25519] and [Address] are instantiated: a key, a signature with a small scalar,
    the text of an address and a signed block. *)

From Stdlib Require Import Zmod.
From S2P Require Import Prelude Types Curve Scalar25519 Group25519 Base25519 Ed25519 Base32 Contract Check Address.

Module SignatureSample.
Definition digest512 (m : list Z) : list Z := le_bytes 64 5.
Definition digest40 (m : list Z) : list Z := le_bytes 5 (le_combine m).
Definition digest256 (m : list Z) : Hash := le_combine m mod 256 ^ 32.
Definition digest64 (m : list Z) : list Z := le_bytes 8 (-1).

Lemma digest512_length m : length (digest512 m) = 64%nat.
Proof. apply length_le_bytes. Qed.

Lemma digest512_bytes m : Forall is_byte (digest512 m).
Proof. apply Field25519.le_bytes_byte. Qed.

Lemma digest40_length m : length (digest40 m) = 5%nat.
Proof. apply length_le_bytes. Qed.

Lemma digest40_bytes m : Forall is_byte (digest40 m).
Proof. apply Field25519.le_bytes_byte. Qed.

Definition seed : list Z := replicate 32 1.
Definition message : list Z := [1; 2; 3].

Lemma signatures_verify_witness : ∃ pub priv sig, GenerateKey digest512 seed = Ok (pub, priv) ∧
  PrivateKey_Public priv = Ok pub ∧ Sign digest512 priv message = Ok sig ∧ length sig = SignatureSize ∧
  Verify digest512 pub message sig = Ok true.
Proof. apply (signatures_verify digest512 digest512_length digest512_bytes seed message). apply Nat.leb_le. reflexivity. Defined.

(** The public key of secret one, and a signature with nonce two. *)
Definition pk : list Z := encode (E.mul 1 B).
Definition signature : list Z :=
  encode (E.mul 2 B) ++ le_bytes 32 ((scalarOf digest512 (encode (E.mul 2 B) ++ pk ++ message) * 1 + 2) mod l25519).

Lemma signature_bytes : Forall is_byte signature.
Proof. apply Forall_app. split; [apply encode_bytes|apply Field25519.le_bytes_byte]. Qed.

Lemma signature_accepted : Verify digest512 pk message signature = Ok true.
Proof.
  destruct (Verify_complete digest512 digest512_length digest512_bytes pk message signature)
    as (b & -> & Hb); [apply encode_length|apply encode_bytes|apply signature_bytes|].
  f_equal. apply Hb. exact (honest_accepted digest512 1 2 message).
Qed.

Lemma signature_scalar : le_combine (drop 32 signature) + l25519 < 2 ^ 253.
Proof.
  unfold signature. rewrite (proj2 (sig_parts _ _ (encode_length _))).
  change (scalarOf digest512 _) with (le_combine (le_bytes 64 5) mod l25519). vm_compute. reflexivity.
Qed.

Lemma signature_malleable_witness : ∃ sig', sig' ≠ signature ∧ take 32 sig' = take 32 signature ∧
  ScMinimal (drop 32 sig') = false ∧ Verify digest512 pk message sig' = Ok true.
Proof.
  exact (signature_malleable digest512 digest512_length digest512_bytes pk message signature (encode_length _)
    (encode_bytes _) signature_bytes signature_accepted signature_scalar).
Defined.

Lemma Verify_decides_witness :
  (length pk ≠ PublicKeySize ∧ Verify digest512 pk message signature = Panic) ∨
  (length pk = PublicKeySize ∧ ∃ b, Verify digest512 pk message signature = Ok b ∧
    (b = true ↔ accepts digest512 pk message signature)).
Proof. exact (Verify_decides digest512 digest512_length digest512_bytes pk message signature (encode_bytes _) signature_bytes). Defined.

(** ** Addresses *)
Lemma address_text_roundtrip_witness :
  HexToAddress digest40 (Address_String digest40 (2 ^ 255 + 7)) = Ok (2 ^ 255 + 7).
Proof.
  apply (address_text_roundtrip digest40 digest40_length digest40_bytes (2 ^ 255 + 7)). vm_compute. split; [discriminate|reflexivity].
Defined.

(** The canonical text of address seven starts with the digit zero; so does this one,
    with digit two. *)
Definition aliasText : list Z := Eval vm_compute in
  AddressPrefix ++ encodeDigit addressEncodingAlphabet 2 :: drop 5 (Address_String digest40 7).

Lemma address_texts_accepted_witness : HexToAddress digest40 aliasText = Ok 7 ∧ aliasText ≠ Address_String digest40 7.
Proof.
  split; [|vm_compute; discriminate].
  apply (address_texts_accepted digest40 digest40_length digest40_bytes aliasText 7).
  - apply (bool_decide_unpack _). vm_compute. exact I.
  - apply (bool_decide_unpack _). vm_compute. exact I.
  - apply (bool_decide_unpack _). vm_compute. exact I.
  - split; [vm_compute; split; [discriminate|reflexivity]|]. exists 2.
    split; [lia|]. split; vm_compute; reflexivity.
Defined.

Definition seedText : list Z := Eval vm_compute in str "0123456789abcdefABCDEF0123456789".

Lemma seed_accounts_sign_witness : ∃ pub priv acc, KeypairFromSeed digest256 digest512 seedText 1 = Ok (pub, priv) ∧
  NewAccount priv = Ok acc ∧ Account_Address acc = PubToAddress pub ∧
  ∀ hash, ∃ sig, Account_Sign digest512 acc hash = Ok sig ∧
    Address_Verify digest512 (Account_Address acc) (hash_bytes hash) sig = Ok true.
Proof. apply (seed_accounts_sign digest256 digest512 digest512_length digest512_bytes seedText 1). vm_compute. reflexivity. Defined.

(** ** A signed block *)
Definition crypto : Crypto := ed25519Crypto digest256 digest64 digest512.

Definition blockOf (address : Address) (sig : list Z) : StateBlock :=
  mkStateBlock Send 1 address (Some 10) (Some 0) (Some 0) (Some 0) (Some 0) 5 6 [] [] 0 [] 0 0 0 address [] [] [] 0 sig 0 false [].

Lemma signed_blocks_pass_witness : ∃ acc sig, length sig = SignatureSize ∧
  @checkWorkSign crypto (blockOf (Account_Address acc) sig) true true = pass.
Proof.
  destruct (generated_pair digest512 digest512_length digest512_bytes seed) as (pub & priv & HG & _); [apply Nat.leb_le; reflexivity|].
  destruct (generated_account digest512 digest512_length digest512_bytes _ _ _ HG) as (acc & HN & _ & HS).
  destruct (HS (hash_bytes (@SB.GetHash crypto (blockOf (Account_Address acc) [])))) as (sig & ES & Hl & _).
  exists acc, sig. split; [exact Hl|].
  apply (signed_blocks_pass digest256 digest64 digest512 digest512_length digest512_bytes seed pub priv acc
    (blockOf (Account_Address acc) sig) HG HN).
  - reflexivity.
  - exact ES.
  - vm_compute. reflexivity.
Defined.
End SignatureSample.
